(* ===== verification/_CoqProject ===== *)
-Q . S2P
Prelude.v
Wide64.v
Wide128.v
Inet.v
IpAddr.v
Pbuf.v
IpFrag.v
PbufPool.v
Tcp.v
TcpOut.v
TcpPcb.v
TcpIn.v
TcpInput.v
TcpTx.v
TcpWire.v
TcpOpts.v
TcpFsm.v
TcpStream.v
TcpLists.v
TcpCalls.v
TcpDefects.v
Netif.v
IpOut.v
Icmp.v
Raw.v
Udp.v
IpIn.v
IpPath.v
IcmpPath.v
UdpPath.v
UdpBack.v
TcpPath.v
IpDefects.v
Etharp.v
EtharpHeap.v
EtharpTable.v
EtharpMem.v
EtharpSafe.v
EtharpRun.v
EtharpPath.v
EtharpDemo.v
Mem.v
MemBytes.v
MemChain.v
MemOps.v
MemRun.v
MemHeap.v
MemDemo.v
Memp.v
MempSpec.v
MempDemo.v
