(* ===== verification/Prelude.v ===== *)
(** * Verification of the C core of the ns-3 / NSC repository

    The repository is the network simulator ns-3 with a power-line module, a GUI
    for it, and NSC (the Network Simulation Cradle), which runs real TCP/IP stacks
    inside the simulator.  This library models two bodies of its C code as it is
    compiled there, and proves what makes them correct:

    - ns-3's wide-integer arithmetic, on which simulated time is counted
      ([ns-3.15/src/core/model/cairo-wideint.c]);
    - NSC's lwIP stack ([nsc-0.5.3/lwip-HEAD/src]): checksums and addresses,
      packet buffers, IP with fragmentation, ICMP, the interfaces, UDP, raw IP,
      ARP, all of TCP, and lwIP's own heap and pools.

    ** The files

    Each file models the C file of its name; definitions keep the C names.

    - [Prelude]: machine integers ([wrap], [swrap]), the state-and-fault monad
      [SM] and the type [outcome], shared tactics and hints.  No C code.
    - [Wide64], [Wide128]: [cairo-wideint.c].  [Uint64] is a class with the
      operations of a 64-bit word; its instances are the native integer and the
      pair of 32-bit words, the two builds of the C code; [Wide128] is written
      against the class and its laws.
    - [Inet]: [core/inet.c], [htons] to [inet_ntoa] and the checksums.
    - [IpAddr]: [core/ipv4/ip_addr.c] and its header.
    - [Pbuf]: [core/pbuf.c], pbufs in a store with reference counts.
    - [IpFrag]: [core/ipv4/ip_frag.c]; [ip_reass] asks for its pbufs through a
      [pool], which [PbufPool] implements with [Pbuf.pbuf_alloc].
    - [Tcp]: [include/lwip/tcp.h], constants, sequence numbers, header, segment,
      control block.
    - [TcpOut]: [core/tcp_out.c].  [TcpPcb]: [core/tcp.c], the control blocks in
      a store, the lists, the calls of the application, the timers.
    - [TcpIn]: [tcp_process], [tcp_receive] and [tcp_parseopt] of
      [core/tcp_in.c].  [TcpInput]: [tcp_input], its demultiplexing and callbacks.
    - [TcpTx], [TcpWire], [TcpOpts], [TcpStream], [TcpFsm], [TcpLists],
      [TcpCalls], [TcpDefects]: theorems about TCP; no C code.
    - [Netif]: [core/netif.c], and [ip_route] of [core/ipv4/ip.c].
    - [IpOut]: the state of the whole stack, and [ip_output], [ip_output_if];
      [IpIn]: [ip_input] ([core/ipv4/ip.c]).  [Icmp]: [core/ipv4/icmp.c].  [Raw]:
      [core/raw.c].  [Udp]: [core/udp.c].
    - [IpPath], [IcmpPath], [UdpPath], [UdpBack], [TcpPath], [IpDefects]:
      theorems about packets between two stacks; no C code.
    - [Etharp]: [netif/etharp.c], the ARP table and its messages.  [EtharpHeap]:
      who holds which packet; [EtharpTable]: the table, [find_entry] and the
      timer; [EtharpMem]: the bytes of the messages; [EtharpSafe], [EtharpRun]:
      the calls and runs of them; [EtharpPath]: exchanges of two hosts;
      [EtharpDemo]: concrete states; no C code in these seven.
    - [Mem]: [core/mem.c], the heap, byte by byte.  [MemBytes]: its headers as a
      map; [MemChain]: its blocks as a list; [MemOps]: what each function does to
      the list; [MemRun]: the specification and the abstraction; [MemHeap]: the
      theorems; [MemDemo]: runs; no C code in these six.
    - [Memp]: [core/memp.c], the pools.  [MempSpec]: its invariant and theorem;
      [MempDemo]: runs; no C code in these two.

    ** How the parts interact

    [ip_input] ([IpIn]) checks the header with [Inet]'s checksum and [IpAddr]'s
    tests, gives fragments to [IpFrag.ip_reass], and the packet to the control
    blocks of [Raw], then to [udp_input], [tcp_input] or [icmp_input].
    [tcp_input] checks the segment with [inet_chksum_pseudo], finds the connection
    on the lists of [TcpPcb], and runs [TcpIn.tcp_process] on it; this and the
    calls of the application send through [TcpOut.tcp_output].  What TCP gives to
    [ip_output] is a list of packets, [out]; [IpOut.with_tcp] runs a piece of TCP
    in the state of the stack and sends that list.  [ip_output_if] writes the
    header and calls [IpFrag.ip_frag] or the interface; [wire] is the list of the
    frames that the interfaces were given.  [netif_set_ipaddr] aborts connections
    through [TcpPcb.tcp_abort].

    [Etharp] is below the IP layer, where an Ethernet driver's [output] and [input]
    would be.  It is modelled on the pbufs of [Pbuf] with their memory, since a
    packet that waits for an address is shared with its sender and its header is
    written in place; the layers above pass packets as lists of payloads.

    [Mem] and [Memp] stand on their own.  NSC's build puts [nsc/support.c] in their
    place, which maps the calls to libc, and this is what [Pbuf] and [TcpPcb] use:
    [Pbuf.mem_malloc] is that function, [Mem.mem_malloc] the one of [mem.c].  The
    sizes and addresses that [opt.h], the compiler and the linker choose are the
    classes [MemConfig] and [MempConfig], with the conditions [MemLaws] and
    [MempLaws] on them.

    The application is the class [App] of TCP's callbacks and [RawApp] of those of
    raw IP; memory is [Env], [PbufPool] and [Link], the last with what the memory
    of a new pbuf holds; [Env]'s routing is [Netif.ip_route] once TCP runs in the
    stack.  [TcpIn] runs inside [tcp_input], which makes [tcp_output] a no-op;
    [TcpInput.notify] then sends.

    ** What the theorems show

    - Wide integers: every operation is exact modulo 2^64 or 2^128, division
      ends, and the pair implementation refines the native one.
    - [Inet]: the checksums are RFC 1071's for all lengths and all splits of a
      chain, a filled-in checksum verifies; [inet_aton] inverts [inet_ntoa].
    - [Pbuf]: what each operation does to the store, with the invariant on
      [tot_len] and reference counts.
    - [IpFrag]: [ip_frag] then [ip_reass], in any order and with duplicates, is
      the identity; memory safety and its one exception; termination and the MTUs
      without it.
    - TCP, data: [tcp_stream_in_order], the application gets a prefix of the
      peer's stream, whatever the network does to the segments and however the
      peer cuts them, until a segment that begins like a queued one reaches beyond
      the next; [tcp_recut_loses_data], what happens then; [tcp_enqueue_appends] and
      [tcp_output_within_window], the same for the sending half;
      [tcp_segment_roundtrip] joins the two, and detects changed bytes.
    - TCP, control: [tcp_process_rfc793], the next state is that of RFC 793, but
      for six cases, each of them real ([divergences_are_real]);
      [tcp_lists_invariant], the "axioms" of [tcp.h] and freedom from faults for
      runs of calls, up to a call that meets one of six troubles;
      [tcp_new_port_free], [tcp_parseopt_options].
    - Two stacks: [ip_end_to_end], a packet arrives as it was sent, in whatever
      fragments and order; on top of it [udp_roundtrip] from [udp_send] to the
      callback of the peer, [tcp_over_ip] from [ip_output] to the demultiplexing
      of the peer, [icmp_echo_answered] and [udp_port_unreachable] for what comes
      back.  [handshake_over_ip] is a run of two hosts that connect.
    - [Netif]: what a change of address does to connections and listeners;
      [udp_bind_spec], which port a block gets.
    - ARP: [etharp_runs_safe], the invariant of the table, the references of the
      packets that wait, and freedom from faults, for all runs of calls;
      [etharp_entries_expire], nothing stays longer than its lifetime;
      [find_entry_chooses], which entry is given up; [etharp_output_known] and
      [etharp_resolves], where packets go and with which bytes.
    - Heap: [mem_heap_refines], every call of an application that keeps to its
      blocks returns and answers as a specification on live blocks and their bytes
      says; [mem_malloc_first_fit], which address it gives and when none;
      [mem_all_freed], no fragmentation stays.  Pools: [memp_pools_safe].
    - Heap and pools, defects: [mem_realloc_hides_memory], [mem_realloc_locks],
      [mem_realloc_never_grows], [mem_malloc_wraps], [mem_stats_drift],
      [mem_reallocm_copies_too_much], [memp_align8_overlaps],
      [memp_unaligned_overflows].
    - IP and ARP, defects: [netif_add_narrows_listeners], [udplite_never_arrives],
      [fragments_mix], the exception in [icmp_echo_answered],
      [etharp_inserts_strangers], [etharp_query_drops].
    - TCP, defects: [TcpDefects] and the second halves of some theorems state
      where the code fails: they are the six cases of [TcpCalls.trouble].

    ** Bounds and fuel

    A C loop whose end is not structural has fuel, and a theorem that the fuel is
    enough, or that no fuel is: [enq_fuel] 180 against at most
    [TCP_SND_QUEUELEN] = 176 pbufs ([tcp_enqueue_appends]); [opt_fuel] 41 against
    at most 40 bytes of options ([tcp_parseopt_options]); one turn more than the
    ports in use for [tcp_new_port] ([tcp_new_port_free]); one for every port of
    the range in [udp_bind] ([udp_bind_spec]); more than all pbufs for the queue
    of an ARP entry, which has one packet at most ([etharp_runs_safe]);
    [Mem.heap_fuel], [MEM_SIZE] turns against blocks of at least 6 bytes
    ([mem_heap_refines]); the fuels of the division loops, [ip_frag] and the walks
    along pbufs in their files.  A fault ([None] or [Fault]) is undefined behaviour
    of the C code: an access outside an array or chain, the use of freed memory, a
    division by zero; in [Mem] and [Memp] also a wait for a semaphore that nobody
    can signal.

    Sizes are those of NSC's build ([include/lwip/lwipopts.h], [opt.h]): TCP_MSS
    1460, windows and send buffer 63 KiB, NO_SYS 1, SO_REUSE 0, debug output and
    LWIP_ASSERT without effect, 32-bit [long].

    ** Not modelled, and why

    - [ip_forward] and [icmp_time_exceeded], which are compiled out ([IP_FORWARD]
      0), and the branches of [LWIP_DHCP] and [SO_REUSE].
    - [dhcp.c], [loopif.c]: not on NSC's path (nor is [etharp.c], which is
      modelled with the sizes of [opt.h]).  Ethernet drivers: the class [Ether].
    - The socket and thread layers, IPv6, PPP: not in NSC's build.  libc's [malloc],
      to which [nsc/support.c] maps the calls: an oracle.
    - Freeing of received pbufs inside TCP: a segment there is the list of its
      payloads; [Pbuf] has the reference counts on their own.
    - Statistic counters of TCP, and those of SNMP; functions that only store a callback or print.
    - C++ (ns-3's modules, the power-line module, NSC's glue), Python, vendored
      kernels, lwIP 1.3.0, generated files. *)
(** ** Machine integers, results and shared automation *)
From Stdlib Require Import ZArith Lia List Bool.
Import ListNotations.
#[local] Open Scope Z_scope.

(** ** Fixed-width integers

    A [w]-bit unsigned C integer is a [Z] in [0, 2^w); arithmetic on it is
    arithmetic on [Z] followed by [wrap w].  A signed one is a [Z] in
    [-2^(w-1), 2^(w-1)), reached from a bit pattern by [swrap w]. *)

Definition wrap (w x : Z) : Z := x mod 2 ^ w.

Definition swrap (w x : Z) : Z :=
  let y := wrap w x in if y <? 2 ^ (w - 1) then y else y - 2 ^ w.

Declare Scope cint_scope.
Delimit Scope cint_scope with cint.
Abbreviation u8 := (wrap 8) (only parsing).
Abbreviation u16 := (wrap 16) (only parsing).
Abbreviation u32 := (wrap 32) (only parsing).
Abbreviation u64 := (wrap 64) (only parsing).
Abbreviation s16 := (swrap 16) (only parsing).
Abbreviation s32 := (swrap 32) (only parsing).
Abbreviation s64 := (swrap 64) (only parsing).

(** [x] fits in [w] unsigned bits / in [w] signed bits. *)
Definition fits (w x : Z) : Prop := 0 <= x < 2 ^ w.
Definition sfits (w x : Z) : Prop := - 2 ^ (w - 1) <= x < 2 ^ (w - 1).

(** C truth values. *)
Definition c_bool (b : bool) : Z := if b then 1 else 0.

(** ** Tactics *)

(** Turn boolean comparisons of the context and the goal into propositions. *)
Ltac bool_to_prop :=
  repeat match goal with
  | H : context [_ && _ = true] |- _ => rewrite andb_true_iff in H
  | H : context [_ || _ = false] |- _ => rewrite orb_false_iff in H
  | H : (_ <? _) = true |- _ => apply Z.ltb_lt in H
  | H : (_ <? _) = false |- _ => apply Z.ltb_ge in H
  | H : (_ <=? _) = true |- _ => apply Z.leb_le in H
  | H : (_ <=? _) = false |- _ => apply Z.leb_gt in H
  | H : (_ =? _) = true |- _ => apply Z.eqb_eq in H
  | H : (_ =? _) = false |- _ => apply Z.eqb_neq in H
  | H : negb _ = true |- _ => apply negb_true_iff in H
  | H : negb _ = false |- _ => apply negb_false_iff in H
  | H : _ /\ _ |- _ => destruct H
  end.

(** Case analysis on the condition of the first [if] of the goal. *)
Ltac case_if :=
  match goal with
  | |- context [if ?b then _ else _] => destruct b eqn:?; bool_to_prop
  end.

(** Powers of two that occur as literals, so that [lia] sees constants. *)
Ltac pow2 :=
  repeat match goal with
  | |- context [2 ^ Zpos ?n] =>
      let v := eval vm_compute in (2 ^ Zpos n) in change (2 ^ Zpos n) with v
  | H : context [2 ^ Zpos ?n] |- _ =>
      let v := eval vm_compute in (2 ^ Zpos n) in change (2 ^ Zpos n) with v in H
  end.

(** [lia] after replacing quotients and remainders by their equations. *)
Ltac zmod_lia := Z.div_mod_to_equations; lia.

Create HintDb cint.
Create Rewrite HintDb cint.

(** ** Facts about [wrap] and [swrap] *)

Lemma pow2_pos (w : Z) : 0 <= w -> 0 < 2 ^ w.
Proof. intros; apply Z.pow_pos_nonneg; lia. Qed.

Lemma wrap_range (w x : Z) : 0 <= w -> 0 <= wrap w x < 2 ^ w.
Proof. intros; apply Z.mod_pos_bound, pow2_pos; lia. Qed.

Lemma wrap_fits (w x : Z) : 0 <= w -> fits w (wrap w x).
Proof. apply wrap_range. Qed.

Lemma wrap_small (w x : Z) : fits w x -> wrap w x = x.
Proof. apply Z.mod_small. Qed.

(** Drop the innermost [wrap]s whose argument is in range. *)
Ltac unwrap_inner :=
  repeat match goal with
  | |- context [wrap ?w ?x] =>
      lazymatch x with
      | context [wrap] => fail
      | _ => rewrite (wrap_small w x) by (unfold fits in *; pow2; lia)
      end
  end.

Lemma wrap_wrap (w x : Z) : wrap w (wrap w x) = wrap w x.
Proof. apply Zmod_mod. Qed.

Lemma wrap_add_l (w x y : Z) : wrap w (wrap w x + y) = wrap w (x + y).
Proof. apply Zplus_mod_idemp_l. Qed.

Lemma wrap_add_r (w x y : Z) : wrap w (x + wrap w y) = wrap w (x + y).
Proof. apply Zplus_mod_idemp_r. Qed.

Lemma wrap_sub_l (w x y : Z) : wrap w (wrap w x - y) = wrap w (x - y).
Proof. apply Zminus_mod_idemp_l. Qed.

Lemma wrap_sub_r (w x y : Z) : wrap w (x - wrap w y) = wrap w (x - y).
Proof. apply Zminus_mod_idemp_r. Qed.

Lemma wrap_mul_l (w x y : Z) : wrap w (wrap w x * y) = wrap w (x * y).
Proof. apply Zmult_mod_idemp_l. Qed.

Lemma wrap_mul_r (w x y : Z) : wrap w (x * wrap w y) = wrap w (x * y).
Proof. apply Zmult_mod_idemp_r. Qed.

#[export] Hint Rewrite wrap_wrap wrap_add_l wrap_add_r wrap_sub_l wrap_sub_r
  wrap_mul_l wrap_mul_r : cint.
#[export] Hint Resolve wrap_fits wrap_range pow2_pos : cint.
#[export] Hint Extern 1 (0 <= _) => lia : cint.
#[export] Hint Extern 1 (0 < _) => lia : cint.

Lemma swrap_range (w x : Z) : 0 < w -> sfits w (swrap w x).
Proof.
  intros Hw. unfold sfits, swrap.
  pose proof (wrap_range w x ltac:(lia)).
  replace (2 ^ w) with (2 * 2 ^ (w - 1)) in *
    by (rewrite <- Z.pow_succ_r by lia; f_equal; lia).
  case_if; lia.
Qed.

Lemma wrap_swrap (w x : Z) : wrap w (swrap w x) = wrap w x.
Proof.
  unfold swrap, wrap. case_if; [apply Zmod_mod|].
  replace (x mod 2 ^ w - 2 ^ w) with (x mod 2 ^ w + -1 * 2 ^ w) by lia.
  rewrite Z_mod_plus_full. apply Zmod_mod.
Qed.

Lemma swrap_small (w x : Z) : 0 < w -> sfits w x -> swrap w x = x.
Proof.
  intros Hw Hx. unfold sfits, swrap, wrap in *.
  assert (E : 2 ^ w = 2 * 2 ^ (w - 1))
    by (rewrite <- Z.pow_succ_r by lia; f_equal; lia).
  pose proof (pow2_pos (w - 1) ltac:(lia)).
  destruct (Z.ltb_spec (x mod 2 ^ w) (2 ^ (w - 1))).
  - destruct (Z_lt_dec x 0).
    + rewrite <- (Z_mod_plus_full x 1), Z.mod_small in * by lia. lia.
    + apply Z.mod_small. lia.
  - destruct (Z_lt_dec x 0).
    + rewrite <- (Z_mod_plus_full x 1), Z.mod_small by lia. lia.
    + rewrite Z.mod_small in * by lia. lia.
Qed.

(** ** Bit operations as arithmetic *)

Lemma land_ones_mod (x n : Z) : 0 <= n -> Z.land x (2 ^ n - 1) = x mod 2 ^ n.
Proof.
  intros. rewrite <- Z.land_ones by assumption. f_equal.
  rewrite Z.ones_equiv. lia.
Qed.

Lemma shiftr_div (x n : Z) : 0 <= n -> Z.shiftr x n = x / 2 ^ n.
Proof. apply Z.shiftr_div_pow2. Qed.

Lemma shiftl_mul (x n : Z) : 0 <= n -> Z.shiftl x n = x * 2 ^ n.
Proof. apply Z.shiftl_mul_pow2. Qed.

(** Disjoint bits: [lor] of a multiple of [2^n] and a number below [2^n]. *)
Lemma lor_add (x y n : Z) : 0 <= n -> 0 <= y < 2 ^ n ->
  Z.lor (x * 2 ^ n) y = x * 2 ^ n + y.
Proof.
  intros Hn Hy.
  assert (Z.land (x * 2 ^ n) y = 0) as D.
  { rewrite <- Z.shiftl_mul_pow2 by lia. apply Z.bits_inj'. intros i Hi.
    rewrite Z.land_spec, Z.bits_0. destruct (Z_lt_dec i n).
    - rewrite Z.shiftl_spec_low by lia. reflexivity.
    - rewrite <- (Z.mod_small y (2 ^ n)), Z.mod_pow2_bits_high by lia.
      apply andb_false_r. }
  rewrite <- Z.lxor_lor by exact D. symmetry. apply Z.add_nocarry_lxor. exact D.
Qed.

(** Two words whose set bits are apart: [lor] is addition. *)
Lemma lor_add_swap (x y n : Z) : 0 <= n -> 0 <= y < 2 ^ n ->
  Z.lor y (x * 2 ^ n) = x * 2 ^ n + y.
Proof. intros. rewrite Z.lor_comm. now apply lor_add. Qed.

(** ** Double words

    A [2w]-bit word kept as a high and a low [w]-bit half, [M = 2^w]: the
    arithmetic behind carries, borrows, split shifts and schoolbook products. *)
Section DoubleWord.
Variable M : Z.
Hypothesis M_pos : 0 < M.

Lemma double_mod h l : 0 <= l < M -> (h * M + l) mod (M * M) = (h mod M) * M + l.
Proof.
  intros Hl. pose proof (Z.mod_pos_bound h M M_pos).
  rewrite (Z.div_mod h M) at 1 by lia.
  replace ((M * (h / M) + h mod M) * M + l) with ((h mod M * M + l) + h / M * (M * M)) by ring.
  rewrite Z_mod_plus_full. apply Z.mod_small. nia.
Qed.

Lemma double_div h l : 0 <= l < M -> (h * M + l) / M = h.
Proof. intros. rewrite Z.div_add_l, Z.div_small by lia. lia. Qed.

Lemma double_rem h l : 0 <= l < M -> (h * M + l) mod M = l.
Proof. intros. rewrite Z.add_comm, Z_mod_plus_full. now apply Z.mod_small. Qed.

Lemma double_inj h l h' l' : 0 <= l < M -> 0 <= l' < M ->
  h * M + l = h' * M + l' -> h = h' /\ l = l'.
Proof.
  intros Hl Hl' E. split.
  - now rewrite <- (double_div h l), E, double_div.
  - now rewrite <- (double_rem h l), E, double_rem.
Qed.

Lemma double_fits h l : 0 <= h < M -> 0 <= l < M -> 0 <= h * M + l < M * M.
Proof. nia. Qed.

Lemma double_lt h l h' l' : 0 <= l < M -> 0 <= l' < M ->
  (h * M + l <? h' * M + l') = (h <? h') || ((h =? h') && (l <? l')).
Proof.
  intros. destruct (Z.ltb_spec h h'), (Z.eqb_spec h h'), (Z.ltb_spec l l');
    cbn [orb andb]; subst; (apply Z.ltb_lt || apply Z.ltb_ge); nia.
Qed.

Lemma double_eqb h l h' l' : 0 <= l < M -> 0 <= l' < M ->
  (h * M + l =? h' * M + l') = (h =? h') && (l =? l').
Proof.
  intros. destruct (Z.eqb_spec h h'), (Z.eqb_spec l l'); cbn [andb]; subst;
    (apply Z.eqb_eq || (apply Z.eqb_neq; intros E; apply double_inj in E; lia)).
  reflexivity.
Qed.

(** Addition with the carry read off the wrapped low half. *)
Lemma double_add ha la hb lb : 0 <= la < M -> 0 <= lb < M ->
  let l := (la + lb) mod M in
  (ha * M + la + (hb * M + lb)) mod (M * M)
    = ((if l <? la then (ha + hb) mod M + 1 else (ha + hb) mod M) mod M) * M + l.
Proof.
  intros Ha Hb l. subst l. destruct (Z_lt_dec (la + lb) M).
  - rewrite (Z.mod_small (la + lb)) by lia.
    replace (la + lb <? la) with false by lia. rewrite Zmod_mod.
    rewrite <- double_mod by lia. f_equal. ring.
  - assert (E : (la + lb) mod M = la + lb - M).
    { rewrite <- (Z_mod_plus_full _ (-1)), Z.mod_small; lia. }
    rewrite E. replace (la + lb - M <? la) with true by lia.
    rewrite Zplus_mod_idemp_l, <- double_mod by lia. f_equal. ring.
Qed.

Lemma double_sub ha la hb lb : 0 <= la < M -> 0 <= lb < M ->
  let l := (la - lb) mod M in
  (ha * M + la - (hb * M + lb)) mod (M * M)
    = ((if la <? l then (ha - hb) mod M - 1 else (ha - hb) mod M) mod M) * M + l.
Proof.
  intros Ha Hb l. subst l. destruct (Z_le_dec lb la).
  - rewrite (Z.mod_small (la - lb)) by lia.
    replace (la <? la - lb) with false by lia. rewrite Zmod_mod.
    rewrite <- double_mod by lia. f_equal. ring.
  - assert (E : (la - lb) mod M = la - lb + M).
    { rewrite <- (Z_mod_plus_full _ 1), Z.mod_small; lia. }
    rewrite E. replace (la <? la - lb + M) with true by lia.
    rewrite Zminus_mod_idemp_l, <- double_mod by lia. f_equal. ring.
Qed.

(** The four partial products of two double words, summed with one carry. *)
Lemma double_mul ah al bh bl :
  0 <= al < M -> 0 <= ah < M -> 0 <= bl < M -> 0 <= bh < M ->
  let r0 := al * bl in
  let r1 := (al * bh + r0 / M + ah * bl) mod (M * M) in
  let r3 := if r1 <? ah * bl then ah * bh + M else ah * bh in
  al * bh + r0 / M < M * M /\ 0 <= r3 + r1 / M < M * M /\
  (ah * M + al) * (bh * M + bl) = (r3 + r1 / M) * (M * M) + (r1 mod M * M + r0 mod M).
Proof.
  intros Hal Hah Hbl Hbh r0 r1 r3.
  assert (0 <= r0 <= (M - 1) * (M - 1)) by (subst r0; nia).
  assert (0 <= al * bh <= (M - 1) * (M - 1)) by nia.
  assert (0 <= ah * bl <= (M - 1) * (M - 1)) by nia.
  pose proof (Z.div_mod r0 M ltac:(lia)). pose proof (Z.mod_pos_bound r0 M M_pos).
  assert (0 <= r0 / M <= M - 1) by (split; [apply Z.div_pos; lia|
    apply Z.lt_succ_r; replace (Z.succ (M - 1)) with M by lia; apply Z.div_lt_upper_bound; nia]).
  assert (Hs : al * bh + r0 / M < M * M) by nia.
  set (c := if r1 <? ah * bl then M else 0).
  assert (Hc : r1 = al * bh + r0 / M + ah * bl - c * M /\ 0 <= r1 < M * M).
  { subst c r1. destruct (Z_lt_dec (al * bh + r0 / M + ah * bl) (M * M)).
    - rewrite Z.mod_small by nia.
      replace (_ <? _) with false by (symmetry; apply Z.ltb_ge; nia). lia.
    - assert (E : (al * bh + r0 / M + ah * bl) mod (M * M) = al * bh + r0 / M + ah * bl - M * M).
      { rewrite <- (Z_mod_plus_full _ (-1)). rewrite Z.mod_small; lia. }
      rewrite E. replace (_ <? _) with true by (symmetry; apply Z.ltb_lt; nia). lia. }
  assert (Hr3 : r3 = ah * bh + c) by (subst r3 c; destruct (r1 <? ah * bl); lia).
  destruct Hc as [E1 B1]. pose proof (Z.div_mod r1 M ltac:(lia)).
  pose proof (Z.mod_pos_bound r1 M M_pos).
  assert (T : (ah * M + al) * (bh * M + bl) = (r3 + r1 / M) * (M * M) + (r1 mod M * M + r0 mod M)).
  { transitivity (ah * bh * (M * M) + (ah * bl + al * bh) * M + r0); [subst r0; ring|].
    replace (ah * bl + al * bh) with (r1 - r0 / M + c * M) by lia. rewrite Hr3. nia. }
  repeat split; [exact Hs | | | exact T].
  - subst r3 c. assert (0 <= ah * bh) by nia.
    assert (0 <= r1 / M) by (apply Z.div_pos; lia). destruct (r1 <? ah * bl); lia.
  - assert ((ah * M + al) * (bh * M + bl) <= (M * M - 1) * (M * M - 1)) by
      (apply Z.mul_le_mono_nonneg; nia).
    nia.
Qed.
End DoubleWord.

(** Shifts of a double word by less than a half. *)
Lemma mul_pow_wrap (w n h : Z) : 0 <= n <= w ->
  wrap w (h * 2 ^ (w - n)) = h mod 2 ^ n * 2 ^ (w - n).
Proof.
  intros. unfold wrap. replace w with (n + (w - n)) at 2 by lia.
  rewrite Z.pow_add_r, Z.mul_mod_distr_r by (try apply Z.pow_nonzero; lia). reflexivity.
Qed.

Lemma div_pow_lt (w n l : Z) : 0 <= n <= w -> fits w l -> 0 <= l / 2 ^ n < 2 ^ (w - n).
Proof.
  intros Hn [H0 H1]. pose proof (pow2_pos n ltac:(lia)). split; [apply Z.div_pos; lia|].
  apply Z.div_lt_upper_bound; [lia|]. rewrite <- Z.pow_add_r by lia.
  now replace (n + (w - n)) with w by lia.
Qed.

Lemma double_shr (w n h l : Z) : 0 <= n <= w -> fits w l ->
  (h * 2 ^ w + l) / 2 ^ n = h / 2 ^ n * 2 ^ w + (h mod 2 ^ n * 2 ^ (w - n) + l / 2 ^ n).
Proof.
  intros Hn Hl. pose proof (pow2_pos n ltac:(lia)).
  replace (2 ^ w) with (2 ^ (w - n) * 2 ^ n) at 1
    by (rewrite <- Z.pow_add_r by lia; f_equal; lia).
  rewrite Z.mul_assoc, Z.div_add_l by lia.
  rewrite (Z.div_mod h (2 ^ n)) at 1 by lia.
  replace (2 ^ w) with (2 ^ n * 2 ^ (w - n)) by (rewrite <- Z.pow_add_r by lia; f_equal; lia).
  ring.
Qed.

(** The low half of [double_shr] is a word. *)
Lemma double_shr_low (w n h l : Z) : 0 <= n <= w -> fits w l ->
  fits w (h mod 2 ^ n * 2 ^ (w - n) + l / 2 ^ n).
Proof.
  intros Hn Hl. pose proof (div_pow_lt w n l Hn Hl). pose proof (pow2_pos n ltac:(lia)).
  pose proof (Z.mod_pos_bound h (2 ^ n) ltac:(lia)). unfold fits.
  replace (2 ^ w) with (2 ^ n * 2 ^ (w - n)) by (rewrite <- Z.pow_add_r by lia; f_equal; lia).
  nia.
Qed.

Lemma double_shl (w n h l : Z) : 0 <= n <= w -> fits w l ->
  wrap (w + w) ((h * 2 ^ w + l) * 2 ^ n)
    = (wrap w (h * 2 ^ n) + l / 2 ^ (w - n)) * 2 ^ w + wrap w (l * 2 ^ n).
Proof.
  intros Hn Hl. unfold wrap. rewrite Z.pow_add_r by lia.
  pose proof (pow2_pos w ltac:(lia)) as P. pose proof (pow2_pos n ltac:(lia)) as Pn.
  pose proof (pow2_pos (w - n) ltac:(lia)) as Pd.
  pose proof (div_pow_lt w (w - n) l ltac:(lia) Hl) as Q.
  replace (w - (w - n)) with n in Q by lia.
  assert (Ew : 2 ^ w = 2 ^ (w - n) * 2 ^ n) by (rewrite <- Z.pow_add_r by lia; f_equal; lia).
  assert (El : l * 2 ^ n = l / 2 ^ (w - n) * 2 ^ w + l mod 2 ^ (w - n) * 2 ^ n).
  { rewrite (Z.div_mod l (2 ^ (w - n))) at 1 by lia. rewrite Ew. ring. }
  pose proof (Z.mod_pos_bound l (2 ^ (w - n)) ltac:(lia)).
  assert (B : 0 <= l mod 2 ^ (w - n) * 2 ^ n < 2 ^ w) by (rewrite Ew; nia).
  replace ((h * 2 ^ w + l) * 2 ^ n)
    with ((h * 2 ^ n + l / 2 ^ (w - n)) * 2 ^ w + l mod 2 ^ (w - n) * 2 ^ n)
    by (transitivity (h * 2 ^ n * 2 ^ w + l * 2 ^ n); [rewrite El; ring | ring]).
  rewrite El, double_mod, double_rem by assumption. f_equal. f_equal.
  assert (Hm : h * 2 ^ n mod 2 ^ w = h mod 2 ^ (w - n) * 2 ^ n).
  { rewrite Ew. now rewrite Z.mul_mod_distr_r by lia. }
  rewrite <- Zplus_mod_idemp_l, Hm. apply Z.mod_small.
  pose proof (Z.mod_pos_bound h (2 ^ (w - n)) ltac:(lia)). rewrite Ew. nia.
Qed.

(** The signed reading of a double word is decided by its high half. *)
Lemma double_swrap (w h l : Z) : 0 < w -> fits w h -> fits w l ->
  swrap (w + w) (h * 2 ^ w + l) = swrap w h * 2 ^ w + l.
Proof.
  intros Hw Hh Hl. unfold swrap, fits in *.
  assert (E : 2 ^ (w + w) = 2 ^ w * 2 ^ w) by (rewrite Z.pow_add_r by lia; reflexivity).
  assert (E1 : 2 ^ (w + w - 1) = 2 ^ (w - 1) * 2 ^ w)
    by (rewrite <- Z.pow_add_r by lia; f_equal; lia).
  unfold wrap. rewrite E, E1. rewrite double_mod, (Z.mod_small h) by lia.
  pose proof (pow2_pos (w - 1) ltac:(lia)).
  destruct (Z.ltb_spec h (2 ^ (w - 1))), (Z.ltb_spec (h * 2 ^ w + l) (2 ^ (w - 1) * 2 ^ w)); nia.
Qed.

Lemma swrap_neg (w x : Z) : 0 < w -> fits w x -> (swrap w x <? 0) = (2 ^ (w - 1) <=? x).
Proof.
  intros Hw Hx. unfold swrap. rewrite wrap_small by assumption. unfold fits in Hx.
  assert (2 ^ w = 2 * 2 ^ (w - 1)) by (rewrite <- Z.pow_succ_r by lia; f_equal; lia).
  case_if; lia.
Qed.

(** Testing the top bit. *)
Lemma land_top (w x : Z) : 0 < w -> fits w x ->
  negb (Z.land x (2 ^ (w - 1)) =? 0) = (2 ^ (w - 1) <=? x).
Proof.
  intros Hw Hx. unfold fits in Hx.
  assert (E : 2 ^ w = 2 * 2 ^ (w - 1)) by (rewrite <- Z.pow_succ_r by lia; f_equal; lia).
  assert (T : Z.testbit x (w - 1) = (2 ^ (w - 1) <=? x)).
  { rewrite Z.testbit_eqb by lia. destruct (Z.leb_spec (2 ^ (w - 1)) x).
    - replace (x / 2 ^ (w - 1)) with 1; [reflexivity|].
      apply Z.div_unique with (x - 2 ^ (w - 1)); lia.
    - rewrite Z.div_small by lia. reflexivity. }
  rewrite <- T. destruct (Z.testbit x (w - 1)) eqn:B.
  - apply negb_true_iff, Z.eqb_neq. intros C.
    apply (f_equal (fun z => Z.testbit z (w - 1))) in C.
    rewrite Z.land_spec, B, Z.pow2_bits_true, Z.bits_0 in C by lia. discriminate.
  - apply negb_false_iff, Z.eqb_eq. apply Z.bits_inj'. intros i Hi.
    rewrite Z.land_spec, Z.bits_0, Z.pow2_bits_eqb by lia.
    destruct (Z.eqb_spec (w - 1) i) as [<-|]; [rewrite B|]; now rewrite ?andb_false_r.
Qed.

Lemma lnot_wrap (w x : Z) : 0 <= w -> fits w x -> wrap w (Z.lnot x) = 2 ^ w - 1 - x.
Proof.
  intros Hw Hx. unfold fits, wrap in *.
  rewrite <- (Z_mod_plus_full _ 1). rewrite Z.mod_small; unfold Z.lnot; lia.
Qed.

(** ** Loops that need not end *)

(** The result of a loop run with fuel: a value, an access the C code may not
    make, or no result within the fuel. *)
Inductive outcome (A : Type) :=
| Done (a : A)
| Fault
| OutOfFuel.
Arguments Done {A} _.
Arguments Fault {A}.
Arguments OutOfFuel {A}.

(** ** Stateful code

    C code that works on shared memory is a function from the state to a
    result and the next state; [None] is undefined behaviour (a pointer that
    points to nothing) or fuel run out, so that a theorem with a [Some] in its
    conclusion says that the code neither faults nor hangs. *)
Definition SM (S A : Type) : Type := S -> option (A * S).

Definition sm_ret {S A} (a : A) : SM S A := fun st => Some (a, st).
Definition sm_fail {S A} : SM S A := fun _ => None.
Definition sm_bind {S A B} (m : SM S A) (k : A -> SM S B) : SM S B :=
  fun st => match m st with Some (a, st') => k a st' | None => None end.
Definition sm_get {S} : SM S S := fun st => Some (st, st).
Definition sm_modify {S} (f : S -> S) : SM S unit := fun st => Some (tt, f st).

Declare Scope sm_scope.
Delimit Scope sm_scope with sm.
Notation "x <- a ;; b" := (sm_bind a (fun x => b))
  (at level 100, a at next level, b at level 200, right associativity) : sm_scope.
Notation "a ;; b" := (sm_bind a (fun _ => b)) (at level 100, b at level 200, right associativity) : sm_scope.

Lemma sm_bind_some {S A B} (m : SM S A) (k : A -> SM S B) st a st' :
  m st = Some (a, st') -> sm_bind m k st = k a st'.
Proof. intros E. unfold sm_bind. now rewrite E. Qed.

Lemma sm_bind_inv {S A B} (m : SM S A) (k : A -> SM S B) st r :
  sm_bind m k st = Some r -> exists a st', m st = Some (a, st') /\ k a st' = Some r.
Proof. unfold sm_bind. destruct (m st) as [[a st']|]; [eauto | discriminate]. Qed.
