(* ===== verification/Wide64.v ===== *)
(** * Wide64: the 64-bit half of ns-3's [cairo-wideint]

    [ns-3.15/src/core/model/cairo-wideint.c] gives a 64-bit integer twice: as
    the compiler's [uint64_t] (macros of [cairo-wideint-private.h]) and, when
    there is none, as a pair of 32-bit words (the functions of the [.c] file).
    The 128-bit half of the file is written once, against the common names.
    Here the common names are the class [Uint64]; [native64] and [pair64] are
    its two instances, and [Uint64Laws] is what both promise to the 128-bit
    code: every operation computes the arithmetic one modulo [2^64].  The
    bit-at-a-time division, which the source spells out once per width, is the
    section [BitDivide]. *)
From Stdlib Require Import ZArith Lia List Bool.
From S2P Require Import Prelude.
#[local] Open Scope Z_scope.

(** ** Bit-at-a-time division

    The text of [_cairo_uint64_divrem] (pair version) and of
    [_cairo_uint128_divrem] is the same up to the names of the word
    operations: a class lists those the text uses. *)
Class DivWord (W : Type) := {
  dw_lt : W -> W -> bool;
  dw_le : W -> W -> bool;
  dw_msbset : W -> bool;             (* the [while] guard's overflow test *)
  dw_is0 : W -> bool;                (* the second [while]'s guard, negated *)
  dw_lsl1 : W -> W;
  dw_rsl1 : W -> W;
  dw_add : W -> W -> W;
  dw_sub : W -> W -> W;
  dw_one : W;
  dw_zero : W
}.

(** [normalize to make den >= num, but not overflow]; [None] is fuel run out. *)
Fixpoint div_normalize {W} `{DivWord W} (fuel : nat) (num den bit : W) : option (W * W) :=
  if dw_lt den num && negb (dw_msbset den) then
    match fuel with
    | O => None
    | S f => div_normalize f num (dw_lsl1 den) (dw_lsl1 bit)
    end
  else Some (den, bit).

(** [generate quotient, one bit at a time]: returns quotient and remainder. *)
Fixpoint div_generate {W} `{DivWord W} (fuel : nat) (num den bit quo : W) : option (W * W) :=
  if dw_is0 bit then Some (quo, num)
  else
    match fuel with
    | O => None
    | S f =>
        if dw_le den num
        then div_generate f (dw_sub num den) (dw_rsl1 den) (dw_rsl1 bit) (dw_add quo bit)
        else div_generate f num (dw_rsl1 den) (dw_rsl1 bit) quo
    end.

Definition bit_divrem {W} `{DivWord W} (fuel : nat) (num den : W) : option (W * W) :=
  match div_normalize fuel num den dw_one with
  | Some (den', bit) => div_generate fuel num den' bit dw_zero
  | None => None
  end.

(** ** The interface of the 64-bit word *)

Class Uint64 (T : Type) := {
  uint32_to_uint64 : Z -> T;
  uint64_to_uint32 : T -> Z;
  int32_to_int64 : Z -> T;
  uint32s_to_uint64 : Z -> Z -> T;
  uint64_add : T -> T -> T;
  uint64_sub : T -> T -> T;
  uint64_mul : T -> T -> T;
  uint32x32_64_mul : Z -> Z -> T;
  uint64_lsl : T -> Z -> T;
  uint64_rsl : T -> Z -> T;
  uint64_rsa : T -> Z -> T;
  uint64_lt : T -> T -> bool;
  uint64_eq : T -> T -> bool;
  int64_lt : T -> T -> bool;
  uint64_not : T -> T;
  uint64_negate : T -> T;
  int64_negative : T -> bool;
  uint64_lo32 : T -> Z;
  uint64_hi32 : T -> Z;
  uint64_lo : T -> T;
  uint64_hi : T -> T;
  uint64_shift32 : T -> T;
  uint64_carry32 : T;
  msbset64 : T -> bool;
  uint64_divrem : T -> T -> option (T * T)
}.

(** Comparisons derived from [lt] and [eq] by macros of the header. *)
Definition uint64_gt {T} `{Uint64 T} (a b : T) : bool := uint64_lt b a.
Definition uint64_le {T} `{Uint64 T} (a b : T) : bool := negb (uint64_gt a b).
Definition uint64_ge {T} `{Uint64 T} (a b : T) : bool := negb (uint64_lt a b).

(** What an implementation promises: [repr64 a x] says that the word [a]
    stands for the integer [x], and every operation respects it. *)
Class Uint64Laws (T : Type) `{Uint64 T} := {
  repr64 : T -> Z -> Prop;
  repr64_fits : forall a x, repr64 a x -> fits 64 x;
  repr64_fun : forall a x y, repr64 a x -> repr64 a y -> x = y;
  uint32_to_uint64_ok : forall i, fits 32 i -> repr64 (uint32_to_uint64 i) i;
  uint64_to_uint32_ok : forall a x, repr64 a x -> uint64_to_uint32 a = u32 x;
  int32_to_int64_ok : forall i, sfits 32 i -> repr64 (int32_to_int64 i) (u64 i);
  uint32s_to_uint64_ok : forall h l, fits 32 h -> fits 32 l ->
    repr64 (uint32s_to_uint64 h l) (h * 2 ^ 32 + l);
  uint64_add_ok : forall a b x y, repr64 a x -> repr64 b y ->
    repr64 (uint64_add a b) (u64 (x + y));
  uint64_sub_ok : forall a b x y, repr64 a x -> repr64 b y ->
    repr64 (uint64_sub a b) (u64 (x - y));
  uint64_mul_ok : forall a b x y, repr64 a x -> repr64 b y ->
    repr64 (uint64_mul a b) (u64 (x * y));
  uint32x32_64_mul_ok : forall m n, fits 32 m -> fits 32 n ->
    repr64 (uint32x32_64_mul m n) (m * n);
  uint64_lsl_ok : forall a x n, repr64 a x -> 0 <= n < 64 ->
    repr64 (uint64_lsl a n) (u64 (x * 2 ^ n));
  uint64_rsl_ok : forall a x n, repr64 a x -> 0 <= n < 64 ->
    repr64 (uint64_rsl a n) (x / 2 ^ n);
  uint64_rsa_ok : forall a x n, repr64 a x -> 0 <= n < 64 ->
    repr64 (uint64_rsa a n) (u64 (s64 x / 2 ^ n));
  uint64_lt_ok : forall a b x y, repr64 a x -> repr64 b y -> uint64_lt a b = (x <? y);
  uint64_eq_ok : forall a b x y, repr64 a x -> repr64 b y -> uint64_eq a b = (x =? y);
  int64_lt_ok : forall a b x y, repr64 a x -> repr64 b y ->
    int64_lt a b = (s64 x <? s64 y);
  uint64_not_ok : forall a x, repr64 a x -> repr64 (uint64_not a) (2 ^ 64 - 1 - x);
  uint64_negate_ok : forall a x, repr64 a x -> repr64 (uint64_negate a) (u64 (- x));
  int64_negative_ok : forall a x, repr64 a x -> int64_negative a = (s64 x <? 0);
  uint64_lo32_ok : forall a x, repr64 a x -> uint64_lo32 a = x mod 2 ^ 32;
  uint64_hi32_ok : forall a x, repr64 a x -> uint64_hi32 a = x / 2 ^ 32;
  uint64_lo_ok : forall a x, repr64 a x -> repr64 (uint64_lo a) (x mod 2 ^ 32);
  uint64_hi_ok : forall a x, repr64 a x -> repr64 (uint64_hi a) (x / 2 ^ 32);
  uint64_shift32_ok : forall a x, repr64 a x -> repr64 (uint64_shift32 a) (u64 (x * 2 ^ 32));
  uint64_carry32_ok : repr64 uint64_carry32 (2 ^ 32);
  msbset64_ok : forall a x, repr64 a x -> msbset64 a = (2 ^ 63 <=? x);
  uint64_divrem_ok : forall a b x y, repr64 a x -> repr64 b y -> 0 < y ->
    exists q r, uint64_divrem a b = Some (q, r) /\ repr64 q (x / y) /\ repr64 r (x mod y)
}.

(** ** The native word: the macros of [cairo-wideint-private.h]

    A word is its 64-bit pattern; [None] of the division is the trap of a
    division by zero. *)
#[export] Instance native64 : Uint64 Z := {
  uint32_to_uint64 i := i;
  uint64_to_uint32 i := u32 i;
  int32_to_int64 i := u64 i;
  uint32s_to_uint64 h l := Z.lor (u64 (Z.shiftl h 32)) l;
  uint64_add a b := u64 (a + b);
  uint64_sub a b := u64 (a - b);
  uint64_mul a b := u64 (a * b);
  uint32x32_64_mul a b := u64 (a * b);
  uint64_lsl a n := u64 (Z.shiftl a n);
  uint64_rsl a n := Z.shiftr a n;
  uint64_rsa a n := u64 (Z.shiftr (s64 a) n);
  uint64_lt a b := a <? b;
  uint64_eq a b := a =? b;
  int64_lt a b := s64 a <? s64 b;
  uint64_not a := u64 (Z.lnot a);
  uint64_negate a := u64 (- s64 a);
  int64_negative a := s64 a <? 0;
  uint64_lo32 i := Z.land i (2 ^ 32 - 1);
  uint64_hi32 i := Z.shiftr i 32;
  uint64_lo i := Z.land i (2 ^ 32 - 1);
  uint64_hi i := Z.shiftr i 32;
  uint64_shift32 i := u64 (Z.shiftl i 32);
  uint64_carry32 := Z.shiftl 1 32;
  msbset64 q := negb (Z.land q (Z.shiftl 1 63) =? 0);
  uint64_divrem num den := if den =? 0 then None else Some (num / den, num mod den)
}.

(** ** The pair of 32-bit words: [cairo-wideint.c] without [HAVE_UINT64_T] *)

Record cairo_uint64_t := mk64 { lo : Z; hi : Z }.

Definition _cairo_uint32_to_uint64 (i : Z) : cairo_uint64_t := mk64 i 0.

Definition _cairo_int32_to_int64 (i : Z) : cairo_uint64_t :=
  mk64 (u32 i) (if i <? 0 then u32 (-1) else 0).

Definition _cairo_uint32s_to_uint64 (h l : Z) : cairo_uint64_t := mk64 l h.

Definition _cairo_uint64_add (a b : cairo_uint64_t) : cairo_uint64_t :=
  let s_hi := u32 (hi a + hi b) in
  let s_lo := u32 (lo a + lo b) in
  mk64 s_lo (if s_lo <? lo a then u32 (s_hi + 1) else s_hi).

Definition _cairo_uint64_sub (a b : cairo_uint64_t) : cairo_uint64_t :=
  let s_hi := u32 (hi a - hi b) in
  let s_lo := u32 (lo a - lo b) in
  mk64 s_lo (if lo a <? s_lo then u32 (s_hi - 1) else s_hi).

Definition uint32_lo (i : Z) : Z := Z.land i 65535.
Definition uint32_hi (i : Z) : Z := Z.shiftr i 16.
Definition uint32_carry16 : Z := Z.shiftl 1 16.

Definition _cairo_uint32x32_64_mul (a b : Z) : cairo_uint64_t :=
  let al := uint32_lo a in
  let ah := uint32_hi a in
  let bl := uint32_lo b in
  let bh := uint32_hi b in
  let r0 := u32 (al * bl) in
  let r1 := u32 (al * bh) in
  let r2 := u32 (ah * bl) in
  let r3 := u32 (ah * bh) in
  let r1 := u32 (r1 + uint32_hi r0) in            (* no carry possible *)
  let r1 := u32 (r1 + r2) in                      (* but this can carry *)
  let r3 := if r1 <? r2 then u32 (r3 + uint32_carry16) else r3 in
  mk64 (u32 (u32 (Z.shiftl (uint32_lo r1) 16) + uint32_lo r0))
       (u32 (r3 + uint32_hi r1)).

(** [a] and [b] are [int32_t] values here. *)
Definition _cairo_int32x32_64_mul (a b : Z) : cairo_uint64_t :=
  let s := _cairo_uint32x32_64_mul (u32 a) (u32 b) in
  let s := if a <? 0 then mk64 (lo s) (u32 (hi s - b)) else s in
  if b <? 0 then mk64 (lo s) (u32 (hi s - a)) else s.

Definition _cairo_uint64_mul (a b : cairo_uint64_t) : cairo_uint64_t :=
  let s := _cairo_uint32x32_64_mul (lo a) (lo b) in
  mk64 (lo s) (u32 (hi s + u32 (u32 (lo a * hi b) + u32 (hi a * lo b)))).

Definition _cairo_uint64_lsl (a : cairo_uint64_t) (shift : Z) : cairo_uint64_t :=
  let '(a, shift) := if 32 <=? shift then (mk64 0 (lo a), shift - 32) else (a, shift) in
  if negb (shift =? 0)
  then mk64 (u32 (Z.shiftl (lo a) shift))
            (Z.lor (u32 (Z.shiftl (hi a) shift)) (Z.shiftr (lo a) (32 - shift)))
  else a.

Definition _cairo_uint64_rsl (a : cairo_uint64_t) (shift : Z) : cairo_uint64_t :=
  let '(a, shift) := if 32 <=? shift then (mk64 (hi a) 0, shift - 32) else (a, shift) in
  if negb (shift =? 0)
  then mk64 (Z.lor (Z.shiftr (lo a) shift) (u32 (Z.shiftl (hi a) (32 - shift))))
            (Z.shiftr (hi a) shift)
  else a.

Definition _cairo_uint32_rsa (a n : Z) : Z := u32 (Z.shiftr (s32 a) n).

Definition _cairo_uint64_rsa (a : cairo_uint64_t) (shift : Z) : cairo_uint64_t :=
  let '(a, shift) :=
    if 32 <=? shift then (mk64 (hi a) (_cairo_uint32_rsa (hi a) 31), shift - 32)
    else (a, shift) in
  if negb (shift =? 0)
  then mk64 (Z.lor (Z.shiftr (lo a) shift) (u32 (Z.shiftl (hi a) (32 - shift))))
            (_cairo_uint32_rsa (hi a) shift)
  else a.

Definition _cairo_uint64_lt (a b : cairo_uint64_t) : bool :=
  (hi a <? hi b) || ((hi a =? hi b) && (lo a <? lo b)).

Definition _cairo_uint64_eq (a b : cairo_uint64_t) : bool :=
  (hi a =? hi b) && (lo a =? lo b).

Definition _cairo_int64_negative (a : cairo_uint64_t) : bool := s32 (hi a) <? 0.

Definition _cairo_int64_lt (a b : cairo_uint64_t) : bool :=
  if _cairo_int64_negative a && negb (_cairo_int64_negative b) then true
  else if negb (_cairo_int64_negative a) && _cairo_int64_negative b then false
  else _cairo_uint64_lt a b.

Definition _cairo_uint64_not (a : cairo_uint64_t) : cairo_uint64_t :=
  mk64 (u32 (Z.lnot (lo a))) (u32 (Z.lnot (hi a))).

Definition _cairo_uint64_negate (a : cairo_uint64_t) : cairo_uint64_t :=
  let a_lo := u32 (u32 (Z.lnot (lo a)) + 1) in
  let a_hi := u32 (Z.lnot (hi a)) in
  mk64 a_lo (if a_lo =? 0 then u32 (a_hi + 1) else a_hi).

#[export] Instance pair64_div : DivWord cairo_uint64_t := {
  dw_lt := _cairo_uint64_lt;
  dw_le a b := negb (_cairo_uint64_lt b a);
  dw_msbset a := negb (Z.land (hi a) 2147483648 =? 0);
  dw_is0 a := Z.lor (hi a) (lo a) =? 0;
  dw_lsl1 a := _cairo_uint64_lsl a 1;
  dw_rsl1 a := _cairo_uint64_rsl a 1;
  dw_add := _cairo_uint64_add;
  dw_sub := _cairo_uint64_sub;
  dw_one := _cairo_uint32_to_uint64 1;
  dw_zero := _cairo_uint32_to_uint64 0
}.

(** Sixty-four shifts bring any non-zero denominator to the top bit, and the
    quotient loop takes one turn per shift and one more: 65 turns are enough
    ([uint64_divrem_ok] of [pair64_laws]); a zero denominator never ends
    ([pair64_div_by_zero_diverges]). *)
Definition div64_fuel : nat := 65.

Definition _cairo_uint64_divrem (num den : cairo_uint64_t)
  : option (cairo_uint64_t * cairo_uint64_t) := bit_divrem div64_fuel num den.

#[export] Instance pair64 : Uint64 cairo_uint64_t := {
  uint32_to_uint64 := _cairo_uint32_to_uint64;
  uint64_to_uint32 a := lo a;
  int32_to_int64 := _cairo_int32_to_int64;
  uint32s_to_uint64 := _cairo_uint32s_to_uint64;
  uint64_add := _cairo_uint64_add;
  uint64_sub := _cairo_uint64_sub;
  uint64_mul := _cairo_uint64_mul;
  uint32x32_64_mul := _cairo_uint32x32_64_mul;
  uint64_lsl := _cairo_uint64_lsl;
  uint64_rsl := _cairo_uint64_rsl;
  uint64_rsa := _cairo_uint64_rsa;
  uint64_lt := _cairo_uint64_lt;
  uint64_eq := _cairo_uint64_eq;
  int64_lt := _cairo_int64_lt;
  uint64_not := _cairo_uint64_not;
  uint64_negate := _cairo_uint64_negate;
  int64_negative := _cairo_int64_negative;
  uint64_lo32 i := lo i;
  uint64_hi32 i := hi i;
  uint64_lo i := mk64 (lo i) 0;
  uint64_hi i := mk64 (hi i) 0;
  uint64_shift32 i := mk64 0 (lo i);
  uint64_carry32 := mk64 0 1;
  msbset64 q := negb (Z.land (hi q) (Z.shiftl 1 31) =? 0);
  uint64_divrem := _cairo_uint64_divrem
}.

(** [_cairo_int64_divrem]: common to both versions; the sign of the remainder
    is the numerator's.  [cairo_int64_t] is the same word, read as signed. *)
Definition _cairo_int64_divrem {T} `{Uint64 T} (num den : T) : option (T * T) :=
  let num_neg := int64_negative num in
  let den_neg := int64_negative den in
  let num := if num_neg then uint64_negate num else num in
  let den := if den_neg then uint64_negate den else den in
  match uint64_divrem num den with
  | Some (uquo, urem) =>
      let qr_rem := if num_neg then uint64_negate urem else urem in
      let qr_quo := if negb (eqb num_neg den_neg) then uint64_negate uquo else uquo in
      Some (qr_quo, qr_rem)
  | None => None
  end.

(** ** Small checks on concrete words *)
Example ex_mul : _cairo_uint32x32_64_mul 4294967295 4294967295 = mk64 1 4294967294.
Proof. reflexivity. Qed.
Example ex_sub : _cairo_uint64_sub (mk64 0 1) (mk64 1 0) = mk64 4294967295 0.
Proof. reflexivity. Qed.
Example ex_div : _cairo_uint64_divrem (mk64 7 3) (mk64 5 0) = Some (mk64 2576980379 0, mk64 0 0).
Proof. vm_compute. reflexivity. Qed.
Example ex_rsa : _cairo_uint64_rsa (mk64 0 2147483648) 33 = mk64 3221225472 4294967295.
Proof. reflexivity. Qed.

(** ** Correctness of the bit-at-a-time division *)

Class DivWordLaws (W : Type) `{DivWord W} := {
  dw_bits : Z;
  dw_repr : W -> Z -> Prop;
  dw_bits_pos : 0 < dw_bits;
  dw_repr_fits : forall a x, dw_repr a x -> fits dw_bits x;
  dw_lt_ok : forall a b x y, dw_repr a x -> dw_repr b y -> dw_lt a b = (x <? y);
  dw_le_ok : forall a b x y, dw_repr a x -> dw_repr b y -> dw_le a b = (x <=? y);
  dw_msbset_ok : forall a x, dw_repr a x -> dw_msbset a = (2 ^ (dw_bits - 1) <=? x);
  dw_is0_ok : forall a x, dw_repr a x -> dw_is0 a = (x =? 0);
  dw_lsl1_ok : forall a x, dw_repr a x -> dw_repr (dw_lsl1 a) (wrap dw_bits (x * 2));
  dw_rsl1_ok : forall a x, dw_repr a x -> dw_repr (dw_rsl1 a) (x / 2);
  dw_add_ok : forall a b x y, dw_repr a x -> dw_repr b y ->
    dw_repr (dw_add a b) (wrap dw_bits (x + y));
  dw_sub_ok : forall a b x y, dw_repr a x -> dw_repr b y ->
    dw_repr (dw_sub a b) (wrap dw_bits (x - y));
  dw_one_ok : dw_repr dw_one 1;
  dw_zero_ok : dw_repr dw_zero 0
}.

Section BitDivide.
Context {W : Type} `{L : DivWordLaws W}.

Lemma dw_lsl1_exact a x : dw_repr a x -> x * 2 < 2 ^ dw_bits ->
  dw_repr (dw_lsl1 a) (x * 2).
Proof.
  intros Ha Hx. rewrite <- (wrap_small dw_bits (x * 2)); [now apply dw_lsl1_ok|].
  apply dw_repr_fits in Ha. unfold fits in *. lia.
Qed.

Lemma dw_bits_double : 2 ^ dw_bits = 2 * 2 ^ (dw_bits - 1).
Proof.
  pose proof dw_bits_pos. rewrite <- Z.pow_succ_r by lia. f_equal. lia.
Qed.

(** Normalisation ends with the denominator scaled by the same power of two
    as [bit], large enough that the numerator is below its double. *)
Lemma div_normalize_ok (fuel : nat) : forall num den bit n d k,
  dw_repr num n -> dw_repr den (d * 2 ^ k) -> dw_repr bit (2 ^ k) ->
  0 < d -> 0 <= k -> dw_bits - k <= Z.of_nat fuel ->
  exists den' bit' k', div_normalize fuel num den bit = Some (den', bit') /\
    dw_repr den' (d * 2 ^ k') /\ dw_repr bit' (2 ^ k') /\ k <= k' < dw_bits /\
    n < d * 2 ^ (k' + 1).
Proof.
  pose proof dw_bits_pos as Hbits.
  induction fuel as [|f IH]; intros num den bit n d k Hn Hd Hb Hd0 Hk Hf.
  - pose proof (dw_repr_fits _ _ Hb) as [_ F].
    apply Z.pow_lt_mono_r_iff in F; lia.
  - cbn [div_normalize].
    rewrite (dw_lt_ok _ _ _ _ Hd Hn), (dw_msbset_ok _ _ Hd).
    pose proof (dw_repr_fits _ _ Hb) as [_ Fb].
    pose proof (dw_repr_fits _ _ Hn) as [_ Fn].
    assert (k < dw_bits) by (apply Z.pow_lt_mono_r_iff in Fb; lia).
    assert (E2 : 2 ^ (k + 1) = 2 ^ k * 2)
      by (rewrite Z.pow_add_r by lia; reflexivity).
    pose proof (pow2_pos k Hk) as P. pose proof dw_bits_double as D.
    case_if.
    + assert (HdE : d * 2 ^ k * 2 = d * 2 ^ (k + 1)) by (rewrite E2; ring).
      assert (Hd' : dw_repr (dw_lsl1 den) (d * 2 ^ (k + 1)))
        by (rewrite <- HdE; apply dw_lsl1_exact; [assumption|lia]).
      assert (Hb' : dw_repr (dw_lsl1 bit) (2 ^ (k + 1)))
        by (rewrite E2; apply dw_lsl1_exact; [assumption|nia]).
      destruct (IH num _ _ n d (k + 1) Hn Hd' Hb') as (den' & bit' & k' & R & ? & ? & ? & ?);
        try lia.
      exists den', bit', k'. repeat split; auto; lia.
    + exists den, bit, k. rewrite E2. repeat split; auto; try lia.
Qed.

(** The quotient loop: with [bit = 2^k], [num] below twice the scaled
    denominator and room in [quo], it delivers quotient and remainder. *)
Lemma div_generate_ok (fuel : nat) : forall num den bit quo n d k q,
  dw_repr num n -> dw_repr den (d * 2 ^ k) -> dw_repr bit (2 ^ k) ->
  dw_repr quo q -> 0 < d -> 0 <= k -> n < d * 2 ^ (k + 1) ->
  q * d + n < 2 ^ dw_bits -> k + 2 <= Z.of_nat fuel ->
  exists quo' num', div_generate fuel num den bit quo = Some (quo', num') /\
    dw_repr quo' (q + n / d) /\ dw_repr num' (n mod d).
Proof.
  induction fuel as [|f IH]; intros num den bit quo n d k q Hn Hd Hb Hq Hd0 Hk Hlt Hroom Hf;
    [lia|].
  cbn [div_generate]. pose proof (pow2_pos k Hk) as P.
  rewrite (dw_is0_ok _ _ Hb). replace (2 ^ k =? 0) with false by (symmetry; apply Z.eqb_neq; lia).
  rewrite (dw_le_ok _ _ _ _ Hd Hn).
  rewrite Z.pow_add_r in Hlt by lia. change (2 ^ 1) with 2 in Hlt.
  pose proof (dw_repr_fits _ _ Hn) as Fn. pose proof (dw_repr_fits _ _ Hq) as Fq.
  pose proof (dw_repr_fits _ _ Hb) as Fb. unfold fits in *.
  (* one turn: [n'] is the new numerator, [q'] the new quotient *)
  assert (Turn : forall num' quo' n' q', dw_repr num' n' -> dw_repr quo' q' ->
    0 <= n' < d * 2 ^ k -> q' * d + n' = q * d + n ->
    exists quo'' num'', div_generate f num' (dw_rsl1 den) (dw_rsl1 bit) quo' = Some (quo'', num'') /\
      dw_repr quo'' (q + n / d) /\ dw_repr num'' (n mod d)).
  { intros num' quo' n' q' Hn' Hq' Hb' He.
    assert (Q : q + n / d = q' + n' / d /\ n mod d = n' mod d).
    { replace n with (n' + (q' - q) * d) by lia.
      rewrite Z.div_add, Z_mod_plus_full by lia. lia. }
    destruct Q as [-> ->].
    destruct (Z.eq_dec k 0) as [->|Hk0].
    - change (2 ^ 0) with 1 in *.
      apply dw_rsl1_ok in Hb. change (1 / 2) with 0 in Hb.
      destruct f as [|f']; [lia|]. cbn [div_generate].
      rewrite (dw_is0_ok _ _ Hb). cbn [Z.eqb]. exists quo', num'.
      rewrite Z.div_small, Z.mod_small, Z.add_0_r by lia. auto.
    - assert (E : 2 ^ k = 2 * 2 ^ (k - 1))
        by (rewrite <- Z.pow_succ_r by lia; f_equal; lia).
      apply dw_rsl1_ok in Hb, Hd. rewrite E in Hb, Hd.
      replace (d * (2 * 2 ^ (k - 1))) with (d * 2 ^ (k - 1) * 2) in Hd by ring.
      rewrite (Z.mul_comm 2) in Hb. rewrite Z.div_mul in Hb, Hd by lia.
      eapply IH; eauto; try lia. replace (k - 1 + 1) with k by lia. lia. }
  case_if.
  - assert (q + 2 ^ k < 2 ^ dw_bits) by nia.
    apply (Turn _ _ (n - d * 2 ^ k) (q + 2 ^ k)); try lia.
    + rewrite <- (wrap_small dw_bits (n - d * 2 ^ k)) by (unfold fits; nia).
      now apply dw_sub_ok.
    + rewrite <- (wrap_small dw_bits (q + 2 ^ k)) by (unfold fits; lia).
      now apply dw_add_ok.
  - apply (Turn _ _ n q); auto; lia.
Qed.

Lemma bit_divrem_ok (fuel : nat) num den n d :
  dw_repr num n -> dw_repr den d -> 0 < d -> dw_bits + 1 <= Z.of_nat fuel ->
  exists quo rem, bit_divrem fuel num den = Some (quo, rem) /\
    dw_repr quo (n / d) /\ dw_repr rem (n mod d).
Proof.
  intros Hn Hd Hd0 Hf. unfold bit_divrem.
  pose proof (dw_repr_fits _ _ Hn) as Fn. unfold fits in Fn.
  destruct (div_normalize_ok fuel num den dw_one n d 0) as (den' & bit' & k & -> & Hd' & Hb' & Hk & Hlt);
    try lia; auto using dw_one_ok.
  { now rewrite Z.mul_1_r. }
  destruct (div_generate_ok fuel num den' bit' dw_zero n d k 0) as (quo & rem & R);
    auto using dw_zero_ok; try lia.
  exists quo, rem. exact R.
Qed.

(** With a zero denominator the first loop shifts zero for ever. *)
Lemma div_normalize_zero (fuel : nat) : forall num den bit n,
  dw_repr num n -> dw_repr den 0 -> 0 < n -> div_normalize fuel num den bit = None.
Proof.
  pose proof dw_bits_pos as Hbits.
  assert (0 < 2 ^ (dw_bits - 1)) by (apply pow2_pos; lia).
  induction fuel as [|f IH]; intros num den bit n Hn Hd Hn0; cbn [div_normalize];
    rewrite (dw_lt_ok _ _ _ _ Hd Hn), (dw_msbset_ok _ _ Hd);
    replace (0 <? n) with true by (symmetry; apply Z.ltb_lt; lia);
    replace (2 ^ (dw_bits - 1) <=? 0) with false by (symmetry; apply Z.leb_gt; lia);
    cbn [negb andb]; [reflexivity|].
  eapply IH; eauto. apply dw_lsl1_ok in Hd. now rewrite Z.mul_0_l in Hd.
Qed.
End BitDivide.

(** ** The native word keeps the promises *)

Lemma land_lo32 x : Z.land x (2 ^ 32 - 1) = x mod 2 ^ 32.
Proof. apply land_ones_mod. lia. Qed.

Lemma div_fits (w n x : Z) : 0 <= n -> fits w x -> fits w (x / 2 ^ n).
Proof.
  intros Hn Hx. pose proof (pow2_pos n Hn). unfold fits in *. split; [apply Z.div_pos; lia|].
  apply Z.le_lt_trans with x; [|lia]. apply Z.div_le_upper_bound; nia.
Qed.

Lemma rem_fits (w n x : Z) : 0 <= n -> fits w x -> fits w (x mod 2 ^ n).
Proof.
  intros Hn Hx. pose proof (pow2_pos n Hn). unfold fits in *.
  pose proof (Z.mod_pos_bound x (2 ^ n) ltac:(lia)).
  pose proof (Z.mod_le x (2 ^ n) ltac:(lia) ltac:(lia)). lia.
Qed.

Lemma wrap_neg_swrap (x : Z) : u64 (- s64 x) = u64 (- x).
Proof.
  rewrite <- (Z.sub_0_l (s64 x)), <- (Z.sub_0_l x).
  rewrite <- (wrap_sub_r 64 0 (s64 x)), <- (wrap_sub_r 64 0 x). now rewrite wrap_swrap.
Qed.

#[export] Hint Resolve div_fits rem_fits : cint.

#[export, refine] Instance native64_laws : Uint64Laws Z := {
  repr64 a x := a = x /\ fits 64 x
}.
Proof.
  all: cbn [uint32_to_uint64 uint64_to_uint32 int32_to_int64 uint32s_to_uint64 uint64_add
    uint64_sub uint64_mul uint32x32_64_mul uint64_lsl uint64_rsl uint64_rsa uint64_lt
    uint64_eq int64_lt uint64_not uint64_negate int64_negative uint64_lo32 uint64_hi32
    uint64_lo uint64_hi uint64_shift32 uint64_carry32 msbset64 uint64_divrem native64].
  all: intros; repeat match goal with H : _ /\ _ |- _ => destruct H end; subst.
  all: rewrite ?shiftr_div, ?shiftl_mul, ?land_lo32 by lia.
  all: try (split; [reflexivity|]); try solve [auto with cint].
  - unfold fits in *; pow2; lia.
  - unfold fits in *; pow2; unfold wrap. rewrite Z.mod_small by (pow2; lia).
    split; [apply (lor_add h l 32); pow2; lia | lia].
  - unfold fits in *. assert (0 <= m * n < 2 ^ 64) by (pow2; nia).
    split; [now apply wrap_small | assumption].
  - rewrite lnot_wrap by auto with cint. split; [reflexivity | unfold fits in *; lia].
  - rewrite wrap_neg_swrap. auto with cint.
  - split; unfold fits; reflexivity || (pow2; lia).
  - rewrite Z.mul_1_l. now apply (land_top 64).
  - exists (x / y), (x mod y). unfold fits in *. replace (y =? 0) with false by lia.
    pose proof (Z.mod_pos_bound x y ltac:(lia)).
    pose proof (Z.div_pos x y ltac:(lia) ltac:(lia)).
    pose proof (Z.div_le_upper_bound x y x ltac:(lia) ltac:(nia)).
    repeat split; lia.
Defined.

(** ** The pair of words keeps them too *)

Definition pair_repr (a : cairo_uint64_t) (x : Z) : Prop :=
  fits 32 (lo a) /\ fits 32 (hi a) /\ x = hi a * 2 ^ 32 + lo a.

Lemma pair_repr_intro l h x : fits 32 l -> fits 32 h -> x = h * 2 ^ 32 + l ->
  pair_repr (mk64 l h) x.
Proof. repeat split; cbn; try assumption; apply H || apply H0. Qed.

Ltac pair_cases :=
  intros; repeat match goal with
  | H : pair_repr ?a _ |- _ => destruct a, H as (? & ? & ->); cbn [lo hi] in *
  end.

(** Thirty-two bits as the half word [M] of the double-word lemmas. *)
Lemma pow64_square : 2 ^ 64 = 2 ^ 32 * 2 ^ 32. Proof. reflexivity. Qed.

Lemma wrap64_double h l : fits 32 l -> u64 (h * 2 ^ 32 + l) = u32 h * 2 ^ 32 + l.
Proof. intros. unfold wrap. rewrite pow64_square. now apply double_mod. Qed.

Lemma pair_repr_wrap l h x : fits 32 l -> x = u64 (h * 2 ^ 32 + l) ->
  pair_repr (mk64 l (u32 h)) x.
Proof. intros Hl ->. apply pair_repr_intro; auto with cint. now apply wrap64_double. Qed.

Lemma pair_add_ok a b x y : pair_repr a x -> pair_repr b y ->
  pair_repr (_cairo_uint64_add a b) (u64 (x + y)).
Proof.
  pair_cases. unfold _cairo_uint64_add; cbn [lo hi]. apply pair_repr_intro; auto with cint.
  - destruct (_ <? _); auto with cint.
  - unfold wrap. rewrite pow64_square. rewrite double_add by (assumption || reflexivity).
    destruct (_ <? _); [reflexivity | now rewrite Zmod_mod].
Qed.

Lemma pair_sub_ok a b x y : pair_repr a x -> pair_repr b y ->
  pair_repr (_cairo_uint64_sub a b) (u64 (x - y)).
Proof.
  pair_cases. unfold _cairo_uint64_sub; cbn [lo hi]. apply pair_repr_intro; auto with cint.
  - destruct (_ <? _); auto with cint.
  - unfold wrap. rewrite pow64_square. rewrite double_sub by (assumption || reflexivity).
    destruct (_ <? _); [reflexivity | now rewrite Zmod_mod].
Qed.

Lemma uint32_lo_mod i : uint32_lo i = i mod 2 ^ 16.
Proof. apply (land_ones_mod i 16). lia. Qed.

Lemma uint32_hi_div i : uint32_hi i = i / 2 ^ 16.
Proof. apply shiftr_div. lia. Qed.

(** The 32x32 product is exact: no carry is lost in the schoolbook sum. *)
Lemma pair_mul32_ok m n : fits 32 m -> fits 32 n ->
  pair_repr (_cairo_uint32x32_64_mul m n) (m * n).
Proof.
  intros Hm Hn. unfold _cairo_uint32x32_64_mul. rewrite !uint32_lo_mod, !uint32_hi_div.
  set (al := m mod 2 ^ 16). set (ah := m / 2 ^ 16).
  set (bl := n mod 2 ^ 16). set (bh := n / 2 ^ 16).
  unfold fits in *.
  assert (0 <= al < 2 ^ 16 /\ 0 <= ah < 2 ^ 16 /\ 0 <= bl < 2 ^ 16 /\ 0 <= bh < 2 ^ 16)
    as (Hal & Hah & Hbl & Hbh) by (subst al ah bl bh; pow2; zmod_lia).
  assert (Em : m = ah * 2 ^ 16 + al) by (subst ah al; pow2; zmod_lia).
  assert (En : n = bh * 2 ^ 16 + bl) by (subst bh bl; pow2; zmod_lia).
  clearbody al ah bl bh. subst m n.
  destruct (double_mul (2 ^ 16) ltac:(reflexivity) ah al bh bl Hal Hah Hbl Hbh) as (B1 & B3 & T).
  assert (M2 : 2 ^ 16 * 2 ^ 16 = 2 ^ 32) by reflexivity. rewrite M2 in *.
  assert (P : forall u v, 0 <= u < 2 ^ 16 -> 0 <= v < 2 ^ 16 -> u32 (u * v) = u * v)
    by (intros; apply wrap_small; unfold fits; pow2; nia).
  rewrite !P by assumption.
  assert (N : 0 <= al * bh /\ 0 <= al * bl / 2 ^ 16)
    by (split; [nia | apply Z.div_pos; pow2; nia]).
  rewrite (wrap_small 32 (al * bh + _)) by (unfold fits; lia).
  change (u32 (al * bh + al * bl / 2 ^ 16 + ah * bl))
    with ((al * bh + al * bl / 2 ^ 16 + ah * bl) mod 2 ^ 32).
  set (r1 := (al * bh + al * bl / 2 ^ 16 + ah * bl) mod 2 ^ 32) in *.
  assert (E3 : (if r1 <? ah * bl then u32 (ah * bh + uint32_carry16) else ah * bh)
     = (if r1 <? ah * bl then ah * bh + 2 ^ 16 else ah * bh)).
  { destruct (r1 <? ah * bl); [|reflexivity]. apply wrap_small. unfold fits.
    assert (0 <= r1 / 2 ^ 16) by (apply Z.div_pos; [apply Z.mod_pos_bound|]; reflexivity).
    change uint32_carry16 with (2 ^ 16). nia. }
  rewrite E3. rewrite shiftl_mul by lia.
  pose proof (Z.mod_pos_bound r1 (2 ^ 16) ltac:(reflexivity)).
  pose proof (Z.mod_pos_bound (al * bl) (2 ^ 16) ltac:(reflexivity)).
  apply pair_repr_intro; auto with cint.
  rewrite (wrap_small 32 (_ + _)) by (unfold fits; lia).
  rewrite T. f_equal.
  rewrite (wrap_small 32 (r1 mod 2 ^ 16 * 2 ^ 16)) by (unfold fits; pow2; lia).
  symmetry. apply wrap_small. unfold fits. pow2. lia.
Qed.

Lemma pair_mul_ok a b x y : pair_repr a x -> pair_repr b y ->
  pair_repr (_cairo_uint64_mul a b) (u64 (x * y)).
Proof.
  destruct a as [la ha], b as [lb hb]. intros (La & Ha & ->) (Lb & Hb & ->).
  unfold _cairo_uint64_mul; cbn [lo hi] in *.
  destruct (pair_mul32_ok la lb) as (Hl & _ & E); auto.
  destruct (_cairo_uint32x32_64_mul la lb) as [sl sh]; cbn [lo hi] in *.
  apply pair_repr_wrap; [assumption|]. autorewrite with cint.
  replace ((ha * 2 ^ 32 + la) * (hb * 2 ^ 32 + lb))
    with ((sh + (la * hb + ha * lb)) * 2 ^ 32 + sl + ha * hb * 2 ^ 64).
  - unfold wrap at 1. rewrite Z_mod_plus_full.
    change (?z mod 2 ^ 64) with (u64 z). rewrite !wrap64_double by assumption.
    now autorewrite with cint.
  - rewrite pow64_square. transitivity (sh * 2 ^ 32 + sl + (la * hb + ha * lb) * 2 ^ 32
      + ha * hb * (2 ^ 32 * 2 ^ 32)); [ring|]. rewrite <- E. ring.
Qed.

(** The signed 32x32 product: the unsigned one, corrected by the factors. *)
Lemma pair_int_mul32_ok i j : sfits 32 i -> sfits 32 j ->
  pair_repr (_cairo_int32x32_64_mul i j) (u64 (i * j)).
Proof.
  intros Hi Hj. unfold _cairo_int32x32_64_mul.
  destruct (pair_mul32_ok (u32 i) (u32 j)) as (Hl & Hh & E); [auto with cint..|].
  destruct (_cairo_uint32x32_64_mul (u32 i) (u32 j)) as [l h]; cbn [lo hi] in *.
  assert (S : forall z, sfits 32 z -> u32 z = if z <? 0 then z + 2 ^ 32 else z).
  { intros z Hz. unfold sfits in Hz. change (32 - 1) with 31 in Hz. unfold wrap. pow2.
    case_if; zmod_lia. }
  rewrite (S i Hi), (S j Hj) in E.
  assert (R : forall k z, i * j = l + 2 ^ 32 * h - k * 2 ^ 32 + z * 2 ^ 64 ->
    pair_repr (mk64 l (u32 (h - k))) (u64 (i * j))).
  { intros k z ->. apply pair_repr_wrap; [assumption|]. unfold wrap.
    rewrite Z_mod_plus_full. f_equal. ring. }
  pose proof (wrap_small 32 h Hh) as Ew. pose proof (fun k => wrap_sub_l 32 (h - j) k) as Ws.
  destruct (i <? 0), (j <? 0); cbn [lo hi].
  - rewrite Ws. replace (h - j - i) with (h - (j + i)) by ring. apply R with (-1). rewrite pow64_square. lia.
  - apply R with 0. lia.
  - apply R with 0. lia.
  - rewrite <- Ew, <- (Z.sub_0_r h). apply R with 0. lia.
Qed.

(** The three shifts share one normal form: by less than a word. *)
Lemma pair_lsl_small a x n : pair_repr a x -> 0 <= n < 32 ->
  pair_repr (mk64 (u32 (lo a * 2 ^ n)) (Z.lor (u32 (hi a * 2 ^ n)) (lo a / 2 ^ (32 - n))))
            (u64 (x * 2 ^ n)).
Proof.
  destruct a as [l h]. intros (Hl & Hh & ->) Hn; cbn [lo hi] in *.
  assert (E : Z.lor (u32 (h * 2 ^ n)) (l / 2 ^ (32 - n)) = u32 (h * 2 ^ n) + l / 2 ^ (32 - n)).
  { pose proof (mul_pow_wrap 32 (32 - n) h ltac:(lia)) as Ew.
    pose proof (div_pow_lt 32 (32 - n) l ltac:(lia) Hl) as B.
    replace (32 - (32 - n)) with n in * by lia. rewrite Ew. now apply lor_add; [lia|]. }
  pose proof (double_shl 32 n h l ltac:(lia) Hl) as D. change (wrap (32 + 32)) with u64 in D.
  apply pair_repr_intro; auto with cint; [|now rewrite E, D].
  rewrite E. pose proof (wrap_fits 64 ((h * 2 ^ 32 + l) * 2 ^ n) ltac:(lia)) as F.
  rewrite D in F. pose proof (wrap_fits 32 (l * 2 ^ n) ltac:(lia)) as Fl.
  unfold fits in *. pow2. lia.
Qed.

Lemma pair_shr_small l h n : fits 32 l -> 0 < n < 32 ->
  Z.lor (l / 2 ^ n) (u32 (h * 2 ^ (32 - n))) = h mod 2 ^ n * 2 ^ (32 - n) + l / 2 ^ n.
Proof.
  intros Hl Hn. rewrite mul_pow_wrap by lia. apply lor_add_swap; [lia|].
  now apply div_pow_lt; [lia|].
Qed.

Lemma div_pow_split x n : 32 <= n -> x / 2 ^ n = x / 2 ^ 32 / 2 ^ (n - 32).
Proof.
  intros. rewrite Z.div_div by (try apply Z.pow_nonzero; lia || apply pow2_pos; lia).
  rewrite <- Z.pow_add_r by lia. do 2 f_equal. lia.
Qed.

Lemma pair_lsl_ok a x n : pair_repr a x -> 0 <= n < 64 ->
  pair_repr (_cairo_uint64_lsl a n) (u64 (x * 2 ^ n)).
Proof.
  intros Ha Hn. unfold _cairo_uint64_lsl.
  assert (S : forall b y m, pair_repr b y -> 0 <= m < 32 ->
    pair_repr (if negb (m =? 0)
      then mk64 (u32 (Z.shiftl (lo b) m)) (Z.lor (u32 (Z.shiftl (hi b) m)) (Z.shiftr (lo b) (32 - m)))
      else b) (u64 (y * 2 ^ m))).
  { intros b y m Hb Hm. destruct (Z.eqb_spec m 0) as [->|]; cbn [negb].
    - rewrite Z.mul_1_r, wrap_small; [assumption|].
      destruct Hb as (? & ? & ->). unfold fits in *. pow2. lia.
    - rewrite !shiftl_mul, shiftr_div by lia. now apply pair_lsl_small. }
  destruct (Z.leb_spec 32 n); [|now apply S].
  replace (x * 2 ^ n) with (x * 2 ^ 32 * 2 ^ (n - 32))
    by (rewrite <- Z.mul_assoc, <- Z.pow_add_r by lia; do 2 f_equal; lia).
  rewrite <- wrap_mul_l. apply S; [|lia].
  destruct Ha as (Hl & Hh & ->). apply pair_repr_intro; [unfold fits; pow2; lia|assumption|].
  rewrite <- (Z.add_0_r ((hi a * 2 ^ 32 + lo a) * 2 ^ 32)).
  rewrite wrap64_double by (unfold fits; pow2; lia). do 2 f_equal.
  unfold wrap. now apply double_rem.
Qed.

Lemma pair_rsl_ok a x n : pair_repr a x -> 0 <= n < 64 ->
  pair_repr (_cairo_uint64_rsl a n) (x / 2 ^ n).
Proof.
  intros Ha Hn. unfold _cairo_uint64_rsl.
  assert (S : forall b y m, pair_repr b y -> 0 <= m < 32 ->
    pair_repr (if negb (m =? 0)
      then mk64 (Z.lor (Z.shiftr (lo b) m) (u32 (Z.shiftl (hi b) (32 - m)))) (Z.shiftr (hi b) m)
      else b) (y / 2 ^ m)).
  { intros [l h] y m Hb Hm. destruct (Z.eqb_spec m 0) as [->|]; cbn [negb lo hi].
    - now rewrite Z.div_1_r.
    - rewrite !shiftl_mul, !shiftr_div by lia. destruct Hb as (Hl & Hh & ->); cbn [lo hi] in *.
      rewrite pair_shr_small by (assumption || lia).
      apply pair_repr_intro; [now apply double_shr_low; [lia|] | now apply div_fits; [lia|] |].
      now apply double_shr; [lia|]. }
  destruct (Z.leb_spec 32 n); [|now apply S].
  rewrite div_pow_split by assumption. apply S; [|lia].
  destruct Ha as (Hl & Hh & ->). apply pair_repr_intro; [assumption|unfold fits; pow2; lia|].
  now rewrite double_div.
Qed.

Lemma s64_pair l h : fits 32 l -> fits 32 h -> s64 (h * 2 ^ 32 + l) = s32 h * 2 ^ 32 + l.
Proof. intros. now apply (double_swrap 32). Qed.

Lemma swrap_mod (h n : Z) : 0 <= n <= 32 -> s32 h mod 2 ^ n = h mod 2 ^ n.
Proof.
  intros. rewrite <- (Z.mod_mod_divide (s32 h) (2 ^ 32)), <- (Z.mod_mod_divide h (2 ^ 32)).
  - f_equal. apply wrap_swrap.
  - exists (2 ^ (32 - n)). rewrite <- Z.pow_add_r by lia. f_equal; lia.
  - exists (2 ^ (32 - n)). rewrite <- Z.pow_add_r by lia. f_equal; lia.
Qed.

Lemma pair_rsa_ok a x n : pair_repr a x -> 0 <= n < 64 ->
  pair_repr (_cairo_uint64_rsa a n) (u64 (s64 x / 2 ^ n)).
Proof.
  intros Ha Hn. unfold _cairo_uint64_rsa.
  (* the signed value as a parameter: [h] its signed high word *)
  assert (S : forall l h m, fits 32 l -> sfits 32 h -> 0 <= m < 32 ->
    pair_repr (if negb (m =? 0)
      then mk64 (Z.lor (Z.shiftr l m) (u32 (Z.shiftl (u32 h) (32 - m)))) (_cairo_uint32_rsa (u32 h) m)
      else mk64 l (u32 h)) (u64 ((h * 2 ^ 32 + l) / 2 ^ m))).
  { intros l h m Hl Hh Hm. destruct (Z.eqb_spec m 0) as [->|]; cbn [negb].
    - rewrite Z.div_1_r. now apply pair_repr_wrap.
    - unfold _cairo_uint32_rsa. assert (Eh : s32 (u32 h) = h).
      { unfold swrap. rewrite wrap_wrap. apply (swrap_small 32); [lia|assumption]. }
      rewrite Eh. rewrite !shiftl_mul, !shiftr_div by lia.
      rewrite pair_shr_small by (assumption || lia).
      replace (u32 h mod 2 ^ m) with (h mod 2 ^ m)
        by (rewrite <- (swrap_mod (u32 h)), Eh by lia; reflexivity).
      apply pair_repr_wrap; [now apply double_shr_low; [lia|]|].
      f_equal. now apply double_shr; [lia|]. }
  destruct a as [l h], Ha as (Hl & Hh & ->); cbn [lo hi] in *. rewrite s64_pair by assumption.
  assert (Sh : sfits 32 (s32 h)) by now apply swrap_range.
  assert (Ush : u32 (s32 h) = h) by (rewrite wrap_swrap; now apply wrap_small).
  destruct (Z.leb_spec 32 n).
  - rewrite div_pow_split, double_div by (assumption || reflexivity).
    assert (Esg : _cairo_uint32_rsa h 31 = u32 (s32 h / 2 ^ 31))
      by (unfold _cairo_uint32_rsa; now rewrite shiftr_div by lia).
    assert (Esh : s32 h = s32 h / 2 ^ 31 * 2 ^ 32 + h).
    { unfold sfits in Sh. unfold swrap in *. rewrite (wrap_small 32 h) in * by assumption.
      unfold fits in Hh. cbv zeta in *. change (32 - 1) with 31 in *. pow2.
      destruct (h <? 2147483648) eqn:?; zmod_lia. }
    rewrite Esh. cbn [lo hi]. rewrite Esg. apply S; [assumption| |lia].
    unfold sfits in *. change (32 - 1) with 31 in *. pow2. zmod_lia.
  - specialize (S l (s32 h) n). rewrite Ush in S. now apply S.
Qed.

Lemma pair_lt_ok a b x y : pair_repr a x -> pair_repr b y -> _cairo_uint64_lt a b = (x <? y).
Proof. pair_cases. symmetry. now apply double_lt. Qed.

Lemma pair_eq_ok a b x y : pair_repr a x -> pair_repr b y -> _cairo_uint64_eq a b = (x =? y).
Proof. pair_cases. symmetry. now apply double_eqb. Qed.

Lemma pair_negative_ok a x : pair_repr a x -> _cairo_int64_negative a = (s64 x <? 0).
Proof.
  pair_cases. unfold _cairo_int64_negative; cbn [hi]. rewrite s64_pair by assumption.
  unfold fits in *. pow2. destruct (Z.ltb_spec (s32 hi0) 0); symmetry; lia.
Qed.

Lemma pair_int64_lt_ok a b x y : pair_repr a x -> pair_repr b y ->
  _cairo_int64_lt a b = (s64 x <? s64 y).
Proof.
  intros Ha Hb. unfold _cairo_int64_lt.
  rewrite (pair_negative_ok _ _ Ha), (pair_negative_ok _ _ Hb), (pair_lt_ok _ _ _ _ Ha Hb).
  assert (Fx : fits 64 x) by (destruct Ha as (? & ? & ->); unfold fits in *; pow2; lia).
  assert (Fy : fits 64 y) by (destruct Hb as (? & ? & ->); unfold fits in *; pow2; lia).
  unfold swrap. rewrite !wrap_small by assumption. unfold fits in *. cbv zeta.
  change (64 - 1) with 63. pow2.
  destruct (Z.ltb_spec x 9223372036854775808), (Z.ltb_spec y 9223372036854775808);
    repeat match goal with |- context [?u <? 0] => destruct (Z.ltb_spec u 0) end; cbn; lia.
Qed.

Lemma pair_not_ok a x : pair_repr a x -> pair_repr (_cairo_uint64_not a) (2 ^ 64 - 1 - x).
Proof.
  pair_cases. unfold _cairo_uint64_not; cbn [lo hi]. rewrite !lnot_wrap by auto with cint.
  apply pair_repr_intro; unfold fits in *; pow2; lia.
Qed.

Lemma pair_negate_ok a x : pair_repr a x -> pair_repr (_cairo_uint64_negate a) (u64 (- x)).
Proof.
  pair_cases. unfold _cairo_uint64_negate; cbn [lo hi]. rewrite !lnot_wrap by auto with cint.
  unfold fits, wrap in *. pow2. case_if; apply pair_repr_intro; unfold fits; pow2; zmod_lia.
Qed.

#[export, refine] Instance pair64_div_laws : DivWordLaws cairo_uint64_t := {
  dw_bits := 64; dw_repr := pair_repr
}.
Proof.
  - reflexivity.
  - pair_cases. unfold fits in *. pow2. lia.
  - exact pair_lt_ok.
  - cbn. intros. rewrite (pair_lt_ok b a y x), Z.leb_antisym by assumption. reflexivity.
  - cbn [dw_msbset pair64_div]. pair_cases. change 2147483648 with (2 ^ (32 - 1)).
    rewrite land_top by (assumption || lia). unfold fits in *. cbn [Z.sub]. change (64 - 1) with 63.
    change (32 - 1) with 31. pow2. destruct (Z.leb_spec 2147483648 hi0); symmetry; lia.
  - cbn [dw_is0 pair64_div]. pair_cases. unfold fits in *. pow2.
    destruct (Z.eqb_spec (Z.lor hi0 lo0) 0) as [E|E];
      [apply Z.lor_eq_0_iff in E | rewrite Z.lor_eq_0_iff in E]; symmetry; lia.
  - intros a x Ha. now apply (pair_lsl_ok a x 1).
  - intros a x Ha. now apply (pair_rsl_ok a x 1).
  - exact pair_add_ok.
  - exact pair_sub_ok.
  - repeat split; discriminate.
  - repeat split; discriminate.
Defined.

Lemma pair_divrem_ok a b x y : pair_repr a x -> pair_repr b y -> 0 < y ->
  exists q r, _cairo_uint64_divrem a b = Some (q, r) /\ pair_repr q (x / y) /\ pair_repr r (x mod y).
Proof.
  intros Ha Hb Hy.
  pose proof (bit_divrem_ok (W := cairo_uint64_t) (L := pair64_div_laws) div64_fuel a b x y Ha Hb Hy) as B.
  apply B. cbn. lia.
Qed.

#[export, refine] Instance pair64_laws : Uint64Laws cairo_uint64_t := {
  repr64 := pair_repr
}.
Proof.
  - pair_cases. unfold fits in *. pow2. lia.
  - intros a x y (_ & _ & ->) (_ & _ & ->). reflexivity.
  - intros. apply pair_repr_intro; auto. unfold fits; pow2; lia.
  - cbn [uint64_to_uint32 pair64]. intros a x (Hl & _ & ->). symmetry. now apply double_rem.
  - intros i Hi. unfold sfits in Hi. change (32 - 1) with 31 in Hi. cbn [int32_to_int64 pair64].
    unfold _cairo_int32_to_int64, wrap. pow2.
    case_if; apply pair_repr_intro; unfold fits; pow2; zmod_lia.
  - intros. now apply pair_repr_intro.
  - exact pair_add_ok.
  - exact pair_sub_ok.
  - exact pair_mul_ok.
  - exact pair_mul32_ok.
  - exact pair_lsl_ok.
  - exact pair_rsl_ok.
  - exact pair_rsa_ok.
  - exact pair_lt_ok.
  - exact pair_eq_ok.
  - exact pair_int64_lt_ok.
  - exact pair_not_ok.
  - exact pair_negate_ok.
  - exact pair_negative_ok.
  - cbn. intros a x (Hl & _ & ->). symmetry. now apply double_rem.
  - cbn. intros a x (Hl & _ & ->). symmetry. now apply double_div.
  - cbn. intros a x (Hl & Hh & ->). rewrite (double_rem (2 ^ 32)) by (assumption || reflexivity).
    apply pair_repr_intro; auto. unfold fits; pow2; lia.
  - cbn. intros a x (Hl & Hh & ->). rewrite (double_div (2 ^ 32)) by (assumption || reflexivity).
    apply pair_repr_intro; auto. unfold fits; pow2; lia.
  - intros a x (Hl & Hh & ->). apply pair_repr_intro; [unfold fits; pow2; lia|assumption|].
    rewrite <- (Z.add_0_r (_ * 2 ^ 32)), wrap64_double by (unfold fits; pow2; lia).
    do 2 f_equal. unfold wrap. now rewrite (double_rem (2 ^ 32)) by (assumption || reflexivity).
  - repeat split; discriminate.
  - exact (dw_msbset_ok (W := cairo_uint64_t)).
  - exact pair_divrem_ok.
Defined.

(** ** Signed division, common to both words *)

(** The absolute value as the source computes it: also of the least integer,
    whose pattern is its own negation. *)
Lemma swrap_abs w x : 0 < w -> fits w x ->
  Z.abs (swrap w x) = if swrap w x <? 0 then wrap w (- x) else x.
Proof.
  intros Hw Fx. unfold swrap. rewrite wrap_small by assumption. unfold fits in Fx. cbv zeta.
  assert (E : 2 ^ w = 2 * 2 ^ (w - 1)) by (rewrite <- Z.pow_succ_r by lia; f_equal; lia).
  pose proof (pow2_pos (w - 1) ltac:(lia)). destruct (Z.ltb_spec x (2 ^ (w - 1))).
  - replace (x <? 0) with false by lia. lia.
  - replace (x - 2 ^ w <? 0) with true by lia. unfold wrap.
    rewrite <- (Z_mod_plus_full _ 1), Z.mod_small; lia.
Qed.

Lemma swrap_nonzero w x : fits w x -> x <> 0 -> swrap w x <> 0.
Proof.
  intros Fx Hx. unfold swrap. rewrite wrap_small by assumption. unfold fits in Fx.
  cbv zeta. case_if; lia.
Qed.

Lemma quot_signs n d : d <> 0 ->
  Z.quot n d = (if negb (eqb (n <? 0) (d <? 0)) then - (Z.abs n / Z.abs d) else Z.abs n / Z.abs d).
Proof.
  intros. rewrite Z.quot_div by assumption.
  destruct (Z.ltb_spec n 0), (Z.ltb_spec d 0); cbn [eqb negb];
    rewrite ?(Z.sgn_neg n), ?(Z.sgn_neg d), ?(Z.sgn_pos d) by lia; try lia.
  - destruct (Z.eq_dec n 0) as [->|]; [now rewrite Z.div_0_l by lia | rewrite Z.sgn_pos; lia].
  - destruct (Z.eq_dec n 0) as [->|]; [now rewrite Z.div_0_l by lia | rewrite Z.sgn_pos; lia].
Qed.

Lemma rem_signs n d : d <> 0 ->
  Z.rem n d = (if n <? 0 then - (Z.abs n mod Z.abs d) else Z.abs n mod Z.abs d).
Proof.
  intros. rewrite Z.rem_mod by assumption. destruct (Z.ltb_spec n 0).
  - rewrite Z.sgn_neg; lia.
  - destruct (Z.eq_dec n 0) as [->|]; [now rewrite Z.mod_0_l by lia | rewrite Z.sgn_pos; lia].
Qed.

Section SignedLaws.
Context {T : Type} `{L : Uint64Laws T}.

Lemma int64_abs_ok a x : repr64 a x ->
  repr64 (if int64_negative a then uint64_negate a else a) (Z.abs (s64 x)).
Proof.
  intros Ha. rewrite (int64_negative_ok _ _ Ha), (swrap_abs 64) by (lia || eapply repr64_fits, Ha).
  destruct (_ <? 0); [now apply uint64_negate_ok | assumption].
Qed.

Lemma int64_sign_ok (c : bool) a x : repr64 a x ->
  repr64 (if c then uint64_negate a else a) (u64 (if c then - x else x)).
Proof.
  intros Ha. destruct c; [now apply uint64_negate_ok|].
  now rewrite wrap_small by (eapply repr64_fits, Ha).
Qed.
End SignedLaws.

(** ** Properties of the 64-bit word *)

(** What the two 64-bit words have in common: they stand for one integer. *)
Definition same64 (p : cairo_uint64_t) (n : Z) : Prop := repr64 p n.

(** C34: Without a [uint64_t], the pair of 32-bit words computes what the
    compiler's type does: on representations of the same integers every
    arithmetic, shift and comparison operation of [cairo-wideint.c] gives the
    representation of the result of the native macro, and the bit-at-a-time
    division ends with the native quotient and remainder. *)
Theorem pair64_refines_native (p q : cairo_uint64_t) (m n s : Z) :
  same64 p m -> same64 q n -> 0 <= s < 64 ->
  same64 (_cairo_uint64_add p q) (uint64_add m n) /\
  same64 (_cairo_uint64_sub p q) (uint64_sub m n) /\
  same64 (_cairo_uint64_mul p q) (uint64_mul m n) /\
  same64 (_cairo_uint64_lsl p s) (uint64_lsl m s) /\
  same64 (_cairo_uint64_rsl p s) (uint64_rsl m s) /\
  same64 (_cairo_uint64_rsa p s) (uint64_rsa m s) /\
  same64 (_cairo_uint64_not p) (uint64_not m) /\
  same64 (_cairo_uint64_negate p) (uint64_negate m) /\
  (forall i j, sfits 32 i -> sfits 32 j -> same64 (_cairo_int32x32_64_mul i j) (u64 (i * j))) /\
  _cairo_uint64_lt p q = uint64_lt m n /\ _cairo_uint64_eq p q = uint64_eq m n /\
  _cairo_int64_lt p q = int64_lt m n /\ _cairo_int64_negative p = int64_negative m /\
  (n <> 0 -> exists quo rem, _cairo_uint64_divrem p q = Some (quo, rem) /\
     exists quo' rem', uint64_divrem m n = Some (quo', rem') /\ same64 quo quo' /\ same64 rem rem').
Proof.
  intros Hp Hq Hs. unfold same64 in *. pose proof (repr64_fits _ _ Hp) as Fm.
  pose proof (repr64_fits _ _ Hq) as Fn. cbn [uint64_add uint64_sub uint64_mul uint64_lsl uint64_rsl
    uint64_rsa uint64_not uint64_negate uint64_lt uint64_eq int64_lt int64_negative uint64_divrem native64].
  rewrite shiftl_mul, !shiftr_div, lnot_wrap by (assumption || lia).
  repeat match goal with |- _ /\ _ => split end.
  - now apply pair_add_ok.
  - now apply pair_sub_ok.
  - now apply pair_mul_ok.
  - now apply pair_lsl_ok.
  - now apply pair_rsl_ok.
  - now apply pair_rsa_ok.
  - now apply pair_not_ok.
  - replace (u64 (- s64 m)) with (u64 (- m)); [now apply pair_negate_ok|].
    rewrite <- (Z.sub_0_l m), <- (Z.sub_0_l (s64 m)), <- wrap_sub_r, <- (wrap_sub_r 64 _ (s64 m)).
    now rewrite wrap_swrap.
  - apply pair_int_mul32_ok.
  - now apply pair_lt_ok.
  - now apply pair_eq_ok.
  - now apply pair_int64_lt_ok.
  - now apply pair_negative_ok.
  - intros Hn. destruct (pair_divrem_ok _ _ _ _ Hp Hq) as (quo & rem & E & Hquo & Hrem);
      [unfold fits in Fn; lia|]. exists quo, rem. split; [exact E|].
    replace (n =? 0) with false by lia. eauto.
Qed.

Ltac concrete_word := repeat split; vm_compute; intuition congruence.

Lemma pair64_refines_native_witness :
  same64 (_cairo_uint64_sub (mk64 0 1) (mk64 1 0)) (uint64_sub (2 ^ 32) 1) /\
  exists quo rem, _cairo_uint64_divrem (mk64 0 1) (mk64 1 0) = Some (quo, rem) /\
    same64 quo (2 ^ 32).
Proof.
  pose proof (pair64_refines_native (mk64 0 1) (mk64 1 0) (2 ^ 32) 1 3
    ltac:(concrete_word) ltac:(concrete_word) ltac:(lia))
    as (_ & S & _ & _ & _ & _ & _ & _ & _ & _ & _ & _ & _ & D).
  split; [exact S|]. destruct (D ltac:(lia)) as (quo & rem & E & quo' & rem' & E' & Hq & _).
  exists quo, rem. split; [exact E|]. cbn in E'. injection E' as <- _. exact Hq.
Defined.

(** Signed 64-bit division truncates towards zero, the remainder having the
    numerator's sign: for both words and every non-zero denominator the
    division ends with the patterns of [Z.quot] and [Z.rem], also for the least
    integer, whose quotient by -1 wraps. *)
Theorem int64_divrem_truncates (T : Type) (H : Uint64 T) (L : Uint64Laws T) (a b : T) (x y : Z) :
  repr64 a x -> repr64 b y -> y <> 0 ->
  exists q r, _cairo_int64_divrem a b = Some (q, r) /\
    repr64 q (u64 (Z.quot (s64 x) (s64 y))) /\ repr64 r (u64 (Z.rem (s64 x) (s64 y))).
Proof.
  intros Ha Hb Hy. pose proof (swrap_nonzero 64 y (repr64_fits _ _ Hb) Hy) as Hy'.
  destruct (uint64_divrem_ok _ _ _ _ (int64_abs_ok _ _ Ha) (int64_abs_ok _ _ Hb))
    as (uq & ur & E & Hq & Hr); [lia|].
  unfold _cairo_int64_divrem. rewrite E. do 2 eexists. split; [reflexivity|].
  rewrite (int64_negative_ok _ _ Ha), (int64_negative_ok _ _ Hb).
  rewrite quot_signs, rem_signs by assumption. split; now apply int64_sign_ok.
Qed.

Lemma int64_divrem_truncates_witness :
  exists q r, _cairo_int64_divrem (mk64 (2 ^ 32 - 7) (2 ^ 32 - 1)) (mk64 2 0) = Some (q, r) /\
    repr64 q (u64 (-3)) /\ repr64 r (u64 (-1)).
Proof.
  apply (int64_divrem_truncates _ _ pair64_laws (mk64 (2 ^ 32 - 7) (2 ^ 32 - 1)) (mk64 2 0)
    (u64 (-7)) 2); [concrete_word | concrete_word | discriminate].
Defined.

(** Dividing a non-zero number by zero never ends in the pair version: the
    loop that normalises the denominator shifts a zero for ever, whatever the
    number of turns allowed. *)
Theorem pair64_div_by_zero_diverges (fuel : nat) (num den : cairo_uint64_t) (n : Z) :
  repr64 num n -> repr64 den 0 -> 0 < n -> bit_divrem fuel num den = None.
Proof.
  intros Hn Hd H0. unfold bit_divrem.
  now rewrite (div_normalize_zero (L := pair64_div_laws) fuel _ _ _ _ Hn Hd H0).
Qed.

Lemma pair64_div_by_zero_diverges_witness :
  bit_divrem div64_fuel (mk64 7 0) (mk64 0 0) = None.
Proof.
  apply (pair64_div_by_zero_diverges div64_fuel (mk64 7 0) (mk64 0 0) 7);
    [concrete_word | concrete_word | lia].
Defined.
