(* ===== verification/Wide128.v ===== *)
(** * Wide128: the 128-bit half of ns-3's [cairo-wideint]

    The functions of [cairo-wideint.c] on 128-bit numbers, written as the
    source writes them: on top of the common 64-bit names (class [Uint64]), so
    that the same text is the code compiled with the native [uint64_t] and
    with the pair of 32-bit words.  Their theorems use the promise
    [Uint64Laws] only, and hold of both.  [int64x64] of ns-3's core
    ([int64x64-cairo.cc]) computes simulation times with these functions. *)
From Stdlib Require Import ZArith Lia List Bool.
From S2P Require Import Prelude Wide64.
#[local] Open Scope Z_scope.

Record cairo_uint128_t (T : Type) := mk128 { lo128 : T; hi128 : T }.
Arguments mk128 {T} _ _.
Arguments lo128 {T} _.
Arguments hi128 {T} _.

Section Ops.
Context {T : Type} `{Uint64 T}.
#[local] Abbreviation W := (cairo_uint128_t T).

Definition _cairo_uint32_to_uint128 (i : Z) : W :=
  mk128 (uint32_to_uint64 i) (uint32_to_uint64 0).

(** [i] is an [int32_t] value. *)
Definition _cairo_int32_to_int128 (i : Z) : W :=
  mk128 (int32_to_int64 i) (int32_to_int64 (if i <? 0 then -1 else 0)).

Definition _cairo_uint64_to_uint128 (i : T) : W := mk128 i (uint32_to_uint64 0).

Definition _cairo_int64_to_int128 (i : T) : W :=
  mk128 i (int32_to_int64 (if int64_negative i then -1 else 0)).

Definition _cairo_uint128_to_uint64 (a : W) : T := lo128 a.
Definition _cairo_uint128_to_uint32 (a : W) : Z := uint64_to_uint32 (lo128 a).

Definition _cairo_uint128_add (a b : W) : W :=
  let s_hi := uint64_add (hi128 a) (hi128 b) in
  let s_lo := uint64_add (lo128 a) (lo128 b) in
  mk128 s_lo (if uint64_lt s_lo (lo128 a) then uint64_add s_hi (uint32_to_uint64 1) else s_hi).

Definition _cairo_uint128_sub (a b : W) : W :=
  let s_hi := uint64_sub (hi128 a) (hi128 b) in
  let s_lo := uint64_sub (lo128 a) (lo128 b) in
  mk128 s_lo (if uint64_gt s_lo (lo128 a) then uint64_sub s_hi (uint32_to_uint64 1) else s_hi).

Definition _cairo_uint64x64_128_mul (a b : T) : W :=
  let al := uint64_lo32 a in
  let ah := uint64_hi32 a in
  let bl := uint64_lo32 b in
  let bh := uint64_hi32 b in
  let r0 := uint32x32_64_mul al bl in
  let r1 := uint32x32_64_mul al bh in
  let r2 := uint32x32_64_mul ah bl in
  let r3 := uint32x32_64_mul ah bh in
  let r1 := uint64_add r1 (uint64_hi r0) in       (* no carry possible *)
  let r1 := uint64_add r1 r2 in                   (* but this can carry *)
  let r3 := if uint64_lt r1 r2 then uint64_add r3 uint64_carry32 else r3 in
  mk128 (uint64_add (uint64_shift32 r1) (uint64_lo r0)) (uint64_add r3 (uint64_hi r1)).

Definition _cairo_int64x64_128_mul (a b : T) : W :=
  let s := _cairo_uint64x64_128_mul a b in
  let s := if int64_negative a then mk128 (lo128 s) (uint64_sub (hi128 s) b) else s in
  if int64_negative b then mk128 (lo128 s) (uint64_sub (hi128 s) a) else s.

Definition _cairo_uint128_mul (a b : W) : W :=
  let s := _cairo_uint64x64_128_mul (lo128 a) (lo128 b) in
  let s := mk128 (lo128 s) (uint64_add (hi128 s) (uint64_mul (lo128 a) (hi128 b))) in
  mk128 (lo128 s) (uint64_add (hi128 s) (uint64_mul (hi128 a) (lo128 b))).

Definition _cairo_uint128_lsl (a : W) (shift : Z) : W :=
  let '(a, shift) :=
    if 64 <=? shift then (mk128 (uint32_to_uint64 0) (lo128 a), shift - 64) else (a, shift) in
  if negb (shift =? 0)
  then mk128 (uint64_lsl (lo128 a) shift)
             (uint64_add (uint64_lsl (hi128 a) shift) (uint64_rsl (lo128 a) (64 - shift)))
  else a.

Definition _cairo_uint128_rsl (a : W) (shift : Z) : W :=
  let '(a, shift) :=
    if 64 <=? shift then (mk128 (hi128 a) (uint32_to_uint64 0), shift - 64) else (a, shift) in
  if negb (shift =? 0)
  then mk128 (uint64_add (uint64_rsl (lo128 a) shift) (uint64_lsl (hi128 a) (64 - shift)))
             (uint64_rsl (hi128 a) shift)
  else a.

Definition _cairo_uint128_rsa (a : W) (shift : Z) : W :=
  let '(a, shift) :=
    if 64 <=? shift then (mk128 (hi128 a) (uint64_rsa (hi128 a) (64 - 1)), shift - 64)
    else (a, shift) in
  if negb (shift =? 0)
  then mk128 (uint64_add (uint64_rsl (lo128 a) shift) (uint64_lsl (hi128 a) (64 - shift)))
             (uint64_rsa (hi128 a) shift)
  else a.

Definition _cairo_uint128_lt (a b : W) : bool :=
  uint64_lt (hi128 a) (hi128 b)
  || (uint64_eq (hi128 a) (hi128 b) && uint64_lt (lo128 a) (lo128 b)).

Definition _cairo_int128_negative (a : W) : bool := int64_negative (hi128 a).

Definition _cairo_int128_lt (a b : W) : bool :=
  if _cairo_int128_negative a && negb (_cairo_int128_negative b) then true
  else if negb (_cairo_int128_negative a) && _cairo_int128_negative b then false
  else _cairo_uint128_lt a b.

Definition _cairo_uint128_eq (a b : W) : bool :=
  uint64_eq (hi128 a) (hi128 b) && uint64_eq (lo128 a) (lo128 b).

#[export] Instance word128_div : DivWord W := {
  dw_lt := _cairo_uint128_lt;
  dw_le a b := negb (_cairo_uint128_lt b a);
  dw_msbset a := msbset64 (hi128 a);
  dw_is0 a := _cairo_uint128_eq a (_cairo_uint32_to_uint128 0);
  dw_lsl1 a := _cairo_uint128_lsl a 1;
  dw_rsl1 a := _cairo_uint128_rsl a 1;
  dw_add := _cairo_uint128_add;
  dw_sub := _cairo_uint128_sub;
  dw_one := _cairo_uint32_to_uint128 1;
  dw_zero := _cairo_uint32_to_uint128 0
}.

(** As [div64_fuel], for 128 bits. *)
Definition div128_fuel : nat := 129.

Definition _cairo_uint128_divrem (num den : W) : option (W * W) :=
  bit_divrem div128_fuel num den.

Definition _cairo_int128_negate (a : W) : W :=
  _cairo_uint128_add (mk128 (uint64_not (lo128 a)) (uint64_not (hi128 a)))
                     (_cairo_uint32_to_uint128 1).

Definition _cairo_int128_not (a : W) : W :=
  mk128 (uint64_not (lo128 a)) (uint64_not (hi128 a)).

Definition _cairo_int128_divrem (num den : W) : option (W * W) :=
  let num_neg := _cairo_int128_negative num in
  let den_neg := _cairo_int128_negative den in
  let num := if num_neg then _cairo_int128_negate num else num in
  let den := if den_neg then _cairo_int128_negate den else den in
  match _cairo_uint128_divrem num den with
  | Some (uquo, urem) =>
      let qr_rem := if num_neg then _cairo_int128_negate urem else urem in
      let qr_quo := if negb (eqb num_neg den_neg) then _cairo_int128_negate uquo else uquo in
      Some (qr_quo, qr_rem)
  | None => None
  end.

(** The branch of [_cairo_uint_96by64_32x64_divrem] that needs two divisions:
    [x] is the high 64 bits of the 96-bit [num], [u], [v] the halves of [den]. *)
Definition divrem_96by64_long (num : W) (den x : T) : option (T * T) :=
  let y := _cairo_uint128_to_uint32 num in
  let u := uint64_hi32 den in
  let v := uint64_to_uint32 den in
  match
    (if negb (u32 (u + 1) =? 0)
     then match uint64_divrem x (uint32_to_uint64 (u32 (u + 1))) with
          | Some (quo, rem) => Some (uint64_to_uint32 quo, uint64_to_uint32 rem)
          | None => None
          end
     else Some (uint64_hi32 x, uint64_to_uint32 x))
  with
  | None => None
  | Some (q, r) =>
      let quotient := q in
      match
        (if negb (v =? 0)
         then uint64_divrem (uint32x32_64_mul q (u32 (- v))) den
         else uint64_divrem (uint32s_to_uint64 q 0) den)
      with
      | None => None
      | Some (quorem_quo, quorem_rem) =>
          let quotient := u32 (quotient + uint64_to_uint32 quorem_quo) in
          let remainder := uint32s_to_uint64 r y in
          let '(remainder, quotient) :=
            if uint64_ge remainder den
            then (uint64_sub remainder den, u32 (quotient + 1)) else (remainder, quotient) in
          let remainder := uint64_add remainder quorem_rem in
          let '(remainder, quotient) :=
            if uint64_ge remainder den || uint64_lt remainder quorem_rem
            then (uint64_sub remainder den, u32 (quotient + 1)) else (remainder, quotient) in
          Some (uint32_to_uint64 quotient, remainder)
      end
  end.

(** Quotient and remainder. *)
Definition _cairo_uint_96by64_32x64_divrem (num : W) (den : T) : option (T * T) :=
  let B := uint32s_to_uint64 1 0 in
  let x := _cairo_uint128_to_uint64 (_cairo_uint128_rsl num 32) in
  if uint64_ge x den
  then Some (uint32s_to_uint64 (u32 (-1)) (u32 (-1)), den)
  else if uint64_lt x B
  then uint64_divrem (_cairo_uint128_to_uint64 num) den
  else divrem_96by64_long num den x.

Definition _cairo_int_96by64_32x64_divrem (num : W) (den : T) : option (T * T) :=
  let num_neg := _cairo_int128_negative num in
  let den_neg := int64_negative den in
  let num := if num_neg then _cairo_int128_negate num else num in
  let nonneg_den := if den_neg then uint64_negate den else den in
  match _cairo_uint_96by64_32x64_divrem num nonneg_den with
  | None => None
  | Some (uquo, urem) =>
      if uint64_eq urem nonneg_den
      then Some (uint32s_to_uint64 2147483647 (u32 (-1)), den)
      else
        let qr_rem := if num_neg then uint64_negate urem else urem in
        let qr_quo := if negb (eqb num_neg den_neg) then uint64_negate uquo else uquo in
        Some (qr_quo, qr_rem)
  end.
End Ops.

(** ** Small checks: both word implementations, on concrete numbers *)
Example ex_mul128 : _cairo_uint64x64_128_mul (2 ^ 64 - 1) (2 ^ 64 - 1) = mk128 1 (2 ^ 64 - 2).
Proof. vm_compute. reflexivity. Qed.
Example ex_mul128_pair :
  _cairo_uint64x64_128_mul (mk64 4294967295 4294967295) (mk64 4294967295 4294967295)
  = mk128 (mk64 1 0) (mk64 4294967294 4294967295).
Proof. vm_compute. reflexivity. Qed.
Example ex_div96 : _cairo_uint_96by64_32x64_divrem (mk128 7 100) (2 ^ 40)
  = Some (100 * 2 ^ 24, 7).
Proof. vm_compute. reflexivity. Qed.

(** ** The 128-bit operations compute modulo [2^128] *)

Section Laws.
Context {T : Type} `{L : Uint64Laws T}.

(** [p] stands for [z]. *)
Definition repr128 (p : cairo_uint128_t T) (z : Z) : Prop :=
  exists l h, repr64 (lo128 p) l /\ repr64 (hi128 p) h /\ z = h * 2 ^ 64 + l.

Lemma repr128_intro lo hi l h z : repr64 lo l -> repr64 hi h -> z = h * 2 ^ 64 + l ->
  repr128 (mk128 lo hi) z.
Proof. intros. exists l, h. auto. Qed.

Lemma repr128_fits a x : repr128 a x -> fits 128 x.
Proof.
  intros (l & h & Hl & Hh & ->). apply repr64_fits in Hl, Hh. unfold fits in *. pow2. lia.
Qed.

Lemma pow128_square : 2 ^ 128 = 2 ^ 64 * 2 ^ 64.
Proof. reflexivity. Qed.

Lemma wrap128_double h l : fits 64 l -> wrap 128 (h * 2 ^ 64 + l) = u64 h * 2 ^ 64 + l.
Proof. intros. unfold wrap. rewrite pow128_square. now apply double_mod. Qed.

Lemma repr64_eq a x y : repr64 a x -> x = y -> repr64 a y.
Proof. now intros ? <-. Qed.

Lemma uint32_ok i : fits 32 i -> repr64 (uint32_to_uint64 i) i.
Proof. apply uint32_to_uint64_ok. Qed.

Lemma fits_0_1 w : 0 < w -> fits w 0 /\ fits w 1.
Proof. intros. pose proof (Z.pow_gt_1 2 w ltac:(lia)). unfold fits. lia. Qed.

Lemma repr64_0 : repr64 (uint32_to_uint64 0) 0.
Proof. apply uint32_ok, fits_0_1. lia. Qed.

Lemma repr64_1 : repr64 (uint32_to_uint64 1) 1.
Proof. apply uint32_ok, fits_0_1. lia. Qed.

Lemma uint128_add_ok a b x y : repr128 a x -> repr128 b y ->
  repr128 (_cairo_uint128_add a b) (wrap 128 (x + y)).
Proof.
  intros (la & ha & La & Ha & ->) (lb & hb & Lb & Hb & ->). unfold _cairo_uint128_add.
  rewrite (uint64_lt_ok _ _ _ _ (uint64_add_ok _ _ _ _ La Lb) La).
  unfold wrap at 2. rewrite pow128_square, double_add
    by first [eapply repr64_fits; eassumption | reflexivity].
  eapply repr128_intro; [exact (uint64_add_ok _ _ _ _ La Lb) | | reflexivity].
  change ((la + lb) mod 2 ^ 64) with (u64 (la + lb)). destruct (_ <? _).
  - apply uint64_add_ok; [now apply uint64_add_ok | apply repr64_1].
  - rewrite Zmod_mod. now apply uint64_add_ok.
Qed.

Lemma uint128_sub_ok a b x y : repr128 a x -> repr128 b y ->
  repr128 (_cairo_uint128_sub a b) (wrap 128 (x - y)).
Proof.
  intros (la & ha & La & Ha & ->) (lb & hb & Lb & Hb & ->). unfold _cairo_uint128_sub, uint64_gt.
  rewrite (uint64_lt_ok _ _ _ _ La (uint64_sub_ok _ _ _ _ La Lb)).
  unfold wrap at 2. rewrite pow128_square, double_sub
    by first [eapply repr64_fits; eassumption | reflexivity].
  eapply repr128_intro; [exact (uint64_sub_ok _ _ _ _ La Lb) | | reflexivity].
  change ((la - lb) mod 2 ^ 64) with (u64 (la - lb)). destruct (_ <? _).
  - apply uint64_sub_ok; [now apply uint64_sub_ok | apply repr64_1].
  - rewrite Zmod_mod. now apply uint64_sub_ok.
Qed.

Lemma lo32_div x : fits 64 x -> fits 32 (x mod 2 ^ 32) /\ fits 32 (x / 2 ^ 32).
Proof. unfold fits. intros. pow2. split; zmod_lia. Qed.

(** The 64x64 product is exact. *)
Lemma uint64x64_128_mul_ok a b x y : repr64 a x -> repr64 b y ->
  repr128 (_cairo_uint64x64_128_mul a b) (x * y).
Proof.
  intros Ha Hb. unfold _cairo_uint64x64_128_mul.
  rewrite !(uint64_lo32_ok _ _ Ha), !(uint64_hi32_ok _ _ Ha),
    !(uint64_lo32_ok _ _ Hb), !(uint64_hi32_ok _ _ Hb).
  destruct (lo32_div x (repr64_fits _ _ Ha)) as [Hal Hah].
  destruct (lo32_div y (repr64_fits _ _ Hb)) as [Hbl Hbh].
  assert (Ex : x = x / 2 ^ 32 * 2 ^ 32 + x mod 2 ^ 32) by (pow2; zmod_lia).
  assert (Ey : y = y / 2 ^ 32 * 2 ^ 32 + y mod 2 ^ 32) by (pow2; zmod_lia).
  set (al := x mod 2 ^ 32) in *. set (ah := x / 2 ^ 32) in *.
  set (bl := y mod 2 ^ 32) in *. set (bh := y / 2 ^ 32) in *.
  clearbody al ah bl bh. subst x y. clear Ha Hb a b.
  destruct (double_mul (2 ^ 32) ltac:(reflexivity) ah al bh bl Hal Hah Hbl Hbh) as (B1 & B3 & E).
  rewrite <- pow64_square in B1, B3, E.
  pose proof (uint32x32_64_mul_ok _ _ Hal Hbl) as R0.
  pose proof (uint32x32_64_mul_ok _ _ Hal Hbh) as R1.
  pose proof (uint32x32_64_mul_ok _ _ Hah Hbl) as R2.
  pose proof (uint32x32_64_mul_ok _ _ Hah Hbh) as R3.
  pose proof (uint64_add_ok _ _ _ _ (uint64_add_ok _ _ _ _ R1 (uint64_hi_ok _ _ R0)) R2) as R1'.
  rewrite wrap_add_l in R1'. change (u64 ?z) with (z mod 2 ^ 64) in R1' at 1.
  rewrite (uint64_lt_ok _ _ _ _ R1' R2).
  set (r1 := (al * bh + al * bl / 2 ^ 32 + ah * bl) mod 2 ^ 64) in *.
  assert (R3' : repr64 (if r1 <? ah * bl
      then uint64_add (uint32x32_64_mul ah bh) uint64_carry32 else uint32x32_64_mul ah bh)
    (u64 (if r1 <? ah * bl then ah * bh + 2 ^ 32 else ah * bh))).
  { destruct (r1 <? ah * bl); [now apply uint64_add_ok, uint64_carry32_ok|].
    rewrite wrap_small; [assumption | now apply (repr64_fits _ _ R3)]. }
  eapply repr128_intro.
  - apply uint64_add_ok; [apply uint64_shift32_ok, R1' | apply uint64_lo_ok, R0].
  - apply uint64_add_ok; [apply R3' | apply uint64_hi_ok, R1'].
  - rewrite E, wrap_add_l, (mul_pow_wrap 64 32) by lia. change (64 - 32) with 32.
    pose proof (Z.mod_pos_bound r1 (2 ^ 32) ltac:(reflexivity)).
    pose proof (Z.mod_pos_bound (al * bl) (2 ^ 32) ltac:(reflexivity)).
    f_equal; [f_equal|]; symmetry; apply wrap_small; [exact B3|].
    unfold fits. pow2. lia.
Qed.

Lemma repr128_hi_wrap lo hi l h z : repr64 lo l -> repr64 hi (u64 h) ->
  z = wrap 128 (h * 2 ^ 64 + l) -> repr128 (mk128 lo hi) z.
Proof.
  intros Hl Hh ->. apply (repr128_intro _ _ _ _ _ Hl Hh).
  apply wrap128_double. eapply repr64_fits, Hl.
Qed.

Lemma wrap128_shift h : wrap 128 (u64 h * 2 ^ 64) = wrap 128 (h * 2 ^ 64).
Proof.
  pose proof (fun h => wrap128_double h 0 (proj1 (fits_0_1 64 eq_refl))) as E.
  setoid_rewrite Z.add_0_r in E. now rewrite !E, wrap_wrap.
Qed.

Lemma uint128_mul_ok a b x y : repr128 a x -> repr128 b y ->
  repr128 (_cairo_uint128_mul a b) (wrap 128 (x * y)).
Proof.
  intros (la & ha & La & Ha & ->) (lb & hb & Lb & Hb & ->). unfold _cairo_uint128_mul.
  destruct (uint64x64_128_mul_ok _ _ _ _ La Lb) as (l & h & Hl & Hh & E).
  destruct (_cairo_uint64x64_128_mul (lo128 a) (lo128 b)) as [ml mh]; cbn [lo128 hi128] in *.
  pose proof (uint64_add_ok _ _ _ _ (uint64_add_ok _ _ _ _ Hh (uint64_mul_ok _ _ _ _ La Hb))
    (uint64_mul_ok _ _ _ _ Ha Lb)) as R.
  autorewrite with cint in R. apply (repr128_hi_wrap _ _ _ _ _ Hl R).
  replace ((ha * 2 ^ 64 + la) * (hb * 2 ^ 64 + lb))
    with ((h + la * hb + ha * lb) * 2 ^ 64 + l + ha * hb * 2 ^ 128)
    by (rewrite pow128_square; transitivity (h * 2 ^ 64 + l + (la * hb + ha * lb) * 2 ^ 64
      + ha * hb * (2 ^ 64 * 2 ^ 64)); [ring | rewrite <- E; ring]).
  unfold wrap. now rewrite Z_mod_plus_full.
Qed.

(** Signed products: the unsigned one, corrected by the other factor. *)
Lemma int64x64_128_mul_ok a b x y : repr64 a x -> repr64 b y ->
  repr128 (_cairo_int64x64_128_mul a b) (wrap 128 (s64 x * s64 y)).
Proof.
  intros Ha Hb. unfold _cairo_int64x64_128_mul.
  rewrite (int64_negative_ok _ _ Ha), (int64_negative_ok _ _ Hb).
  destruct (uint64x64_128_mul_ok _ _ _ _ Ha Hb) as (l & h & Hl & Hh & E).
  destruct (_cairo_uint64x64_128_mul a b) as [ml mh]; cbn [lo128 hi128] in *.
  assert (S : forall z, fits 64 z -> s64 z = if s64 z <? 0 then z - 2 ^ 64 else z).
  { intros z Hz. unfold swrap. rewrite wrap_small by assumption. unfold fits in Hz.
    cbv zeta. change (64 - 1) with 63. pow2. destruct (z <? _) eqn:?; case_if; lia. }
  pose proof (S x (repr64_fits _ _ Ha)) as Sx. pose proof (S y (repr64_fits _ _ Hb)) as Sy.
  assert (R : forall k c z, c = l + 2 ^ 64 * h - k * 2 ^ 64 + z * 2 ^ 128 ->
    wrap 128 c = wrap 128 ((h - k) * 2 ^ 64 + l)).
  { intros k c z ->. unfold wrap. rewrite Z_mod_plus_full. f_equal. ring. }
  pose proof (fun h => wrap_sub_l 64 h) as Ws.
  destruct (s64 x <? 0), (s64 y <? 0); cbn [lo128 hi128]; rewrite Sx, Sy.
  - apply (repr128_hi_wrap _ _ l (h - (y + x))); [assumption | |].
    + eapply repr64_eq; [apply uint64_sub_ok; [apply uint64_sub_ok|]; eassumption|].
      rewrite Ws. f_equal. ring.
    + apply R with 1. rewrite pow128_square. lia.
  - apply (repr128_hi_wrap _ _ l (h - y)); [assumption | now apply uint64_sub_ok |].
    apply R with 0. lia.
  - apply (repr128_hi_wrap _ _ l (h - x)); [assumption | now apply uint64_sub_ok |].
    apply R with 0. lia.
  - eapply repr128_intro; [eassumption..|]. rewrite E. apply wrap_small. rewrite <- E.
    apply repr64_fits in Ha, Hb. unfold fits in *. rewrite pow128_square. pow2. nia.
Qed.

Lemma pow128_double_shift h l : fits 64 l -> wrap 128 ((h * 2 ^ 64 + l) * 2 ^ 64) = l * 2 ^ 64.
Proof.
  intros Hl. unfold wrap. rewrite pow128_square.
  rewrite Z.mul_mod_distr_r by discriminate. f_equal. now apply double_rem.
Qed.

Lemma uint128_lsl_ok a x n : repr128 a x -> 0 <= n < 128 ->
  repr128 (_cairo_uint128_lsl a n) (wrap 128 (x * 2 ^ n)).
Proof.
  intros Ha Hn. unfold _cairo_uint128_lsl.
  assert (S : forall b y m, repr128 b y -> 0 <= m < 64 ->
    repr128 (if negb (m =? 0)
      then mk128 (uint64_lsl (lo128 b) m)
             (uint64_add (uint64_lsl (hi128 b) m) (uint64_rsl (lo128 b) (64 - m)))
      else b) (wrap 128 (y * 2 ^ m))).
  { intros b y m Hb Hm. destruct (Z.eqb_spec m 0) as [->|]; cbn [negb].
    - rewrite Z.mul_1_r, wrap_small; [assumption|]. eapply repr128_fits, Hb.
    - destruct Hb as (l & h & Hl & Hh & ->).
      rewrite (double_shl 64) by (lia || eapply repr64_fits, Hl).
      eapply repr128_intro; [apply uint64_lsl_ok; [exact Hl | lia] | | reflexivity].
      eapply repr64_eq; [apply uint64_add_ok; [apply uint64_lsl_ok; [exact Hh|lia] |
        apply uint64_rsl_ok; [exact Hl|lia]]|].
      apply wrap_small. apply repr64_fits in Hl.
      pose proof (div_pow_lt 64 (64 - m) l ltac:(lia) Hl) as Q.
      pose proof (mul_pow_wrap 64 (64 - m) h ltac:(lia)) as Ew.
      pose proof (pow2_pos (64 - m) ltac:(lia)) as P.
      pose proof (Z.mod_pos_bound h (2 ^ (64 - m)) P) as Bh.
      replace (64 - (64 - m)) with m in * by lia. rewrite Ew. unfold fits.
      replace (2 ^ 64) with (2 ^ (64 - m) * 2 ^ m)
        by (rewrite <- Z.pow_add_r by lia; f_equal; lia). nia. }
  destruct (Z.leb_spec 64 n); [|now apply S].
  replace (x * 2 ^ n) with (x * 2 ^ 64 * 2 ^ (n - 64))
    by (rewrite <- Z.mul_assoc, <- Z.pow_add_r by lia; do 2 f_equal; lia).
  rewrite <- wrap_mul_l. apply S; [|lia]. destruct Ha as (l & h & Hl & Hh & ->).
  apply (repr128_intro _ _ _ _ _ repr64_0 Hl). rewrite Z.add_0_r, pow128_double_shift.
  - reflexivity.
  - now apply repr64_fits in Hl.
Qed.

Lemma div_pow_split64 x n : 64 <= n -> x / 2 ^ n = x / 2 ^ 64 / 2 ^ (n - 64).
Proof.
  intros. rewrite Z.div_div by (discriminate || apply pow2_pos; lia).
  rewrite <- Z.pow_add_r by lia. do 2 f_equal. lia.
Qed.

(** The low word of a right shift by less than a word. *)
Lemma shr_low_ok a b l h n : repr64 a l -> repr64 b h -> 0 < n < 64 ->
  repr64 (uint64_add (uint64_rsl a n) (uint64_lsl b (64 - n)))
         (h mod 2 ^ n * 2 ^ (64 - n) + l / 2 ^ n).
Proof.
  intros Hl Hh Hn. eapply repr64_eq; [apply uint64_add_ok;
    [apply uint64_rsl_ok; [exact Hl|lia] | apply uint64_lsl_ok; [exact Hh|lia]]|].
  rewrite mul_pow_wrap, Z.add_comm by lia. apply wrap_small.
  apply double_shr_low; [lia | eapply repr64_fits, Hl].
Qed.

Lemma uint128_rsl_ok a x n : repr128 a x -> 0 <= n < 128 ->
  repr128 (_cairo_uint128_rsl a n) (x / 2 ^ n).
Proof.
  intros Ha Hn. unfold _cairo_uint128_rsl.
  assert (S : forall b y m, repr128 b y -> 0 <= m < 64 ->
    repr128 (if negb (m =? 0)
      then mk128 (uint64_add (uint64_rsl (lo128 b) m) (uint64_lsl (hi128 b) (64 - m)))
             (uint64_rsl (hi128 b) m)
      else b) (y / 2 ^ m)).
  { intros b y m Hb Hm. destruct (Z.eqb_spec m 0) as [->|]; cbn [negb].
    - now rewrite Z.div_1_r.
    - destruct Hb as (l & h & Hl & Hh & ->).
      rewrite (double_shr 64) by (lia || eapply repr64_fits, Hl).
      eapply repr128_intro; [apply shr_low_ok; eauto; lia |
        apply uint64_rsl_ok; [exact Hh | lia] | reflexivity]. }
  destruct (Z.leb_spec 64 n); [|now apply S].
  rewrite div_pow_split64 by assumption. apply S; [|lia].
  destruct Ha as (l & h & Hl & Hh & ->). apply (repr128_intro _ _ _ _ _ Hh repr64_0).
  rewrite double_div by (reflexivity || eapply repr64_fits, Hl). reflexivity.
Qed.

Lemma s128_double l h : fits 64 l -> fits 64 h -> swrap 128 (h * 2 ^ 64 + l) = s64 h * 2 ^ 64 + l.
Proof. intros. now apply (double_swrap 64). Qed.

Lemma u64_s64_small x : fits 64 x -> u64 (s64 x) = x.
Proof. intros. rewrite wrap_swrap. now apply wrap_small. Qed.

Lemma uint128_rsa_ok a x n : repr128 a x -> 0 <= n < 128 ->
  repr128 (_cairo_uint128_rsa a n) (wrap 128 (swrap 128 x / 2 ^ n)).
Proof.
  intros Ha Hn. unfold _cairo_uint128_rsa.
  assert (S : forall b l h m, repr64 (lo128 b) l -> repr64 (hi128 b) h -> 0 <= m < 64 ->
    repr128 (if negb (m =? 0)
      then mk128 (uint64_add (uint64_rsl (lo128 b) m) (uint64_lsl (hi128 b) (64 - m)))
             (uint64_rsa (hi128 b) m)
      else b) (wrap 128 ((s64 h * 2 ^ 64 + l) / 2 ^ m))).
  { intros [bl bh] l h m Hl Hh Hm; cbn [lo128 hi128] in *.
    pose proof (repr64_fits _ _ Hl) as Fl. pose proof (repr64_fits _ _ Hh) as Fh.
    destruct (Z.eqb_spec m 0) as [->|]; cbn [negb].
    - rewrite Z.div_1_r. apply (repr128_hi_wrap _ _ l (s64 h)); auto. now rewrite u64_s64_small.
    - rewrite (double_shr 64) by (assumption || lia).
      eapply repr128_hi_wrap; [apply shr_low_ok; eauto; lia |
        apply uint64_rsa_ok; [exact Hh | lia] |].
      assert (Em : s64 h mod 2 ^ m = h mod 2 ^ m); [|now rewrite Em].
      rewrite <- (Z.mod_mod_divide (s64 h) (2 ^ 64)), <- (Z.mod_mod_divide h (2 ^ 64)).
      + f_equal. exact (wrap_swrap 64 h).
      + exists (2 ^ (64 - m)). rewrite <- Z.pow_add_r by lia. f_equal; lia.
      + exists (2 ^ (64 - m)). rewrite <- Z.pow_add_r by lia. f_equal; lia. }
  destruct Ha as (l & h & Hl & Hh & ->).
  pose proof (repr64_fits _ _ Hl) as Fl. pose proof (repr64_fits _ _ Hh) as Fh.
  rewrite s128_double by assumption. destruct (Z.leb_spec 64 n); [|now apply S].
  rewrite div_pow_split64, double_div by (assumption || reflexivity).
  pose proof (uint64_rsa_ok _ _ 63 Hh ltac:(lia)) as Hs.
  assert (Esh : s64 h = s64 (u64 (s64 h / 2 ^ 63)) * 2 ^ 64 + h).
  { pose proof (swrap_range 64 h eq_refl) as R.
    unfold sfits, fits, swrap in *. rewrite (wrap_small 64 h) in * by assumption. cbv zeta in *.
    change (64 - 1) with 63 in *. pow2. destruct (h <? 9223372036854775808) eqn:?.
    - replace (h / 9223372036854775808) with 0 by zmod_lia. reflexivity.
    - replace ((h - 18446744073709551616) / 9223372036854775808) with (-1) by zmod_lia.
      change (h - 18446744073709551616 = -1 * 18446744073709551616 + h). ring. }
  rewrite Esh at 1. apply S; [assumption | exact Hs | lia].
Qed.

Lemma uint128_lt_ok a b x y : repr128 a x -> repr128 b y -> _cairo_uint128_lt a b = (x <? y).
Proof.
  intros (la & ha & La & Ha & ->) (lb & hb & Lb & Hb & ->). unfold _cairo_uint128_lt.
  rewrite (uint64_lt_ok _ _ _ _ La Lb), (uint64_lt_ok _ _ _ _ Ha Hb), (uint64_eq_ok _ _ _ _ Ha Hb).
  apply repr64_fits in La, Lb. symmetry. now apply double_lt.
Qed.

Lemma uint128_eq_ok a b x y : repr128 a x -> repr128 b y -> _cairo_uint128_eq a b = (x =? y).
Proof.
  intros (la & ha & La & Ha & ->) (lb & hb & Lb & Hb & ->). unfold _cairo_uint128_eq.
  rewrite (uint64_eq_ok _ _ _ _ La Lb), (uint64_eq_ok _ _ _ _ Ha Hb).
  apply repr64_fits in La, Lb. symmetry. now apply double_eqb.
Qed.

Lemma int128_negative_ok a x : repr128 a x -> _cairo_int128_negative a = (swrap 128 x <? 0).
Proof.
  intros (l & h & Hl & Hh & ->). unfold _cairo_int128_negative.
  rewrite (int64_negative_ok _ _ Hh). apply repr64_fits in Hl, Hh.
  rewrite s128_double by assumption. unfold fits in *. pow2.
  destruct (Z.ltb_spec (s64 h) 0); symmetry; lia.
Qed.

(** Signed order from the unsigned one and the two signs. *)
Lemma swrap_ltb w x y : 0 < w -> fits w x -> fits w y ->
  (if (swrap w x <? 0) && negb (swrap w y <? 0) then true
   else if negb (swrap w x <? 0) && (swrap w y <? 0) then false else x <? y)
  = (swrap w x <? swrap w y).
Proof.
  intros Hw Fx Fy. unfold swrap. rewrite !wrap_small by assumption. unfold fits in *. cbv zeta.
  assert (E : 2 ^ w = 2 * 2 ^ (w - 1)) by (rewrite <- Z.pow_succ_r by lia; f_equal; lia).
  destruct (Z.ltb_spec x (2 ^ (w - 1))), (Z.ltb_spec y (2 ^ (w - 1)));
    repeat match goal with |- context [?u <? 0] => destruct (Z.ltb_spec u 0) end; cbn; lia.
Qed.

Lemma int128_lt_ok a b x y : repr128 a x -> repr128 b y ->
  _cairo_int128_lt a b = (swrap 128 x <? swrap 128 y).
Proof.
  intros Ha Hb. unfold _cairo_int128_lt.
  rewrite (int128_negative_ok _ _ Ha), (int128_negative_ok _ _ Hb), (uint128_lt_ok _ _ _ _ Ha Hb).
  apply swrap_ltb; [lia | eapply repr128_fits; eassumption..].
Qed.

Lemma int128_not_ok a x : repr128 a x -> repr128 (_cairo_int128_not a) (2 ^ 128 - 1 - x).
Proof.
  intros (l & h & Hl & Hh & ->). unfold _cairo_int128_not.
  apply (repr128_intro _ _ _ _ _ (uint64_not_ok _ _ Hl) (uint64_not_ok _ _ Hh)).
  rewrite pow128_square. ring.
Qed.

Lemma repr128_1 : repr128 (_cairo_uint32_to_uint128 1) 1.
Proof. now apply (repr128_intro _ _ _ _ _ repr64_1 repr64_0). Qed.

Lemma repr128_0 : repr128 (_cairo_uint32_to_uint128 0) 0.
Proof. now apply (repr128_intro _ _ _ _ _ repr64_0 repr64_0). Qed.

Lemma int128_negate_ok a x : repr128 a x -> repr128 (_cairo_int128_negate a) (wrap 128 (- x)).
Proof.
  intros Ha. pose proof (uint128_add_ok _ _ _ _ (int128_not_ok _ _ Ha) repr128_1) as R.
  replace (2 ^ 128 - 1 - x + 1) with (- x + 1 * 2 ^ 128) in R by ring.
  unfold wrap in R at 1. rewrite Z_mod_plus_full in R. exact R.
Qed.

#[refine] Instance word128_div_laws : DivWordLaws (cairo_uint128_t T) := {
  dw_bits := 128; dw_repr := repr128
}.
Proof.
  - reflexivity.
  - exact repr128_fits.
  - exact uint128_lt_ok.
  - cbn. intros a b x y Ha Hb. rewrite (uint128_lt_ok _ _ _ _ Hb Ha). lia.
  - cbn [dw_msbset word128_div]. intros a x (l & h & Hl & Hh & ->).
    rewrite (msbset64_ok _ _ Hh). apply repr64_fits in Hl, Hh. unfold fits in *.
    change (128 - 1) with 127. pow2. lia.
  - cbn. intros a x Ha. now rewrite (uint128_eq_ok _ _ _ _ Ha repr128_0).
  - intros a x Ha. now apply (uint128_lsl_ok a x 1).
  - intros a x Ha. now apply (uint128_rsl_ok a x 1).
  - exact uint128_add_ok.
  - exact uint128_sub_ok.
  - exact repr128_1.
  - exact repr128_0.
Defined.

Lemma uint128_divrem_ok a b x y : repr128 a x -> repr128 b y -> 0 < y ->
  exists q r, _cairo_uint128_divrem a b = Some (q, r) /\ repr128 q (x / y) /\ repr128 r (x mod y).
Proof.
  intros Ha Hb Hy.
  pose proof (bit_divrem_ok (L := word128_div_laws) div128_fuel a b x y Ha Hb Hy) as B.
  apply B. cbn. lia.
Qed.

Lemma int128_abs_ok a x : repr128 a x ->
  repr128 (if _cairo_int128_negative a then _cairo_int128_negate a else a) (Z.abs (swrap 128 x)).
Proof.
  intros Ha. rewrite (int128_negative_ok _ _ Ha), (swrap_abs 128) by (lia || eapply repr128_fits, Ha).
  destruct (_ <? 0); [now apply int128_negate_ok | assumption].
Qed.

Lemma int128_sign_ok (c : bool) a x : repr128 a x ->
  repr128 (if c then _cairo_int128_negate a else a) (wrap 128 (if c then - x else x)).
Proof.
  intros Ha. destruct c; [now apply int128_negate_ok|].
  now rewrite wrap_small by (eapply repr128_fits, Ha).
Qed.

(** The estimate of the long branch: with [x = q (u+1) + r] the quotient is
    [q] plus the contributions of [q (B - v)] and of [r B + y]. *)
Lemma estimate_split B x y u v q r : x = q * (u + 1) + r ->
  x * B + y = q * (u * B + v) + (q * (B - v) + (r * B + y)).
Proof. intros ->. ring. Qed.

(** The first estimate: either a division by [u + 1] or, when that wraps to
    zero, the two halves of [x]. *)
Lemma estimate_ok xw x u : repr64 xw x -> fits 32 u -> x < (u + 1) * 2 ^ 32 ->
  exists q r, (if negb (u32 (u + 1) =? 0)
     then match uint64_divrem xw (uint32_to_uint64 (u32 (u + 1))) with
          | Some (quo, rem) => Some (uint64_to_uint32 quo, uint64_to_uint32 rem)
          | None => None
          end
     else Some (uint64_hi32 xw, uint64_to_uint32 xw)) = Some (q, r) /\
    x = q * (u + 1) + r /\ 0 <= r <= u /\ fits 32 q.
Proof.
  intros Hx Hu Hlt. pose proof (repr64_fits _ _ Hx) as Fx. unfold fits in *.
  destruct (Z_lt_dec (u + 1) (2 ^ 32)).
  - rewrite (wrap_small 32 (u + 1)) by (unfold fits; lia).
    replace (u + 1 =? 0) with false by lia. cbn [negb].
    destruct (uint64_divrem_ok xw (uint32_to_uint64 (u + 1)) x (u + 1)) as (qw & rw & -> & Hq & Hr);
      [assumption | apply uint32_ok; unfold fits; lia | lia |].
    rewrite (uint64_to_uint32_ok _ _ Hq), (uint64_to_uint32_ok _ _ Hr).
    pose proof (Z.mod_pos_bound x (u + 1) ltac:(lia)).
    assert (0 <= x / (u + 1) < 2 ^ 32)
      by (split; [apply Z.div_pos; lia | apply Z.div_lt_upper_bound; lia]).
    rewrite !wrap_small by (unfold fits; lia). do 2 eexists. split; [reflexivity|].
    pose proof (Z.div_mod x (u + 1) ltac:(lia)). lia.
  - replace (u + 1) with (2 ^ 32) by lia. change (u32 (2 ^ 32) =? 0) with true. cbn [negb].
    rewrite (uint64_hi32_ok _ _ Hx), (uint64_to_uint32_ok _ _ Hx).
    do 2 eexists. split; [reflexivity|]. unfold wrap. pow2. zmod_lia.
Qed.

(** The main term's contribution: [q (B - v)], which is [q * -v] on 32 bits
    unless [v] is zero. *)
Lemma main_term_ok q v dw d : fits 32 q -> fits 32 v -> repr64 dw d -> 0 < d ->
  exists mq mr, (if negb (v =? 0)
         then uint64_divrem (uint32x32_64_mul q (u32 (- v))) dw
         else uint64_divrem (uint32s_to_uint64 q 0) dw) = Some (mq, mr) /\
    repr64 mq (q * (2 ^ 32 - v) / d) /\ repr64 mr (q * (2 ^ 32 - v) mod d).
Proof.
  intros Hq Hv Hd Hd0. destruct (Z.eqb_spec v 0) as [->|]; cbn [negb].
  - apply uint64_divrem_ok; [|assumption..]. rewrite Z.sub_0_r, <- Z.add_0_r.
    apply uint32s_to_uint64_ok; [assumption | now apply fits_0_1].
  - apply uint64_divrem_ok; [|assumption..].
    replace (2 ^ 32 - v) with (u32 (- v)).
    + apply uint32x32_64_mul_ok; auto with cint.
    + unfold wrap. rewrite <- (Z_mod_plus_full _ 1). unfold fits in *. rewrite Z.mod_small; lia.
Qed.

(** One conditional subtraction of the denominator. *)
Lemma sub_once_ok rw r dw d quot : repr64 rw r -> repr64 dw d -> 0 < d -> 0 <= r < 2 * d ->
  exists rw', (if uint64_ge rw dw then (uint64_sub rw dw, u32 (quot + 1)) else (rw, quot))
      = (rw', if d <=? r then u32 (quot + 1) else quot) /\
    repr64 rw' (r mod d) /\ r / d = c_bool (d <=? r).
Proof.
  intros Hr Hd Hd0 Hlt. unfold uint64_ge. rewrite (uint64_lt_ok _ _ _ _ Hr Hd).
  rewrite Z.leb_antisym. destruct (Z.ltb_spec r d); cbn [negb].
  - exists rw. rewrite Z.mod_small, Z.div_small by lia. auto.
  - exists (uint64_sub rw dw). rewrite <- (Z_mod_plus_full r (-1)), (Z.mod_small (r + _)) by lia.
    split; [reflexivity|]. split; [|symmetry; apply Z.div_unique with (r - d); cbn; lia].
    eapply repr64_eq; [eapply uint64_sub_ok; eassumption|]. apply repr64_fits in Hr, Hd. unfold fits in *.
    rewrite wrap_small; unfold fits; lia.
Qed.

(** The "funky test": after adding the main term's remainder, which may
    overflow, the denominator is subtracted when the true sum reaches it. *)
Lemma funky_ok rw r mw m dw d quot : repr64 rw r -> repr64 mw m -> repr64 dw d ->
  r < d -> m < d ->
  let s := uint64_add rw mw in
  exists rw', (if uint64_ge s dw || uint64_lt s mw
      then (uint64_sub s dw, u32 (quot + 1)) else (s, quot))
      = (rw', if d <=? r + m then u32 (quot + 1) else quot) /\
    repr64 rw' ((r + m) mod d) /\ (r + m) / d = c_bool (d <=? r + m).
Proof.
  intros Hr Hm Hd Lr Lm s. pose proof (uint64_add_ok _ _ _ _ Hr Hm) as Hs. fold s in Hs.
  unfold uint64_ge. rewrite (uint64_lt_ok _ _ _ _ Hs Hd), (uint64_lt_ok _ _ _ _ Hs Hm).
  pose proof (uint64_sub_ok _ _ _ _ Hs Hd) as Hsub. rewrite wrap_sub_l in Hsub.
  apply repr64_fits in Hr, Hm, Hd. unfold fits in *.
  assert (C : negb (u64 (r + m) <? d) || (u64 (r + m) <? m) = (d <=? r + m)).
  { unfold wrap. destruct (Z_lt_dec (r + m) (2 ^ 64)).
    - rewrite Z.mod_small by lia. lia.
    - rewrite <- (Z_mod_plus_full _ (-1)), Z.mod_small by lia. lia. }
  rewrite C. destruct (Z.leb_spec d (r + m)); eexists; (split; [reflexivity|]).
  - rewrite <- (Z_mod_plus_full (r + m) (-1)), (Z.mod_small (r + m + _)) by lia. split.
    + eapply repr64_eq; [exact Hsub|]. rewrite wrap_small; unfold fits; lia.
    + symmetry. apply Z.div_unique with (r + m - d); cbn; lia.
  - rewrite Z.mod_small, Z.div_small by lia. split; [|reflexivity].
    eapply repr64_eq; [exact Hs|]. apply wrap_small. unfold fits. lia.
Qed.

(** The 32-bit counter of the quotient does not wrap. *)
Lemma quotient_count q k (b0 b1 : bool) t : q + k + c_bool b0 + c_bool b1 = t ->
  0 <= q -> 0 <= k -> t < 2 ^ 32 ->
  let k1 := u32 (q + u32 k) in
  let k2 := if b0 then u32 (k1 + 1) else k1 in
  (if b1 then u32 (k2 + 1) else k2) = t.
Proof.
  intros <- ? ? ?. unfold c_bool in *.
  assert (0 <= (if b0 then 1 else 0) /\ 0 <= (if b1 then 1 else 0)) by (destruct b0, b1; lia).
  cbv zeta. rewrite (wrap_small 32 k) by (unfold fits; lia).
  rewrite (wrap_small 32 (q + k)) by (unfold fits; lia).
  destruct b0, b1; rewrite ?(wrap_small 32 (q + k + 1)) by (unfold fits; lia);
    rewrite ?wrap_small by (unfold fits; lia); lia.
Qed.

(** The four contributions add up to the division. *)
Lemma long_division_eq n q d m t : 0 < d -> n = q * d + (m + t) ->
  n / d = q + m / d + t / d + (t mod d + m mod d) / d /\
  n mod d = (t mod d + m mod d) mod d.
Proof.
  intros Hd Hn. pose proof (Z.div_mod m d ltac:(lia)). pose proof (Z.div_mod t d ltac:(lia)).
  pose proof (Z.div_mod (t mod d + m mod d) d ltac:(lia)).
  pose proof (Z.mod_pos_bound (t mod d + m mod d) d ltac:(lia)). split.
  - symmetry. apply Z.div_unique with ((t mod d + m mod d) mod d); lia.
  - symmetry. apply Z.mod_unique with (q + m / d + t / d + (t mod d + m mod d) / d); lia.
Qed.

Lemma uint128_to_uint32_ok a x : repr128 a x -> _cairo_uint128_to_uint32 a = x mod 2 ^ 32.
Proof.
  intros (l & h & Hl & Hh & ->). unfold _cairo_uint128_to_uint32.
  rewrite (uint64_to_uint32_ok _ _ Hl). unfold wrap. pow2. zmod_lia.
Qed.

(** The low word is the number when it fits. *)
Lemma uint128_to_uint64_ok a x : repr128 a x -> x < 2 ^ 64 -> repr64 (_cairo_uint128_to_uint64 a) x.
Proof.
  intros (l & h & Hl & Hh & ->) Hx. eapply repr64_eq; [exact Hl|].
  apply repr64_fits in Hl, Hh. unfold fits in *. pow2. lia.
Qed.

Lemma divrem_96by64_long_ok num n dw d xw : repr128 num n -> repr64 dw d ->
  repr64 xw (n / 2 ^ 32) -> 2 ^ 32 <= d -> n / 2 ^ 32 < d ->
  exists q r, divrem_96by64_long num dw xw = Some (q, r) /\ repr64 q (n / d) /\ repr64 r (n mod d).
Proof.
  intros Hn Hd Hx Hd32 Hxd. destruct (lo32_div d (repr64_fits _ _ Hd)) as [Fv Fu].
  unfold divrem_96by64_long.
  rewrite (uint128_to_uint32_ok _ _ Hn), (uint64_hi32_ok _ _ Hd), (uint64_to_uint32_ok _ _ Hd).
  change (u32 d) with (d mod 2 ^ 32).
  assert (En : n = n / 2 ^ 32 * 2 ^ 32 + n mod 2 ^ 32) by (pow2; zmod_lia).
  assert (Ed : d = d / 2 ^ 32 * 2 ^ 32 + d mod 2 ^ 32) by (pow2; zmod_lia).
  assert (Fy : fits 32 (n mod 2 ^ 32)) by (apply wrap_fits; lia).
  set (x := n / 2 ^ 32) in *. set (y := n mod 2 ^ 32) in *.
  set (u := d / 2 ^ 32) in *. set (v := d mod 2 ^ 32) in *. clearbody x y u v.
  unfold fits in *.
  destruct (estimate_ok xw x u Hx Fu ltac:(lia)) as (q & r & -> & Ex & Hr & Fq).
  destruct (main_term_ok q v dw d Fq Fv Hd ltac:(lia)) as (mq & mr & -> & Hmq & Hmr).
  destruct (sub_once_ok (uint32s_to_uint64 r y) (r * 2 ^ 32 + y) dw d
      (u32 (q + uint64_to_uint32 mq))) as (rw & -> & Hrw & Ec0);
    [apply uint32s_to_uint64_ok; unfold fits; lia | assumption | lia | nia |].
  set (m := q * (2 ^ 32 - v)) in *. set (t := r * 2 ^ 32 + y) in *.
  pose proof (Z.mod_pos_bound m d ltac:(lia)). pose proof (Z.mod_pos_bound t d ltac:(lia)).
  match goal with |- context [if uint64_ge _ _ || _ then (_, u32 (?k + 1)) else _] =>
    destruct (funky_ok rw (t mod d) mr (m mod d) dw d k Hrw Hmr Hd ltac:(lia) ltac:(lia))
      as (rw' & -> & Hrw' & Ec1) end.
  do 2 eexists. split; [reflexivity|].
  destruct (long_division_eq n q d m t) as [Eq Er];
    [lia | subst m t; rewrite En, Ed; now apply estimate_split |].
  rewrite Er, Eq. split; [|assumption].
  assert (n / d < 2 ^ 32) by (apply Z.div_lt_upper_bound; [lia|]; rewrite En; nia).
  unfold fits in Fq. assert (0 <= m / d) by (apply Z.div_pos; [apply Z.mul_nonneg_nonneg; lia | lia]).
  rewrite (uint64_to_uint32_ok _ _ Hmq). rewrite Ec0, Ec1 in *.
  erewrite quotient_count; [apply uint32_ok; unfold fits | reflexivity | ..]; unfold c_bool in *.
  all: repeat case_if; lia.
Qed.

Lemma quotient_fits_32 n d : 0 <= n -> 0 <= d -> (n / 2 ^ 32 <? d) = (n <? d * 2 ^ 32).
Proof.
  intros. pose proof (Z.div_mod n (2 ^ 32) ltac:(lia)).
  pose proof (Z.mod_pos_bound n (2 ^ 32) ltac:(lia)).
  destruct (Z.ltb_spec (n / 2 ^ 32) d), (Z.ltb_spec n (d * 2 ^ 32)); try reflexivity; lia.
Qed.

(** Short, long and overflow branches together; a zero denominator takes the
    overflow branch. *)
Lemma uint_96by64_ok num n dw d : repr128 num n -> repr64 dw d -> n < 2 ^ 96 ->
  exists q r, _cairo_uint_96by64_32x64_divrem num dw = Some (q, r) /\
    repr64 q (if n <? d * 2 ^ 32 then n / d else 2 ^ 64 - 1) /\
    repr64 r (if n <? d * 2 ^ 32 then n mod d else d).
Proof.
  intros Hn Hd Hn96. pose proof (repr128_fits _ _ Hn) as Fn.
  pose proof (repr64_fits _ _ Hd) as Fd. unfold fits in Fn, Fd.
  unfold _cairo_uint_96by64_32x64_divrem, uint64_ge.
  assert (Hx : repr64 (_cairo_uint128_to_uint64 (_cairo_uint128_rsl num 32)) (n / 2 ^ 32)).
  { apply uint128_to_uint64_ok; [apply uint128_rsl_ok; [assumption | lia] |].
    apply Z.div_lt_upper_bound; [lia|]. pow2. lia. }
  assert (HB : repr64 (uint32s_to_uint64 1 0) (2 ^ 32)) by now apply (uint32s_to_uint64_ok 1 0).
  rewrite (uint64_lt_ok _ _ _ _ Hx Hd), (uint64_lt_ok _ _ _ _ Hx HB).
  rewrite quotient_fits_32 by lia. destruct (Z.ltb_spec n (d * 2 ^ 32)); cbn [negb].
  - destruct (Z.ltb_spec (n / 2 ^ 32) (2 ^ 32)).
    + apply uint64_divrem_ok; [|assumption | lia]. apply uint128_to_uint64_ok; [assumption|].
      pow2. zmod_lia.
    + apply divrem_96by64_long_ok; try assumption; pose proof (quotient_fits_32 n d); lia.
  - do 2 eexists. split; [reflexivity|]. split; [|assumption].
    now apply (uint32s_to_uint64_ok (u32 (-1)) (u32 (-1))).
Qed.
End Laws.

(** ** Properties *)

(** A concrete 128-bit word of either kind represents a concrete number. *)
Ltac concrete_word128 h l :=
  exists l, h; split; [concrete_word | split; [concrete_word | reflexivity]].

(** Multiplication is exact: the 128-bit product of two 64-bit words, and
    the signed one, lose nothing, and the product of two 128-bit words is the
    product modulo [2^128]; so do addition, subtraction and negation. *)
Theorem arith128_exact (T : Type) (H : Uint64 T) (L : Uint64Laws T)
    (a b : T) (x y : Z) (p q : cairo_uint128_t T) (m n : Z) :
  repr64 a x -> repr64 b y -> repr128 p m -> repr128 q n ->
  repr128 (_cairo_uint64x64_128_mul a b) (x * y) /\
  repr128 (_cairo_int64x64_128_mul a b) (wrap 128 (s64 x * s64 y)) /\
  repr128 (_cairo_uint128_mul p q) (wrap 128 (m * n)) /\
  repr128 (_cairo_uint128_add p q) (wrap 128 (m + n)) /\
  repr128 (_cairo_uint128_sub p q) (wrap 128 (m - n)) /\
  repr128 (_cairo_int128_negate p) (wrap 128 (- m)) /\
  repr128 (_cairo_int128_not p) (2 ^ 128 - 1 - m).
Proof.
  intros Ha Hb Hp Hq. repeat split.
  - now apply uint64x64_128_mul_ok.
  - now apply int64x64_128_mul_ok.
  - now apply uint128_mul_ok.
  - now apply uint128_add_ok.
  - now apply uint128_sub_ok.
  - now apply int128_negate_ok.
  - now apply int128_not_ok.
Qed.

Lemma arith128_exact_witness :
  repr128 (_cairo_int64x64_128_mul (mk64 (2 ^ 32 - 7) (2 ^ 32 - 1)) (mk64 3 0)) (wrap 128 (-21)) /\
  repr128 (_cairo_uint128_mul (mk128 (mk64 5 0) (mk64 1 0)) (mk128 (mk64 2 0) (mk64 0 0)))
    (2 ^ 65 + 10).
Proof.
  pose proof (arith128_exact _ _ pair64_laws (mk64 (2 ^ 32 - 7) (2 ^ 32 - 1)) (mk64 3 0)
    (u64 (-7)) 3 (mk128 (mk64 5 0) (mk64 1 0)) (mk128 (mk64 2 0) (mk64 0 0)) (2 ^ 64 + 5) 2
    ltac:(concrete_word) ltac:(concrete_word)
    ltac:(concrete_word128 1 5) ltac:(concrete_word128 0 2)) as (_ & S & M & _).
  split; [exact S | exact M].
Defined.

(** Shifts of a 128-bit word by 0 to 127 bits are multiplication and
    division by the power of two, the arithmetic one of the signed value; the
    comparisons are those of the unsigned and of the signed values. *)
Theorem shift_compare128 (T : Type) (H : Uint64 T) (L : Uint64Laws T)
    (p q : cairo_uint128_t T) (m n s : Z) :
  repr128 p m -> repr128 q n -> 0 <= s < 128 ->
  repr128 (_cairo_uint128_lsl p s) (wrap 128 (m * 2 ^ s)) /\
  repr128 (_cairo_uint128_rsl p s) (m / 2 ^ s) /\
  repr128 (_cairo_uint128_rsa p s) (wrap 128 (swrap 128 m / 2 ^ s)) /\
  _cairo_uint128_lt p q = (m <? n) /\ _cairo_uint128_eq p q = (m =? n) /\
  _cairo_int128_lt p q = (swrap 128 m <? swrap 128 n) /\
  _cairo_int128_negative p = (swrap 128 m <? 0).
Proof.
  intros Hp Hq Hs. repeat split.
  - now apply uint128_lsl_ok.
  - now apply uint128_rsl_ok.
  - now apply uint128_rsa_ok.
  - now apply uint128_lt_ok.
  - now apply uint128_eq_ok.
  - now apply int128_lt_ok.
  - now apply int128_negative_ok.
Qed.

Lemma shift_compare128_witness :
  repr128 (_cairo_uint128_rsa (mk128 (2 ^ 64 - 8) (2 ^ 64 - 1)) 66) (wrap 128 (-1)) /\
  _cairo_int128_lt (mk128 (2 ^ 64 - 8) (2 ^ 64 - 1)) (mk128 1 0) = true.
Proof.
  pose proof (shift_compare128 _ _ native64_laws (mk128 (2 ^ 64 - 8) (2 ^ 64 - 1)) (mk128 1 0)
    (wrap 128 (-8)) 1 66 ltac:(concrete_word128 (2 ^ 64 - 1) (2 ^ 64 - 8))
    ltac:(concrete_word128 0 1) ltac:(lia)) as (_ & _ & S & _ & _ & C & _).
  split; [exact S | exact C].
Defined.

(** C33: 128-bit division ends within the fuel and is exact: for every
    non-zero denominator, unsigned division gives the quotient and remainder,
    and signed division the truncated ones (the least number by -1 wraps). *)
Theorem divrem128_correct (T : Type) (H : Uint64 T) (L : Uint64Laws T)
    (a b : cairo_uint128_t T) (x y : Z) :
  repr128 a x -> repr128 b y -> y <> 0 ->
  (exists q r, _cairo_uint128_divrem a b = Some (q, r) /\
     repr128 q (x / y) /\ repr128 r (x mod y)) /\
  (exists q r, _cairo_int128_divrem a b = Some (q, r) /\
    repr128 q (wrap 128 (Z.quot (swrap 128 x) (swrap 128 y))) /\
    repr128 r (wrap 128 (Z.rem (swrap 128 x) (swrap 128 y)))).
Proof.
  intros Ha Hb Hy. split.
  { apply uint128_divrem_ok; [assumption..|]. apply repr128_fits in Hb. unfold fits in Hb. lia. }
  pose proof (swrap_nonzero 128 y (repr128_fits _ _ Hb) Hy) as Hy'.
  destruct (uint128_divrem_ok _ _ _ _ (int128_abs_ok _ _ Ha) (int128_abs_ok _ _ Hb))
    as (uq & ur & E & Hq & Hr); [lia|].
  unfold _cairo_int128_divrem. rewrite E. do 2 eexists. split; [reflexivity|].
  rewrite (int128_negative_ok _ _ Ha), (int128_negative_ok _ _ Hb).
  rewrite quot_signs, rem_signs by assumption. split; now apply int128_sign_ok.
Qed.

Lemma divrem128_correct_witness :
  exists q r, _cairo_int128_divrem (mk128 (mk64 (2 ^ 32 - 7) (2 ^ 32 - 1)) (mk64 (2 ^ 32 - 1) (2 ^ 32 - 1)))
      (mk128 (mk64 2 0) (mk64 0 0)) = Some (q, r) /\
    repr128 q (wrap 128 (-3)) /\ repr128 r (wrap 128 (-1)).
Proof.
  apply (divrem128_correct _ _ pair64_laws
    (mk128 (mk64 (2 ^ 32 - 7) (2 ^ 32 - 1)) (mk64 (2 ^ 32 - 1) (2 ^ 32 - 1)))
    (mk128 (mk64 2 0) (mk64 0 0)) (wrap 128 (-7)) 2);
    [concrete_word128 (2 ^ 64 - 1) (2 ^ 64 - 7) | concrete_word128 0 2 | discriminate].
Defined.

(** The 96-by-64-bit division answers quotient and remainder exactly when
    the quotient fits in 32 bits; otherwise, a zero denominator included, the
    largest 64-bit number with the denominator as remainder. *)
Theorem uint_96by64_correct (T : Type) (H : Uint64 T) (L : Uint64Laws T)
    (num : cairo_uint128_t T) (den : T) (n d : Z) :
  repr128 num n -> repr64 den d -> n < 2 ^ 96 ->
  exists q r, _cairo_uint_96by64_32x64_divrem num den = Some (q, r) /\
    repr64 q (if n <? d * 2 ^ 32 then n / d else 2 ^ 64 - 1) /\
    repr64 r (if n <? d * 2 ^ 32 then n mod d else d).
Proof. apply uint_96by64_ok. Qed.

Lemma uint_96by64_correct_witness :
  exists q r, _cairo_uint_96by64_32x64_divrem (mk128 (mk64 7 9) (mk64 100 0)) (mk64 3 256) = Some (q, r) /\
    repr64 q ((100 * 2 ^ 64 + 9 * 2 ^ 32 + 7) / (256 * 2 ^ 32 + 3)) /\
    repr64 r ((100 * 2 ^ 64 + 9 * 2 ^ 32 + 7) mod (256 * 2 ^ 32 + 3)).
Proof.
  apply (uint_96by64_correct _ _ pair64_laws (mk128 (mk64 7 9) (mk64 100 0)) (mk64 3 256)
    (100 * 2 ^ 64 + 9 * 2 ^ 32 + 7) (256 * 2 ^ 32 + 3));
    [concrete_word128 100 (9 * 2 ^ 32 + 7) | concrete_word | lia].
Defined.

(** The signed 96-by-64-bit division truncates when the magnitude of the
    quotient fits in 32 bits, and answers the largest positive number with the
    denominator as remainder otherwise. *)
Theorem int_96by64_correct (T : Type) (H : Uint64 T) (L : Uint64Laws T)
    (num : cairo_uint128_t T) (dw : T) (n d : Z) :
  repr128 num n -> repr64 dw d -> Z.abs (swrap 128 n) < 2 ^ 96 ->
  exists q r, _cairo_int_96by64_32x64_divrem num dw = Some (q, r) /\
    let fit := Z.abs (swrap 128 n) <? Z.abs (s64 d) * 2 ^ 32 in
    repr64 q (if fit then u64 (Z.quot (swrap 128 n) (s64 d)) else 2 ^ 63 - 1) /\
    repr64 r (if fit then u64 (Z.rem (swrap 128 n) (s64 d)) else d).
Proof.
  intros Hn Hd Hn96.
  destruct (uint_96by64_ok _ _ _ _ (int128_abs_ok _ _ Hn) (int64_abs_ok _ _ Hd) Hn96)
    as (uq & ur & E & Hq & Hr).
  unfold _cairo_int_96by64_32x64_divrem. rewrite E. cbv zeta.
  rewrite (uint64_eq_ok _ _ _ _ Hr (int64_abs_ok _ _ Hd)).
  destruct (Z.ltb_spec (Z.abs (swrap 128 n)) (Z.abs (s64 d) * 2 ^ 32)).
  - assert (Hd0 : s64 d <> 0) by lia.
    pose proof (Z.mod_pos_bound (Z.abs (swrap 128 n)) (Z.abs (s64 d)) ltac:(lia)).
    replace (_ =? Z.abs (s64 d)) with false by lia. do 2 eexists. split; [reflexivity|].
    rewrite (int128_negative_ok _ _ Hn), (int64_negative_ok _ _ Hd).
    rewrite quot_signs, rem_signs by assumption. split; now apply int64_sign_ok.
  - rewrite Z.eqb_refl. do 2 eexists. split; [reflexivity|]. split; [|assumption].
    now apply (uint32s_to_uint64_ok 2147483647 (u32 (-1))).
Qed.

Lemma int_96by64_correct_witness :
  exists q r, _cairo_int_96by64_32x64_divrem (mk128 (2 ^ 64 - 100) (2 ^ 64 - 1)) 7 = Some (q, r) /\
    repr64 q (u64 (-14)) /\ repr64 r (u64 (-2)).
Proof.
  apply (int_96by64_correct _ _ native64_laws (mk128 (2 ^ 64 - 100) (2 ^ 64 - 1)) 7 (wrap 128 (-100)) 7);
    [concrete_word128 (2 ^ 64 - 1) (2 ^ 64 - 100) | concrete_word | vm_compute; reflexivity].
Defined.
