(* ===== verification/Inet.v ===== *)
(** * Inet: checksums, byte order and dotted-decimal addresses of lwIP

    [nsc-0.5.3/lwip-HEAD/src/core/inet.c], as compiled for NSC: little endian,
    [MEM_ALIGNMENT] 1 (so the checksum reads 16-bit words in place), [u32_t]
    and [unsigned long] of 32 bits.  Memory is read as a list of bytes ([Z] in
    [0, 256)); the chain of pbufs a checksum runs over is the list of the
    payloads, each of the pbuf's [len] bytes.  A C string is the list of its
    characters before the terminating NUL. *)
From Stdlib Require Import ZArith Lia List Bool.
From S2P Require Import Prelude.
Import ListNotations.
#[local] Open Scope Z_scope.

(** ** Byte order *)

Definition htons (n : Z) : Z :=
  u16 (Z.lor (Z.shiftl (Z.land n 255) 8) (Z.shiftr (Z.land n 65280) 8)).

Definition ntohs (n : Z) : Z := htons n.

Definition htonl (n : Z) : Z :=
  Z.lor (Z.lor (Z.lor (u32 (Z.shiftl (Z.land n 255) 24)) (u32 (Z.shiftl (Z.land n 65280) 8)))
               (Z.shiftr (Z.land n 16711680) 8)) (Z.shiftr (Z.land n 4278190080) 24).

Definition ntohl (n : Z) : Z := htonl n.

(** The bytes of a 32-bit word in memory, and back. *)
Definition bytes32 (n : Z) : list Z :=
  [n mod 256; n / 256 mod 256; n / 65536 mod 256; n / 16777216 mod 256].

(** ** Checksums *)

(** The loop over 16-bit words of [lwip_standard_chksum], with the last odd
    byte ([htons(b << 8)]). *)
Fixpoint chksum_words (acc : Z) (data : list Z) : Z :=
  match data with
  | b0 :: b1 :: data' => chksum_words (u32 (acc + (b0 + 256 * b1))) data'
  | [b] => u32 (acc + htons (u16 (Z.shiftl (Z.land b 255) 8)))
  | [] => acc
  end.

(** One turn of the carry folds. *)
Definition fold_turn (acc : Z) : Z := u32 (Z.shiftr acc 16 + Z.land acc 65535).

Definition lwip_standard_chksum (data : list Z) : Z :=
  let acc := chksum_words 0 data in
  let acc := fold_turn acc in
  let acc := if negb (Z.land acc 4294901760 =? 0) then fold_turn acc else acc in
  u16 acc.

(** [while (acc >> 16) acc = (acc & 0xffff) + (acc >> 16)]: two turns are
    enough for a 32-bit [acc] ([fold_carry_ends]). *)
Definition fold_fuel : nat := 2.

Fixpoint fold_carry (fuel : nat) (acc : Z) : Z :=
  if Z.shiftr acc 16 =? 0 then acc
  else match fuel with O => acc | S f => fold_carry f (fold_turn acc) end.

Definition swap_acc (acc : Z) : Z :=
  Z.lor (u32 (Z.shiftl (Z.land acc 255) 8)) (Z.shiftr (Z.land acc 65280) 8).

(** The loop over the chain of [inet_chksum_pseudo]; [swapped] is 0 or 1. *)
Fixpoint pseudo_loop (acc : Z) (swapped : bool) (chain : list (list Z)) : Z * bool :=
  match chain with
  | [] => (acc, swapped)
  | q :: chain' =>
      let acc := u32 (acc + lwip_standard_chksum q) in
      let acc := fold_carry fold_fuel acc in
      if negb (Z.of_nat (length q) mod 2 =? 0)
      then pseudo_loop (swap_acc acc) (negb swapped) chain'
      else pseudo_loop acc swapped chain'
  end.

Definition inet_chksum_pseudo (chain : list (list Z)) (src dest proto proto_len : Z) : Z :=
  let '(acc, swapped) := pseudo_loop 0 false chain in
  let acc := if swapped then swap_acc acc else acc in
  let acc := u32 (acc + Z.land src 65535) in
  let acc := u32 (acc + Z.land (Z.shiftr src 16) 65535) in
  let acc := u32 (acc + Z.land dest 65535) in
  let acc := u32 (acc + Z.land (Z.shiftr dest 16) 65535) in
  let acc := u32 (acc + htons (u16 proto)) in
  let acc := u32 (acc + htons proto_len) in
  let acc := fold_carry fold_fuel acc in
  u16 (Z.lnot (Z.land acc 65535)).

Definition inet_chksum (data : list Z) : Z :=
  let acc := lwip_standard_chksum data in
  let acc := fold_carry fold_fuel acc in
  u16 (Z.lnot (Z.land acc 65535)).

(** The "swap" of the loop of [inet_chksum_pbuf]: [<<] and [>>] bind tighter
    than [&], so the masks are shifted and not the accumulator. *)
Definition unswapped_acc (acc : Z) : Z :=
  Z.lor (Z.land acc (Z.shiftl 255 8)) (Z.land acc (Z.shiftr 65280 8)).

Fixpoint pbuf_loop (acc : Z) (swapped : bool) (chain : list (list Z)) : Z * bool :=
  match chain with
  | [] => (acc, swapped)
  | q :: chain' =>
      let acc := u32 (acc + lwip_standard_chksum q) in
      let acc := fold_carry fold_fuel acc in
      if negb (Z.of_nat (length q) mod 2 =? 0)
      then pbuf_loop (unswapped_acc acc) (negb swapped) chain'
      else pbuf_loop acc swapped chain'
  end.

Definition inet_chksum_pbuf (chain : list (list Z)) : Z :=
  let '(acc, swapped) := pbuf_loop 0 false chain in
  let acc := if swapped then swap_acc acc else acc in
  u16 (Z.lnot (Z.land acc 65535)).

(** ** Dotted-decimal addresses *)

Definition in_range (c lo up : Z) : bool := (lo <=? c) && (c <=? up).
Definition isascii (c : Z) : bool := in_range c 32 127.
Definition isdigit (c : Z) : bool := in_range c 48 57.
Definition isxdigit (c : Z) : bool := isdigit c || in_range c 97 102 || in_range c 65 70.
Definition islower (c : Z) : bool := in_range c 97 122.
Definition isspace (c : Z) : bool :=
  (c =? 32) || (c =? 12) || (c =? 10) || (c =? 13) || (c =? 9) || (c =? 11).

(** [*cp]: the character at the cursor, the terminator at the end. *)
Definition char_at (cp : list Z) : Z := hd 0 cp.

(** The inner loop of [inet_aton]: digits of [base]; returns the value and the
    cursor at the first other character. *)
Fixpoint aton_digits (base val : Z) (cp : list Z) : Z * list Z :=
  match cp with
  | [] => (val, [])
  | c :: cp' =>
      if isdigit c then aton_digits base (u32 (u32 (val * base) + (c - 48))) cp'
      else if (base =? 16) && isxdigit c
      then aton_digits base (Z.lor (u32 (Z.shiftl val 4)) (c + 10 - (if islower c then 97 else 65))) cp'
      else (val, cp)
  end.

(** One number with its prefix; [None] when it does not start with a digit. *)
Definition aton_number (cp : list Z) : option (Z * list Z) :=
  if negb (isdigit (char_at cp)) then None
  else if char_at cp =? 48
  then let cp := tl cp in
       if (char_at cp =? 120) || (char_at cp =? 88)
       then Some (aton_digits 16 0 (tl cp))
       else Some (aton_digits 8 0 cp)
  else Some (aton_digits 10 0 cp).

(** The outer loop: [room] is what is left of [parts] before [parts + 3]; the
    numbers before a dot, the last one, and the cursor. *)
Fixpoint aton_parts (room : nat) (cp : list Z) : option (list Z * Z * list Z) :=
  match aton_number cp with
  | None => None
  | Some (val, cp) =>
      if char_at cp =? 46 then
        match room with
        | O => None
        | S room' =>
            match aton_parts room' (tl cp) with
            | None => None
            | Some (parts, last, cp) => Some (val :: parts, last, cp)
            end
        end
      else Some ([], val, cp)
  end.

(** The [switch] on the number of parts, in host order. *)
Definition aton_value (parts : list Z) (val : Z) : option Z :=
  match parts with
  | [] => Some val
  | [a] => if 16777215 <? val then None else Some (Z.lor val (u32 (Z.shiftl a 24)))
  | [a; b] =>
      if 65535 <? val then None
      else Some (Z.lor val (Z.lor (u32 (Z.shiftl a 24)) (u32 (Z.shiftl b 16))))
  | [a; b; c] =>
      if 255 <? val then None
      else Some (Z.lor val (Z.lor (Z.lor (u32 (Z.shiftl a 24)) (u32 (Z.shiftl b 16)))
                                  (u32 (Z.shiftl c 8))))
  | _ => Some val
  end.

(** [None] is the return value 0, [Some a] the return value 1 with
    [addr->s_addr = a]. *)
Definition inet_aton (cp : list Z) : option Z :=
  match aton_parts 3 cp with
  | None => None
  | Some (parts, val, cp) =>
      let c := char_at cp in
      if negb (c =? 0) && (negb (isascii c) || negb (isspace c)) then None
      else match aton_value parts val with
           | Some v => Some (htonl v)
           | None => None
           end
  end.

Definition inet_addr (cp : list Z) : Z :=
  match inet_aton cp with Some a => a | None => 4294967295 end.

(** The [do ... while] of [inet_ntoa] on one byte: the digits in [inv], least
    significant first; three turns are enough for a byte ([ntoa_digits_ends]). *)
Fixpoint ntoa_digits (fuel : nat) (b : Z) : list Z :=
  match fuel with
  | O => []
  | S f => u8 (48 + b mod 10) :: (if b / 10 =? 0 then [] else ntoa_digits f (b / 10))
  end.

Definition ntoa_fuel : nat := 3.

(** The string in [str] up to the NUL that replaces the last dot. *)
Definition inet_ntoa (s_addr : Z) : list Z :=
  removelast (flat_map (fun b => rev (ntoa_digits ntoa_fuel b) ++ [46]) (bytes32 s_addr)).

(** ** Small checks *)
(* "10.1.2.3" *)
Example ex_ntoa : inet_ntoa (htonl 167838211) = [49;48;46;49;46;50;46;51].
Proof. reflexivity. Qed.
Example ex_aton : inet_aton [49;48;46;49;46;50;46;51] = Some (htonl 167838211).
Proof. reflexivity. Qed.
(* "0x7f.1" *)
Example ex_aton_hex : inet_aton [48;120;55;102;46;49] = Some (htonl 2130706433).
Proof. reflexivity. Qed.
Example ex_chksum : inet_chksum [69;0;0;60] = 65535 - (69 + 60 * 256).
Proof. reflexivity. Qed.

(** ** Byte order: swaps and their inverses *)

Lemma land_shifted_mask x k w : 0 <= k -> 0 <= w ->
  Z.land x (Z.shiftl (2 ^ w - 1) k) = x / 2 ^ k mod 2 ^ w * 2 ^ k.
Proof.
  intros. apply Z.bits_inj'. intros i Hi. rewrite Z.land_spec, Z.shiftl_spec by lia.
  replace (2 ^ w - 1) with (Z.ones w) by (rewrite Z.ones_equiv; lia).
  destruct (Z_lt_dec i k).
  - rewrite (Z.testbit_neg_r _ (i - k)) by lia. rewrite andb_false_r.
    rewrite <- shiftl_mul by lia. now rewrite Z.shiftl_spec_low by lia.
  - rewrite <- shiftl_mul, Z.shiftl_spec by lia. rewrite Z.testbit_ones by lia.
    replace (0 <=? i - k) with true by lia. destruct (Z.ltb_spec (i - k) w); cbn [andb].
    + rewrite Z.mod_pow2_bits_low by lia. rewrite Z.div_pow2_bits by lia.
      rewrite andb_true_r. f_equal. lia.
    + rewrite Z.mod_pow2_bits_high by lia. apply andb_false_r.
Qed.

Lemma swap_acc_div n : fits 16 n -> swap_acc n = n mod 256 * 256 + n / 256.
Proof.
  intros Hn. unfold swap_acc. change 255 with (2 ^ 8 - 1). rewrite land_ones_mod by lia.
  change 65280 with (Z.shiftl (2 ^ 8 - 1) 8). rewrite land_shifted_mask by lia.
  rewrite shiftl_mul, shiftr_div, Z.div_mul by (lia || discriminate).
  unfold fits in Hn. rewrite wrap_small by (unfold fits; pow2; zmod_lia).
  rewrite lor_add by (lia || (pow2; zmod_lia)). f_equal. apply Z.mod_small. pow2. zmod_lia.
Qed.

Lemma htons_div n : fits 16 n -> htons n = n mod 256 * 256 + n / 256.
Proof.
  intros Hn. rewrite <- swap_acc_div by assumption. unfold htons, swap_acc.
  rewrite (wrap_small 32).
  - apply wrap_small. fold (swap_acc n). pose proof (swap_acc_div n Hn) as E.
    unfold swap_acc in E. rewrite (wrap_small 32) in E.
    + rewrite E. unfold fits in *. pow2. zmod_lia.
    + change 255 with (2 ^ 8 - 1). rewrite land_ones_mod, shiftl_mul by lia.
      unfold fits in *. pow2. zmod_lia.
  - change 255 with (2 ^ 8 - 1). rewrite land_ones_mod, shiftl_mul by lia.
    unfold fits in *. pow2. zmod_lia.
Qed.

Lemma htons_fits n : fits 16 n -> fits 16 (htons n).
Proof. intros Hn. rewrite htons_div by assumption. unfold fits in *. pow2. zmod_lia. Qed.

Lemma htons_htons n : fits 16 n -> htons (htons n) = n.
Proof.
  intros Hn. rewrite (htons_div (htons n)) by now apply htons_fits.
  rewrite htons_div by assumption. unfold fits in Hn. pow2. zmod_lia.
Qed.

(** The four bytes of [htonl] in reverse order. *)
Lemma htonl_div n : fits 32 n ->
  htonl n = n mod 256 * 16777216 + n / 256 mod 256 * 65536 + n / 65536 mod 256 * 256 + n / 16777216.
Proof.
  intros Hn. unfold htonl. change 255 with (2 ^ 8 - 1). rewrite land_ones_mod by lia.
  change 65280 with (Z.shiftl (2 ^ 8 - 1) 8). rewrite land_shifted_mask by lia.
  change 16711680 with (Z.shiftl (2 ^ 8 - 1) 16). rewrite land_shifted_mask by lia.
  change 4278190080 with (Z.shiftl (2 ^ 8 - 1) 24). rewrite land_shifted_mask by lia.
  rewrite !shiftl_mul, !shiftr_div by lia.
  replace (n / 2 ^ 24 mod 2 ^ 8 * 2 ^ 24 / 2 ^ 24) with (n / 2 ^ 24)
    by (unfold fits in Hn; pow2; zmod_lia).
  replace (n / 2 ^ 16 mod 2 ^ 8 * 2 ^ 16 / 2 ^ 8) with (n / 2 ^ 16 mod 2 ^ 8 * 2 ^ 8)
    by (unfold fits in Hn; pow2; zmod_lia).
  rewrite !wrap_small by (unfold fits in *; pow2; zmod_lia).
  replace (n / 2 ^ 8 mod 2 ^ 8 * 2 ^ 8 * 2 ^ 8) with (n / 2 ^ 8 mod 2 ^ 8 * 2 ^ 16)
    by (pow2; zmod_lia).
  rewrite (lor_add _ (_ * 2 ^ 16)) by (lia || (pow2; zmod_lia)).
  replace (n mod 2 ^ 8 * 2 ^ 24 + n / 2 ^ 8 mod 2 ^ 8 * 2 ^ 16)
    with ((n mod 2 ^ 8 * 2 ^ 8 + n / 2 ^ 8 mod 2 ^ 8) * 2 ^ 16) by (pow2; ring).
  rewrite lor_add by (lia || (pow2; zmod_lia)).
  replace ((n mod 2 ^ 8 * 2 ^ 8 + n / 2 ^ 8 mod 2 ^ 8) * 2 ^ 16 + n / 2 ^ 16 mod 2 ^ 8 * 2 ^ 8)
    with (((n mod 2 ^ 8 * 2 ^ 8 + n / 2 ^ 8 mod 2 ^ 8) * 2 ^ 8 + n / 2 ^ 16 mod 2 ^ 8) * 2 ^ 8)
    by (pow2; ring).
  rewrite lor_add by (lia || (unfold fits in Hn; pow2; zmod_lia)). pow2. ring.
Qed.

Lemma htonl_fits n : fits 32 n -> fits 32 (htonl n).
Proof. intros Hn. rewrite htonl_div by assumption. unfold fits in *. pow2. zmod_lia. Qed.

(** A 32-bit word is its four bytes, least significant first. *)
Definition word32 (b0 b1 b2 b3 : Z) : Z := b0 + 256 * b1 + 65536 * b2 + 16777216 * b3.

Lemma bytes32_word32 b0 b1 b2 b3 : fits 8 b0 -> fits 8 b1 -> fits 8 b2 -> fits 8 b3 ->
  bytes32 (word32 b0 b1 b2 b3) = [b0; b1; b2; b3].
Proof.
  unfold fits, bytes32, word32. intros. pow2. repeat f_equal; zmod_lia.
Qed.

Lemma word32_fits b0 b1 b2 b3 : fits 8 b0 -> fits 8 b1 -> fits 8 b2 -> fits 8 b3 ->
  fits 32 (word32 b0 b1 b2 b3).
Proof. unfold fits, word32. intros. pow2. lia. Qed.

Lemma word32_split n : fits 32 n -> exists b0 b1 b2 b3, n = word32 b0 b1 b2 b3 /\
  fits 8 b0 /\ fits 8 b1 /\ fits 8 b2 /\ fits 8 b3.
Proof.
  intros Hn. exists (n mod 256), (n / 256 mod 256), (n / 65536 mod 256), (n / 16777216).
  unfold fits, word32 in *. pow2. repeat split; zmod_lia.
Qed.

Lemma htonl_word32 b0 b1 b2 b3 : fits 8 b0 -> fits 8 b1 -> fits 8 b2 -> fits 8 b3 ->
  htonl (word32 b0 b1 b2 b3) = word32 b3 b2 b1 b0.
Proof.
  intros H0 H1 H2 H3. rewrite htonl_div by now apply word32_fits.
  pose proof (bytes32_word32 b0 b1 b2 b3 H0 H1 H2 H3) as E. unfold bytes32 in E.
  injection E as -> -> -> _. unfold fits, word32 in *. pow2.
  replace (_ / 16777216) with b3 by zmod_lia. ring.
Qed.

Lemma htonl_htonl n : fits 32 n -> htonl (htonl n) = n.
Proof.
  intros Hn. destruct (word32_split n Hn) as (b0 & b1 & b2 & b3 & -> & ? & ? & ? & ?).
  now rewrite !htonl_word32.
Qed.

(** ** Ones' complement sums *)

(** The representative in 1..65535 of a positive sum; 0 only of 0. *)
Definition norm16 (s : Z) : Z := if s =? 0 then 0 else (s - 1) mod 65535 + 1.

(** The sum of the 16-bit words of a byte sequence, unbounded. *)
Fixpoint word_sum (data : list Z) : Z :=
  match data with
  | b0 :: b1 :: data' => b0 + 256 * b1 + word_sum data'
  | [b] => b
  | [] => 0
  end.

Lemma norm16_range s : 0 <= s -> 0 <= norm16 s <= 65535.
Proof. unfold norm16. intros. case_if; zmod_lia. Qed.

Lemma norm16_small s : 0 <= s <= 65535 -> norm16 s = s.
Proof. unfold norm16. intros. case_if; [lia|]. rewrite Z.mod_small; lia. Qed.

Lemma norm16_eq a b : 0 <= a -> 0 <= b -> (exists k, a = b + k * 65535) -> (a = 0 <-> b = 0) ->
  norm16 a = norm16 b.
Proof.
  intros Ha Hb [k ->] H0. unfold norm16.
  destruct (Z.eqb_spec (b + k * 65535) 0), (Z.eqb_spec b 0); try lia.
  replace (b + k * 65535 - 1) with (b - 1 + k * 65535) by ring. now rewrite Z_mod_plus_full.
Qed.

Lemma norm16_add_l a b : 0 <= a -> 0 <= b -> norm16 (norm16 a + b) = norm16 (a + b).
Proof.
  intros. pose proof (norm16_range a ltac:(lia)). apply norm16_eq; try lia.
  - unfold norm16. case_if; [exists 0; lia|]. exists (- ((a - 1) / 65535)).
    rewrite Z.mod_eq by lia. ring.
  - unfold norm16 in *. destruct (Z.eqb_spec a 0); [lia|].
    pose proof (Z.mod_pos_bound (a - 1) 65535 eq_refl). lia.
Qed.

Lemma norm16_add_r a b : 0 <= a -> 0 <= b -> norm16 (a + norm16 b) = norm16 (a + b).
Proof. intros. rewrite Z.add_comm, norm16_add_l, Z.add_comm by assumption. reflexivity. Qed.

Lemma norm16_norm16 a : 0 <= a -> norm16 (norm16 a) = norm16 a.
Proof. intros. now apply norm16_small, norm16_range. Qed.

Lemma fold_turn_div acc : fits 32 acc -> fold_turn acc = acc / 65536 + acc mod 65536.
Proof.
  intros Hacc. unfold fold_turn. rewrite shiftr_div by lia.
  change 65535 with (2 ^ 16 - 1). rewrite land_ones_mod by lia. pow2.
  apply wrap_small. unfold fits in *. pow2. zmod_lia.
Qed.

Lemma fold_turn_norm acc : fits 32 acc -> norm16 (fold_turn acc) = norm16 acc.
Proof.
  intros Hacc. rewrite fold_turn_div by assumption. unfold fits in *. pow2.
  apply norm16_eq; [zmod_lia | lia | exists (- (acc / 65536)) | ]; zmod_lia.
Qed.

Lemma fold_turn_fits acc : fits 32 acc -> fits 32 (fold_turn acc).
Proof. intros. rewrite fold_turn_div by assumption. unfold fits in *. pow2. zmod_lia. Qed.

(** The folds end within their fuel: the guard is false after them. *)
Lemma fold_carry_ends acc : fits 32 acc -> fold_carry fold_fuel acc <= 65535.
Proof.
  intros Hacc. unfold fold_fuel. cbn [fold_carry]. rewrite !shiftr_div by lia.
  pose proof (fold_turn_fits _ Hacc) as H1. unfold fits in *.
  repeat (case_if; [pow2; zmod_lia|]).
  rewrite fold_turn_div by (unfold fits; lia). rewrite fold_turn_div in * by (unfold fits; lia).
  pow2. zmod_lia.
Qed.

Lemma fold_carry_norm acc : fits 32 acc -> fold_carry fold_fuel acc = norm16 acc.
Proof.
  intros Hacc. pose proof (fold_carry_ends acc Hacc) as E.
  assert (N : forall f a, fits 32 a -> norm16 (fold_carry f a) = norm16 a /\ fits 32 (fold_carry f a)).
  { induction f as [|f IH]; intros a Ha; cbn [fold_carry]; destruct (_ =? 0); auto.
    destruct (IH (fold_turn a)) as [E1 F1]; [now apply fold_turn_fits|].
    rewrite E1, fold_turn_norm; auto. }
  destruct (N fold_fuel acc Hacc) as [<- F]. unfold fits in F. symmetry. apply norm16_small. lia.
Qed.

(** ** The checksum of a byte sequence *)

(** Induction by two elements, as the checksum loop goes. *)
Lemma list_ind2 {A} (P : list A -> Prop) : P [] -> (forall a, P [a]) ->
  (forall a b l, P l -> P (a :: b :: l)) -> forall l, P l.
Proof.
  intros H0 H1 H2. fix IH 1. intros [|a [|b l]]; [exact H0 | exact (H1 a) | apply H2, IH].
Qed.

Abbreviation is_bytes := (Forall (fits 8)) (only parsing).

Lemma word_sum_bound data : is_bytes data -> 0 <= word_sum data <= 65535 * Z.of_nat (length data).
Proof.
  induction data as [|b|b0 b1 data IH] using list_ind2; cbn [word_sum length]; intros HF.
  - lia.
  - inversion_clear HF. unfold fits in *. pow2. lia.
  - inversion_clear HF as [|? ? H0 HF']. inversion_clear HF' as [|? ? H1 HF''].
    specialize (IH HF''). unfold fits in *. pow2. lia.
Qed.

Lemma odd_byte b : fits 8 b -> htons (u16 (Z.shiftl (Z.land b 255) 8)) = b.
Proof.
  intros Hb. change 255 with (2 ^ 8 - 1). rewrite land_ones_mod, shiftl_mul by lia.
  unfold fits in Hb. pow2. rewrite Z.mod_small by lia. rewrite wrap_small by (unfold fits; pow2; lia).
  rewrite htons_div by (unfold fits; pow2; lia). zmod_lia.
Qed.

Lemma chksum_words_sum data : forall acc, is_bytes data -> 0 <= acc ->
  acc + word_sum data < 2 ^ 32 -> chksum_words acc data = acc + word_sum data.
Proof.
  induction data as [|b|b0 b1 data IH] using list_ind2; cbn [word_sum chksum_words];
    intros acc HF H0 Hlt.
  - lia.
  - inversion_clear HF as [|? ? Hb _]. rewrite odd_byte by assumption. unfold fits in Hb.
    apply wrap_small. unfold fits. lia.
  - inversion_clear HF as [|? ? Hb0 HF']. inversion_clear HF' as [|? ? Hb1 HF''].
    pose proof (word_sum_bound data HF''). unfold fits in *.
    rewrite wrap_small by (unfold fits; lia). rewrite IH by (assumption || lia). ring.
Qed.

Lemma high_half_zero acc : fits 32 acc -> (Z.land acc 4294901760 =? 0) = (acc <=? 65535).
Proof.
  intros Hacc. change 4294901760 with (Z.shiftl (2 ^ 16 - 1) 16).
  rewrite land_shifted_mask by lia. unfold fits in Hacc. pow2.
  destruct (Z.leb_spec acc 65535); [apply Z.eqb_eq | apply Z.eqb_neq]; zmod_lia.
Qed.

Lemma standard_chksum_norm data : is_bytes data -> Z.of_nat (length data) <= 65535 ->
  lwip_standard_chksum data = norm16 (word_sum data).
Proof.
  intros HF Hlen. pose proof (word_sum_bound data HF) as B.
  unfold lwip_standard_chksum. rewrite chksum_words_sum by (assumption || lia).
  cbn [Z.add]. set (s := word_sum data) in *. assert (Fs : fits 32 s) by (unfold fits; pow2; lia).
  pose proof (fold_turn_fits _ Fs) as F1.
  assert (N1 : norm16 (fold_turn s) = norm16 s) by now apply fold_turn_norm.
  rewrite high_half_zero by assumption. destruct (Z.leb_spec (fold_turn s) 65535); cbn [negb].
  - unfold fits in F1. rewrite wrap_small by (unfold fits; pow2; lia).
    rewrite <- N1. symmetry. apply norm16_small. lia.
  - rewrite <- N1, <- fold_turn_norm by assumption.
    assert (0 <= fold_turn (fold_turn s) <= 65535).
    { rewrite (fold_turn_div (fold_turn s)) by assumption.
      rewrite fold_turn_div in * by assumption. unfold fits in *. pow2. zmod_lia. }
    rewrite wrap_small by (unfold fits; pow2; lia). symmetry. now apply norm16_small.
Qed.

Lemma complement16 acc : 0 <= acc <= 65535 -> u16 (Z.lnot (Z.land acc 65535)) = 65535 - acc.
Proof.
  intros. change 65535 with (2 ^ 16 - 1) at 1. rewrite land_ones_mod by lia.
  rewrite Z.mod_small by (pow2; lia). rewrite lnot_wrap; unfold fits; pow2; lia.
Qed.

Lemma inet_chksum_norm data : is_bytes data -> Z.of_nat (length data) <= 65535 ->
  inet_chksum data = 65535 - norm16 (word_sum data).
Proof.
  intros HF Hlen. unfold inet_chksum. rewrite standard_chksum_norm by assumption.
  pose proof (word_sum_bound data HF) as B.
  pose proof (norm16_range (word_sum data) ltac:(lia)) as R.
  rewrite fold_carry_norm by (unfold fits; pow2; lia).
  rewrite norm16_norm16 by lia. now apply complement16.
Qed.

(** ** Sums over concatenations *)

(** Multiplying by 256 swaps the bytes of a normal sum. *)
Lemma swap_acc_norm s : 0 <= s -> swap_acc (norm16 s) = norm16 (256 * s).
Proof.
  intros. pose proof (norm16_range s ltac:(lia)) as R.
  rewrite swap_acc_div by (unfold fits; pow2; lia).
  rewrite <- (norm16_small (norm16 s mod 256 * 256 + norm16 s / 256)) by zmod_lia.
  assert (exists k, norm16 s = s + k * 65535) as [k Ek].
  { unfold norm16. case_if; [exists 0; lia|]. exists (- ((s - 1) / 65535)).
    rewrite Z.mod_eq by lia. ring. }
  assert (norm16 s = 0 <-> s = 0).
  { unfold norm16. case_if; [lia|]. pose proof (Z.mod_pos_bound (s - 1) 65535 eq_refl). lia. }
  apply norm16_eq; [zmod_lia | lia | | zmod_lia].
  exists (256 * k - norm16 s / 256). pose proof (Z.div_mod (norm16 s) 256 ltac:(lia)). lia.
Qed.

Lemma word_sum_app_even p q : Nat.Even (length p) -> word_sum (p ++ q) = word_sum p + word_sum q.
Proof.
  induction p as [|b|b0 b1 p IH] using list_ind2; cbn [length app word_sum]; intros E.
  - lia.
  - destruct E as [k E]. lia.
  - rewrite IH; [ring|]. destruct E as [k E]. exists (pred k). lia.
Qed.

(** Prefixing one byte moves every byte to the other half of its word. *)
Lemma word_sum_cons b q : is_bytes q ->
  exists k, word_sum (b :: q) = b + 256 * word_sum q - k * 65535 /\ 0 <= k.
Proof.
  intros HF. revert b. induction q as [|b0|b0 b1 q IH] using list_ind2; intros b.
  - exists 0. cbn. lia.
  - exists 0. cbn [word_sum]. lia.
  - inversion_clear HF as [|? ? H0 HF']. inversion_clear HF' as [|? ? H1 HF''].
    destruct (IH HF'' b1) as (k & E & Hk). exists (k + b1).
    change (word_sum (b :: b0 :: b1 :: q)) with (b + 256 * b0 + word_sum (b1 :: q)).
    change (word_sum (b0 :: b1 :: q)) with (b0 + 256 * b1 + word_sum q).
    unfold fits in H1. rewrite E. lia.
Qed.

Lemma word_sum_app_odd p q : Nat.Odd (length p) -> is_bytes p -> is_bytes q ->
  exists k, word_sum (p ++ q) = word_sum p + 256 * word_sum q - k * 65535 /\ 0 <= k.
Proof.
  induction p as [|b|b0 b1 p IH] using list_ind2; intros O HFp HFq.
  - destruct O as [k O]. cbn in O. lia.
  - exact (word_sum_cons b q HFq).
  - inversion_clear HFp as [|? ? H0 HF']. inversion_clear HF' as [|? ? H1 HF''].
    destruct IH as (k & E & Hk); auto.
    { destruct O as [k O]. cbn in O. exists (pred k). lia. }
    exists k. cbn [app word_sum]. rewrite E. split; [ring | assumption].
Qed.

Lemma word_sum_zero q : is_bytes q -> word_sum q = 0 <-> Forall (eq 0) q.
Proof.
  induction q as [|b|b0 b1 q IH] using list_ind2; cbn [word_sum]; intros HF.
  - now split.
  - inversion_clear HF. split; [intros ->; auto | intros F; now inversion F].
  - inversion_clear HF as [|? ? H0 HF']. inversion_clear HF' as [|? ? H1 HF''].
    pose proof (word_sum_bound q HF''). specialize (IH HF''). unfold fits in *. split.
    + intros E. constructor; [lia|]. constructor; [lia|]. apply IH. lia.
    + intros F. inversion_clear F as [|? ? E0 F']. inversion_clear F' as [|? ? E1 F''].
      apply IH in F''. lia.
Qed.

(** ** Checksums over a chain *)

(** The accumulator is kept byte-swapped after an odd number of bytes. *)
Definition half_shift (odd : bool) (s : Z) : Z := if odd then 256 * s else s.

Lemma odd_length_test {A} (q : list A) :
  negb (Z.of_nat (length q) mod 2 =? 0) = Nat.odd (length q).
Proof.
  destruct (Nat.Even_or_Odd (length q)) as [[k E]|[k E]]; rewrite E.
  - replace (Nat.odd (2 * k)) with false
      by (symmetry; rewrite <- Nat.negb_even, negb_false_iff; apply Nat.even_spec; now exists k).
    apply negb_false_iff, Z.eqb_eq. zmod_lia.
  - replace (Nat.odd (2 * k + 1)) with true
      by (symmetry; apply Nat.odd_spec; now exists k).
    apply negb_true_iff, Z.eqb_neq. zmod_lia.
Qed.

Lemma half_shift_nonneg o s : 0 <= s -> 0 <= half_shift o s.
Proof. unfold half_shift. destruct o; lia. Qed.

(** Adding the sum of the next payload to the (maybe swapped) accumulator. *)
Lemma half_shift_app p q : is_bytes p -> is_bytes q ->
  norm16 (half_shift (Nat.odd (length p)) (word_sum p) + word_sum q)
  = norm16 (half_shift (Nat.odd (length p)) (word_sum (p ++ q))).
Proof.
  intros HFp HFq. pose proof (word_sum_bound p HFp) as Bp. pose proof (word_sum_bound q HFq) as Bq.
  assert (HFpq : is_bytes (p ++ q)) by now apply Forall_app.
  pose proof (word_sum_bound _ HFpq) as Bpq.
  destruct (Nat.odd (length p)) eqn:O; cbn [half_shift].
  - apply Nat.odd_spec in O. destruct (word_sum_app_odd p q O HFp HFq) as (k & E & Hk).
    apply norm16_eq; [lia | lia | exists (256 * k - word_sum q); rewrite E; ring |].
    assert (Z : word_sum (p ++ q) = 0 <-> word_sum p = 0 /\ word_sum q = 0)
      by (rewrite !word_sum_zero by assumption; apply Forall_app).
    split; intros; [destruct Z as [_ Z]; rewrite Z; lia | destruct Z as [Z _]; specialize (Z ltac:(lia)); lia].
  - f_equal. symmetry. apply word_sum_app_even, Nat.even_spec.
    now rewrite <- Nat.negb_odd, O.
Qed.

Lemma half_shift_swap o s : 0 <= s ->
  swap_acc (norm16 (half_shift o s)) = norm16 (half_shift (negb o) s).
Proof.
  intros Hs. rewrite swap_acc_norm by now apply half_shift_nonneg.
  destruct o; cbn [half_shift negb]; [|reflexivity].
  apply norm16_eq; [lia | lia | exists s; ring | lia].
Qed.

Lemma odd_length_app {A} (p q : list A) :
  Nat.odd (length (p ++ q)) = xorb (Nat.odd (length p)) (Nat.odd (length q)).
Proof. rewrite length_app. apply Nat.odd_add. Qed.

(** One turn of either loop: the accumulator plus the next payload's sum. *)
Lemma chain_turn s q : 0 <= s -> is_bytes q -> Z.of_nat (length q) <= 65535 ->
  fold_carry fold_fuel (u32 (norm16 s + lwip_standard_chksum q)) = norm16 (s + word_sum q).
Proof.
  intros Hs HF Hlen. rewrite standard_chksum_norm by assumption.
  pose proof (word_sum_bound q HF) as B. pose proof (norm16_range s Hs).
  pose proof (norm16_range (word_sum q) ltac:(lia)).
  rewrite (wrap_small 32) by (unfold fits; pow2; lia).
  rewrite fold_carry_norm by (unfold fits; pow2; lia).
  rewrite norm16_add_l, norm16_add_r by lia. reflexivity.
Qed.

Abbreviation payloads := (Forall (fun q => is_bytes q /\ Z.of_nat (length q) <= 65535))
  (only parsing).

Lemma pseudo_loop_sum chain : forall p, is_bytes p -> payloads chain ->
  let o := Nat.odd (length p) in
  let o' := Nat.odd (length (p ++ concat chain)) in
  pseudo_loop (norm16 (half_shift o (word_sum p))) o chain
  = (norm16 (half_shift o' (word_sum (p ++ concat chain))), o').
Proof.
  induction chain as [|q chain IH]; intros p HFp HFc; cbn [pseudo_loop concat].
  - now rewrite app_nil_r.
  - inversion_clear HFc as [|? ? [HFq Hlen] HFc'].
    pose proof (word_sum_bound p HFp) as Bp.
    assert (HFpq : is_bytes (p ++ q)) by now apply Forall_app.
    pose proof (word_sum_bound _ HFpq) as Bpq.
    rewrite chain_turn by (assumption || (apply half_shift_nonneg; lia)).
    rewrite half_shift_app, odd_length_test by assumption.
    specialize (IH (p ++ q) HFpq HFc'). cbv zeta in IH. rewrite <- app_assoc in IH.
    rewrite odd_length_app in IH at 1 2.
    destruct (Nat.odd (length q)).
    + rewrite half_shift_swap by lia. now rewrite xorb_true_r in IH.
    + now rewrite xorb_false_r in IH.
Qed.

(** The 16-bit words of the pseudo header. *)
Definition pseudo_words (src dest proto proto_len : Z) : Z :=
  src mod 65536 + src / 65536 + (dest mod 65536 + dest / 65536) + htons proto + htons proto_len.

(** The sum of all parts with carries folded: no 32-bit overflow on the way. *)
Lemma pseudo_tail a src dest proto plen : 0 <= a <= 65535 -> fits 32 src -> fits 32 dest ->
  fits 16 proto -> fits 16 plen ->
  u32 (u32 (u32 (u32 (u32 (u32 (a + Z.land src 65535) + Z.land (Z.shiftr src 16) 65535)
    + Z.land dest 65535) + Z.land (Z.shiftr dest 16) 65535) + htons (u16 proto)) + htons plen)
  = a + pseudo_words src dest proto plen /\ a + pseudo_words src dest proto plen < 2 ^ 32.
Proof.
  intros Ha Hs Hd Hp Hl. rewrite !shiftr_div by lia. change 65535 with (2 ^ 16 - 1).
  rewrite !land_ones_mod, (wrap_small 16 proto) by (assumption || lia). unfold pseudo_words.
  pose proof (htons_fits proto Hp) as Fp. pose proof (htons_fits plen Hl) as Fl.
  unfold fits in *. pow2.
  pose proof (Z.mod_pos_bound src 65536 eq_refl). pose proof (Z.mod_pos_bound dest 65536 eq_refl).
  assert (0 <= src / 65536 <= 65535 /\ 0 <= dest / 65536 <= 65535) as [? ?] by zmod_lia.
  rewrite (Z.mod_small (src / 65536)), (Z.mod_small (dest / 65536)) by lia.
  unwrap_inner. split; [ring | lia].
Qed.

(** [u16] tests of [inet_chksum_pbuf]'s precedence slip: nothing is swapped. *)
Lemma unswapped_acc_same acc : fits 16 acc -> unswapped_acc acc = acc.
Proof.
  intros Hacc. unfold unswapped_acc. change (Z.shiftr 65280 8) with (2 ^ 8 - 1).
  change 255 with (2 ^ 8 - 1). rewrite land_ones_mod, land_shifted_mask by lia.
  unfold fits in Hacc. rewrite lor_add by (lia || (pow2; zmod_lia)). pow2. zmod_lia.
Qed.

Definition sum_of_sums (chain : list (list Z)) : Z := fold_right (fun q s => word_sum q + s) 0 chain.

Lemma sum_of_sums_nonneg chain : payloads chain -> 0 <= sum_of_sums chain.
Proof.
  unfold sum_of_sums. induction 1 as [|q chain [HF _] _ IH]; cbn [fold_right]; [lia|].
  pose proof (word_sum_bound q HF). lia.
Qed.

Lemma pbuf_loop_sum chain : forall s o, 0 <= s -> payloads chain ->
  pbuf_loop (norm16 s) o chain
  = (norm16 (s + sum_of_sums chain), xorb o (Nat.odd (length (concat chain)))).
Proof.
  induction chain as [|q chain IH]; intros s o Hs HFc; cbn [pbuf_loop concat].
  - cbn [length sum_of_sums fold_right Nat.odd]. now rewrite Z.add_0_r, xorb_false_r.
  - inversion_clear HFc as [|? ? [HFq Hlen] HFc']. pose proof (word_sum_bound q HFq).
    rewrite chain_turn, odd_length_test, odd_length_app by assumption.
    change (sum_of_sums (q :: chain)) with (word_sum q + sum_of_sums chain).
    rewrite Z.add_assoc. destruct (Nat.odd (length q)).
    + rewrite unswapped_acc_same.
      * rewrite IH by (assumption || lia). f_equal.
        now destruct o, (Nat.odd (length (concat chain))).
      * pose proof (norm16_range (s + word_sum q)). unfold fits. pow2. lia.
    + rewrite IH by (assumption || lia). now rewrite xorb_false_l.
Qed.

(** ** Properties of the checksums *)

Lemma is_bytes_concat chain : payloads chain -> is_bytes (concat chain).
Proof.
  induction 1 as [|q chain [HF _] _ IH]; cbn; [constructor | now apply Forall_app].
Qed.

Lemma pseudo_words_nonneg src dest proto plen : fits 32 src -> fits 32 dest -> fits 16 proto ->
  fits 16 plen -> 0 <= pseudo_words src dest proto plen.
Proof.
  intros Hs Hd Hp Hl. pose proof (htons_fits _ Hp) as Fp. pose proof (htons_fits _ Hl) as Fl.
  unfold pseudo_words, fits in *. pow2. zmod_lia.
Qed.

Lemma chksum_pseudo_norm chain src dest proto plen : payloads chain ->
  fits 32 src -> fits 32 dest -> fits 8 proto -> fits 16 plen ->
  inet_chksum_pseudo chain src dest proto plen
  = 65535 - norm16 (word_sum (concat chain) + pseudo_words src dest proto plen).
Proof.
  intros HF Hs Hd Hp Hl. assert (Hp' : fits 16 proto) by (unfold fits in *; pow2; lia).
  pose proof (is_bytes_concat chain HF) as HFc. pose proof (word_sum_bound _ HFc) as B.
  pose proof (pseudo_words_nonneg _ _ _ _ Hs Hd Hp' Hl) as Bp.
  unfold inet_chksum_pseudo.
  pose proof (pseudo_loop_sum chain [] (Forall_nil _) HF) as E. cbn in E. rewrite E.
  set (o := Nat.odd (length (concat chain))). set (s := word_sum (concat chain)) in *.
  assert (En : (if o then swap_acc (norm16 (half_shift o s)) else norm16 (half_shift o s)) = norm16 s).
  { destruct o; [|reflexivity]. now rewrite half_shift_swap. }
  cbv zeta. rewrite En. pose proof (norm16_range s ltac:(lia)) as R.
  destruct (pseudo_tail (norm16 s) src dest proto plen R Hs Hd Hp' Hl) as [-> Hlt].
  rewrite fold_carry_norm by (unfold fits; lia). rewrite norm16_add_l by lia.
  apply complement16, norm16_range. lia.
Qed.

(** Putting the complement of a sum into the sum gives the all-ones word. *)
Lemma norm16_complement s c : 0 <= s -> c = 65535 - norm16 s -> norm16 (s + c) = 65535.
Proof.
  intros Hs ->. pose proof (norm16_range s Hs).
  rewrite <- norm16_add_l by lia. replace (norm16 s + (65535 - norm16 s)) with 65535 by ring.
  reflexivity.
Qed.

(** A two-byte field at an even offset adds its little-endian value. *)
Lemma word_sum_field pre lo hi post : Nat.Even (length pre) ->
  word_sum (pre ++ [lo; hi] ++ post) = word_sum (pre ++ [0; 0] ++ post) + (lo + 256 * hi).
Proof. intros E. rewrite !(word_sum_app_even pre) by assumption. cbn [app word_sum]. ring. Qed.

Lemma u16_bytes c : 0 <= c <= 65535 -> c mod 256 + 256 * (c / 256) = c /\
  fits 8 (c mod 256) /\ fits 8 (c / 256).
Proof. intros. unfold fits. pow2. zmod_lia. Qed.

(** A change of one byte changes the sum by less than 65535, and not by 0. *)
Lemma word_sum_change p q x y : fits 8 x -> fits 8 y -> x <> y ->
  exists d, word_sum (p ++ x :: q) = word_sum (p ++ y :: q) + d /\ d <> 0 /\ -65535 < d < 65535.
Proof.
  intros Fx Fy Hxy. unfold fits in *. pow2.
  induction p as [|b|b0 b1 p IH] using list_ind2.
  - exists (x - y). destruct q; cbn [app word_sum]; lia.
  - exists (256 * (x - y)). cbn [app word_sum]. lia.
  - destruct IH as (d & E & Hd). exists d. cbn [app word_sum]. lia.
Qed.

Lemma single_byte_change data i x y : is_bytes data -> Z.of_nat (length data) <= 65535 ->
  nth_error data i = Some y -> norm16 (word_sum data) = 65535 -> fits 8 x -> Some y <> Some x ->
  inet_chksum (firstn i data ++ x :: skipn (S i) data) <> 0.
Proof.
  intros HF Hlen Ey Es Fx Hxy.
  pose proof (nth_error_split data i Ey) as (p & q & -> & Hp). subst i.
  rewrite firstn_app, firstn_all, Nat.sub_diag, app_nil_r.
  rewrite skipn_app, skipn_all2, Nat.sub_succ_l, Nat.sub_diag by lia. cbn [skipn app].
  apply Forall_app in HF as [HFp HFq]. inversion_clear HFq as [|? ? Fy HFq'].
  assert (HF : is_bytes (p ++ y :: q)) by (apply Forall_app; auto).
  assert (HF' : is_bytes (p ++ x :: q)) by (apply Forall_app; auto).
  rewrite inet_chksum_norm by (assumption || rewrite length_app in *; assumption).
  pose proof (word_sum_bound _ HF). pose proof (word_sum_bound _ HF').
  destruct (word_sum_change p q x y Fx Fy) as (d & E & Hd & Bd); [congruence|].
  rewrite E in *. unfold norm16 in *. destruct (Z.eqb_spec (word_sum (p ++ y :: q)) 0); [discriminate|].
  destruct (Z.eqb_spec (word_sum (p ++ y :: q) + d) 0); [lia|]. zmod_lia.
Qed.

(** C36: The Internet checksum of a byte sequence is the complement of the
    ones'-complement sum of its 16-bit words (RFC 1071) for every length a
    [u16_t] can hold: neither the 32-bit accumulator nor the two folds of
    [lwip_standard_chksum] lose a carry. *)
Theorem inet_chksum_rfc1071 data : is_bytes data -> Z.of_nat (length data) <= 65535 ->
  inet_chksum data = 65535 - norm16 (word_sum data) /\
  lwip_standard_chksum data = norm16 (word_sum data).
Proof. intros. split; [now apply inet_chksum_norm | now apply standard_chksum_norm]. Qed.

Lemma inet_chksum_rfc1071_witness :
  inet_chksum [255; 255; 1; 0; 7] = 65535 - norm16 (65535 + 1 + 7) /\
  lwip_standard_chksum [255; 255; 1; 0; 7] = 8.
Proof.
  apply (inet_chksum_rfc1071 [255; 255; 1; 0; 7]); [|vm_compute; discriminate].
  repeat constructor; unfold fits; cbn; lia.
Defined.

(** A checksum field filled in over zero bytes. *)
Lemma chksum_filled pre post :
  let cleared := pre ++ [0; 0] ++ post in
  let c := inet_chksum cleared in
  let filled := pre ++ [c mod 256; c / 256] ++ post in
  is_bytes cleared -> Z.of_nat (length cleared) <= 65535 -> Nat.Even (length pre) ->
  is_bytes filled /\ norm16 (word_sum filled) = 65535 /\ inet_chksum filled = 0.
Proof.
  intros cleared c filled HF Hlen Ev.
  pose proof (word_sum_bound cleared HF) as B.
  assert (Ec : c = 65535 - norm16 (word_sum cleared)) by now apply inet_chksum_norm.
  pose proof (norm16_range (word_sum cleared) ltac:(lia)).
  destruct (u16_bytes c ltac:(lia)) as (Eb & F0 & F1).
  assert (HF' : is_bytes filled).
  { unfold cleared, filled in *. apply Forall_app in HF as [? HF]. apply Forall_app in HF as [_ ?].
    apply Forall_app. split; [assumption|]. cbn [app].
    constructor; [exact F0|]. constructor; [exact F1 | assumption]. }
  assert (El : length filled = length cleared) by (unfold filled, cleared; now rewrite !length_app).
  assert (Es : norm16 (word_sum filled) = 65535).
  { unfold filled. rewrite word_sum_field, Eb by assumption. apply (norm16_complement (word_sum cleared)); [lia | exact Ec]. }
  split; [exact HF'|]. split; [exact Es|]. rewrite inet_chksum_norm by (assumption || lia). lia.
Qed.

(** A header whose checksum field was zero when [inet_chksum] was taken,
    and was then filled in, verifies: the checksum over it is zero; and it no
    longer verifies after any change of a single byte. *)
Theorem chksum_fill_verify pre post i x :
  let cleared := pre ++ [0; 0] ++ post in
  let c := inet_chksum cleared in
  let filled := pre ++ [c mod 256; c / 256] ++ post in
  is_bytes cleared -> Z.of_nat (length cleared) <= 65535 -> Nat.Even (length pre) ->
  inet_chksum filled = 0 /\
  (nth_error filled i <> Some x -> (i < length filled)%nat -> fits 8 x ->
   inet_chksum (firstn i filled ++ x :: skipn (S i) filled) <> 0).
Proof.
  intros cleared c filled HF Hlen Ev.
  destruct (chksum_filled pre post HF Hlen Ev) as (HF' & Es & Ez). fold cleared c filled in HF', Es, Ez.
  assert (El : length filled = length cleared) by (unfold filled, cleared; now rewrite !length_app).
  split; [exact Ez|]. intros Hx Hi Fx.
  destruct (nth_error filled i) as [y|] eqn:Ey; [|now apply nth_error_Some in Hi].
  rewrite <- El in Hlen. clear - HF' Hlen Es Hx Fx Ey.
  now apply (single_byte_change filled i x y).
Qed.

Ltac concrete_bytes := repeat constructor; vm_compute; try discriminate; try reflexivity; auto.

Lemma chksum_fill_verify_witness :
  inet_chksum ([69; 0] ++ [inet_chksum [69; 0; 0; 0; 1; 2] mod 256;
                           inet_chksum [69; 0; 0; 0; 1; 2] / 256] ++ [1; 2]) = 0 /\
  inet_chksum (firstn 1 [69; 0; 185; 253; 1; 2] ++ 9 :: skipn 2 [69; 0; 185; 253; 1; 2]) <> 0.
Proof.
  destruct (chksum_fill_verify [69; 0] [1; 2] 1 9) as [V D];
    [concrete_bytes | vm_compute; discriminate | now exists 1%nat |].
  split; [exact V | apply D; [discriminate | apply le_n_S, le_n_S, le_0_n | now split]].
Defined.

(** The checksum of TCP and UDP over a pbuf chain depends on the bytes only,
    not on how they are split: for every chain, odd-length payloads in the
    middle included, it is the complement of the ones'-complement sum of the
    concatenated payloads and the pseudo header. *)
Theorem chksum_pseudo_split_independent chain src dest proto plen :
  payloads chain -> fits 32 src -> fits 32 dest -> fits 8 proto -> fits 16 plen ->
  inet_chksum_pseudo chain src dest proto plen
  = 65535 - norm16 (word_sum (concat chain) + pseudo_words src dest proto plen).
Proof. intros. now apply chksum_pseudo_norm. Qed.

Ltac concrete_chain :=
  repeat (constructor; [split; [concrete_bytes | vm_compute; discriminate]|]); constructor.

Lemma chksum_pseudo_split_independent_witness :
  inet_chksum_pseudo [[1]; [2; 3; 4]; [5]] 16777343 16777343 6 5
  = 65535 - norm16 (word_sum [1; 2; 3; 4; 5] + pseudo_words 16777343 16777343 6 5).
Proof.
  apply (chksum_pseudo_split_independent [[1]; [2; 3; 4]; [5]] 16777343 16777343 6 5);
    [concrete_chain | now split ..].
Defined.

(** Filling in the checksum makes the sum of all words 65535. *)
Lemma pseudo_filled_sum tx rx pre post src dest proto plen :
  payloads tx -> payloads rx -> fits 32 src -> fits 32 dest -> fits 8 proto -> fits 16 plen ->
  Nat.Even (length pre) ->
  let c := inet_chksum_pseudo tx src dest proto plen in
  concat tx = pre ++ [0; 0] ++ post -> concat rx = pre ++ [c mod 256; c / 256] ++ post ->
  norm16 (word_sum (concat rx) + pseudo_words src dest proto plen) = 65535.
Proof.
  intros HFt HFr Hs Hd Hp Hl Ev c Et Er.
  assert (Hp' : fits 16 proto) by (unfold fits in *; pow2; lia).
  pose proof (pseudo_words_nonneg _ _ _ _ Hs Hd Hp' Hl) as Bp.
  pose proof (word_sum_bound _ (is_bytes_concat tx HFt)) as Bt.
  assert (Ec : c = 65535 - norm16 (word_sum (concat tx) + pseudo_words src dest proto plen))
    by now apply chksum_pseudo_norm.
  pose proof (norm16_range (word_sum (concat tx) + pseudo_words src dest proto plen) ltac:(lia)).
  destruct (u16_bytes c ltac:(lia)) as (Eb & _ & _).
  rewrite Er, word_sum_field, Eb, <- Et by assumption.
  rewrite <- Z.add_assoc, (Z.add_comm c), Z.add_assoc.
  apply norm16_complement; [lia | exact Ec].
Qed.

(** No change of one byte gives that sum again. *)
Lemma pseudo_changed_sum p q x y w : fits 8 x -> fits 8 y -> x <> y -> is_bytes (p ++ y :: q) -> is_bytes (p ++ x :: q) ->
  0 <= w -> norm16 (word_sum (p ++ y :: q) + w) = 65535 -> norm16 (word_sum (p ++ x :: q) + w) <> 65535.
Proof.
  intros Fx Fy Hxy B B' Hw E. pose proof (word_sum_bound _ B). pose proof (word_sum_bound _ B').
  destruct (word_sum_change p q x y Fx Fy Hxy) as (d & Ed & Hd & Bd). rewrite Ed in *. unfold norm16 in *.
  destruct (Z.eqb_spec (word_sum (p ++ y :: q) + w) 0); [discriminate|].
  destruct (Z.eqb_spec (word_sum (p ++ y :: q) + d + w) 0); [lia|]. zmod_lia.
Qed.

(** A segment whose checksum field was zero when the sender summed it over
    its chain, and was then filled in, passes the receiver's test
    ([inet_chksum_pseudo] gives zero) whatever chain the receiver holds it in. *)
Theorem pseudo_fill_verify tx rx pre post src dest proto plen :
  payloads tx -> payloads rx -> fits 32 src -> fits 32 dest -> fits 8 proto -> fits 16 plen ->
  Nat.Even (length pre) ->
  let c := inet_chksum_pseudo tx src dest proto plen in
  concat tx = pre ++ [0; 0] ++ post -> concat rx = pre ++ [c mod 256; c / 256] ++ post ->
  inet_chksum_pseudo rx src dest proto plen = 0.
Proof.
  intros HFt HFr Hs Hd Hp Hl Ev c Et Er. rewrite chksum_pseudo_norm by assumption.
  now rewrite (pseudo_filled_sum tx rx pre post).
Qed.

Lemma pseudo_fill_verify_witness :
  inet_chksum_pseudo [[1]; [2; 0; 0]; [9]] 1 2 17 5 = 59378 /\
  inet_chksum_pseudo [[1; 2; 242]; [231; 9]] 1 2 17 5 = 0.
Proof.
  split; [reflexivity|].
  apply (pseudo_fill_verify [[1]; [2; 0; 0]; [9]] [[1; 2; 242]; [231; 9]] [1; 2] [9] 1 2 17 5);
    [concrete_chain | concrete_chain | now split .. | now exists 1%nat | reflexivity | reflexivity].
Defined.

(** What [inet_chksum_pbuf] computes, the swap of its loop having no effect:
    the sum of the payloads' own sums, byte-swapped once when the chain's
    length is odd.  So it is the Internet checksum of a chain of even-length
    payloads, and the byte-swapped one of a single odd-length payload. *)
Theorem inet_chksum_pbuf_actual chain : payloads chain ->
  inet_chksum_pbuf chain
    = 65535 - norm16 (half_shift (Nat.odd (length (concat chain))) (sum_of_sums chain)) /\
  (Forall (fun q => Nat.Even (length q)) chain ->
     inet_chksum_pbuf chain = 65535 - norm16 (word_sum (concat chain))) /\
  (forall q, chain = [q] -> Nat.Odd (length q) ->
     inet_chksum_pbuf chain = htons (inet_chksum q)).
Proof.
  intros HF. pose proof (sum_of_sums_nonneg chain HF) as B.
  assert (E : inet_chksum_pbuf chain
    = 65535 - norm16 (half_shift (Nat.odd (length (concat chain))) (sum_of_sums chain))).
  { unfold inet_chksum_pbuf. pose proof (pbuf_loop_sum chain 0 false ltac:(lia) HF) as E.
    change (norm16 0) with 0 in E. rewrite E, xorb_false_l, Z.add_0_l.
    destruct (Nat.odd (length (concat chain))); cbn [half_shift].
    - rewrite swap_acc_norm by lia. apply complement16, norm16_range. lia.
    - now apply complement16, norm16_range. }
  split; [exact E|]. split.
  - intros Ev. rewrite E.
    assert (Nat.odd (length (concat chain)) = false /\ sum_of_sums chain = word_sum (concat chain))
      as [-> ->]; [|reflexivity].
    clear - Ev. induction Ev as [|q chain Eq _ [IHo IHs]]; [now split|]. cbn [concat].
    rewrite odd_length_app, IHo, word_sum_app_even, <- IHs by assumption.
    apply Nat.even_spec in Eq. now rewrite <- Nat.negb_even, Eq.
  - intros q -> Oq. rewrite E. cbn [concat]. rewrite app_nil_r.
    apply Nat.odd_spec in Oq as ->. inversion_clear HF as [|? ? [HFq Hlen] _].
    pose proof (word_sum_bound q HFq) as Bq.
    pose proof (norm16_range (word_sum q) ltac:(lia)) as R.
    rewrite inet_chksum_norm by assumption. unfold sum_of_sums. cbn [fold_right half_shift].
    rewrite Z.add_0_r, <- swap_acc_norm, swap_acc_div, htons_div by (unfold fits; pow2; lia).
    zmod_lia.
Qed.

Lemma inet_chksum_pbuf_actual_witness :
  inet_chksum_pbuf [[1; 2; 3]] = htons (inet_chksum [1; 2; 3]).
Proof.
  now apply (inet_chksum_pbuf_actual [[1; 2; 3]] ltac:(concrete_chain)); [|exists 1%nat].
Defined.

Example inet_chksum_pbuf_odd_wrong :
  inet_chksum_pbuf [[1; 2; 3]] <> inet_chksum [1; 2; 3].
Proof. vm_compute. discriminate. Qed.

(** [htons] and [htonl] reverse the bytes of their argument, and undo
    themselves: [ntohs] and [ntohl] are their inverses. *)
Theorem byte_order_roundtrip n m b0 b1 b2 b3 :
  fits 16 n -> fits 32 m -> fits 8 b0 -> fits 8 b1 -> fits 8 b2 -> fits 8 b3 ->
  ntohs (htons n) = n /\ ntohl (htonl m) = m /\
  fits 16 (htons n) /\ fits 32 (htonl m) /\
  htons (b0 + 256 * b1) = b1 + 256 * b0 /\
  bytes32 (htonl (word32 b0 b1 b2 b3)) = rev (bytes32 (word32 b0 b1 b2 b3)).
Proof.
  intros Hn Hm H0 H1 H2 H3. repeat split; try (now apply htons_fits || now apply htonl_fits).
  - now apply htons_htons.
  - now apply htonl_htonl.
  - unfold fits in *. pow2. rewrite htons_div by (unfold fits; pow2; lia). zmod_lia.
  - now rewrite htonl_word32, !bytes32_word32.
Qed.

Lemma byte_order_roundtrip_witness :
  ntohs (htons 258) = 258 /\ ntohl (htonl 16909060) = 16909060.
Proof.
  destruct (byte_order_roundtrip 258 16909060 1 2 3 4) as (A & B & _); now split.
Defined.

(** ** Dotted numbers *)

(** A decimal numeral as [inet_aton] reads it in base 10, or the single 0. *)
Definition numeral (ds : list Z) : Prop :=
  Forall (fun c => isdigit c = true) ds /\ ds <> [] /\ (hd 0 ds <> 48 \/ ds = [48]).

(** Its value, modulo [2^32] as [u32_t] arithmetic gives it. *)
Definition numeral_value (ds : list Z) : Z :=
  u32 (fold_left (fun v c => v * 10 + (c - 48)) ds 0).

(** [c] ends a number: it continues neither a numeral nor an [0x] prefix. *)
Definition ends_number (cp : list Z) : Prop :=
  isdigit (char_at cp) = false /\ char_at cp <> 120 /\ char_at cp <> 88.

Lemma aton_digits_run ds cp : forall v, Forall (fun c => isdigit c = true) ds ->
  isdigit (char_at cp) = false ->
  aton_digits 10 (u32 v) (ds ++ cp) = (u32 (fold_left (fun v c => v * 10 + (c - 48)) ds v), cp).
Proof.
  induction ds as [|c ds IH]; intros v HF Hcp; cbn [app fold_left].
  - destruct cp as [|c cp]; [reflexivity|]. cbn [aton_digits char_at hd] in *. now rewrite Hcp.
  - inversion_clear HF as [|? ? Hc HF']. cbn [aton_digits]. rewrite Hc.
    rewrite wrap_mul_l, wrap_add_l. now apply IH.
Qed.

Lemma aton_number_numeral ds cp : numeral ds -> ends_number cp ->
  aton_number (ds ++ cp) = Some (numeral_value ds, cp).
Proof.
  intros (HF & Hne & Hhd) (Hcp & Hx & HX). destruct ds as [|c ds]; [congruence|].
  unfold aton_number. cbn [app char_at hd tl]. inversion_clear HF as [|? ? Hc HF'].
  rewrite Hc. cbn [negb]. destruct Hhd as [Hc0|Hc0].
  - cbn [hd] in Hc0. replace (c =? 48) with false by lia.
    pose proof (aton_digits_run (c :: ds) cp 0 ltac:(now constructor) Hcp) as R.
    change (u32 0) with 0 in R. cbn [app] in R. now rewrite R.
  - injection Hc0 as -> ->. cbn [Z.eqb]. cbn [app]. unfold char_at in *.
    change (48 =? 48) with true. cbv iota.
    replace (hd 0 cp =? 120) with false by lia. replace (hd 0 cp =? 88) with false by lia.
    cbn [orb]. destruct cp as [|c cp]; [reflexivity|]. cbn [aton_digits hd] in *.
    rewrite Hcp. reflexivity.
Qed.

Definition dotted (ns : list (list Z)) (last : list Z) : list Z :=
  flat_map (fun ds => ds ++ [46]) ns ++ last.

Lemma ends_dot cp : ends_number (46 :: cp).
Proof. repeat split; discriminate. Qed.

Lemma aton_parts_dotted ns last : forall room, Forall numeral ns -> numeral last ->
  aton_parts room (dotted ns last)
  = if (length ns <=? room)%nat then Some (map numeral_value ns, numeral_value last, []) else None.
Proof.
  induction ns as [|ds ns IH]; intros room HF Hl; unfold dotted; cbn [flat_map app length map].
  - pose proof (aton_number_numeral last [] Hl) as E. rewrite app_nil_r in E.
    destruct room; cbn [aton_parts Nat.leb]; rewrite E by (repeat split; discriminate); reflexivity.
  - inversion_clear HF as [|? ? Hd HF']. rewrite <- !app_assoc. fold (dotted ns last).
    pose proof (aton_number_numeral ds ([46] ++ dotted ns last) Hd (ends_dot _)) as E.
    destruct room; cbn [aton_parts Nat.leb]; rewrite E; cbn [char_at app hd tl];
      change (46 =? 46) with true; cbv iota; [reflexivity|].
    rewrite IH by assumption. now destruct (length ns <=? room)%nat.
Qed.

(** [inet_aton] on a text of decimal numbers separated by dots: more than
    four are refused; one to four are combined as a, a.b, a.b.c or a.b.c.d,
    where only the last number is compared with the room left for it - the
    others are shifted into place without a range check. *)
Theorem inet_aton_dotted ns last : Forall numeral ns -> numeral last ->
  inet_aton (dotted ns last)
  = if (length ns <=? 3)%nat
    then option_map htonl (aton_value (map numeral_value ns) (numeral_value last)) else None.
Proof.
  intros HF Hl. unfold inet_aton. rewrite aton_parts_dotted by assumption.
  destruct (length ns <=? 3)%nat; [|reflexivity]. cbn [char_at hd].
  change (0 =? 0) with true. cbn [negb andb].
  now destruct (aton_value (map numeral_value ns) (numeral_value last)).
Qed.

(* "256.0.0.1" is accepted, as 0.0.0.1 *)
Lemma inet_aton_dotted_witness :
  inet_aton [50; 53; 54; 46; 48; 46; 48; 46; 49] = Some (htonl 1).
Proof.
  apply (inet_aton_dotted [[50; 53; 54]; [48]; [48]] [49]); unfold numeral.
  - repeat constructor; try discriminate; try (now left); now right.
  - repeat constructor; try discriminate; now left.
Defined.

(** *** The digits of a byte, by inspection of the 256 cases *)

Lemma forall_bytes (P : Z -> bool) : forallb P (map Z.of_nat (seq 0 256)) = true ->
  forall b, fits 8 b -> P b = true.
Proof.
  intros H b Hb. rewrite forallb_forall in H. apply H. apply in_map_iff.
  exists (Z.to_nat b). unfold fits in Hb. change (2 ^ 8) with 256 in Hb.
  split; [lia|]. apply in_seq. lia.
Qed.

Definition byte_text (b : Z) : list Z := rev (ntoa_digits ntoa_fuel b).

Lemma byte_text_ok b : fits 8 b ->
  numeral (byte_text b) /\ numeral_value (byte_text b) = b /\ (length (byte_text b) <= 3)%nat.
Proof.
  intros Hb.
  assert (E : (forallb isdigit (byte_text b) && negb (length (byte_text b) =? 0)%nat
    && (negb (hd 0 (byte_text b) =? 48) || (length (byte_text b) =? 1)%nat)
    && (numeral_value (byte_text b) =? b) && (length (byte_text b) <=? 3)%nat) = true).
  { revert b Hb. apply forall_bytes. vm_compute. reflexivity. }
  rewrite !andb_true_iff in E. destruct E as ((((HF & Hne) & Hhd) & Hv) & Hlen).
  apply Nat.leb_le in Hlen. apply Z.eqb_eq in Hv. rewrite forallb_forall, <- Forall_forall in HF.
  repeat split; auto.
  - intros E. now rewrite E in Hne.
  - apply orb_true_iff in Hhd as [Hhd|Hhd]; [left; lia|].
    destruct (Z.eq_dec (hd 0 (byte_text b)) 48) as [E|]; [|now left]. right.
    apply Nat.eqb_eq in Hhd. destruct (byte_text b) as [|c [|]]; try discriminate. cbn in E. congruence.
Qed.

(** The digit loop ends within its fuel: more turns change nothing. *)
Lemma ntoa_digits_ends b fuel : fits 8 b -> (3 <= fuel)%nat ->
  ntoa_digits fuel b = ntoa_digits ntoa_fuel b.
Proof.
  intros Hb Hf. destruct fuel as [|[|[|fuel]]]; try lia. unfold fits in Hb. pow2.
  assert (b / 10 / 10 / 10 = 0) as E by zmod_lia.
  unfold ntoa_fuel. cbn [ntoa_digits]. rewrite E. reflexivity.
Qed.

Lemma inet_ntoa_dotted b0 b1 b2 b3 : fits 8 b0 -> fits 8 b1 -> fits 8 b2 -> fits 8 b3 ->
  inet_ntoa (word32 b0 b1 b2 b3)
  = dotted [byte_text b0; byte_text b1; byte_text b2] (byte_text b3).
Proof.
  intros. unfold inet_ntoa, dotted. rewrite bytes32_word32 by assumption. cbn [flat_map].
  rewrite app_nil_r, !app_assoc, removelast_last, app_nil_r. now rewrite <- !app_assoc.
Qed.

Lemma aton_value_bytes b0 b1 b2 b3 : fits 8 b0 -> fits 8 b1 -> fits 8 b2 -> fits 8 b3 ->
  aton_value [b0; b1; b2] b3 = Some (word32 b3 b2 b1 b0).
Proof.
  unfold fits, word32, aton_value. intros. rewrite !shiftl_mul by lia. pow2.
  replace (255 <? b3) with false by lia. unwrap_inner.
  change 65536 with (2 ^ 16). f_equal. rewrite Z.lor_comm.
  replace (b0 * 16777216) with (b0 * 256 * 2 ^ 16) by (pow2; ring).
  assert (E : Z.lor (b0 * 256 * 2 ^ 16) (b1 * 2 ^ 16) = (b0 * 256 + b1) * 2 ^ 16).
  { rewrite <- !shiftl_mul, <- Z.shiftl_lor by lia. f_equal.
    change 256 with (2 ^ 8). apply lor_add; pow2; lia. }
  rewrite E. replace ((b0 * 256 + b1) * 2 ^ 16) with ((b0 * 256 + b1) * 256 * 2 ^ 8) by (pow2; ring).
  change (b2 * 256) with (b2 * 2 ^ 8).
  assert (E' : Z.lor ((b0 * 256 + b1) * 256 * 2 ^ 8) (b2 * 2 ^ 8) = ((b0 * 256 + b1) * 256 + b2) * 2 ^ 8).
  { rewrite <- !shiftl_mul, <- Z.shiftl_lor by lia. f_equal.
    change 256 with (2 ^ 8). apply lor_add; pow2; lia. }
  rewrite E', lor_add by (pow2; lia). pow2. ring.
Qed.

(** Printing an address and reading it back gives the address, for all
    [2^32] of them, through [inet_aton] and [inet_addr] alike. *)
Theorem ntoa_aton_roundtrip a : fits 32 a ->
  inet_aton (inet_ntoa a) = Some a /\ inet_addr (inet_ntoa a) = a.
Proof.
  intros Ha. assert (E : inet_aton (inet_ntoa a) = Some a); [|split; [exact E | unfold inet_addr; now rewrite E]].
  destruct (word32_split a Ha) as (b0 & b1 & b2 & b3 & -> & H0 & H1 & H2 & H3).
  rewrite inet_ntoa_dotted by assumption. unfold inet_aton.
  destruct (byte_text_ok b0 H0) as (N0 & V0 & _), (byte_text_ok b1 H1) as (N1 & V1 & _),
    (byte_text_ok b2 H2) as (N2 & V2 & _), (byte_text_ok b3 H3) as (N3 & V3 & _).
  rewrite aton_parts_dotted by auto. cbn [length Nat.leb map char_at hd].
  change (0 =? 0) with true. cbn [negb andb]. rewrite V0, V1, V2, V3, aton_value_bytes by assumption.
  now rewrite htonl_word32.
Qed.

Lemma ntoa_aton_roundtrip_witness :
  inet_aton (inet_ntoa 16885952) = Some 16885952 /\ inet_addr (inet_ntoa 16885952) = 16885952.
Proof. apply (ntoa_aton_roundtrip 16885952). now split. Defined.

(** The text of an address has at most 15 characters, so that [str[16]]
    holds it with its NUL; every digit loop ends within the three places of
    [inv], and the text is made of digits and dots. *)
Theorem ntoa_fits_buffer a : fits 32 a ->
  (length (inet_ntoa a) <= 15)%nat /\
  Forall (fun c => isdigit c = true \/ c = 46) (inet_ntoa a) /\
  Forall (fun b => (length (ntoa_digits ntoa_fuel b) <= 3)%nat /\
     forall fuel, (3 <= fuel)%nat -> ntoa_digits fuel b = ntoa_digits ntoa_fuel b) (bytes32 a).
Proof.
  intros Ha. destruct (word32_split a Ha) as (b0 & b1 & b2 & b3 & -> & H0 & H1 & H2 & H3).
  rewrite inet_ntoa_dotted, bytes32_word32 by assumption.
  assert (L : forall b, fits 8 b -> (length (ntoa_digits ntoa_fuel b) <= 3)%nat /\
     forall fuel, (3 <= fuel)%nat -> ntoa_digits fuel b = ntoa_digits ntoa_fuel b).
  { intros b Hb. destruct (byte_text_ok b Hb) as (_ & _ & Hl). unfold byte_text in Hl.
    rewrite length_rev in Hl. split; [assumption|]. intros. now apply ntoa_digits_ends. }
  destruct (byte_text_ok b0 H0) as ((F0 & _) & _ & L0), (byte_text_ok b1 H1) as ((F1 & _) & _ & L1),
    (byte_text_ok b2 H2) as ((F2 & _) & _ & L2), (byte_text_ok b3 H3) as ((F3 & _) & _ & L3).
  unfold dotted. cbn [flat_map]. rewrite app_nil_r. split; [|split].
  - rewrite !length_app. cbn [length]. lia.
  - rewrite !Forall_app. repeat split;
      try (eapply Forall_impl; [|eassumption]; intros; now left);
      (apply Forall_cons; [now right | apply Forall_nil]).
  - repeat first [apply Forall_nil | apply Forall_cons; [now apply L|]].
Qed.

Lemma ntoa_fits_buffer_witness : (length (inet_ntoa 4294967295) <= 15)%nat.
Proof. apply (ntoa_fits_buffer 4294967295). now split. Defined.
