(* ===== verification/IpAddr.v ===== *)
(** * IpAddr: IPv4 addresses and the interface they are compared with

    [nsc-0.5.3/lwip-HEAD/src/core/ipv4/ip_addr.c] and the macros of
    [include/ipv4/lwip/ip_addr.h].  An address is the word in memory (network
    byte order on a little-endian machine). *)
From Stdlib Require Import ZArith Lia List Bool.
From S2P Require Import Prelude Inet.
#[local] Open Scope Z_scope.

(** The fields of [struct netif] that addresses are checked against. *)
Record netif := mkNetif { netif_addr : Z; netmask : Z; netif_flags : Z }.

Definition NETIF_FLAG_BROADCAST : Z := 2.

Definition ip_addr_any : Z := 0.
Definition ip_addr_broadcast : Z := 4294967295.

(** [ip_addr_isany(addr)]; [None] is the null pointer. *)
Definition ip_addr_isany (ip : option Z) : bool :=
  match ip with None => true | Some a => a =? 0 end.

Definition ip_addr_netcmp (a b mask : Z) : bool := Z.land a mask =? Z.land b mask.

Definition ip_addr_ismulticast (a : Z) : bool := Z.land a (ntohl 4026531840) =? ntohl 3758096384.

(** [u8_t ip_addr_isbroadcast(addr, netif)] *)
Definition ip_addr_isbroadcast (a : Z) (n : netif) : bool :=
  if (a =? ip_addr_broadcast) || (a =? ip_addr_any) then true
  else if Z.land (netif_flags n) NETIF_FLAG_BROADCAST =? 0 then false
  else if a =? netif_addr n then false
  else ip_addr_netcmp a (netif_addr n) (netmask n) &&
       (Z.land a (u32 (Z.lnot (netmask n))) =? Z.land ip_addr_broadcast (u32 (Z.lnot (netmask n)))).

(** The high bits [1110] of the first byte. *)
Lemma ismulticast_first b0 b1 b2 b3 : fits 8 b0 -> fits 8 b1 -> fits 8 b2 -> fits 8 b3 ->
  ip_addr_ismulticast (word32 b0 b1 b2 b3) = (b0 / 16 =? 14).
Proof.
  intros H0 H1 H2 H3. unfold ip_addr_ismulticast.
  change (ntohl 4026531840) with (Z.shiftl (2 ^ 4 - 1) 4). change (ntohl 3758096384) with 224.
  rewrite land_shifted_mask by lia.
  replace (word32 b0 b1 b2 b3 / 2 ^ 4 mod 2 ^ 4) with (b0 / 16).
  - destruct (Z.eqb_spec (b0 / 16) 14) as [->|N]; [reflexivity|].
    apply Z.eqb_neq. change (2 ^ 4) with 16. lia.
  - unfold word32, fits in *. pow2. change (2 ^ 4) with 16. zmod_lia.
Qed.
