(* ===== verification/Pbuf.v ===== *)
(** * Pbuf: lwIP's packet buffers

    [nsc-0.5.3/lwip-HEAD/src/core/pbuf.c] as NSC builds it: [NO_SYS] 1 (the
    semaphores are empty macros), [SYS_LIGHTWEIGHT_PROT] 0, [PBUF_STATS] 1,
    [PBUF_DEBUG] off, [MEM_ALIGNMENT] 1, [mem_malloc], [mem_free],
    [mem_realloc] and [memp_malloc(MEMP_PBUF)] being libc's [malloc], [free]
    and [realloc] ([src/nsc/support.c]).  [LWIP_ASSERT] never fires in this
    build, so it is not part of the model.

    Memory is a typed heap: the [struct pbuf] at an address, the bytes of the
    payloads, the live blocks of libc's heap; address 0 is [NULL].  libc is the
    class [Platform]; reading or writing through a pointer at which there is no
    pbuf, and freeing what was not allocated, is a fault ([None]). *)
From Stdlib Require Import ZArith Lia List Bool.
From stdpp Require Import base gmap list.
From S2P Require Import Prelude.
#[local] Open Scope Z_scope.
#[local] Open Scope sm_scope.

(** ** Data *)

Definition PBUF_TRANSPORT_HLEN : Z := 20.
Definition PBUF_IP_HLEN : Z := 20.
Definition PBUF_LINK_HLEN : Z := 14.
Definition PBUF_POOL_SIZE : Z := 16.
Definition PBUF_POOL_BUFSIZE : Z := 128.
Definition sizeof_pbuf : Z := 16.

Inductive pbuf_layer := PBUF_TRANSPORT | PBUF_IP | PBUF_LINK | PBUF_RAW.
Inductive pbuf_flag := PBUF_RAM | PBUF_ROM | PBUF_REF | PBUF_POOL.

Definition PBUF_FLAG_RAM : Z := 0.
Definition PBUF_FLAG_ROM : Z := 1.
Definition PBUF_FLAG_POOL : Z := 2.
Definition PBUF_FLAG_REF : Z := 4.

Record pbuf := mkPbuf {
  next : Z; payload : Z; tot_len : Z; len : Z; flags : Z; ref : Z
}.

#[export] Instance pbuf_eq_dec : EqDecision pbuf.
Proof. solve_decision. Defined.

Definition set_next (v : Z) (b : pbuf) : pbuf :=
  mkPbuf v (payload b) (tot_len b) (len b) (flags b) (ref b).
Definition set_payload (v : Z) (b : pbuf) : pbuf :=
  mkPbuf (next b) v (tot_len b) (len b) (flags b) (ref b).
Definition set_tot_len (v : Z) (b : pbuf) : pbuf :=
  mkPbuf (next b) (payload b) v (len b) (flags b) (ref b).
Definition set_len (v : Z) (b : pbuf) : pbuf :=
  mkPbuf (next b) (payload b) (tot_len b) v (flags b) (ref b).
Definition set_ref (v : Z) (b : pbuf) : pbuf :=
  mkPbuf (next b) (payload b) (tot_len b) (len b) (flags b) v.

(** [lwip_stats.pbuf]: [u16_t] counters. *)
Record pbuf_stats := mkStats { avail : Z; used : Z; max : Z; err : Z; alloc_locked : Z }.

Record pstate := mkState {
  pbufs : gmap Z pbuf;              (* the pbuf at an address *)
  mem : gmap Z Z;                   (* payload bytes *)
  blocks : gmap Z Z;                (* libc's live blocks: address and size *)
  pbuf_pool : Z;
  pool_free_lock : Z;
  pool_alloc_lock : Z;
  stats : pbuf_stats
}.

Definition with_pbufs (f : gmap Z pbuf -> gmap Z pbuf) (st : pstate) : pstate :=
  mkState (f (pbufs st)) (mem st) (blocks st) (pbuf_pool st) (pool_free_lock st)
          (pool_alloc_lock st) (stats st).
Definition with_mem (f : gmap Z Z -> gmap Z Z) (st : pstate) : pstate :=
  mkState (pbufs st) (f (mem st)) (blocks st) (pbuf_pool st) (pool_free_lock st)
          (pool_alloc_lock st) (stats st).
Definition with_blocks (f : gmap Z Z -> gmap Z Z) (st : pstate) : pstate :=
  mkState (pbufs st) (mem st) (f (blocks st)) (pbuf_pool st) (pool_free_lock st)
          (pool_alloc_lock st) (stats st).
Definition with_pool (p : Z) (st : pstate) : pstate :=
  mkState (pbufs st) (mem st) (blocks st) p (pool_free_lock st) (pool_alloc_lock st) (stats st).
Definition with_alloc_lock (v : Z) (st : pstate) : pstate :=
  mkState (pbufs st) (mem st) (blocks st) (pbuf_pool st) (pool_free_lock st) v (stats st).
Definition with_stats (f : pbuf_stats -> pbuf_stats) (st : pstate) : pstate :=
  mkState (pbufs st) (mem st) (blocks st) (pbuf_pool st) (pool_free_lock st)
          (pool_alloc_lock st) (f (stats st)).

(** ** libc and the linker *)

Class Platform := {
  pool_base : Z;                                 (* [pbuf_pool_memory] *)
  malloc_addr : gmap Z Z -> Z -> option Z;       (* [None]: out of memory *)
  realloc_addr : gmap Z Z -> Z -> Z -> option Z
}.

Abbreviation M := (SM pstate).

Section Ops.
Context `{Platform}.

Definition load (p : Z) : M pbuf :=
  fun st => match pbufs st !! p with Some b => Some (b, st) | None => None end.

(** [p->f = v] for some fields of the pbuf at [p]. *)
Definition update (p : Z) (f : pbuf -> pbuf) : M unit :=
  fun st => match pbufs st !! p with
            | Some b => Some (tt, with_pbufs <[p := f b]> st)
            | None => None
            end.

Definition malloc (size : Z) : M Z :=
  fun st => match malloc_addr (blocks st) size with
            | Some a => Some (a, with_blocks <[a := size]> st)
            | None => Some (0, st)
            end.

(** Freeing a block takes the pbuf kept in it away. *)
Definition free (p : Z) : M unit :=
  fun st =>
    if p =? 0 then Some (tt, st)
    else match blocks st !! p with
         | Some _ => Some (tt, with_pbufs (delete p) (with_blocks (delete p) st))
         | None => None
         end.

(** [realloc] may move the block, with the pbuf in it. *)
Definition realloc (p size : Z) : M Z :=
  fun st =>
    match blocks st !! p, pbufs st !! p with
    | Some _, Some b =>
        match realloc_addr (blocks st) p size with
        | Some a => Some (a, with_pbufs (fun h => <[a := b]> (delete p h))
                               (with_blocks (fun h => <[a := size]> (delete p h)) st))
        | None => Some (0, st)
        end
    | _, _ => None
    end.

(** [src/nsc/support.c]; [mem_size_t] is [u16_t]. *)
Definition mem_malloc (size : Z) : M Z := malloc (u16 size).
Definition mem_free (p : Z) : M unit := free p.
Definition mem_realloc (p size : Z) : M Z := realloc p (u16 size).
Definition memp_malloc_pbuf : M Z := malloc sizeof_pbuf.
Definition memp_free (p : Z) : M unit := free p.

(** [MEM_ALIGN_SIZE] and [MEM_ALIGN] with [MEM_ALIGNMENT] 1. *)
Definition MEM_ALIGN_SIZE (size : Z) : Z := Z.land (size + 1 - 1) (Z.lnot (1 - 1)).
Definition MEM_ALIGN (addr : Z) : Z := Z.land (addr + 1 - 1) (Z.lnot (1 - 1)).

(** ** The pool *)

Fixpoint init_pool (n : nat) (p : Z) (h : gmap Z pbuf) : gmap Z pbuf :=
  match n with
  | O => h
  | S n' =>
      let q := p + PBUF_POOL_BUFSIZE + sizeof_pbuf in
      init_pool n' q
        (<[p := mkPbuf (if (n' =? 0)%nat then 0 else q) (MEM_ALIGN (p + sizeof_pbuf))
                  PBUF_POOL_BUFSIZE PBUF_POOL_BUFSIZE PBUF_FLAG_POOL 0]> h)
  end.

(** The state after [pbuf_init] on zero-initialised memory: the [for] loop
    links each pbuf to the one behind it and [q->next = NULL] ends the list. *)
Definition pbuf_init : pstate :=
  mkState (init_pool (Z.to_nat PBUF_POOL_SIZE) pool_base ∅) ∅ ∅ pool_base 0 0
          (mkStats PBUF_POOL_SIZE 0 0 0 0).

Definition count_used (s : pbuf_stats) : pbuf_stats :=
  let u := u16 (used s + 1) in
  mkStats (avail s) u (if max s <? u then u else max s) (err s) (alloc_locked s).
Definition count_err (s : pbuf_stats) : pbuf_stats :=
  mkStats (avail s) (used s) (max s) (u16 (err s + 1)) (alloc_locked s).
Definition count_locked (s : pbuf_stats) : pbuf_stats :=
  mkStats (avail s) (used s) (max s) (err s) (u16 (alloc_locked s + 1)).
Definition DEC_PBUF_STATS (s : pbuf_stats) : pbuf_stats :=
  mkStats (avail s) (u16 (used s - 1)) (max s) (err s) (alloc_locked s).

Definition pbuf_pool_alloc : M Z :=
  st <- sm_get ;;
  if negb (pool_free_lock st =? 0) then
    sm_modify (with_stats count_locked) ;; sm_ret 0
  else
    sm_modify (with_alloc_lock 1) ;;
    st <- sm_get ;;
    p <- (if pool_free_lock st =? 0 then
            let p := pbuf_pool st in
            (if negb (p =? 0) then
               b <- load p ;; sm_modify (with_pool (next b))
             else sm_ret tt) ;;
            sm_ret p
          else
            sm_modify (with_stats count_locked) ;; sm_ret 0) ;;
    sm_modify (with_alloc_lock 0) ;;
    (if negb (p =? 0) then sm_modify (with_stats count_used) else sm_ret tt) ;;
    sm_ret p.

(** ** Freeing *)

Definition PBUF_POOL_FREE (p : Z) : M unit :=
  st <- sm_get ;;
  update p (set_next (pbuf_pool st)) ;;
  sm_modify (with_pool p) ;;
  sm_modify (with_stats DEC_PBUF_STATS).

(** Deallocation of a pbuf whose reference count has reached 0. *)
Definition pbuf_dealloc (p : Z) (b : pbuf) : M unit :=
  if flags b =? PBUF_FLAG_POOL then
    update p (fun b => set_payload (p + sizeof_pbuf)
                (set_len PBUF_POOL_BUFSIZE (set_tot_len PBUF_POOL_BUFSIZE b))) ;;
    PBUF_POOL_FREE p
  else if (flags b =? PBUF_FLAG_ROM) || (flags b =? PBUF_FLAG_REF) then memp_free p
  else mem_free p.

Fixpoint free_loop (fuel : nat) (p count : Z) : M Z :=
  if p =? 0 then sm_ret count
  else match fuel with
  | O => sm_fail
  | S f =>
      update p (fun b => set_ref (u16 (ref b - 1)) b) ;;
      b <- load p ;;
      if ref b =? 0 then
        let q := next b in
        pbuf_dealloc p b ;;
        free_loop f q (u8 (count + 1))
      else sm_ret count
  end.

(** More than the number of pbufs there are: enough for every chain
    ([chain_length_bound]). *)
Definition heap_fuel (st : pstate) : nat := S (size (pbufs st)).

Definition pbuf_free (p : Z) : M Z :=
  if p =? 0 then sm_ret 0
  else st <- sm_get ;; free_loop (heap_fuel st) p 0.

(** ** Allocation *)

(** The header room of a layer; the cases fall through. *)
Definition layer_offset (l : pbuf_layer) : Z :=
  match l with
  | PBUF_TRANSPORT => u16 (u16 (u16 (0 + PBUF_TRANSPORT_HLEN) + PBUF_IP_HLEN) + PBUF_LINK_HLEN)
  | PBUF_IP => u16 (u16 (0 + PBUF_IP_HLEN) + PBUF_LINK_HLEN)
  | PBUF_LINK => u16 (0 + PBUF_LINK_HLEN)
  | PBUF_RAW => 0
  end.

(** The tail of a pool chain: [r] is the last pbuf so far and [p] the head, to
    be freed when the pool runs out.  Each turn takes at least one byte off
    [rem_len], so as many turns as bytes are enough. *)
Fixpoint alloc_tail (fuel : nat) (p r rem_len : Z) : M bool :=
  if negb (0 <? rem_len) then sm_ret true
  else match fuel with
  | O => sm_fail
  | S f =>
      q <- pbuf_pool_alloc ;;
      if q =? 0 then
        sm_modify (with_stats count_err) ;;
        pbuf_free p ;;
        sm_ret false
      else
        update q (set_next 0) ;;
        update r (set_next q) ;;
        let q_len := u16 (if PBUF_POOL_BUFSIZE <? rem_len then PBUF_POOL_BUFSIZE else rem_len) in
        update q (fun b => set_ref 1 (set_payload (q + sizeof_pbuf)
                    (set_len q_len (set_tot_len (u16 rem_len) b)))) ;;
        alloc_tail f p q (s32 (rem_len - q_len))
  end.

Definition pbuf_alloc_pool (offset length : Z) : M Z :=
  p <- pbuf_pool_alloc ;;
  if p =? 0 then sm_modify (with_stats count_err) ;; sm_ret 0
  else
    update p (set_next 0) ;;
    update p (set_payload (MEM_ALIGN (p + (sizeof_pbuf + offset)))) ;;
    let p_len := u16 (if PBUF_POOL_BUFSIZE - offset <? length
                      then PBUF_POOL_BUFSIZE - offset else length) in
    update p (fun b => set_ref 1 (set_len p_len (set_tot_len length b))) ;;
    let rem_len := s32 (length - p_len) in
    ok <- alloc_tail (Z.to_nat rem_len) p p rem_len ;;
    if ok then
      update p (set_ref 1) ;;
      sm_ret p
    else sm_ret 0.

Definition pbuf_alloc_ram (offset length : Z) : M Z :=
  p <- mem_malloc (MEM_ALIGN_SIZE (sizeof_pbuf + offset) + MEM_ALIGN_SIZE length) ;;
  if p =? 0 then sm_ret 0
  else
    sm_modify (with_pbufs <[p := mkPbuf 0 (MEM_ALIGN (p + sizeof_pbuf + offset))
                                   length length PBUF_FLAG_RAM 1]>) ;;
    sm_ret p.

Definition pbuf_alloc_ref (rom : bool) (length : Z) : M Z :=
  p <- memp_malloc_pbuf ;;
  if p =? 0 then sm_ret 0
  else
    sm_modify (with_pbufs <[p := mkPbuf 0 0 length length
                                   (if rom then PBUF_FLAG_ROM else PBUF_FLAG_REF) 1]>) ;;
    sm_ret p.

(** The two [switch]es; an enumerator outside them is not in the types. *)
Definition pbuf_alloc (l : pbuf_layer) (length : Z) (flag : pbuf_flag) : M Z :=
  let offset := layer_offset l in
  match flag with
  | PBUF_POOL => pbuf_alloc_pool offset length
  | PBUF_RAM => pbuf_alloc_ram offset length
  | PBUF_ROM => pbuf_alloc_ref true length
  | PBUF_REF => pbuf_alloc_ref false length
  end.

(** ** Shrinking and headers *)

(** [while (rem_len > q->len)]: returns the new last pbuf and its length. *)
Fixpoint realloc_skip (fuel : nat) (q rem_len grow : Z) : M (Z * Z) :=
  b <- load q ;;
  if len b <? rem_len then
    match fuel with
    | O => sm_fail
    | S f =>
        update q (fun b => set_tot_len (u16 (tot_len b + grow)) b) ;;
        realloc_skip f (next b) (u16 (rem_len - len b)) grow
    end
  else sm_ret (q, rem_len).

Definition pbuf_realloc (p new_len : Z) : M unit :=
  b <- load p ;;
  if tot_len b <=? new_len then sm_ret tt
  else
    let grow := s16 (new_len - tot_len b) in
    st <- sm_get ;;
    r <- realloc_skip (heap_fuel st) p new_len grow ;;
    let '(q, rem_len) := r in
    b <- load q ;;
    (if (flags b =? PBUF_FLAG_RAM) && negb (rem_len =? len b)
     then mem_realloc q (payload b - q + rem_len) ;; sm_ret tt
     else sm_ret tt) ;;
    update q (set_len rem_len) ;;
    update q (fun b => set_tot_len (len b) b) ;;
    b <- load q ;;
    (if negb (next b =? 0) then pbuf_free (next b) ;; sm_ret tt else sm_ret tt) ;;
    update q (set_next 0).

(** Returns 1 on failure. *)
Definition pbuf_header (p header_size_increment : Z) : M Z :=
  if (header_size_increment =? 0) || (p =? 0) then sm_ret 0
  else
    b <- load p ;;
    let old := payload b in
    r <- (if (flags b =? PBUF_FLAG_RAM) || (flags b =? PBUF_FLAG_POOL) then
            update p (fun b => set_payload (payload b - header_size_increment) b) ;;
            b <- load p ;;
            if payload b <? p + sizeof_pbuf
            then update p (set_payload old) ;; sm_ret 1
            else sm_ret 0
          else if (flags b =? PBUF_FLAG_REF) || (flags b =? PBUF_FLAG_ROM) then
            if (header_size_increment <? 0) && (header_size_increment - len b <=? 0)
            then update p (fun b => set_payload (payload b - header_size_increment) b) ;; sm_ret 0
            else sm_ret 1
          else sm_ret 0) ;;
    if r =? 1 then sm_ret 1
    else
      update p (fun b => set_len (u16 (len b + header_size_increment)) b) ;;
      update p (fun b => set_tot_len (u16 (tot_len b + header_size_increment)) b) ;;
      sm_ret 0.

(** ** Counting, referencing, chaining *)

Fixpoint clen_loop (fuel : nat) (p n : Z) : M Z :=
  if p =? 0 then sm_ret n
  else match fuel with
  | O => sm_fail
  | S f => b <- load p ;; clen_loop f (next b) (u8 (n + 1))
  end.

Definition pbuf_clen (p : Z) : M Z :=
  st <- sm_get ;; clen_loop (heap_fuel st) p 0.

Definition pbuf_ref (p : Z) : M unit :=
  if negb (p =? 0) then update p (fun b => set_ref (u16 (ref b + 1)) b) else sm_ret tt.

(** The [for] loop of [pbuf_cat]: returns the last pbuf of the chain. *)
Fixpoint cat_loop (fuel : nat) (p t : Z) : M Z :=
  b <- load p ;;
  if next b =? 0 then sm_ret p
  else match fuel with
  | O => sm_fail
  | S f =>
      bt <- load t ;;
      update p (fun b => set_tot_len (u16 (tot_len b + tot_len bt)) b) ;;
      b <- load p ;;
      cat_loop f (next b) t
  end.

Definition pbuf_cat (h t : Z) : M unit :=
  if (h =? 0) || (t =? 0) then sm_ret tt
  else
    st <- sm_get ;;
    p <- cat_loop (heap_fuel st) h t ;;
    bt <- load t ;;
    update p (fun b => set_tot_len (u16 (tot_len b + tot_len bt)) b) ;;
    update p (set_next t).

Definition pbuf_chain (h t : Z) : M unit :=
  pbuf_cat h t ;; pbuf_ref t.

(** The loop of [pbuf_queue] without [PBUF_DEBUG]: to the last pbuf of all. *)
Fixpoint queue_last (fuel : nat) (p : Z) : M Z :=
  b <- load p ;;
  if next b =? 0 then sm_ret p
  else match fuel with O => sm_fail | S f => queue_last f (next b) end.

Definition pbuf_queue (p n : Z) : M unit :=
  if (p =? 0) || (n =? 0) || (p =? n) then sm_ret tt
  else
    st <- sm_get ;;
    last <- queue_last (heap_fuel st) p ;;
    update last (set_next n) ;;
    pbuf_ref n.

(** To the last pbuf of the first packet. *)
Fixpoint packet_last (fuel : nat) (p : Z) : M Z :=
  b <- load p ;;
  if tot_len b =? len b then sm_ret p
  else match fuel with O => sm_fail | S f => packet_last f (next b) end.

Definition pbuf_dequeue (p : Z) : M Z :=
  st <- sm_get ;;
  last <- packet_last (heap_fuel st) p ;;
  b <- load last ;;
  let q := next b in
  update last (set_next 0) ;;
  sm_ret q.

(** ** Copying and dechaining *)

(** [memcpy] of [n] bytes; reading a byte that was never written faults. *)
Fixpoint memcpy (dst src : Z) (n : nat) : M unit :=
  match n with
  | O => sm_ret tt
  | S n' =>
      fun st => match mem st !! src with
                | Some v => memcpy (dst + 1) (src + 1) n' (with_mem <[dst := v]> st)
                | None => None
                end
  end.

(** The replacement for a [PBUF_REF] pbuf of [n] bytes: pool first, then RAM. *)
Definition take_alloc (n : Z) : M Z :=
  q <- (if n <=? PBUF_POOL_BUFSIZE then pbuf_alloc PBUF_RAW n PBUF_POOL else sm_ret 0) ;;
  if q =? 0 then pbuf_alloc PBUF_RAW n PBUF_RAM else sm_ret q.

Fixpoint take_loop (fuel : nat) (p prev head : Z) : M Z :=
  match fuel with
  | O => sm_fail
  | S f =>
      b <- load p ;;
      if flags b =? PBUF_FLAG_REF then
        q <- take_alloc (len b) ;;
        if negb (q =? 0) then
          update q (set_next (next b)) ;;
          update p (set_next 0) ;;
          head <- (if negb (prev =? 0) then update prev (set_next q) ;; sm_ret head else sm_ret q) ;;
          bq <- load q ;;
          memcpy (payload bq) (payload b) (Z.to_nat (len b)) ;;
          update q (fun bq => set_len (len b) (set_tot_len (tot_len b) bq)) ;;
          pbuf_free p ;;
          bq <- load q ;;
          if negb (next bq =? 0) then take_loop f (next bq) q head else sm_ret head
        else
          pbuf_free head ;; sm_ret 0
      else if negb (next b =? 0) then take_loop f (next b) p head else sm_ret head
  end.

Definition pbuf_take (p : Z) : M Z :=
  st <- sm_get ;; take_loop (heap_fuel st) p 0 p.

Definition pbuf_dechain (p : Z) : M Z :=
  b <- load p ;;
  let q := next b in
  tail_gone <- (if negb (q =? 0) then
      update q (set_tot_len (u16 (tot_len b - len b))) ;;
      update p (set_next 0) ;;
      update p (fun b => set_tot_len (len b) b) ;;
      pbuf_free q
    else sm_ret 1) ;;
  sm_ret (if 0 <? tail_gone then 0 else q).
End Ops.

Section Theory.
Context {PF : Platform}.

(** ** Chains *)

(** The pbufs from [p] along [next] up to (not including) [q]. *)
Fixpoint lseg (h : gmap Z pbuf) (p : Z) (l : list (Z * pbuf)) (q : Z) : Prop :=
  match l with
  | [] => p = q
  | (a, b) :: l' => p = a /\ a <> 0 /\ h !! a = Some b /\ lseg h (next b) l' q
  end.

Definition chain (h : gmap Z pbuf) (p : Z) (l : list (Z * pbuf)) : Prop := lseg h p l 0.

(** The pool's free list. *)
Definition pool_list (st : pstate) (P : list Z) : Prop :=
  exists l, chain (pbufs st) (pbuf_pool st) l /\ P = l.*1.

Definition sum_len (l : list (Z * pbuf)) : Z := foldr (fun x s => len x.2 + s) 0 l.

(** The invariant of [pbuf.h]: [tot_len] is the length of this pbuf and of all
    behind it. *)
Fixpoint tot_ok (l : list (Z * pbuf)) : Prop :=
  match l with [] => True | x :: l' => tot_len x.2 = sum_len l /\ tot_ok l' end.

Lemma lseg_app h l1 : forall l2 p r,
  lseg h p (l1 ++ l2) r <-> exists q, lseg h p l1 q /\ lseg h q l2 r.
Proof.
  induction l1 as [|[a b] l1 IH]; intros l2 p r; cbn.
  - split; [intros; now exists p | now intros (q & -> & ?)].
  - setoid_rewrite IH. split.
    + intros (-> & ? & ? & q & ? & ?). now exists q.
    + intros (q & (-> & ? & ? & ?) & ?). repeat split; auto. now exists q.
Qed.

Lemma lseg_det h l1 : forall l2 p, chain h p l1 -> chain h p l2 -> l1 = l2.
Proof.
  unfold chain.
  induction l1 as [|[a b] l1 IH]; intros [|[a' b'] l2] p; cbn.
  - reflexivity.
  - now intros -> (<- & ? & _).
  - now intros (-> & ? & _) ->.
  - intros (-> & ? & E & C) (-> & ? & E' & C'). rewrite E in E'. injection E' as <-.
    f_equal. eauto.
Qed.

(** A chain that ends does not meet itself. *)
Lemma chain_nodup h l : forall p, chain h p l -> NoDup l.*1.
Proof.
  induction l as [|[a b] l IH]; intros p C; [constructor|].
  pose proof C as C0. destruct C as (-> & Ha & Eb & C). cbn [fmap list_fmap fst].
  constructor; [|now apply (IH _ C)].
  intros (x & Ex & Hx)%list_elem_of_fmap. destruct x as [a' b']. cbn in Ex. subst a'.
  apply list_elem_of_split in Hx as (l1 & l2 & ->).
  apply lseg_app in C as (q & C1 & C2). cbn in C2.
  assert (q = a) as -> by (now destruct C2).
  pose proof (lseg_det h ((a, b) :: l1 ++ (a, b') :: l2) ((a, b') :: l2) a C0 C2) as E.
  apply (f_equal length) in E. cbn in E. rewrite length_app in E. cbn in E. lia.
Qed.

Lemma lseg_lookup h l : forall p q a b, lseg h p l q -> (a, b) ∈ l -> h !! a = Some b.
Proof.
  induction l as [|[a' b'] l IH]; intros p q a b C Hin; [now apply elem_of_nil in Hin|].
  destruct C as (-> & _ & Eb & C). apply elem_of_cons in Hin as [[= -> ->]|Hin]; eauto.
Qed.

(** A chain is no longer than the heap is large: [heap_fuel] is enough. *)
Lemma chain_length_bound h p l : chain h p l -> (length l <= size h)%nat.
Proof.
  intros C. pose proof (chain_nodup _ _ _ C) as N.
  rewrite <- (length_fmap fst), <- size_dom.
  rewrite <- (size_list_to_set (C := gset Z)) by assumption.
  apply subseteq_size. intros a Ha. apply elem_of_list_to_set in Ha.
  apply list_elem_of_fmap in Ha as ([a' b] & -> & Hin).
  apply elem_of_dom. exists b. eapply lseg_lookup; eassumption.
Qed.

(** A chain lives on its own pbufs. *)
Lemma lseg_frame h h' l : forall p q, (forall a, a ∈ l.*1 -> h' !! a = h !! a) ->
  lseg h p l q -> lseg h' p l q.
Proof.
  induction l as [|[a b] l IH]; intros p q F C; [assumption|].
  destruct C as (-> & Ha & Eb & C). cbn. repeat split; try assumption.
  - rewrite F; [assumption | cbn; apply elem_of_cons; now left].
  - apply IH; [|assumption]. intros. apply F. cbn. apply elem_of_cons. now right.
Qed.

Lemma lseg_insert_other h l p q a b : a ∉ l.*1 -> lseg h p l q -> lseg (<[a := b]> h) p l q.
Proof.
  intros Ha. apply lseg_frame. intros a' Hin. apply lookup_insert_ne. congruence.
Qed.

Lemma lseg_delete_other h l p q a : a ∉ l.*1 -> lseg h p l q -> lseg (delete a h) p l q.
Proof.
  intros Ha. apply lseg_frame. intros a' Hin. apply lookup_delete_ne. congruence.
Qed.

Lemma sum_len_cons x l : sum_len (x :: l) = len x.2 + sum_len l.
Proof. reflexivity. Qed.

Lemma sum_len_app l1 l2 : sum_len (l1 ++ l2) = sum_len l1 + sum_len l2.
Proof. unfold sum_len. induction l1 as [|x l1 IH]; cbn [app foldr]; [lia|]. rewrite IH. lia. Qed.

Definition len_ok (l : list (Z * pbuf)) : Prop := Forall (fun x => 0 <= len x.2) l.

Lemma sum_len_nonneg l : len_ok l -> 0 <= sum_len l.
Proof. unfold sum_len. induction 1 as [|x l Hx _ IH]; cbn [foldr]; lia. Qed.

(** ** Single accesses *)

Lemma load_ok p b st : pbufs st !! p = Some b -> load p st = Some (b, st).
Proof. unfold load. now intros ->. Qed.

Lemma update_ok p f b st : pbufs st !! p = Some b ->
  update p f st = Some (tt, with_pbufs <[p := f b]> st).
Proof. unfold update. now intros ->. Qed.

Lemma with_pbufs_insert2 p b b' st :
  with_pbufs <[p := b']> (with_pbufs <[p := b]> st) = with_pbufs <[p := b']> st.
Proof. unfold with_pbufs. cbn. f_equal. apply insert_insert_eq. Qed.

(** One run of a monadic step whose result is known. *)
Tactic Notation "sm_step" uconstr(E) := erewrite (sm_bind_some _ _ _ _ _ E).

(** ** Freeing a chain *)

(** A pbuf that may be deallocated: from the pool, or in a live block. *)
Definition owned (B : gmap Z Z) (x : Z * pbuf) : Prop :=
  flags x.2 = PBUF_FLAG_POOL \/ (flags x.2 <> PBUF_FLAG_POOL /\ is_Some (B !! x.1)).

Definition is_pool (x : Z * pbuf) : bool := flags x.2 =? PBUF_FLAG_POOL.

(** The state after the last reference to [x] is gone. *)
Definition free_one (st : pstate) (x : Z * pbuf) : pstate :=
  let '(a, b) := x in
  if is_pool x
  then with_stats DEC_PBUF_STATS (with_pool a (with_pbufs
         <[a := mkPbuf (pbuf_pool st) (a + sizeof_pbuf) PBUF_POOL_BUFSIZE PBUF_POOL_BUFSIZE
                       (flags b) 0]> st))
  else with_pbufs (delete a) (with_blocks (delete a) st).

(** The reference dropped from the first pbuf that stays. *)
Definition unref (rest : list (Z * pbuf)) (st : pstate) : pstate :=
  match rest with
  | [] => st
  | (a, b) :: _ => with_pbufs <[a := set_ref (u16 (ref b - 1)) b]> st
  end.

Lemma pbuf_dealloc_ok st a b : a <> 0 -> pbufs st !! a = Some b -> ref b = 0 ->
  owned (blocks st) (a, b) -> pbuf_dealloc a b st = Some (tt, free_one st (a, b)).
Proof.
  intros Ha Eb Er Ho. unfold pbuf_dealloc, free_one, is_pool. cbn [snd].
  destruct (Z.eqb_spec (flags b) PBUF_FLAG_POOL) as [Ef|Ef].
  - sm_step (update_ok a _ b st Eb). unfold PBUF_POOL_FREE.
    cbn [sm_bind sm_get pbuf_pool with_pbufs].
    erewrite sm_bind_some by (apply update_ok; cbn; apply lookup_insert_eq).
    rewrite with_pbufs_insert2. unfold sm_modify, sm_bind.
    unfold set_next, set_payload, set_len, set_tot_len. cbn [flags]. now rewrite Er.
  - destruct Ho as [Ho|[_ [n Ho]]]; [now destruct Ef|]. cbn [fst] in Ho.
    assert (E : free a st = Some (tt, with_pbufs (delete a) (with_blocks (delete a) st))).
    { unfold free. replace (a =? 0) with false by lia. now rewrite Ho. }
    unfold memp_free, mem_free. now destruct (_ || _).
Qed.

Lemma free_one_frame st x a : a <> x.1 -> pbufs (free_one st x) !! a = pbufs st !! a.
Proof.
  destruct x as [a' b']. cbn [fst]. intros Ha. unfold free_one. destruct (is_pool _); cbn.
  - apply lookup_insert_ne. congruence.
  - apply lookup_delete_ne. congruence.
Qed.

Lemma free_one_owned st x y : x.1 <> y.1 -> owned (blocks st) y -> owned (blocks (free_one st x)) y.
Proof.
  destruct x as [a b]. cbn [fst]. unfold free_one, owned. intros Ha [Hp|[Hp Hb]]; [now left|].
  right. split; [assumption|]. destruct (is_pool _); cbn; [assumption|].
  now rewrite lookup_delete_ne.
Qed.

Definition stays (rest : list (Z * pbuf)) : Prop :=
  match rest with [] => True | (_, b) :: _ => u16 (ref b - 1) <> 0 end.

Lemma free_loop_ok gone : forall rest st p fuel count,
  chain (pbufs st) p (gone ++ rest) ->
  Forall (fun x => ref x.2 = 1 /\ owned (blocks st) x) gone -> stays rest ->
  (length gone < fuel)%nat -> fits 8 count ->
  free_loop fuel p count st
  = Some (u8 (count + Z.of_nat (length gone)), unref rest (foldl free_one st gone)).
Proof.
  induction gone as [|[a b] gone IH]; intros rest st p fuel count C HF Hs Hfuel Hc.
  - rewrite Z.add_0_r, wrap_small by assumption. cbn [foldl app] in *.
    destruct rest as [|[a b] rest].
    + cbn in C. subst p. now destruct fuel.
    + destruct C as (-> & Ha & Eb & _). destruct fuel as [|f]; [cbn in Hfuel; lia|].
      cbn [free_loop]. replace (a =? 0) with false by lia.
      sm_step (update_ok a _ b st Eb).
      erewrite sm_bind_some by (apply load_ok; cbn; apply lookup_insert_eq).
      cbn [set_ref ref]. cbn in Hs. replace (_ =? 0) with false by lia. reflexivity.
  - pose proof (chain_nodup _ _ _ C) as N. cbn in N. apply NoDup_cons in N as [Na N].
    destruct C as (-> & Ha & Eb & C). inversion_clear HF as [|? ? [Er Ho] HF']. cbn [snd] in Er.
    destruct fuel as [|f]; [cbn in Hfuel; lia|]. cbn [free_loop].
    replace (a =? 0) with false by lia. sm_step (update_ok a _ b st Eb).
    erewrite sm_bind_some by (apply load_ok; cbn; apply lookup_insert_eq).
    rewrite Er. change (u16 (1 - 1)) with 0. cbn [set_ref ref next]. change (0 =? 0) with true. cbv iota.
    set (st1 := with_pbufs <[a := set_ref 0 b]> st).
    assert (E : pbuf_dealloc a (set_ref 0 b) st1 = Some (tt, free_one st (a, b))).
    { rewrite pbuf_dealloc_ok; [|assumption| |reflexivity|exact Ho].
      - unfold free_one, st1, is_pool. cbn [snd set_ref flags pbuf_pool with_pbufs].
        destruct (_ =? _); [now rewrite with_pbufs_insert2|].
        f_equal. f_equal. unfold with_pbufs, with_blocks. cbn. f_equal. apply delete_insert_eq.
      - cbn. apply lookup_insert_eq. }
    sm_step E. cbn [foldl].
    rewrite (IH rest).
    + f_equal. f_equal. rewrite wrap_add_l. cbn [length]. f_equal. lia.
    + revert C. apply lseg_frame. intros a' Hin. apply free_one_frame. cbn.
      intros ->. now apply Na.
    + rewrite Forall_forall in HF' |- *. intros y Hy. destruct (HF' y Hy) as [Ey Hoy].
      split; [assumption|]. apply free_one_owned; [|assumption]. cbn. intros ->.
      apply Na. rewrite fmap_app. apply elem_of_app. left. now apply list_elem_of_fmap_2.
    + assumption.
    + cbn in Hfuel. lia.
    + auto with cint.
Qed.

(** *** What freeing leaves behind *)

Definition pooled (l : list (Z * pbuf)) : list Z := (filter (fun x => is_pool x = true) l).*1.

Lemma pooled_subset l a : a ∈ pooled l -> a ∈ l.*1.
Proof.
  unfold pooled. intros Ha. apply list_elem_of_fmap in Ha as (x & -> & Hx).
  apply list_elem_of_filter in Hx as [_ Hx]. now apply list_elem_of_fmap_2.
Qed.

Lemma free_all_frame gone : forall st a, a ∉ gone.*1 ->
  pbufs (foldl free_one st gone) !! a = pbufs st !! a.
Proof.
  induction gone as [|x gone IH]; intros st a Ha; [reflexivity|]. cbn in *.
  apply not_elem_of_cons in Ha as [Hx Ha]. rewrite IH by assumption. now apply free_one_frame.
Qed.

Lemma free_all_blocks_frame gone : forall st a, a ∉ gone.*1 ->
  blocks (foldl free_one st gone) !! a = blocks st !! a.
Proof.
  induction gone as [|[a' b] gone IH]; intros st a Ha; [reflexivity|]. cbn in *.
  apply not_elem_of_cons in Ha as [Hx Ha]. rewrite IH by assumption.
  unfold free_one. destruct (is_pool _); cbn; [reflexivity|]. now rewrite lookup_delete_ne.
Qed.

Lemma free_all_gone gone : forall st a b, NoDup gone.*1 -> (a, b) ∈ gone -> is_pool (a, b) = false ->
  pbufs (foldl free_one st gone) !! a = None /\ blocks (foldl free_one st gone) !! a = None.
Proof.
  induction gone as [|x gone IH]; intros st a b N Hin Hp; [now apply elem_of_nil in Hin|].
  cbn in N. apply NoDup_cons in N as [Nx N].
  apply elem_of_cons in Hin as [<-|Hin]; [|now apply (IH _ a b)].
  cbn [foldl fst] in *. rewrite free_all_frame, free_all_blocks_frame by assumption.
  unfold free_one. rewrite Hp. cbn. now rewrite !lookup_delete_eq.
Qed.

Lemma free_all_mem gone : forall st, mem (foldl free_one st gone) = mem st.
Proof.
  induction gone as [|[a b] gone IH]; intros st; [reflexivity|]. cbn [foldl]. rewrite IH.
  unfold free_one. now destruct (is_pool _).
Qed.

Lemma free_all_used gone : forall st, fits 16 (used (stats st)) ->
  used (stats (foldl free_one st gone)) = u16 (used (stats st) - Z.of_nat (length (pooled gone))).
Proof.
  induction gone as [|[a b] gone IH]; intros st Fu.
  - cbn. rewrite Z.sub_0_r. now rewrite wrap_small.
  - cbn [foldl]. unfold pooled. rewrite filter_cons.
    assert (Fu' : fits 16 (used (stats (free_one st (a, b))))).
    { unfold free_one. destruct (is_pool _); cbn; auto with cint. }
    rewrite IH by assumption. unfold free_one.
    destruct (is_pool (a, b)) eqn:E; case_decide; try congruence; [|reflexivity].
    cbn [stats with_stats DEC_PBUF_STATS used with_pool with_pbufs].
    rewrite wrap_sub_l. cbn [fmap list_fmap length]. unfold pooled. f_equal. lia.
Qed.

Lemma pool_list_free_one st x P : x.1 ∉ P -> x.1 <> 0 ->
  pool_list st P -> pool_list (free_one st x) (if is_pool x then x.1 :: P else P).
Proof.
  destruct x as [a b]. cbn [fst]. intros Ha H0 (l & C & ->). unfold free_one.
  destruct (is_pool (a, b)).
  - eexists ((a, _) :: l). split; [|reflexivity]. cbn. repeat split; auto.
    + apply lookup_insert_eq.
    + cbn. now apply lseg_insert_other.
  - exists l. split; [|reflexivity]. cbn. now apply lseg_delete_other.
Qed.

Lemma pool_list_free_all gone : forall st P, Forall (fun a => a <> 0) gone.*1 ->
  NoDup gone.*1 -> (forall a, a ∈ gone.*1 -> a ∉ P) ->
  pool_list st P -> pool_list (foldl free_one st gone) (reverse (pooled gone) ++ P).
Proof.
  induction gone as [|x gone IH]; intros st P H0 N D HP; [exact HP|]. cbn [foldl].
  cbn in H0, N. inversion_clear H0 as [|? ? Hx H0']. apply NoDup_cons in N as [Nx N].
  assert (Dx : x.1 ∉ P) by (apply D; cbn; apply elem_of_cons; now left).
  pose proof (pool_list_free_one st x P Dx Hx HP) as HP'.
  apply IH in HP'; [|assumption..|].
  - unfold pooled. rewrite filter_cons. destruct (is_pool x); case_decide; try congruence; [|exact HP'].
    cbn [fmap list_fmap]. rewrite reverse_cons, <- app_assoc. exact HP'.
  - intros a Ha. assert (a ∉ P) by (apply D; cbn; apply elem_of_cons; now right).
    destruct (is_pool x); [|assumption]. apply not_elem_of_cons. split; [|assumption].
    now intros ->.
Qed.

Lemma chain_nonzero h l : forall p, chain h p l -> Forall (fun a => a <> 0) l.*1.
Proof.
  induction l as [|[a b] l IH]; intros p C; constructor.
  - now destruct C as (_ & ? & _).
  - destruct C as (_ & _ & _ & C). exact (IH _ C).
Qed.

Lemma pbuf_free_ok st p gone rest :
  chain (pbufs st) p (gone ++ rest) ->
  Forall (fun x => ref x.2 = 1 /\ owned (blocks st) x) gone -> stays rest ->
  pbuf_free p st = Some (u8 (Z.of_nat (length gone)), unref rest (foldl free_one st gone)).
Proof.
  intros C HF Hs. unfold pbuf_free. destruct (Z.eqb_spec p 0) as [->|Hp].
  - destruct gone as [|[a b] gone]; [|now destruct C as (<- & ? & _)].
    destruct rest as [|[a b] rest]; [reflexivity | now destruct C as (<- & ? & _)].
  - unfold sm_bind at 1, sm_get. rewrite (free_loop_ok gone rest); auto.
    + pose proof (chain_length_bound _ _ _ C) as B. rewrite length_app in B.
      unfold heap_fuel. lia.
    + now split.
Qed.

(** C29: [pbuf_free] takes the reference from the head of a chain and deallocates
    the pbufs that had just this one, up to the first that is still referenced:
    it returns their number, gives the pool's pbufs back to the pool (counted
    as unused), the others' blocks back to libc, takes one reference from the
    first pbuf that stays, and leaves every other pbuf and all payload bytes
    alone.  It neither faults nor loops on any chain whose pbufs are live. *)
Theorem pbuf_free_spec st p gone rest P :
  chain (pbufs st) p (gone ++ rest) -> p <> 0 ->
  Forall (fun x => ref x.2 = 1 /\ owned (blocks st) x) gone -> stays rest ->
  pool_list st P -> (forall a, a ∈ (gone ++ rest).*1 -> a ∉ P) -> fits 16 (used (stats st)) ->
  exists st', pbuf_free p st = Some (u8 (Z.of_nat (length gone)), st') /\
    pool_list st' (reverse (pooled gone) ++ P) /\
    used (stats st') = u16 (used (stats st) - Z.of_nat (length (pooled gone))) /\
    (forall a b, (a, b) ∈ gone -> is_pool (a, b) = false ->
       pbufs st' !! a = None /\ blocks st' !! a = None) /\
    chain (pbufs st') (match rest with [] => 0 | (a, _) :: _ => a end)
      (match rest with [] => [] | (a, b) :: l => (a, set_ref (u16 (ref b - 1)) b) :: l end) /\
    (forall a, a ∉ (gone ++ rest).*1 -> pbufs st' !! a = pbufs st !! a) /\
    mem st' = mem st.
Proof.
  intros C Hp HF Hs HP D Fu. pose proof (chain_nodup _ _ _ C) as N.
  pose proof (chain_nonzero _ _ _ C) as NZ. rewrite fmap_app in N, NZ, D.
  pose proof N as (N1 & N12 & N2)%NoDup_app. apply Forall_app in NZ as [NZ1 _].
  exists (unref rest (foldl free_one st gone)).
  pose proof (pbuf_free_ok st p gone rest C HF Hs) as E.
  split; [exact E|].
  assert (HP' : pool_list (foldl free_one st gone) (reverse (pooled gone) ++ P)).
  { apply pool_list_free_all; auto. intros a Ha. apply D. apply elem_of_app. now left. }
  assert (Cr : forall q, lseg (pbufs st) q rest 0 -> lseg (pbufs (foldl free_one st gone)) q rest 0).
  { intros q. apply lseg_frame. intros a Ha. apply free_all_frame. intros Hg. now apply (N12 a). }
  apply lseg_app in C as (q & _ & C).
  destruct rest as [|[a b] rest]; cbn [unref].
  - repeat split; auto using free_all_used, free_all_mem.
    + now apply (free_all_gone gone st a b).
    + now apply (free_all_gone gone st a b).
    + intros a Ha. apply free_all_frame. intros Hg. apply Ha. rewrite fmap_app.
      apply elem_of_app. now left.
  - apply Cr in C. destruct C as (-> & Ha & Eb & C).
    assert (Hag : a ∉ gone.*1).
    { intros Hg. apply (N12 a Hg). apply elem_of_cons. now left. }
    cbn in N2. apply NoDup_cons in N2 as [Nar N2].
    split; [|split; [now apply free_all_used|split; [|split; [|split]]]].
    + destruct HP' as (l & Cl & Hl). exists l. split; [|assumption].
      cbn. apply lseg_insert_other; [|assumption]. rewrite <- Hl. intros Hin.
      apply elem_of_app in Hin as [Hin|Hin].
      * apply elem_of_reverse, list_elem_of_fmap in Hin as (x & -> & Hx).
        apply list_elem_of_filter in Hx as [_ Hx]. apply Hag. now apply list_elem_of_fmap_2.
      * apply (D a); [|assumption]. apply elem_of_app. right. apply elem_of_cons. now left.
    + intros a' b' Hin Hpl. cbn. rewrite lookup_insert_ne.
      * now apply (free_all_gone gone st a' b').
      * intros <-. apply Hag. now apply (list_elem_of_fmap_2' fst _ (a, b')).
    + cbn. repeat split; auto; [apply lookup_insert_eq|]. now apply lseg_insert_other.
    + intros a' Ha'. cbn. rewrite fmap_app in Ha'. apply not_elem_of_app in Ha' as [Hg Hr].
      cbn in Hr. apply not_elem_of_cons in Hr as [Hne Hr].
      rewrite lookup_insert_ne by congruence. now apply free_all_frame.
    + apply free_all_mem.
Qed.

(** ** Allocating from the pool *)

(** A pool whose free list is [P] and that is not locked. *)
Definition pool_ready (st : pstate) (P : list Z) : Prop :=
  pool_list st P /\ pool_free_lock st = 0 /\
  Forall (fun a => exists b, pbufs st !! a = Some b /\ flags b = PBUF_FLAG_POOL) P.

Lemma pool_alloc_empty st : pool_ready st [] ->
  pbuf_pool_alloc st = Some (0, with_alloc_lock 0 (with_alloc_lock 1 st)).
Proof.
  intros ((l & C & E) & Hl & _). destruct l; [|discriminate]. cbn in C.
  unfold pbuf_pool_alloc. cbn. rewrite Hl. cbn. rewrite Hl. cbn. rewrite C. reflexivity.
Qed.

(** The state after the first pbuf [a] of the pool, whose [next] is [n], is taken. *)
Definition taken (n : Z) (st : pstate) : pstate :=
  with_stats count_used (with_alloc_lock 0 (with_pool n (with_alloc_lock 1 st))).

Lemma pool_alloc_cons st a P : pool_ready st (a :: P) ->
  exists b, pbufs st !! a = Some b /\ flags b = PBUF_FLAG_POOL /\ a <> 0 /\ (a ∉ P) /\
    pbuf_pool_alloc st = Some (a, taken (next b) st) /\ pool_ready (taken (next b) st) P.
Proof.
  intros ((l & C & E) & Hl & HF). destruct l as [|[a' b] l]; [discriminate|].
  cbn in E. injection E as -> ->. pose proof (chain_nodup _ _ _ C) as N.
  cbn in N. apply NoDup_cons in N as [Na N].
  destruct C as (Ep & Ha & Eb & C). inversion_clear HF as [|? ? (b' & Eb' & Ef) HF'].
  rewrite Eb in Eb'. injection Eb' as <-.
  exists b. repeat split; auto.
  - unfold pbuf_pool_alloc. cbn. rewrite Hl. cbn. rewrite Hl. cbn. rewrite Ep.
    replace (a' =? 0) with false by lia.
    unfold sm_bind, load, sm_modify, sm_ret. cbn. rewrite Eb.
    replace (a' =? 0) with false by lia. reflexivity.
  - now exists l.
Qed.

(** Writes to pbufs that are not on the free list. *)
Lemma pool_ready_insert st P a b : a ∉ P -> pool_ready st P ->
  pool_ready (with_pbufs <[a := b]> st) P.
Proof.
  intros Ha ((l & C & ->) & Hl & HF). repeat split; [|assumption|].
  - exists l. split; [|reflexivity]. cbn. now apply lseg_insert_other.
  - rewrite Forall_forall in HF |- *. intros x Hx. cbn. rewrite lookup_insert_ne.
    + now apply HF.
    + intros <-. contradiction.
Qed.

Definition head_addr (l : list (Z * pbuf)) : Z := match l with [] => 0 | (a, _) :: _ => a end.

(** The pbufs [alloc_tail] makes of the free list for [rem] bytes; [None] when
    there are not enough. *)
Fixpoint tail_pbufs (rem : Z) (P : list Z) : option (list (Z * pbuf)) :=
  if negb (0 <? rem) then Some []
  else match P with
  | [] => None
  | a :: P' =>
      match tail_pbufs (rem - Z.min 128 rem) P' with
      | Some l => Some ((a, mkPbuf (head_addr l) (a + sizeof_pbuf) rem (Z.min 128 rem)
                                   PBUF_FLAG_POOL 1) :: l)
      | None => None
      end
  end.

Definition fresh_pool (x : Z * pbuf) : Prop := flags x.2 = PBUF_FLAG_POOL /\ ref x.2 = 1.

Lemma chain_relink h l0 : forall p r br q bq l,
  chain h p (l0 ++ [(r, br)]) -> q ∉ (l0 ++ [(r, br)]).*1 -> q <> 0 ->
  lseg (<[r := set_next q br]> (<[q := bq]> h)) (next bq) l 0 -> r ∉ l.*1 ->
  chain (<[r := set_next q br]> (<[q := bq]> h)) p (l0 ++ (r, set_next q br) :: (q, bq) :: l).
Proof.
  intros p r br q bq l C Hq H0 Cl Hr. pose proof (chain_nodup _ _ _ C) as N.
  rewrite fmap_app in N, Hq. apply NoDup_app in N as (_ & N & _).
  apply not_elem_of_app in Hq as [Hq1 Hq2]. cbn in Hq2. apply not_elem_of_cons in Hq2 as [Hqr _].
  apply lseg_app in C as (m & C1 & C2). cbn in C2. destruct C2 as (-> & Hr0 & Er & _).
  apply lseg_app. exists r. split.
  - apply lseg_insert_other; [|now apply lseg_insert_other].
    intros Hin. apply (N r Hin). apply elem_of_cons. now left.
  - cbn. repeat split; auto; [apply lookup_insert_eq|].
    rewrite lookup_insert_ne by congruence. apply lookup_insert_eq.
Qed.

Lemma tail_pbufs_addrs P : forall rem l, tail_pbufs rem P = Some l ->
  P = l.*1 ++ drop (length l) P.
Proof.
  induction P as [|a P IH]; intros rem l; cbn [tail_pbufs]; case_if; try discriminate.
  - now intros [= <-].
  - now intros [= <-].
  - destruct (tail_pbufs _ P) as [l'|] eqn:E; [|discriminate]. intros [= <-].
    cbn. f_equal. now apply (IH _ _ E).
Qed.

Lemma tail_pbufs_ok P : forall rem l, tail_pbufs rem P = Some l -> 0 <= rem ->
  sum_len l = rem /\ tot_ok l /\ Forall fresh_pool l /\ len_ok l.
Proof.
  induction P as [|a P IH]; intros rem l; cbn [tail_pbufs]; case_if; try discriminate.
  - intros [= <-] ?. repeat split; try constructor. cbn. lia.
  - intros [= <-] ?. repeat split; try constructor. cbn. lia.
  - destruct (tail_pbufs _ P) as [l'|] eqn:E; [|discriminate]. intros [= <-] Hr.
    destruct (IH _ _ E) as (IS & IT & IF & IL); [lia|].
    repeat split; try constructor; auto; cbn; unfold sum_len in *; cbn; try lia.
    now split.
Qed.

Lemma free_all_pool_flags gone : forall st a b, NoDup gone.*1 -> (a, b) ∈ gone ->
  is_pool (a, b) = true ->
  exists b', pbufs (foldl free_one st gone) !! a = Some b' /\ flags b' = PBUF_FLAG_POOL.
Proof.
  induction gone as [|x gone IH]; intros st a b N Hin Hp; [now apply elem_of_nil in Hin|].
  cbn in N. apply NoDup_cons in N as [Nx N].
  apply elem_of_cons in Hin as [<-|Hin]; [|now apply (IH _ a b)].
  cbn [foldl fst] in *. rewrite free_all_frame by assumption.
  unfold free_one. rewrite Hp. cbn. rewrite lookup_insert_eq. eexists. split; [reflexivity|].
  now apply Z.eqb_eq in Hp.
Qed.

Lemma pooled_fresh l : Forall fresh_pool l -> pooled l = l.*1.
Proof.
  unfold pooled. induction 1 as [|x l [Hx _] _ IH]; [reflexivity|].
  rewrite filter_cons, decide_True by (unfold is_pool; now rewrite Hx). cbn. now f_equal.
Qed.

Lemma free_all_locks gone : forall st,
  pool_free_lock (foldl free_one st gone) = pool_free_lock st /\
  err (stats (foldl free_one st gone)) = err (stats st).
Proof.
  induction gone as [|[a b] gone IH]; intros st; [now split|]. cbn [foldl].
  destruct (IH (free_one st (a, b))) as [-> ->]. unfold free_one. now destruct (is_pool _).
Qed.

Lemma free_all_blocks_pool gone : forall st, Forall fresh_pool gone ->
  blocks (foldl free_one st gone) = blocks st.
Proof.
  induction gone as [|[a b] gone IH]; intros st HF; [reflexivity|]. cbn [foldl].
  inversion_clear HF as [|? ? [Ef _] HF']. rewrite IH by assumption.
  unfold free_one, is_pool. cbn [snd] in *. now rewrite Ef.
Qed.

(** Freeing a whole chain of pool pbufs that had one reference each. *)
Lemma free_pool_chain st p l P : chain (pbufs st) p l -> l <> [] -> Forall fresh_pool l ->
  pool_ready st P -> (forall a, a ∈ l.*1 -> a ∉ P) -> fits 16 (used (stats st)) ->
  exists st', pbuf_free p st = Some (u8 (Z.of_nat (length l)), st') /\
    pool_ready st' (reverse l.*1 ++ P) /\
    used (stats st') = u16 (used (stats st) - Z.of_nat (length l)) /\
    err (stats st') = err (stats st) /\ blocks st' = blocks st /\ mem st' = mem st /\
    (forall a, a ∉ l.*1 -> pbufs st' !! a = pbufs st !! a).
Proof.
  intros C Hl HF (HP & Hlock & Hfl) D Fu. pose proof (chain_nodup _ _ _ C) as N.
  exists (foldl free_one st l).
  destruct (free_all_locks l st) as [EL EE]. repeat split.
  - rewrite (pbuf_free_ok st p l []); [reflexivity | now rewrite app_nil_r | | exact I].
    eapply Forall_impl; [exact HF|]. intros x [Ef Er]. split; [assumption|now left].
  - rewrite <- (pooled_fresh l HF). apply pool_list_free_all; auto. eapply chain_nonzero, C.
  - now rewrite EL.
  - apply Forall_app. split; rewrite Forall_forall.
    + intros a Ha. rewrite elem_of_reverse in Ha. apply list_elem_of_fmap in Ha as ([a' b] & -> & Hin).
      apply (free_all_pool_flags l st a' b N Hin).
      rewrite Forall_forall in HF. unfold is_pool. destruct (HF _ Hin) as [-> _]. reflexivity.
    + rewrite Forall_forall in Hfl. intros a Ha. rewrite free_all_frame; [now apply Hfl|].
      intros Hin. now apply (D a).
  - rewrite free_all_used, pooled_fresh, length_fmap by assumption. reflexivity.
  - exact EE.
  - now apply free_all_blocks_pool.
  - apply free_all_mem.
  - intros a Ha. now apply free_all_frame.
Qed.

(** One turn of the loop, when the pool gives [q]. *)
Lemma alloc_tail_step f p l0 r br q P rem st :
  chain (pbufs st) p (l0 ++ [(r, br)]) -> pool_ready st (q :: P) ->
  (forall a, a ∈ (l0 ++ [(r, br)]).*1 -> a ∉ q :: P) -> 0 < rem <= 65535 ->
  exists bq st', alloc_tail (S f) p r rem st = alloc_tail f p q (rem - Z.min 128 rem) st' /\
    bq = mkPbuf 0 (q + sizeof_pbuf) rem (Z.min 128 rem) PBUF_FLAG_POOL 1 /\
    chain (pbufs st') p ((l0 ++ [(r, set_next q br)]) ++ [(q, bq)]) /\
    pool_ready st' P /\ used (stats st') = u16 (used (stats st) + 1) /\
    err (stats st') = err (stats st) /\ mem st' = mem st /\ blocks st' = blocks st /\
    (forall a, a <> r -> a <> q -> pbufs st' !! a = pbufs st !! a).
Proof.
  intros C HP D Hrem. destruct (pool_alloc_cons st q P HP) as (b & Eb & Ef & Hq & HqP & EA & HP').
  assert (Hqc : q ∉ (l0 ++ [(r, br)]).*1) by (intros Hin; apply (D q Hin), elem_of_cons; now left).
  assert (Hrc : r ∈ (l0 ++ [(r, br)]).*1) by (rewrite fmap_app; apply elem_of_app; right; now apply elem_of_cons; left).
  assert (HrP : r ∉ P) by (intros Hin; apply (D r Hrc), elem_of_cons; now right).
  assert (Hrq : r <> q) by (intros ->; contradiction).
  assert (Er : pbufs st !! r = Some br).
  { apply lseg_lookup with (l := l0 ++ [(r, br)]) (p := p) (q := 0); [exact C|].
    apply elem_of_app. right. apply elem_of_cons. now left. }
  set (bq := mkPbuf 0 (q + sizeof_pbuf) rem (Z.min 128 rem) PBUF_FLAG_POOL 1).
  set (st1 := taken (next b) st) in *.
  exists bq, (with_pbufs <[q := bq]> (with_pbufs <[r := set_next q br]>
           (with_pbufs <[q := set_next 0 b]> st1))).
  split; [|split; [reflexivity|]].
  - cbn [alloc_tail]. replace (0 <? rem) with true by lia. cbn [negb].
    sm_step EA. replace (q =? 0) with false by lia.
    sm_step (update_ok q _ b st1 Eb).
    erewrite sm_bind_some by (apply update_ok with (b := br); cbn; now rewrite lookup_insert_ne).
    cbv zeta. erewrite sm_bind_some by (apply update_ok with (b := set_next 0 b); cbn;
      rewrite lookup_insert_ne by congruence; apply lookup_insert_eq).
    replace (if PBUF_POOL_BUFSIZE <? rem then PBUF_POOL_BUFSIZE else rem) with (Z.min 128 rem)
      by (unfold PBUF_POOL_BUFSIZE; case_if; lia).
    rewrite (wrap_small 16 (Z.min 128 rem)) by (unfold fits; pow2; lia).
    rewrite (swrap_small 32) by (lia || (unfold sfits; change (32 - 1) with 31; pow2; lia)).
    unfold set_next at 1, set_tot_len, set_len, set_payload, set_ref. cbn [next payload tot_len len flags ref].
    rewrite (wrap_small 16 rem), Ef by (unfold fits; pow2; lia). reflexivity.
  - assert (Eh : pbufs (with_pbufs <[q := bq]> (with_pbufs <[r := set_next q br]>
           (with_pbufs <[q := set_next 0 b]> st1))) = <[r := set_next q br]> (<[q := bq]> (pbufs st))).
    { cbn. rewrite insert_insert_ne by congruence. f_equal. apply insert_insert_eq. }
    repeat split.
    + rewrite Eh, <- app_assoc. cbn [app].
      apply (chain_relink _ _ _ _ _ _ bq []); auto; [reflexivity|apply not_elem_of_nil].
    + destruct (pool_ready_insert _ P q bq HqP (pool_ready_insert _ P r (set_next q br) HrP
        (pool_ready_insert _ P q (set_next 0 b) HqP HP'))) as [R _]. exact R.
    + apply HP'.
    + destruct (pool_ready_insert _ P q bq HqP (pool_ready_insert _ P r (set_next q br) HrP
        (pool_ready_insert _ P q (set_next 0 b) HqP HP'))) as (_ & _ & R). exact R.
    + intros a Har Haq. rewrite Eh, !lookup_insert_ne by congruence. reflexivity.
Qed.

(** The last pbuf of a chain has no successor. *)
Lemma chain_last_next h l0 r br : forall p, chain h p (l0 ++ [(r, br)]) ->
  chain h p (l0 ++ [(r, set_next 0 br)]).
Proof.
  intros p C. assert (next br = 0) as E.
  { apply lseg_app in C as (m & _ & (_ & _ & _ & E)). exact E. }
  unfold set_next. rewrite <- E at 1. now destruct br.
Qed.

Definition relink_last (l0 : list (Z * pbuf)) (x : Z * pbuf) (l : list (Z * pbuf)) : list (Z * pbuf) :=
  l0 ++ (x.1, set_next (head_addr l) x.2) :: l.

Lemma alloc_tail_ok P : forall fuel p l0 r br rem st,
  chain (pbufs st) p (l0 ++ [(r, br)]) -> Forall fresh_pool (l0 ++ [(r, br)]) ->
  pool_ready st P -> (forall a, a ∈ (l0 ++ [(r, br)]).*1 -> a ∉ P) ->
  0 <= rem <= 65535 -> (Z.to_nat rem <= fuel)%nat -> fits 16 (used (stats st)) ->
  match tail_pbufs rem P with
  | Some l =>
      exists st', alloc_tail fuel p r rem st = Some (true, st') /\
        chain (pbufs st') p (relink_last l0 (r, br) l) /\ pool_ready st' (drop (length l) P) /\
        used (stats st') = u16 (used (stats st) + Z.of_nat (length l)) /\
        err (stats st') = err (stats st) /\ mem st' = mem st /\ blocks st' = blocks st /\
        (forall a, a <> r -> a ∉ P -> pbufs st' !! a = pbufs st !! a)
  | None =>
      exists st', alloc_tail fuel p r rem st = Some (false, st') /\
        pool_ready st' (reverse ((l0 ++ [(r, br)]).*1 ++ P)) /\
        used (stats st') = u16 (used (stats st) - Z.of_nat (length (l0 ++ [(r, br)]))) /\
        err (stats st') = u16 (err (stats st) + 1) /\ mem st' = mem st /\ blocks st' = blocks st /\
        (forall a, a ∉ (l0 ++ [(r, br)]).*1 -> a ∉ P -> pbufs st' !! a = pbufs st !! a)
  end.
Proof.
  induction P as [|q P IH]; intros fuel p l0 r br rem st C HF HP D Hrem Hfuel Fu; cbn [tail_pbufs].
  - destruct (Z.ltb_spec 0 rem); cbn [negb].
    + destruct fuel as [|f]; [lia|]. cbn [alloc_tail]. replace (0 <? rem) with true by lia. cbn [negb].
      sm_step (pool_alloc_empty st HP). change (0 =? 0) with true. cbv iota.
      set (st1 := with_stats count_err (with_alloc_lock 0 (with_alloc_lock 1 st))).
      destruct (free_pool_chain st1 p (l0 ++ [(r, br)]) []) as (st' & E & A1 & A2 & A3 & A4 & A5 & A6).
      * exact C.
      * intros E. now apply app_eq_nil in E.
      * exact HF.
      * exact HP.
      * intros. apply not_elem_of_nil.
      * exact Fu.
      * exists st'. rewrite !app_nil_r in *. repeat split; auto; try apply A1.
        unfold sm_bind at 1, sm_modify. fold st1. sm_step E. reflexivity.
    + exists st. replace rem with 0 in * by lia. destruct fuel; cbn [alloc_tail negb Z.ltb];
        unfold relink_last; cbn; rewrite Z.add_0_r, wrap_small by assumption;
        repeat split; auto; try apply HP; try (eapply chain_last_next; exact C).
  - destruct (Z.ltb_spec 0 rem); cbn [negb].
    + destruct fuel as [|f]; [lia|].
      destruct (alloc_tail_step f p l0 r br q P rem st C HP D ltac:(lia))
        as (bq & st' & E & Ebq & C' & HP' & U & EE & Em & Ebl & Fr).
      specialize (IH f p (l0 ++ [(r, set_next q br)]) q bq (rem - Z.min 128 rem) st' C').
      destruct HP as (HPl & _). destruct HPl as (lp & Clp & Elp).
      pose proof (chain_nodup _ _ _ Clp) as Np. rewrite <- Elp in Np. apply NoDup_cons in Np as [Nq Np].
      assert (HF' : Forall fresh_pool ((l0 ++ [(r, set_next q br)]) ++ [(q, bq)])).
      { apply Forall_app in HF as [HF0 HFr]. inversion_clear HFr as [|? ? [F1 F2] _].
        rewrite <- app_assoc. apply Forall_app. split; [assumption|].
        constructor; [now split|]. constructor; [|constructor]. now rewrite Ebq. }
      assert (Ea : ((l0 ++ [(r, set_next q br)]) ++ [(q, bq)]).*1 = (l0 ++ [(r, br)]).*1 ++ [q])
        by now rewrite !fmap_app.
      assert (D' : forall a, a ∈ ((l0 ++ [(r, set_next q br)]) ++ [(q, bq)]).*1 -> a ∉ P).
      { intros a Ha. rewrite Ea in Ha. apply elem_of_app in Ha as [Ha|Ha].
        - intros Hin. apply (D a Ha), elem_of_cons. now right.
        - apply list_elem_of_singleton in Ha as ->. exact Nq. }
      specialize (IH HF' HP' D' ltac:(lia) ltac:(lia) ltac:(rewrite U; auto with cint)).
      rewrite E. assert (Hrq : r <> q).
      { intros ->. apply (D q).
        - rewrite fmap_app. apply elem_of_app. right. now apply elem_of_cons; left.
        - apply elem_of_cons. now left. }
      destruct (tail_pbufs _ P) as [l|].
      * destruct IH as (st2 & E2 & C2 & HP2 & U2 & EE2 & Em2 & Ebl2 & Fr2).
        exists st2. repeat split; try congruence; try apply HP2.
        -- unfold relink_last in *. cbn [fst snd app] in *. rewrite <- app_assoc in C2.
           rewrite Ebq in C2. exact C2.
        -- rewrite U2, U, wrap_add_l. cbn [length]. f_equal. lia.
        -- intros a Har Hain. apply not_elem_of_cons in Hain as [Haq HaP].
           rewrite Fr2, Fr by assumption. reflexivity.
      * destruct IH as (st2 & E2 & HP2 & U2 & EE2 & Em2 & Ebl2 & Fr2).
        rewrite Ea in HP2, Fr2. rewrite <- app_assoc in HP2.
        exists st2. repeat split; try congruence; try apply HP2.
        -- rewrite U2, U, wrap_sub_l. f_equal. rewrite !length_app. cbn. lia.
        -- intros a Hac Hain. apply not_elem_of_cons in Hain as [Haq HaP].
           rewrite Fr2; [apply Fr; [|assumption]| |assumption].
           ++ intros ->. apply Hac. rewrite fmap_app. apply elem_of_app. right. now apply elem_of_cons; left.
           ++ intros Hin. apply elem_of_app in Hin as [Hin|Hin]; [contradiction|].
              apply list_elem_of_singleton in Hin. contradiction.
    + exists st. replace rem with 0 in * by lia. destruct fuel; cbn [alloc_tail negb Z.ltb];
        unfold relink_last; cbn; rewrite Z.add_0_r, wrap_small by assumption;
        repeat split; auto; try apply HP; try (eapply chain_last_next; exact C).
Qed.

(** The free list is long enough exactly when it has the bytes. *)
Lemma tail_pbufs_enough P : forall rem, 0 <= rem ->
  (rem <= 128 * Z.of_nat (length P) <-> is_Some (tail_pbufs rem P)).
Proof.
  induction P as [|a P IH]; intros rem Hr; cbn [tail_pbufs length];
    destruct (Z.ltb_spec 0 rem); cbn [negb].
  - split; [lia | now intros []].
  - split; [eauto | lia].
  - specialize (IH (rem - Z.min 128 rem) ltac:(lia)).
    destruct (tail_pbufs _ P) as [l|]; split; intros Hs; try (now eexists).
    + destruct IH as [_ IH]. specialize (IH ltac:(now eexists)). lia.
    + destruct IH as [IH _]. destruct IH as [? IH]; [lia | discriminate].
    + now destruct Hs.
  - split; [eauto | lia].
Qed.

Lemma layer_offset_range l : 0 <= layer_offset l <= 54.
Proof. destruct l; vm_compute; split; discriminate. Qed.

(** The head of a pool chain, before its tail is allocated. *)
Lemma alloc_head_ok st p P off n : pool_ready st (p :: P) -> 0 <= off <= 54 -> 0 <= n <= 65535 ->
  let b := mkPbuf 0 (p + (sizeof_pbuf + off)) n (Z.min (128 - off) n) PBUF_FLAG_POOL 1 in
  let rem := n - Z.min (128 - off) n in
  exists st1, pool_ready st1 P /\ chain (pbufs st1) p [(p, b)] /\ p <> 0 /\ (p ∉ P) /\
    used (stats st1) = u16 (used (stats st) + 1) /\ err (stats st1) = err (stats st) /\
    mem st1 = mem st /\ blocks st1 = blocks st /\
    (forall a, a <> p -> pbufs st1 !! a = pbufs st !! a) /\
    pbuf_alloc_pool off n st
    = (ok <- alloc_tail (Z.to_nat rem) p p rem ;;
       if ok then update p (set_ref 1) ;; sm_ret p else sm_ret 0) st1.
Proof.
  intros HP Hoff Hn b rem.
  destruct (pool_alloc_cons st p P HP) as (b0 & Eb & Ef & Hp & HpP & EA & HP').
  set (st0 := taken (next b0) st) in *.
  exists (with_pbufs <[p := b]> st0). repeat split; try apply HP'; try assumption.
  - exact (proj1 (pool_ready_insert st0 P p b HpP HP')).
  - exact (proj2 (proj2 (pool_ready_insert st0 P p b HpP HP'))).
  - cbn. apply lookup_insert_eq.
  - intros a Ha. cbn. now rewrite lookup_insert_ne by congruence.
  - unfold pbuf_alloc_pool. sm_step EA. replace (p =? 0) with false by lia.
    sm_step (update_ok p _ b0 st0 Eb).
    erewrite sm_bind_some by (apply update_ok; cbn; apply lookup_insert_eq).
    rewrite with_pbufs_insert2.
    erewrite sm_bind_some by (apply update_ok; cbn; apply lookup_insert_eq).
    rewrite with_pbufs_insert2. cbv zeta.
    replace (if PBUF_POOL_BUFSIZE - off <? n then PBUF_POOL_BUFSIZE - off else n)
      with (Z.min (128 - off) n) by (unfold PBUF_POOL_BUFSIZE; case_if; lia).
    rewrite (wrap_small 16 (Z.min _ n)) by (unfold fits; pow2; lia).
    rewrite (swrap_small 32) by (lia || (unfold sfits; change (32 - 1) with 31; pow2; lia)).
    unfold set_next, set_tot_len, set_len, set_payload, set_ref.
    cbn [next payload tot_len len flags ref]. rewrite Ef.
    replace (MEM_ALIGN (p + (sizeof_pbuf + off))) with (p + (sizeof_pbuf + off)); [reflexivity|].
    unfold MEM_ALIGN. change (Z.lnot (1 - 1)) with (-1). rewrite Z.land_m1_r. ring.
Qed.

Lemma alloc_pool_cases st P l n :
  pool_ready st P -> 0 <= n <= 65535 -> fits 16 (used (stats st)) ->
  exists p st', pbuf_alloc l n PBUF_POOL st = Some (p, st') /\
    mem st' = mem st /\ blocks st' = blocks st /\
    (forall a, a ∉ P -> pbufs st' !! a = pbufs st !! a) /\
    if (1 <=? Z.of_nat (length P)) && (n <=? 128 * Z.of_nat (length P) - layer_offset l)
    then exists c rest, P = c.*1 ++ rest /\ pool_ready st' rest /\ chain (pbufs st') p c /\
      sum_len c = n /\ tot_ok c /\ len_ok c /\ Forall fresh_pool c /\ p <> 0 /\
      (exists b c', c = (p, b) :: c' /\ payload b = p + sizeof_pbuf + layer_offset l) /\
      used (stats st') = u16 (used (stats st) + Z.of_nat (length c))
    else p = 0 /\ pool_ready st' (reverse P) /\ used (stats st') = used (stats st) /\
      err (stats st') = u16 (err (stats st) + 1).
Proof.
  intros HP Hn Fu. pose proof (layer_offset_range l) as Hoff.
  unfold pbuf_alloc. set (off := layer_offset l) in *. destruct P as [|p P].
  - exists 0, (with_stats count_err (with_alloc_lock 0 (with_alloc_lock 1 st))).
    split; [|repeat split; try apply HP; reflexivity].
    unfold pbuf_alloc_pool. sm_step (pool_alloc_empty st HP). reflexivity.
  - destruct (alloc_head_ok st p P off n HP Hoff Hn)
      as (st1 & HP1 & C1 & Hp & HpP & U1 & E1 & M1 & B1 & Fr1 & EA). rewrite EA.
    set (b := mkPbuf _ _ _ _ _ _) in *. set (rem := n - Z.min (128 - off) n) in *.
    replace (1 <=? Z.of_nat (length (p :: P))) with true
      by (symmetry; apply Z.leb_le; cbn [length]; lia). cbn [andb].
    assert (Dp : forall a, a ∈ ([] ++ [(p, b)]).*1 -> a ∉ P).
    { cbn. intros a Ha. apply list_elem_of_singleton in Ha as ->. exact HpP. }
    pose proof (alloc_tail_ok P (Z.to_nat rem) p [] p b rem st1 C1
      ltac:(constructor; [now split | constructor]) HP1 Dp ltac:(lia) ltac:(lia)
      ltac:(rewrite U1; auto with cint)) as T.
    assert (El : (n <=? 128 * Z.of_nat (length (p :: P)) - off) = (rem <=? 128 * Z.of_nat (length P))).
    { rewrite length_cons. pose proof (Nat2Z.is_nonneg (length P)).
      unfold rem. destruct (Z.leb_spec n (128 * Z.of_nat (S (length P)) - off));
        symmetry; [apply Z.leb_le | apply Z.leb_gt]; lia. }
    rewrite El.
    pose proof (tail_pbufs_enough P rem ltac:(lia)) as TE.
    destruct (tail_pbufs rem P) as [t|] eqn:Et.
    + destruct T as (st2 & T & C2 & HP2 & U2 & E2 & M2 & B2 & Fr2).
      replace (rem <=? _) with true by (destruct TE as [_ TE]; specialize (TE ltac:(eauto)); lia).
      destruct (tail_pbufs_ok P rem t Et ltac:(lia)) as (TS & TT & TF & TL).
      unfold relink_last in C2. cbn [app fst snd] in C2.
      exists p, st2. sm_step T. split.
      { erewrite sm_bind_some by (apply update_ok; apply (lseg_lookup _ _ _ _ _ _ C2), elem_of_cons; now left).
        cbn. unfold sm_ret. do 2 f_equal. unfold with_pbufs. destruct st2. cbn. f_equal.
        apply insert_id. apply (lseg_lookup _ _ _ _ _ _ C2), elem_of_cons. now left. }
      split; [congruence|]. split; [congruence|]. split.
      { intros a Ha. apply not_elem_of_cons in Ha as [Hap HaP]. rewrite Fr2, Fr1 by assumption. reflexivity. }
      exists ((p, set_next (head_addr t) b) :: t), (drop (length t) P).
      split; [cbn; f_equal; now apply tail_pbufs_addrs with rem|].
      split; [exact HP2|]. split; [exact C2|].
      split; [unfold sum_len in *; cbn; lia|]. split; [cbn; unfold sum_len in *; cbn; split; [lia|assumption]|].
      split; [constructor; [cbn; lia | assumption]|].
      split; [constructor; [now split | assumption]|]. split; [assumption|].
      split; [do 2 eexists; split; [reflexivity | cbn; ring]|].
      rewrite U2, U1, wrap_add_l. cbn [length]. f_equal. lia.
    + destruct T as (st2 & T & HP2 & U2 & E2 & M2 & B2 & Fr2).
      replace (rem <=? _) with false by (destruct (Z.leb_spec rem (128 * Z.of_nat (length P)));
        [apply TE in H; now destruct H | reflexivity]).
      exists 0, st2. sm_step T. split; [reflexivity|]. split; [congruence|]. split; [congruence|].
      split.
      { intros a Ha. apply not_elem_of_cons in Ha as [Hap HaP].
        rewrite Fr2, Fr1; [reflexivity | assumption | | assumption].
        cbn. intros Hin. now apply list_elem_of_singleton in Hin. }
      split; [reflexivity|]. split; [exact HP2|]. split; [|congruence].
      rewrite U2, U1, wrap_sub_l. cbn [app length]. rewrite <- (wrap_small 16 (used (stats st))) at 2 by assumption.
      f_equal. lia.
Qed.

(** C28: [pbuf_alloc(layer, n, PBUF_POOL)] succeeds exactly when the free list
    has room for the layer's headers and [n] bytes.  Then it takes that many
    pbufs off the front of the list and returns them as a chain of [n] bytes
    in all, each with one reference and the right [tot_len], the first payload
    behind the header room.  Otherwise it returns [NULL] and has put back all
    it took (the list is then reversed), the count of used pbufs is unchanged
    and the error is counted. *)
Theorem pbuf_alloc_pool_spec st P l n :
  pool_ready st P -> 0 <= n <= 65535 -> fits 16 (used (stats st)) ->
  exists p st', pbuf_alloc l n PBUF_POOL st = Some (p, st') /\
    mem st' = mem st /\ blocks st' = blocks st /\
    (forall a, a ∉ P -> pbufs st' !! a = pbufs st !! a) /\
    if (1 <=? Z.of_nat (length P)) && (n <=? 128 * Z.of_nat (length P) - layer_offset l)
    then exists c rest, P = c.*1 ++ rest /\ pool_ready st' rest /\ chain (pbufs st') p c /\
      sum_len c = n /\ tot_ok c /\ len_ok c /\ Forall fresh_pool c /\ p <> 0 /\
      (exists b c', c = (p, b) :: c' /\ payload b = p + sizeof_pbuf + layer_offset l) /\
      used (stats st') = u16 (used (stats st) + Z.of_nat (length c))
    else p = 0 /\ pool_ready st' (reverse P) /\ used (stats st') = used (stats st) /\
      err (stats st') = u16 (err (stats st) + 1).
Proof. exact (alloc_pool_cases st P l n). Qed.

(** ** Concatenating chains *)

(** Only pbufs (not bytes, blocks, pool or counters) differ. *)
Definition only_pbufs (st st' : pstate) : Prop := st' = with_pbufs (fun _ => pbufs st') st.

Lemma only_pbufs_refl st : only_pbufs st st.
Proof. now destruct st. Qed.

Lemma only_pbufs_trans st st1 st2 : only_pbufs st st1 -> only_pbufs st1 st2 -> only_pbufs st st2.
Proof. unfold only_pbufs. intros E1 E2. rewrite E2. rewrite E1. reflexivity. Qed.

Lemma only_pbufs_update st f : only_pbufs st (with_pbufs f st).
Proof. reflexivity. Qed.

#[local] Hint Resolve only_pbufs_refl only_pbufs_update : core.

Definition add_tot (T : Z) (b : pbuf) : pbuf := set_tot_len (u16 (tot_len b + T)) b.

(** The pbufs of the head chain after [pbuf_cat] with a tail at [t] of [T] bytes. *)
Fixpoint cat_pbufs (T t : Z) (l : list (Z * pbuf)) : list (Z * pbuf) :=
  match l with
  | [] => []
  | [(r, b)] => [(r, set_next t (add_tot T b))]
  | (a, b) :: l' => (a, add_tot T b) :: cat_pbufs T t l'
  end.

Lemma cat_pbufs_snoc T t l0 r br :
  cat_pbufs T t (l0 ++ [(r, br)])
  = map (fun x => (x.1, add_tot T x.2)) l0 ++ [(r, set_next t (add_tot T br))].
Proof.
  induction l0 as [|[a b] l0 IH]; [reflexivity|].
  cbn [app map fst snd]. rewrite <- IH. now destruct l0 as [|[? ?] ?].
Qed.

Lemma map_fst_add_tot T l : (map (fun x : Z * pbuf => (x.1, add_tot T x.2)) l).*1 = l.*1.
Proof. induction l as [|x l IH]; [reflexivity|]. cbn. now f_equal. Qed.

Lemma cat_loop_ok l0 : forall fuel st p r br t bt,
  chain (pbufs st) p (l0 ++ [(r, br)]) -> pbufs st !! t = Some bt ->
  t ∉ (l0 ++ [(r, br)]).*1 -> (length l0 <= fuel)%nat ->
  exists st', cat_loop fuel p t st = Some (r, st') /\ only_pbufs st st' /\
    chain (pbufs st') p (map (fun x => (x.1, add_tot (tot_len bt) x.2)) l0 ++ [(r, br)]) /\
    (forall a, a ∉ l0.*1 -> pbufs st' !! a = pbufs st !! a).
Proof.
  induction l0 as [|[a b] l0 IH]; intros fuel st p r br t bt C Et Ht Hf.
  - exists st. pose proof C as (-> & Hr & Er & En). cbn in En.
    repeat split; auto; destruct fuel; cbn [cat_loop];
      (erewrite sm_bind_some by (apply load_ok; exact Er)); now rewrite En.
  - pose proof (chain_nodup _ _ _ C) as N. cbn in N, Ht, Hf. apply NoDup_cons in N as [Na N].
    apply not_elem_of_cons in Ht as [Hta Ht].
    destruct C as (-> & Ha & Eb & C). destruct fuel as [|f]; [lia|]. cbn [cat_loop].
    erewrite sm_bind_some by (apply load_ok; exact Eb).
    assert (Hn : next b <> 0) by (destruct l0 as [|[? ?] ?]; now destruct C as (-> & ? & _)).
    replace (next b =? 0) with false by lia.
    erewrite sm_bind_some by (apply load_ok; exact Et).
    sm_step (update_ok a _ b st Eb).
    erewrite sm_bind_some by (apply load_ok; cbn; apply lookup_insert_eq). cbn [next set_tot_len].
    fold (add_tot (tot_len bt) b). set (st1 := with_pbufs <[a := add_tot (tot_len bt) b]> st).
    destruct (IH f st1 (next b) r br t bt) as (st' & E & O & C' & F).
    + cbn. now apply lseg_insert_other.
    + cbn. now rewrite lookup_insert_ne by congruence.
    + exact Ht.
    + lia.
    + exists st'. split; [exact E|]. split; [now apply only_pbufs_trans with st1|].
      assert (Na' : a ∉ l0.*1) by (intros Hin; apply Na; rewrite fmap_app; apply elem_of_app; now left).
      split.
      * cbn. repeat split; auto. rewrite F by assumption. cbn. apply lookup_insert_eq.
      * intros a' Ha'. cbn in Ha'. apply not_elem_of_cons in Ha' as [Hne Ha'].
        rewrite F by assumption. cbn. now rewrite lookup_insert_ne by congruence.
Qed.

Lemma sum_len_cat T t l : sum_len (cat_pbufs T t l) = sum_len l.
Proof.
  destruct l as [|x l] using rev_ind; [reflexivity|]. destruct x as [r br].
  rewrite cat_pbufs_snoc, !sum_len_app. f_equal.
  unfold sum_len. clear. induction l as [|x l IH]; [reflexivity|]. cbn [map foldr snd len add_tot set_tot_len].
  now rewrite IH.
Qed.

(** [tot_len]s of the joined chain, while the total fits in 16 bits. *)
Lemma tot_ok_cat t lt : forall lh, tot_ok lh -> len_ok lh -> len_ok lt -> tot_ok lt ->
  sum_len lh + sum_len lt <= 65535 -> tot_ok (cat_pbufs (sum_len lt) t lh ++ lt).
Proof.
  induction lh as [|[a b] lh IH]; intros Th Lh Lt Tt Hs; [exact Tt|].
  destruct Th as [Tb Th]. inversion_clear Lh as [|? ? Lb Lh']. cbn [snd] in *.
  pose proof (sum_len_nonneg lh Lh') as Bh. pose proof (sum_len_nonneg lt Lt) as Bt.
  rewrite sum_len_cons in *. cbn [snd] in *.
  assert (Eu : u16 (tot_len b + sum_len lt) = len b + sum_len lh + sum_len lt).
  { rewrite Tb. apply wrap_small. unfold fits. pow2. lia. }
  specialize (IH Th Lh' Lt Tt ltac:(lia)). destruct lh as [|y lh].
  - cbn [cat_pbufs app tot_ok]. rewrite sum_len_cons. cbn [snd tot_len len set_next add_tot set_tot_len].
    rewrite Eu. split; [|exact Tt]. unfold sum_len at 1. cbn [foldr]. lia.
  - change (cat_pbufs (sum_len lt) t ((a, b) :: y :: lh))
      with ((a, add_tot (sum_len lt) b) :: cat_pbufs (sum_len lt) t (y :: lh)).
    cbn [app tot_ok]. rewrite sum_len_cons, sum_len_app, sum_len_cat.
    cbn [snd tot_len len add_tot set_tot_len]. rewrite Eu. split; [lia | exact IH].
Qed.

(** The run of [pbuf_cat], with the chain it leaves for any tail put at [t]. *)
Lemma pbuf_cat_ok st h t lh bt :
  chain (pbufs st) h lh -> lh <> [] -> t <> 0 -> pbufs st !! t = Some bt -> t ∉ lh.*1 ->
  exists st2, pbuf_cat h t st = Some (tt, st2) /\ only_pbufs st st2 /\
    (forall a, a ∉ lh.*1 -> pbufs st2 !! a = pbufs st !! a) /\
    (forall b' l', chain (<[t := b']> (pbufs st2)) t ((t, b') :: l') ->
       chain (<[t := b']> (pbufs st2)) h (cat_pbufs (tot_len bt) t lh ++ (t, b') :: l')).
Proof.
  intros Ch Hne Ht0 Et Htl.
  destruct lh as [|[r br] l0 _] using rev_ind; [congruence|].
  pose proof (chain_nodup _ _ _ Ch) as Nh.
  assert (Hh : h <> 0) by (destruct l0 as [|[? ?] ?]; now destruct Ch as (-> & ? & _)).
  pose proof (chain_length_bound _ _ _ Ch) as B. rewrite length_app in B.
  destruct (cat_loop_ok l0 (heap_fuel st) st h r br t bt Ch Et Htl ltac:(unfold heap_fuel; lia))
    as (st1 & E1 & O1 & C1 & F1).
  set (T := tot_len bt) in *. set (l1 := map (fun x : Z * pbuf => (x.1, add_tot T x.2)) l0) in *.
  assert (Hr1 : pbufs st1 !! r = Some br).
  { apply lseg_lookup with (l := l1 ++ [(r, br)]) (p := h) (q := 0); [exact C1|].
    apply elem_of_app. right. apply elem_of_cons. now left. }
  rewrite fmap_app in Nh. apply NoDup_app in Nh as (_ & Nr & _).
  assert (Hr0 : r ∉ l0.*1) by (intros Hin; apply (Nr r Hin), elem_of_cons; now left).
  assert (Hrt : r <> t) by (intros ->; apply Htl; rewrite fmap_app; apply elem_of_app; right; apply elem_of_cons; now left).
  assert (Htl0 : t ∉ l0.*1) by (intros Hin; apply Htl; rewrite fmap_app; apply elem_of_app; now left).
  set (st2 := with_pbufs <[r := set_next t (add_tot T br)]> st1).
  exists st2. split; [|split; [|split]].
  - unfold pbuf_cat. replace (h =? 0) with false by lia. replace (t =? 0) with false by lia. cbn [orb].
    unfold sm_bind at 1, sm_get. sm_step E1.
    erewrite sm_bind_some by (apply load_ok; rewrite F1; [exact Et | exact Htl0]).
    sm_step (update_ok r _ br st1 Hr1).
    erewrite update_ok by (cbn; apply lookup_insert_eq). now rewrite with_pbufs_insert2.
  - apply only_pbufs_trans with st1; [exact O1 | apply only_pbufs_update].
  - intros a Ha. rewrite fmap_app in Ha. apply not_elem_of_app in Ha as [Ha Har]. cbn in Har.
    apply not_elem_of_cons in Har as [Har _]. cbn. rewrite lookup_insert_ne by congruence. now apply F1.
  - intros b' l' Ct'. rewrite cat_pbufs_snoc, <- app_assoc. apply lseg_app. exists r.
    apply lseg_app in C1 as (m & C1 & (-> & Hr & _ & _)). split.
    + apply lseg_insert_other; [now rewrite map_fst_add_tot|].
      apply lseg_insert_other; [now rewrite map_fst_add_tot|]. exact C1.
    + cbn. repeat split; auto; try apply Ct'.
      rewrite lookup_insert_ne by congruence. apply lookup_insert_eq.
Qed.

(** [pbuf_cat(h, t)] links the chain at [t] behind the chain at [h]: all
    pbufs keep their payload, length, flags and reference count, the [tot_len]
    of each pbuf of the head chain grows by the tail's, and the invariant of
    [tot_len] is preserved as long as the joined length fits in 16 bits.
    [pbuf_chain] does the same and adds one reference to [t]. *)
Theorem pbuf_cat_spec st h t lh bt lt :
  chain (pbufs st) h lh -> chain (pbufs st) t ((t, bt) :: lt) -> lh <> [] ->
  (forall a, a ∈ lh.*1 -> a ∉ ((t, bt) :: lt).*1) ->
  let joined := cat_pbufs (tot_len bt) t lh in
  (exists st', pbuf_cat h t st = Some (tt, st') /\ only_pbufs st st' /\
     chain (pbufs st') h (joined ++ (t, bt) :: lt) /\
     (forall a, a ∉ lh.*1 -> pbufs st' !! a = pbufs st !! a)) /\
  (exists st', pbuf_chain h t st = Some (tt, st') /\ only_pbufs st st' /\
     chain (pbufs st') h (joined ++ (t, set_ref (u16 (ref bt + 1)) bt) :: lt)) /\
  (tot_ok lh -> tot_ok ((t, bt) :: lt) -> len_ok lh -> len_ok ((t, bt) :: lt) ->
   sum_len lh + sum_len ((t, bt) :: lt) <= 65535 -> tot_ok (joined ++ (t, bt) :: lt)).
Proof.
  intros Ch Ct Hne D joined.
  pose proof Ct as (_ & Ht0 & Et & Clt). pose proof (chain_nodup _ _ _ Ct) as Nt.
  assert (Htl : t ∉ lh.*1).
  { intros Hin. apply (D t Hin). cbn. apply elem_of_cons. now left. }
  destruct (pbuf_cat_ok st h t lh bt Ch Hne Ht0 Et Htl) as (st2 & E & O2 & Ft & C2).
  assert (Ct2 : chain (pbufs st2) t ((t, bt) :: lt)).
  { revert Ct. apply lseg_frame. intros a Ha. apply Ft. intros Hin. now apply (D a). }
  assert (Ei : <[t := bt]> (pbufs st2) = pbufs st2) by (apply insert_id; apply Ct2).
  split; [|split].
  - exists st2. repeat split; auto. rewrite <- Ei. apply C2. now rewrite Ei.
  - eexists. split; [|split].
    + unfold pbuf_chain. sm_step E. unfold pbuf_ref. replace (t =? 0) with false by lia. cbn [negb].
      apply update_ok, Ct2.
    + apply only_pbufs_trans with st2; [exact O2 | apply only_pbufs_update].
    + cbn [pbufs with_pbufs]. apply C2. destruct Ct2 as (_ & _ & _ & Cl). cbn.
      repeat split; auto; [apply lookup_insert_eq|]. apply lseg_insert_other; [|exact Cl].
      cbn in Nt. now apply NoDup_cons in Nt as [? _].
  - intros Th Tt Lh Lt Hs. unfold joined. destruct Tt as [Tb Tt]. cbn [snd] in Tb. rewrite Tb.
    apply tot_ok_cat; auto. now split.
Qed.

(** ** Shrinking a chain *)

(** All of [lk] lies before byte [n] of the chain: the loop steps over it. *)
Fixpoint steps_over (n : Z) (lk : list (Z * pbuf)) : Prop :=
  match lk with [] => True | x :: lk' => len x.2 < n /\ steps_over (n - len x.2) lk' end.

Lemma cut_exists l : forall n, len_ok l -> 0 <= n < sum_len l ->
  exists lk q bq ld, l = lk ++ (q, bq) :: ld /\ steps_over n lk /\ 0 <= n - sum_len lk <= len bq.
Proof.
  induction l as [|[a b] l IH]; intros n HF Hn; [unfold sum_len in Hn; cbn in Hn; lia|].
  inversion_clear HF as [|? ? Hb HF']. rewrite sum_len_cons in Hn. cbn [snd] in *.
  destruct (Z_lt_dec (len b) n) as [Hlt|].
  - destruct (IH (n - len b) HF' ltac:(lia)) as (lk & q & bq & ld & -> & Hs & Hr).
    exists ((a, b) :: lk), q, bq, ld. rewrite sum_len_cons. cbn [snd steps_over].
    repeat split; auto; lia.
  - exists [], a, b, l. rewrite Z.sub_0_r. repeat split; lia.
Qed.

Definition lens16 (l : list (Z * pbuf)) : Prop := Forall (fun x => fits 16 (len x.2)) l.

Lemma lens16_len_ok l : lens16 l -> len_ok l.
Proof. intros HF. eapply Forall_impl; [exact HF|]. intros x Hx. apply Hx. Qed.

Lemma realloc_skip_ok lk : forall fuel st p q bq ld n grow,
  chain (pbufs st) p (lk ++ (q, bq) :: ld) -> lens16 (lk ++ (q, bq) :: ld) ->
  steps_over n lk -> n <= 65535 -> 0 <= n - sum_len lk <= len bq -> (length lk <= fuel)%nat ->
  exists st', realloc_skip fuel p n grow st = Some ((q, n - sum_len lk), st') /\ only_pbufs st st' /\
    chain (pbufs st') p (map (fun x => (x.1, add_tot grow x.2)) lk ++ (q, bq) :: ld) /\
    (forall a, a ∉ lk.*1 -> pbufs st' !! a = pbufs st !! a).
Proof.
  induction lk as [|[a b] lk IH]; intros fuel st p q bq ld n grow C L16 Hs Hn Hr Hf.
  - exists st. destruct C as (-> & Hq & Eq & C). unfold sum_len in *. cbn [foldr] in *.
    rewrite Z.sub_0_r in *. repeat split; auto.
    destruct fuel; cbn [realloc_skip]; (erewrite sm_bind_some by (apply load_ok; exact Eq));
      now replace (len bq <? n) with false by lia.
  - pose proof (chain_nodup _ _ _ C) as N. cbn in N, Hf. apply NoDup_cons in N as [Na N].
    destruct C as (-> & Ha & Eb & C). inversion_clear L16 as [|? ? Lb L16'].
    destruct Hs as [Hb Hs]. rewrite sum_len_cons in Hr. cbn [snd] in *.
    pose proof (sum_len_nonneg lk) as B. unfold fits in Lb.
    destruct fuel as [|f]; [lia|]. cbn [realloc_skip].
    erewrite sm_bind_some by (apply load_ok; exact Eb). replace (len b <? n) with true by lia.
    sm_step (update_ok a _ b st Eb). fold (add_tot grow b).
    rewrite (wrap_small 16 (n - len b)) by (unfold fits; pow2; lia).
    set (st1 := with_pbufs <[a := add_tot grow b]> st).
    destruct (IH f st1 (next b) q bq ld (n - len b) grow) as (st' & E & O & C' & F); auto; try lia.
    + cbn. now apply lseg_insert_other.
    + exists st'. rewrite sum_len_cons. cbn [snd]. replace (n - (len b + sum_len lk)) with (n - len b - sum_len lk) by ring.
      split; [exact E|]. split; [now apply only_pbufs_trans with st1|].
      assert (Na' : a ∉ lk.*1) by (intros Hin; apply Na; rewrite fmap_app; apply elem_of_app; now left).
      split.
      * cbn. repeat split; auto. rewrite F by assumption. cbn. apply lookup_insert_eq.
      * intros a' Ha'. cbn in Ha'. apply not_elem_of_cons in Ha' as [Hne Ha'].
        rewrite F by assumption. cbn. now rewrite lookup_insert_ne by congruence.
Qed.

(** The last pbuf of the shrunk chain. *)
Definition shrunk (rem : Z) (b : pbuf) : pbuf :=
  mkPbuf 0 (payload b) rem rem (flags b) (ref b).

(** The kept part of a chain cut at byte [n], [grow] being [n - tot_len]. *)
Definition kept (n grow : Z) (lk : list (Z * pbuf)) (x : Z * pbuf) : list (Z * pbuf) :=
  map (fun y => (y.1, add_tot grow y.2)) lk ++ [(x.1, shrunk (n - sum_len lk) x.2)].

Lemma kept_ok lk : forall n grow q bq ld, tot_ok (lk ++ (q, bq) :: ld) -> lens16 (lk ++ (q, bq) :: ld) ->
  sum_len (lk ++ (q, bq) :: ld) <= 65535 -> 0 <= n - sum_len lk <= len bq ->
  u16 grow = u16 (n - sum_len (lk ++ (q, bq) :: ld)) ->
  sum_len (kept n grow lk (q, bq)) = n /\ tot_ok (kept n grow lk (q, bq)).
Proof.
  unfold kept. induction lk as [|[a b] lk IH]; intros n grow q bq ld HT H16 Hs Hr Hg.
  - cbn [map app fst snd tot_ok shrunk]. rewrite sum_len_cons. cbn [snd shrunk len tot_len].
    change (sum_len []) with 0 in *. lia.
  - destruct HT as [Tb HT]. inversion_clear H16 as [|? ? Hb H16']. unfold fits in Hb.
    cbn [app] in *. rewrite !sum_len_cons in *. cbn [snd] in *.
    pose proof (sum_len_nonneg _ (lens16_len_ok _ H16')) as B.
    assert (Blk : 0 <= sum_len lk).
    { apply sum_len_nonneg, lens16_len_ok. now apply Forall_app in H16' as [? _]. }
    destruct (IH (n - len b) grow q bq ld HT H16' ltac:(lia) ltac:(lia)) as [ES ET].
    { rewrite Hg. f_equal. lia. }
    replace (n - (len b + sum_len lk)) with (n - len b - sum_len lk) by ring.
    cbn [map app tot_ok]. rewrite sum_len_cons. cbn [fst snd len tot_len add_tot set_tot_len].
    cbn [fst snd] in ES, ET. rewrite ES. split; [lia|]. split; [|exact ET].
    rewrite Tb, <- wrap_add_r, Hg, wrap_add_r.
    replace (_ + (n - _)) with n by lia.
    rewrite wrap_small; [lia|]. unfold fits. pow2. rewrite sum_len_app, sum_len_cons in *.
    cbn [snd] in *. apply Forall_app in H16' as [_ H16']. inversion_clear H16' as [|? ? _ H16''].
    pose proof (sum_len_nonneg _ (lens16_len_ok _ H16'')). lia.
Qed.

Lemma pbuf_free_frame st gone rest a : a ∉ (gone ++ rest).*1 ->
  pbufs (unref rest (foldl free_one st gone)) !! a = pbufs st !! a.
Proof.
  rewrite fmap_app. intros Ha. apply not_elem_of_app in Ha as [Hg Hr].
  destruct rest as [|[a' b'] rest]; cbn [unref]; [now apply free_all_frame|].
  cbn in Hr. apply not_elem_of_cons in Hr as [Hne _]. cbn.
  rewrite lookup_insert_ne by congruence. now apply free_all_frame.
Qed.

Lemma pool_list_unref st P rest : (forall a, a ∈ rest.*1 -> a ∉ P) ->
  pool_list st P -> pool_list (unref rest st) P.
Proof.
  intros D (l & C & ->). exists l. split; [|reflexivity].
  destruct rest as [|[a b] rest]; cbn [unref]; [exact C|]. cbn.
  apply lseg_insert_other; [|exact C]. apply D, elem_of_cons. now left.
Qed.

(** The references of a live chain: those dropped at once and those that stay. *)
Lemma refs_split l : Forall (fun x => 1 <= ref x.2 <= 65535) l ->
  exists gone rest, l = gone ++ rest /\ Forall (fun x => ref x.2 = 1) gone /\ stays rest.
Proof.
  induction 1 as [|[a b] l Hx _ (gone & rest & -> & HF & Hs)]; [now exists [], []|].
  cbn [snd] in Hx. destruct (Z.eq_dec (ref b) 1) as [E|].
  - exists ((a, b) :: gone), rest. repeat split; auto.
  - exists [], ((a, b) :: gone ++ rest). repeat split; auto. cbn.
    rewrite wrap_small by (unfold fits; pow2; lia). lia.
Qed.

(** The [mem_realloc] step of [pbuf_realloc]. *)
Abbreviation shrink_block q b rem :=
  (if (flags b =? PBUF_FLAG_RAM) && negb (rem =? len b)
   then mem_realloc q (payload b - q + rem) ;; sm_ret tt else sm_ret tt).

(** libc leaves the block of [x] where it is when [pbuf_realloc] cuts it to [rem]
    bytes, or is not asked to, or refuses.  It may as well move it. *)
Definition in_place (B : gmap Z Z) (x : Z * pbuf) (rem : Z) : bool :=
  negb ((flags x.2 =? PBUF_FLAG_RAM) && negb (rem =? len x.2)) ||
  match realloc_addr B x.1 (u16 (payload x.2 - x.1 + rem)) with Some a => a =? x.1 | None => true end.

Lemma owned_block st q bq : flags bq = PBUF_FLAG_RAM -> owned (blocks st) (q, bq) -> exists n, blocks st !! q = Some n.
Proof. intros Ef [Ho|[_ [n Hn]]]; [cbn in Ho; rewrite Ho in Ef; discriminate | now exists n]. Qed.

(** Then no pbuf is lost, and at most the block's size changes. *)
Lemma realloc_step_ok st q bq rem : in_place (blocks st) (q, bq) rem = true -> pbufs st !! q = Some bq ->
  owned (blocks st) (q, bq) ->
  exists st', shrink_block q bq rem st = Some (tt, st') /\
    pbufs st' = pbufs st /\ pbuf_pool st' = pbuf_pool st /\ stats st' = stats st /\ mem st' = mem st /\
    (forall x, owned (blocks st) x -> owned (blocks st') x).
Proof.
  unfold in_place. cbn [fst snd]. intros Hs Eq Ho. destruct (Z.eqb_spec (flags bq) PBUF_FLAG_RAM) as [Ef|Ef]; cbn [andb] in *;
    [|exists st; repeat split; auto].
  destruct (negb (rem =? len bq)); cbn [negb orb] in Hs; [|exists st; repeat split; auto].
  destruct (owned_block st q bq Ef Ho) as [n Hn].
  set (sz := u16 (payload bq - q + rem)) in *.
  destruct (realloc_addr (blocks st) q sz) as [a|] eqn:Er.
  2:{ exists st. split; [|repeat split; auto]. unfold mem_realloc, realloc, sm_bind. fold sz. now rewrite Hn, Eq, Er. }
  apply Z.eqb_eq in Hs. subst a.
  exists (with_pbufs (fun h => <[q := bq]> (delete q h)) (with_blocks (fun h => <[q := sz]> (delete q h)) st)).
  split; [|repeat split; try reflexivity].
  - unfold mem_realloc, realloc, sm_bind. fold sz. now rewrite Hn, Eq, Er.
  - cbn. rewrite insert_delete_eq. now apply insert_id.
  - intros x [Hx|[Hx [m Hm]]]; [now left|]. right. split; [assumption|]. cbn.
    rewrite insert_delete_eq. destruct (Z.eq_dec q x.1) as [->|Hne].
    + rewrite lookup_insert_eq. eauto.
    + rewrite lookup_insert_ne by assumption. eauto.
Qed.

(** Else the pbuf is elsewhere. *)
Lemma realloc_step_moved st q bq rem : in_place (blocks st) (q, bq) rem = false -> pbufs st !! q = Some bq ->
  owned (blocks st) (q, bq) -> exists st', shrink_block q bq rem st = Some (tt, st') /\ pbufs st' !! q = None.
Proof.
  unfold in_place. cbn [fst snd]. intros Hs Eq Ho. apply orb_false_elim in Hs as [Hc Hs]. apply negb_false_iff in Hc.
  rewrite Hc. apply andb_prop in Hc as [Ef%Z.eqb_eq _]. destruct (owned_block st q bq Ef Ho) as [n Hn].
  set (sz := u16 (payload bq - q + rem)) in *. destruct (realloc_addr (blocks st) q sz) as [a|] eqn:Er; [|discriminate].
  apply Z.eqb_neq in Hs. eexists. split.
  - unfold mem_realloc, realloc, sm_bind. fold sz. rewrite Hn, Eq, Er. reflexivity.
  - cbn. now rewrite lookup_insert_ne, lookup_delete_eq by assumption.
Qed.

(** What [pbuf_realloc] does to reach the pbuf [q] with the cut. *)
Lemma pbuf_realloc_start st p n lk q bq ld :
  let l := lk ++ (q, bq) :: ld in
  let grow := s16 (n - sum_len l) in
  let rem := n - sum_len lk in
  chain (pbufs st) p l -> lens16 l -> tot_ok l -> 0 <= n < sum_len l -> sum_len l <= 65535 ->
  steps_over n lk -> 0 <= rem <= len bq ->
  exists st1, only_pbufs st st1 /\ chain (pbufs st1) p (map (fun x => (x.1, add_tot grow x.2)) lk ++ (q, bq) :: ld) /\
    (forall a, a ∉ lk.*1 -> pbufs st1 !! a = pbufs st !! a) /\ pbufs st1 !! q = Some bq /\
    pbuf_realloc p n st =
      (shrink_block q bq rem ;;
       update q (set_len rem) ;;
       update q (fun b => set_tot_len (len b) b) ;;
       b <- load q ;;
       (if negb (next b =? 0) then pbuf_free (next b) ;; sm_ret tt else sm_ret tt) ;;
       update q (set_next 0)) st1.
Proof.
  intros l grow rem C L16 HT Hn Hsum Hst Hrem. pose proof (chain_length_bound _ _ _ C) as B.
  unfold l in B. rewrite length_app in B. cbn in B.
  destruct (realloc_skip_ok lk (heap_fuel st) st p q bq ld n grow C L16 Hst
    ltac:(lia) Hrem ltac:(unfold heap_fuel; lia)) as (st1 & E1 & O1 & C1 & F1).
  pose proof C1 as C1'. apply lseg_app in C1' as (m & _ & (-> & _ & Eq & _)).
  exists st1. split_and!; trivial.
  assert (exists b0, pbufs st !! p = Some b0 /\ tot_len b0 = sum_len l) as (b0 & Ep & Et0).
  { unfold l in *. destruct lk as [|[a b] lk]; [exists bq | exists b];
      (split; [now destruct C as (-> & _ & ? & _) | now destruct HT as [? _]]). }
  unfold pbuf_realloc. erewrite sm_bind_some by (apply load_ok; exact Ep).
  rewrite Et0. replace (sum_len l <=? n) with false by lia. fold grow.
  unfold sm_bind at 1, sm_get. sm_step E1. cbv iota beta.
  erewrite sm_bind_some by (apply load_ok; exact Eq). reflexivity.
Qed.

(** The run of [pbuf_realloc] on a chain cut in its pbuf [q]; [st3] is the
    state when the rest of the chain is freed. *)
Lemma pbuf_realloc_ok st p n lk q bq gone rest :
  let l := lk ++ (q, bq) :: gone ++ rest in
  let grow := s16 (n - sum_len l) in
  in_place (blocks st) (q, bq) (n - sum_len lk) = true -> chain (pbufs st) p l -> lens16 l -> tot_ok l ->
  Forall (owned (blocks st)) l -> Forall (fun x => ref x.2 = 1) gone -> stays rest ->
  0 <= n < sum_len l -> sum_len l <= 65535 -> steps_over n lk -> 0 <= n - sum_len lk <= len bq ->
  exists st3,
    pbuf_realloc p n st
      = Some (tt, with_pbufs <[q := shrunk (n - sum_len lk) bq]> (unref rest (foldl free_one st3 gone))) /\
    pbuf_pool st3 = pbuf_pool st /\ stats st3 = stats st /\ mem st3 = mem st /\
    (forall x, owned (blocks st) x -> owned (blocks st3) x) /\
    lseg (pbufs st3) p (map (fun x => (x.1, add_tot grow x.2)) lk) q /\
    chain (pbufs st3) (next bq) (gone ++ rest) /\
    (forall a, a ∉ lk.*1 -> a <> q -> pbufs st3 !! a = pbufs st !! a).
Proof.
  intros l grow Hin C L16 HT Ho Hg Hs Hn Hsum Hst Hrem.
  pose proof (chain_nodup _ _ _ C) as N.
  unfold l in N. rewrite fmap_app in N. cbn in N.
  apply NoDup_app in N as (_ & Dk & N). apply NoDup_cons in N as [Nq N].
  destruct (pbuf_realloc_start st p n lk q bq (gone ++ rest) C L16 HT Hn Hsum Hst Hrem)
    as (st1 & O1 & C1 & F1 & Eq & ER).
  set (rem := n - sum_len lk) in *.
  apply lseg_app in C1 as (m & Ck & (-> & Hq0 & _ & Cr)).
  assert (Hb1 : blocks st1 = blocks st) by (rewrite O1; reflexivity).
  assert (Hol : owned (blocks st1) (q, bq)).
  { rewrite Hb1. unfold l in Ho. apply Forall_app in Ho as [_ Ho]. now inversion_clear Ho. }
  rewrite <- Hb1 in Hin.
  destruct (realloc_step_ok st1 q bq rem Hin Eq Hol) as (st2 & E2 & P2 & Q2 & S2 & M2 & O2).
  set (b3 := set_tot_len rem (set_len rem bq)).
  set (st3 := with_pbufs <[q := b3]> st2). exists st3.
  assert (Cr3 : chain (pbufs st3) (next bq) (gone ++ rest)).
  { cbn. rewrite P2. now apply lseg_insert_other. }
  assert (Ho3 : forall x, owned (blocks st) x -> owned (blocks st3) x).
  { intros x Hx. cbn. apply O2. rewrite O1. exact Hx. }
  repeat split; try (cbn; rewrite ?Q2, ?S2, ?M2, O1; reflexivity); auto.
  - rewrite ER. sm_step E2.
    erewrite sm_bind_some by (apply update_ok; rewrite P2; exact Eq).
    erewrite sm_bind_some by (apply update_ok; cbn; apply lookup_insert_eq).
    rewrite with_pbufs_insert2. cbn [len set_len]. fold b3. fold st3.
    erewrite sm_bind_some by (apply load_ok; cbn; apply lookup_insert_eq).
    change (next b3) with (next bq).
    assert (EF : (if negb (next bq =? 0) then pbuf_free (next bq) ;; sm_ret tt else sm_ret tt) st3
      = Some (tt, unref rest (foldl free_one st3 gone))).
    { assert (HFg : Forall (fun x => ref x.2 = 1 /\ owned (blocks st3) x) gone).
      { unfold l in Ho. apply Forall_app in Ho as [_ Ho]. inversion_clear Ho as [|? ? _ Ho'].
        apply Forall_app in Ho' as [Ho' _]. rewrite Forall_forall in *. intros x Hx. auto. }
      pose proof (pbuf_free_ok st3 (next bq) gone rest Cr3 HFg Hs) as EF.
      destruct (Z.eqb_spec (next bq) 0) as [E0|]; cbn [negb].
      - unfold pbuf_free in EF. rewrite E0 in EF. cbn in EF. injection EF as _ EF. unfold sm_ret. now rewrite <- EF.
      - sm_step EF. reflexivity. }
    sm_step EF. erewrite update_ok by (rewrite pbuf_free_frame by exact Nq; cbn; apply lookup_insert_eq).
    reflexivity.
  - cbn. rewrite P2. apply lseg_insert_other; [|exact Ck]. rewrite map_fst_add_tot.
    intros Hk. apply (Dk q Hk), elem_of_cons. now left.
  - intros a Ha Hne. cbn. rewrite lookup_insert_ne, P2 by congruence. now apply F1.
Qed.

(** The chain after the cut, what became of the rest, and the pool. *)
Lemma pbuf_realloc_result st p n lk q bq gone rest P :
  let l := lk ++ (q, bq) :: gone ++ rest in
  in_place (blocks st) (q, bq) (n - sum_len lk) = true -> chain (pbufs st) p l -> lens16 l -> tot_ok l ->
  Forall (owned (blocks st)) l -> Forall (fun x => ref x.2 = 1) gone -> stays rest ->
  pool_list st P -> (forall a, a ∈ l.*1 -> a ∉ P) -> 0 <= n < sum_len l -> sum_len l <= 65535 ->
  steps_over n lk -> 0 <= n - sum_len lk <= len bq ->
  exists st', pbuf_realloc p n st = Some (tt, st') /\
    chain (pbufs st') p (kept n (s16 (n - sum_len l)) lk (q, bq)) /\
    sum_len (kept n (s16 (n - sum_len l)) lk (q, bq)) = n /\
    tot_ok (kept n (s16 (n - sum_len l)) lk (q, bq)) /\
    pool_list st' (reverse (pooled gone) ++ P) /\
    (forall a b, (a, b) ∈ gone -> is_pool (a, b) = false ->
       pbufs st' !! a = None /\ blocks st' !! a = None) /\
    mem st' = mem st.
Proof.
  intros l Hin C L16 HT Ho Hg Hs HP D Hn Hsum Hst Hrem.
  destruct (pbuf_realloc_ok st p n lk q bq gone rest Hin C L16 HT Ho Hg Hs Hn Hsum Hst Hrem)
    as (st3 & E & Q3 & S3 & M3 & O3 & Ck & Cr & F3).
  set (grow := s16 (n - sum_len l)) in *.
  pose proof (chain_nodup _ _ _ C) as N. pose proof (chain_nonzero _ _ _ C) as NZ.
  unfold l in N, NZ, D. rewrite fmap_app in N, NZ, D. cbn in N, NZ, D.
  apply NoDup_app in N as (_ & Dk & N). apply NoDup_cons in N as [Nq N].
  apply Forall_app in NZ as [_ NZ]. inversion_clear NZ as [|? ? Hq0 NZ'].
  rewrite fmap_app in N, NZ'. apply NoDup_app in N as (Ng & Dgr & _). apply Forall_app in NZ' as [NZg _].
  assert (Dg : forall a, a ∈ (gone ++ rest).*1 -> a ∉ P).
  { intros a Ha. apply D. apply elem_of_app. right. apply elem_of_cons. now right. }
  assert (Dq : q ∉ P) by (apply D, elem_of_app; right; apply elem_of_cons; now left).
  assert (Dk' : forall a, a ∈ lk.*1 -> a <> q /\ (a ∉ (gone ++ rest).*1)).
  { intros a Ha. specialize (Dk a Ha). now apply not_elem_of_cons in Dk. }
  eexists. split; [exact E|]. split; [|split; [|split; [|split; [|split]]]].
  - unfold kept. apply lseg_app. exists q. split.
    + cbn [pbufs with_pbufs]. apply lseg_insert_other.
      { rewrite map_fst_add_tot. intros Hk. now destruct (Dk' q Hk). }
      revert Ck. apply lseg_frame. intros a Ha. rewrite map_fst_add_tot in Ha.
      apply pbuf_free_frame. now apply Dk'.
    + cbn. repeat split; auto. apply lookup_insert_eq.
  - apply (kept_ok lk n grow q bq (gone ++ rest) HT L16 Hsum Hrem). apply wrap_swrap.
  - apply (kept_ok lk n grow q bq (gone ++ rest) HT L16 Hsum Hrem). apply wrap_swrap.
  - assert (HP3 : pool_list st3 P).
    { destruct HP as (lp & Cp & ->). exists lp. split; [|reflexivity]. rewrite Q3.
      revert Cp. apply lseg_frame. intros a Ha. apply F3.
      - intros Hk. apply (D a); [|exact Ha]. apply elem_of_app. now left.
      - intros ->. contradiction. }
    apply (pool_list_free_all gone st3 P) in HP3; auto.
    2: { intros a Ha. apply Dg. rewrite fmap_app. apply elem_of_app. now left. }
    apply (pool_list_unref _ _ rest) in HP3.
    + destruct HP3 as (lp & Cp & El). exists lp. split; [|exact El]. cbn.
      apply lseg_insert_other; [|exact Cp]. rewrite <- El. intros Hq.
      apply elem_of_app in Hq as [Hq|Hq]; [|contradiction]. rewrite elem_of_reverse in Hq.
      apply Nq. rewrite fmap_app. apply elem_of_app. left. now apply pooled_subset.
    + intros a Ha Hin'. apply elem_of_app in Hin' as [Hin'|Hin'].
      * rewrite elem_of_reverse in Hin'. apply pooled_subset in Hin'. now apply (Dgr a).
      * apply (Dg a); [|exact Hin']. rewrite fmap_app. apply elem_of_app. now right.
  - intros a b Hab Hpl. destruct (free_all_gone gone st3 a b Ng Hab Hpl) as [E1 E2].
    assert (Hag : a ∈ gone.*1) by now apply (list_elem_of_fmap_2' fst _ (a, b)).
    assert (a <> q) by (intros ->; apply Nq; rewrite fmap_app; apply elem_of_app; now left).
    cbn. rewrite lookup_insert_ne by congruence. destruct rest as [|[a' b'] rest]; cbn [unref]; [now split|].
    cbn. rewrite lookup_insert_ne; [now split|]. intros ->. apply (Dgr a Hag), elem_of_cons. now left.
  - cbn. transitivity (mem (foldl free_one st3 gone)); [now destruct rest as [|[? ?] ?]|].
    now rewrite free_all_mem.
Qed.


(** ** Headers *)

(** The pbuf after a successful [pbuf_header] by [inc] bytes. *)
Definition moved (inc : Z) (b : pbuf) : pbuf :=
  mkPbuf (next b) (payload b - inc) (u16 (tot_len b + inc)) (u16 (len b + inc)) (flags b) (ref b).

Definition holds_data (b : pbuf) : Prop := flags b = PBUF_FLAG_RAM \/ flags b = PBUF_FLAG_POOL.
Definition refers_data (b : pbuf) : Prop := flags b = PBUF_FLAG_REF \/ flags b = PBUF_FLAG_ROM.

Lemma header_move st p b inc : pbufs st !! p = Some b ->
  (update p (fun b => set_len (u16 (len b + inc)) b) ;;
   update p (fun b => set_tot_len (u16 (tot_len b + inc)) b) ;; sm_ret 0)
    (with_pbufs <[p := set_payload (payload b - inc) b]> st)
  = Some (0, with_pbufs <[p := moved inc b]> st).
Proof.
  intros Eb. erewrite sm_bind_some by (apply update_ok; cbn; apply lookup_insert_eq).
  rewrite with_pbufs_insert2.
  erewrite sm_bind_some by (apply update_ok; cbn; apply lookup_insert_eq).
  now rewrite with_pbufs_insert2.
Qed.

Lemma restore_pbufs st p b : pbufs st !! p = Some b -> with_pbufs <[p := b]> st = st.
Proof. intros Eb. destruct st. unfold with_pbufs. cbn in *. f_equal. now apply insert_id. Qed.

Lemma pbuf_header_data st p b inc : pbufs st !! p = Some b -> p <> 0 -> inc <> 0 -> holds_data b ->
  pbuf_header p inc st
  = if payload b - inc <? p + sizeof_pbuf then Some (1, st)
    else Some (0, with_pbufs <[p := moved inc b]> st).
Proof.
  intros Eb Hp Hi Hf. unfold pbuf_header.
  replace (inc =? 0) with false by lia. replace (p =? 0) with false by lia. cbn [orb].
  erewrite sm_bind_some by (apply load_ok; exact Eb).
  replace ((flags b =? PBUF_FLAG_RAM) || (flags b =? PBUF_FLAG_POOL)) with true
    by (unfold holds_data in Hf; lia).
  unfold sm_bind at 1. erewrite sm_bind_some by (apply update_ok; exact Eb).
  erewrite sm_bind_some by (apply load_ok; cbn; apply lookup_insert_eq). cbn [payload set_payload].
  destruct (_ <? _).
  - erewrite sm_bind_some by (apply update_ok; cbn; apply lookup_insert_eq).
    rewrite with_pbufs_insert2. unfold sm_ret. cbn. unfold sm_ret. do 2 f_equal.
    replace (set_payload (payload b) (set_payload (payload b - inc) b)) with b by now destruct b.
    now apply restore_pbufs.
  - unfold sm_ret at 1. change (0 =? 1) with false. cbv iota. now apply header_move.
Qed.

Lemma pbuf_header_ref st p b inc : pbufs st !! p = Some b -> p <> 0 -> inc <> 0 -> refers_data b ->
  0 <= len b ->
  pbuf_header p inc st
  = if 0 <? inc then Some (1, st) else Some (0, with_pbufs <[p := moved inc b]> st).
Proof.
  intros Eb Hp Hi Hf Hl. unfold pbuf_header.
  replace (inc =? 0) with false by lia. replace (p =? 0) with false by lia. cbn [orb].
  erewrite sm_bind_some by (apply load_ok; exact Eb).
  unfold refers_data, PBUF_FLAG_REF, PBUF_FLAG_ROM in Hf. unfold PBUF_FLAG_RAM, PBUF_FLAG_POOL, PBUF_FLAG_REF, PBUF_FLAG_ROM.
  replace ((flags b =? 0) || (flags b =? 2)) with false by lia.
  replace ((flags b =? 4) || (flags b =? 1)) with true by lia.
  replace ((inc <? 0) && (inc - len b <=? 0)) with (negb (0 <? inc)) by lia.
  destruct (0 <? inc); cbn [negb]; [reflexivity|].
  unfold sm_bind at 1. erewrite sm_bind_some by (apply update_ok; exact Eb).
  unfold sm_ret at 1. change (0 =? 1) with false. cbv iota. now apply header_move.
Qed.

(** [pbuf_header] moves the start of the payload by the increment and
    adjusts both lengths, or fails and changes nothing: on a pbuf that holds
    its data it fails exactly when the new start would lie in the [struct pbuf]
    itself; on one that refers to its data exactly when the increment is
    positive (the comparison with [len] never fails).  Hiding a header again
    after it was made room for restores the state. *)
Theorem pbuf_header_spec st p b inc :
  pbufs st !! p = Some b -> p <> 0 -> fits 16 (len b) -> fits 16 (tot_len b) ->
  pbuf_header p 0 st = Some (0, st) /\
  (inc <> 0 -> holds_data b ->
     pbuf_header p inc st = if payload b - inc <? p + sizeof_pbuf then Some (1, st)
                            else Some (0, with_pbufs <[p := moved inc b]> st)) /\
  (inc <> 0 -> refers_data b ->
     pbuf_header p inc st = if 0 <? inc then Some (1, st)
                            else Some (0, with_pbufs <[p := moved inc b]> st)) /\
  (0 < inc -> holds_data b -> p + sizeof_pbuf <= payload b - inc ->
     (r <- pbuf_header p inc ;; pbuf_header p (- inc)) st = Some (0, st)).
Proof.
  intros Eb Hp Fl Ft. split; [|split; [|split]].
  - reflexivity.
  - intros Hi Hf. now apply pbuf_header_data.
  - intros Hi Hf. apply pbuf_header_ref; auto. apply Fl.
  - intros Hi Hf Hroom.
    assert (E : pbuf_header p inc st = Some (0, with_pbufs <[p := moved inc b]> st)).
    { rewrite (pbuf_header_data st p b) by (assumption || lia).
      now replace (_ <? _) with false by lia. }
    sm_step E. rewrite (pbuf_header_data _ p (moved inc b));
      [|cbn; apply lookup_insert_eq | assumption | lia | exact Hf].
    cbn [payload moved]. unfold sizeof_pbuf in *. replace (_ <? _) with false by lia.
    rewrite with_pbufs_insert2. do 2 f_equal.
    replace (moved (- inc) (moved inc b)) with b; [now apply restore_pbufs|].
    destruct b as [nx pl tl ln fl rf]. unfold moved. cbn [next payload tot_len len flags ref] in *.
    rewrite !wrap_add_l. f_equal; [ring | | ].
    + rewrite <- (wrap_small 16 tl) at 1 by assumption. f_equal. ring.
    + rewrite <- (wrap_small 16 ln) at 1 by assumption. f_equal. ring.
Qed.

(** ** Allocation in RAM *)

Lemma MEM_ALIGN_id a : MEM_ALIGN a = a.
Proof. unfold MEM_ALIGN. change (Z.lnot (1 - 1)) with (-1). rewrite Z.land_m1_r. ring. Qed.

Lemma MEM_ALIGN_SIZE_id a : MEM_ALIGN_SIZE a = a.
Proof. exact (MEM_ALIGN_id a). Qed.

(** [pbuf_alloc(layer, n, PBUF_RAM)] makes one pbuf of [n] bytes behind the
    layer's header room, but the size it asks [mem_malloc] for goes through the
    16-bit [mem_size_t]: the payload lies in the allocated block exactly when
    header and payload together fit in 16 bits. *)
Theorem pbuf_alloc_ram_spec st l n p :
  0 <= n <= 65535 -> malloc_addr (blocks st) (u16 (sizeof_pbuf + layer_offset l + n)) = Some p ->
  p <> 0 ->
  exists st' b size, pbuf_alloc l n PBUF_RAM st = Some (p, st') /\ pbufs st' !! p = Some b /\
    b = mkPbuf 0 (p + sizeof_pbuf + layer_offset l) n n PBUF_FLAG_RAM 1 /\
    blocks st' !! p = Some size /\
    (payload b + len b <= p + size <-> sizeof_pbuf + layer_offset l + n <= 65535).
Proof.
  intros Hn Em Hp. pose proof (layer_offset_range l) as Hoff.
  set (size := u16 (sizeof_pbuf + layer_offset l + n)) in *.
  set (b := mkPbuf 0 (p + sizeof_pbuf + layer_offset l) n n PBUF_FLAG_RAM 1).
  exists (with_pbufs <[p := b]> (with_blocks <[p := size]> st)), b, size.
  split; [|split; [|split; [|split]]].
  - unfold pbuf_alloc, pbuf_alloc_ram, mem_malloc. rewrite !MEM_ALIGN_SIZE_id. fold size.
    unfold sm_bind, malloc. rewrite Em. replace (p =? 0) with false by lia.
    rewrite MEM_ALIGN_id. reflexivity.
  - cbn. apply lookup_insert_eq.
  - reflexivity.
  - cbn. apply lookup_insert_eq.
  - unfold b. cbn [payload len]. unfold size, wrap, sizeof_pbuf. clear - Hn Hoff. pow2.
    split; intros; zmod_lia.
Qed.

(** ** Packet queues *)

Lemma queue_last_ok l0 : forall fuel st p r br, chain (pbufs st) p (l0 ++ [(r, br)]) ->
  (length l0 <= fuel)%nat -> queue_last fuel p st = Some (r, st).
Proof.
  induction l0 as [|[a b] l0 IH]; intros fuel st p r br C Hf.
  - destruct C as (-> & Hr & Er & En). cbn in En.
    destruct fuel; cbn [queue_last]; (erewrite sm_bind_some by (apply load_ok; exact Er)); now rewrite En.
  - destruct C as (-> & Ha & Eb & C). cbn in Hf. destruct fuel as [|f]; [lia|]. cbn [queue_last].
    erewrite sm_bind_some by (apply load_ok; exact Eb).
    assert (Hn : next b <> 0) by (destruct l0 as [|[? ?] ?]; now destruct C as (-> & ? & _)).
    replace (next b =? 0) with false by lia. apply (IH f st (next b) r br); [exact C | lia].
Qed.

(** A packet in which only the first pbuf may be empty: its last pbuf is the
    first with [tot_len] equal to [len]. *)
Definition packet (l : list (Z * pbuf)) : Prop :=
  tot_ok l /\ len_ok l /\ Forall (fun x => 0 < len x.2) (tl l).

Lemma packet_last_ok l0 : forall fuel st p r br q, lseg (pbufs st) p (l0 ++ [(r, br)]) q ->
  packet (l0 ++ [(r, br)]) -> (length l0 <= fuel)%nat -> packet_last fuel p st = Some (r, st).
Proof.
  induction l0 as [|[a b] l0 IH]; intros fuel st p r br q C (HT & HL & HP) Hf.
  - destruct C as (-> & Hr & Er & En). destruct HT as [HT _]. cbn [snd] in HT.
    unfold sum_len in HT. cbn in HT.
    destruct fuel; cbn [packet_last]; (erewrite sm_bind_some by (apply load_ok; exact Er));
      now replace (tot_len br =? len br) with true by lia.
  - destruct C as (-> & Ha & Eb & C). cbn in Hf. destruct fuel as [|f]; [lia|]. cbn [packet_last].
    erewrite sm_bind_some by (apply load_ok; exact Eb).
    destruct HT as [Tb HT]. inversion_clear HL as [|? ? Lb HL']. cbn [tl] in HP. cbn [snd] in *.
    assert (0 < sum_len (l0 ++ [(r, br)])).
    { destruct l0 as [|x l0]; cbn [app] in *; rewrite sum_len_cons;
        inversion_clear HP as [|? ? Hx HP']; inversion_clear HL' as [|? ? _ HL''];
        pose proof (sum_len_nonneg _ HL''); lia. }
    cbn [app] in Tb. rewrite sum_len_cons in Tb. cbn [snd] in Tb.
    replace (tot_len b =? len b) with false by lia.
    apply (IH f st (next b) r br q); [exact C | | lia].
    split; [exact HT|]. split; [exact HL'|]. destruct l0; [constructor|].
    cbn [app tl] in HP |- *. now inversion_clear HP.
Qed.

Lemma packet_relink l0 r br n : packet (l0 ++ [(r, br)]) -> packet (l0 ++ [(r, set_next n br)]).
Proof.
  intros (HT & HL & HP).
  assert (ES : forall l, sum_len (l ++ [(r, set_next n br)]) = sum_len (l ++ [(r, br)]))
    by (intros; now rewrite !sum_len_app).
  split; [|split].
  - clear HL HP. induction l0 as [|x l0 IH]; [exact HT|].
    destruct HT as [Tx HT]. split; [|now apply IH].
    rewrite Tx. exact (eq_sym (ES (x :: l0))).
  - apply Forall_app in HL as [HL0 HLr]. apply Forall_app. split; [assumption|].
    inversion_clear HLr. now constructor.
  - destruct l0 as [|x l0]; [constructor|]. cbn [app tl] in *.
    apply Forall_app in HP as [HP0 HPr]. apply Forall_app. split; [assumption|].
    inversion_clear HPr. now constructor.
Qed.

(** A packet queued behind another with [pbuf_queue] is what [pbuf_dequeue]
    of the first returns; both packets are then as before, the second with the
    reference the queue took. *)
Theorem pbuf_queue_dequeue st p n lp bn ln :
  chain (pbufs st) p lp -> packet lp -> lp <> [] -> chain (pbufs st) n ((n, bn) :: ln) ->
  (forall a, a ∈ lp.*1 -> a ∉ ((n, bn) :: ln).*1) ->
  (pbuf_queue p n ;; pbuf_dequeue p) st
  = Some (n, with_pbufs <[n := set_ref (u16 (ref bn + 1)) bn]> st).
Proof.
  intros Cp Hp Hne Cn D. destruct lp as [|[r br] l0 _] using rev_ind; [congruence|].
  pose proof (chain_length_bound _ _ _ Cp) as B. rewrite length_app in B.
  destruct Cn as (_ & Hn0 & En & Cn).
  assert (Hnl : n ∉ (l0 ++ [(r, br)]).*1) by (intros Hin; apply (D n Hin), elem_of_cons; now left).
  assert (Hp0 : p <> 0) by (destruct l0 as [|[? ?] ?]; now destruct Cp as (-> & ? & _)).
  assert (Hpn : p <> n) by (intros ->; apply Hnl; destruct l0 as [|[? ?] ?];
    destruct Cp as (-> & _); apply elem_of_cons; now left).
  pose proof (chain_nodup _ _ _ Cp) as N. rewrite fmap_app in N. apply NoDup_app in N as (_ & Nr & _).
  rewrite fmap_app in Hnl. apply not_elem_of_app in Hnl as [Hnl0 Hnr]. cbn in Hnr.
  apply not_elem_of_cons in Hnr as [Hnr _].
  assert (Hr0 : r ∉ l0.*1) by (intros Hin; apply (Nr r Hin), elem_of_cons; now left).
  pose proof Cp as Cp0. apply lseg_app in Cp0 as (m & C0 & (-> & Hr & Er & Enx)). cbn in Enx.
  set (bn' := set_ref (u16 (ref bn + 1)) bn).
  set (st1 := with_pbufs <[n := bn']> (with_pbufs <[r := set_next n br]> st)).
  assert (EQ : pbuf_queue p n st = Some (tt, st1)).
  { unfold pbuf_queue. replace (p =? 0) with false by lia. replace (n =? 0) with false by lia.
    replace (p =? n) with false by lia. cbn [orb]. unfold sm_bind at 1, sm_get.
    erewrite sm_bind_some by (apply (queue_last_ok l0) with (br := br); [exact Cp | unfold heap_fuel; lia]).
    sm_step (update_ok r _ br st Er). unfold pbuf_ref. replace (n =? 0) with false by lia. cbn [negb].
    erewrite update_ok by (cbn; rewrite lookup_insert_ne by congruence; exact En). reflexivity. }
  sm_step EQ. unfold pbuf_dequeue, sm_bind at 1, sm_get.
  assert (C1 : lseg (pbufs st1) p (l0 ++ [(r, set_next n br)]) n).
  { apply lseg_app. exists r. split.
    - cbn. apply lseg_insert_other; [exact Hnl0|]. now apply lseg_insert_other.
    - cbn. repeat split; auto. rewrite lookup_insert_ne by congruence. apply lookup_insert_eq. }
  assert (Hp1 : packet (l0 ++ [(r, set_next n br)])).
  { now apply (packet_relink l0 r br). }
  erewrite sm_bind_some by (apply (packet_last_ok l0) with (br := set_next n br) (q := n);
    [exact C1 | exact Hp1 |]; unfold heap_fuel, st1; cbn; rewrite !map_size_insert, Er;
    rewrite lookup_insert_ne, En by congruence; cbn; lia).
  assert (Er1 : pbufs st1 !! r = Some (set_next n br)).
  { cbn. rewrite lookup_insert_ne by congruence. apply lookup_insert_eq. }
  erewrite sm_bind_some by (apply load_ok; exact Er1).
  erewrite sm_bind_some by (apply update_ok; exact Er1). unfold sm_ret. cbn [next set_next].
  do 2 f_equal. unfold st1, with_pbufs. destruct st. cbn in *. f_equal.
  rewrite insert_insert_ne by congruence. rewrite insert_insert_eq.
  replace (set_next 0 (set_next n br)) with br by (unfold set_next; cbn; rewrite <- Enx; now destruct br).
  f_equal. now apply insert_id.
Qed.

(** ** Dechaining *)

(** [pbuf_dechain(p)] leaves [p] alone in its chain and takes its reference from
    the rest: the rest is returned, or 0 when its first pbuf was deallocated. *)
Lemma pbuf_dechain_ok st p b gone rest : p <> 0 ->
  chain (pbufs st) p ((p, b) :: gone ++ rest) -> gone ++ rest <> [] ->
  tot_ok ((p, b) :: gone ++ rest) -> lens16 (gone ++ rest) -> sum_len (gone ++ rest) <= 65535 ->
  Forall (fun x => ref x.2 = 1 /\ owned (blocks st) x) gone -> stays rest ->
  (length gone <= 255)%nat ->
  exists st', pbuf_dechain p st = Some ((if (length gone =? 0)%nat then next b else 0), st') /\
    chain (pbufs st') p [(p, set_tot_len (len b) (set_next 0 b))].
Proof.
  intros Hp C Hne HT L16 Hs HF Hst H255. pose proof (chain_nodup _ _ _ C) as N.
  cbn in N. apply NoDup_cons in N as [Np N]. destruct C as (_ & _ & Eb & C).
  destruct HT as [Tb HT]. rewrite sum_len_cons in Tb. cbn [snd] in Tb.
  assert (exists bq, pbufs st !! next b = Some bq /\ next b <> 0 /\ tot_len bq = sum_len (gone ++ rest)
    /\ next b ∈ (gone ++ rest).*1) as (bq & Eq & Hq & Tq & Hin).
  { destruct (gone ++ rest) as [|[q bq] l]; [congruence|]. exists bq.
    destruct C as (-> & ? & ? & _), HT as [HT _]. repeat split; auto. apply elem_of_cons. now left. }
  assert (Hpq : p <> next b) by (intros E; apply Np; now rewrite E).
  pose proof (sum_len_nonneg _ (lens16_len_ok _ L16)) as B.
  set (b1 := set_tot_len (len b) (set_next 0 b)).
  set (st1 := with_pbufs <[p := b1]> (with_pbufs <[next b := bq]> st)).
  assert (C1 : chain (pbufs st1) (next b) (gone ++ rest)).
  { cbn. apply lseg_insert_other; [exact Np|]. now rewrite insert_id. }
  pose proof (pbuf_free_ok st1 (next b) gone rest C1 HF Hst) as EF.
  exists (unref rest (foldl free_one st1 gone)). split.
  - unfold pbuf_dechain. erewrite sm_bind_some by (apply load_ok; exact Eb).
    replace (next b =? 0) with false by lia. cbn [negb]. unfold sm_bind at 1.
    sm_step (update_ok (next b) _ bq st Eq).
    replace (set_tot_len (u16 (tot_len b - len b)) bq) with bq.
    2: { rewrite Tb. replace (len b + sum_len (gone ++ rest) - len b) with (tot_len bq) by lia.
         rewrite wrap_small by (unfold fits; pow2; lia). now destruct bq. }
    erewrite sm_bind_some by (apply update_ok; cbn; rewrite lookup_insert_ne by congruence; exact Eb).
    erewrite sm_bind_some by (apply update_ok; cbn; apply lookup_insert_eq).
    rewrite with_pbufs_insert2. cbn [len set_next]. fold b1. fold st1. rewrite EF.
    unfold sm_ret. do 3 f_equal. rewrite wrap_small by (unfold fits; pow2; lia).
    destruct gone; cbn [length Nat.eqb]; [reflexivity|].
    now replace (0 <? _) with true by (symmetry; apply Z.ltb_lt; lia).
  - cbn. repeat split; auto. rewrite pbuf_free_frame by exact Np. cbn. apply lookup_insert_eq.
Qed.

End Theory.

(** ** A concrete platform: blocks are taken one after the other *)
Definition heap_end (B : gmap Z Z) : Z := map_fold (fun a n m => Z.max (a + n) m) 65536 B.

#[export] Instance bump : Platform := {
  pool_base := 4096;
  malloc_addr B n := Some (heap_end B);
  realloc_addr B p n := Some p
}.

(** ** Small checks *)
Example ex_pool :
  match pbuf_alloc PBUF_RAW 300 PBUF_POOL pbuf_init with
  | Some (p, st) => (p, used (stats st), len <$> pbufs st !! p, tot_len <$> pbufs st !! (p + 288))
  | None => (0, 0, None, None)
  end = (4096, 3, Some 128, Some 44).
Proof. vm_compute. reflexivity. Qed.
Example ex_free :
  match (p <- pbuf_alloc PBUF_RAW 300 PBUF_POOL ;; pbuf_free p) pbuf_init with
  | Some (n, st) => (n, used (stats st)) | None => (0, 0) end = (3, 0).
Proof. vm_compute. reflexivity. Qed.

(** ** The properties on a concrete pool *)

(** The chain found by following [next], for the witnesses. *)
Fixpoint walk (fuel : nat) (h : gmap Z pbuf) (p : Z) : list (Z * pbuf) :=
  match fuel, h !! p with
  | S f, Some b => (p, b) :: walk f h (next b)
  | _, _ => []
  end.

Definition run {A} (m : SM pstate A) (st : pstate) : pstate :=
  match m st with Some (_, st') => st' | None => st end.

(** The pool after a 300-byte chain (at 4096) and a 10-byte one (at 4528). *)
Definition demo1 : pstate := run (pbuf_alloc PBUF_RAW 300 PBUF_POOL) pbuf_init.
Definition demo : pstate := run (pbuf_alloc PBUF_RAW 10 PBUF_POOL) demo1.

Ltac concrete_chain := vm_compute; repeat split; discriminate.

Lemma pool_of_walk st n : chain (pbufs st) (pbuf_pool st) (walk n (pbufs st) (pbuf_pool st)) ->
  pool_list st (walk n (pbufs st) (pbuf_pool st)).*1.
Proof. intros C. eexists. split; [exact C | reflexivity]. Qed.

Definition demo_pool (st : pstate) : list Z := (walk 16 (pbufs st) (pbuf_pool st)).*1.

(** A concrete address not in a concrete list, for all of another list. *)
Lemma disjoint_dec (l P : list Z) : forallb (fun a => negb (bool_decide (a ∈ P))) l = true ->
  forall a, a ∈ l -> a ∉ P.
Proof.
  intros H a Ha. rewrite forallb_forall in H. apply list_elem_of_In in Ha.
  apply H in Ha. apply negb_true_iff, bool_decide_eq_false in Ha. exact Ha.
Qed.

Lemma pbuf_free_spec_witness :
  exists st', pbuf_free 4096 demo = Some (3, st') /\
    pool_list st' (reverse (pooled (walk 3 (pbufs demo) 4096)) ++ demo_pool demo).
Proof.
  destruct (pbuf_free_spec demo 4096 (walk 3 (pbufs demo) 4096) [] (demo_pool demo))
    as (st' & E & HP & _).
  - concrete_chain.
  - discriminate.
  - vm_compute. repeat constructor.
  - exact I.
  - apply pool_of_walk. concrete_chain.
  - apply disjoint_dec. vm_compute. reflexivity.
  - vm_compute. split; [discriminate | reflexivity].
  - exists st'. split; [exact E | exact HP].
Defined.

Lemma pool_ready_init : pool_ready pbuf_init (demo_pool pbuf_init).
Proof.
  split; [apply pool_of_walk; concrete_chain|]. split; [reflexivity|].
  vm_compute. repeat (constructor; [eexists; split; reflexivity|]). constructor.
Qed.

(** Evaluate the condition of a hypothesis that is an [if]. *)
Ltac decide_if R :=
  match type of R with
  | if ?c then _ else _ =>
      let v := eval vm_compute in c in
      let E := fresh in assert (E : c = v) by (vm_compute; reflexivity); rewrite E in R; clear E
  end.

(** 3000 bytes do not fit in the pool; 300 do. *)
Lemma pbuf_alloc_pool_spec_witness :
  (exists st', pbuf_alloc PBUF_RAW 3000 PBUF_POOL pbuf_init = Some (0, st') /\
     pool_ready st' (reverse (demo_pool pbuf_init))) /\
  (exists p st' c, pbuf_alloc PBUF_TRANSPORT 300 PBUF_POOL pbuf_init = Some (p, st') /\
     chain (pbufs st') p c /\ sum_len c = 300 /\ tot_ok c).
Proof.
  assert (Fu : fits 16 (used (stats pbuf_init))) by (vm_compute; split; [discriminate | reflexivity]).
  split.
  - destruct (pbuf_alloc_pool_spec pbuf_init _ PBUF_RAW 3000 pool_ready_init ltac:(lia) Fu)
      as (p & st' & E & _ & _ & _ & R).
    decide_if R. rename R into R'.
    destruct R' as (-> & R' & _). exists st'. split; assumption.
  - destruct (pbuf_alloc_pool_spec pbuf_init _ PBUF_TRANSPORT 300 pool_ready_init ltac:(lia) Fu)
      as (p & st' & E & _ & _ & _ & R).
    decide_if R. destruct R as (c & rest & _ & _ & C & S & T & _).
    exists p, st', c. split; [exact E|]. split; [exact C|]. split; [exact S | exact T].
Defined.

Lemma pbuf_cat_spec_witness :
  exists st', pbuf_cat 4096 4528 demo = Some (tt, st') /\
    chain (pbufs st') 4096 (cat_pbufs 10 4528 (walk 3 (pbufs demo) 4096) ++ walk 1 (pbufs demo) 4528).
Proof.
  destruct (pbuf_cat_spec demo 4096 4528 (walk 3 (pbufs demo) 4096)
    (mkPbuf 0 4544 10 10 2 1) []) as ((st' & E & _ & C & _) & _).
  - concrete_chain.
  - concrete_chain.
  - vm_compute. discriminate.
  - apply disjoint_dec. vm_compute. reflexivity.
  - exists st'. split; [exact E | exact C].
Defined.

(** A pbuf of 300 bytes in a block of its own, and a platform that moves a
    block to the end of the heap when it shrinks it. *)
Definition demo_ram : pstate := run (pbuf_alloc PBUF_RAW 300 PBUF_RAM) pbuf_init.

Definition mover : Platform := {|
  pool_base := 4096;
  malloc_addr B n := Some (heap_end B);
  realloc_addr B p n := Some (heap_end B)
|}.


Lemma pbuf_header_spec_witness :
  pbuf_header 4096 8 demo = Some (1, demo) /\
  pbuf_header 4528 (-8) demo
    = Some (0, with_pbufs <[4528 := moved (-8) (mkPbuf 0 4544 10 10 2 1)]> demo).
Proof.
  destruct (pbuf_header_spec demo 4096 (mkPbuf 4240 4112 300 128 2 1) 8) as (_ & A & _);
    [vm_compute; reflexivity | discriminate | now split | now split |].
  destruct (pbuf_header_spec demo 4528 (mkPbuf 0 4544 10 10 2 1) (-8)) as (_ & B & _);
    [vm_compute; reflexivity | discriminate | now split | now split |].
  specialize (A ltac:(discriminate) ltac:(now right)).
  specialize (B ltac:(discriminate) ltac:(now right)).
  cbn [payload] in A, B. change (4112 - 8 <? 4096 + sizeof_pbuf) with true in A.
  change (4544 - -8 <? 4528 + sizeof_pbuf) with false in B. split; assumption.
Defined.

Lemma pbuf_alloc_ram_spec_witness :
  exists st' b size, pbuf_alloc PBUF_TRANSPORT 65500 PBUF_RAM pbuf_init = Some (65536, st') /\
    pbufs st' !! 65536 = Some b /\ blocks st' !! 65536 = Some size /\ 65536 + size < payload b + len b.
Proof.
  destruct (pbuf_alloc_ram_spec pbuf_init PBUF_TRANSPORT 65500 65536)
    as (st' & b & size & E & Eb & _ & Es & [A _]);
    [lia | reflexivity | discriminate |].
  exists st', b, size. split; [exact E|]. split; [exact Eb|]. split; [exact Es|].
  destruct (Z_lt_dec (65536 + size) (payload b + len b)) as [|n]; [assumption|].
  assert (F : sizeof_pbuf + layer_offset PBUF_TRANSPORT + 65500 <= 65535) by (apply A; lia).
  vm_compute in F. now destruct F.
Defined.

Lemma pbuf_queue_dequeue_witness :
  (pbuf_queue 4096 4528 ;; pbuf_dequeue 4096) demo
  = Some (4528, with_pbufs <[4528 := mkPbuf 0 4544 10 10 2 2]> demo).
Proof.
  apply (pbuf_queue_dequeue demo 4096 4528 (walk 3 (pbufs demo) 4096) (mkPbuf 0 4544 10 10 2 1) []).
  - concrete_chain.
  - vm_compute. repeat split; repeat constructor; discriminate.
  - vm_compute. discriminate.
  - concrete_chain.
  - apply disjoint_dec. vm_compute. reflexivity.
Defined.
