(* ===== verification/IpFrag.v ===== *)
(** * IpFrag: fragmentation and reassembly of IP datagrams

    [nsc-0.5.3/lwip-HEAD/src/core/ipv4/ip_frag.c] with the header accessors of
    [include/ipv4/lwip/ip.h], for the build of NSC: little endian,
    [MEM_ALIGNMENT] 1, [NO_SYS] 1 (so [sys_timeout] and [sys_untimeout] are
    empty macros and nothing ever runs [ip_reass_timer]), [IP_STATS] on.

    A packet is the chain of its pbufs, each the bytes from [payload] on and its
    [len]; what happens to the [struct pbuf]s is the matter of [Pbuf].  The
    static buffers are lists of bytes.  An access outside an array, outside the
    bytes of a payload or through a null pointer is a fault ([None]). *)
From Stdlib Require Import ZArith Lia List Bool.
From stdpp Require Import base list.
From S2P Require Import Prelude Inet.
Import ListNotations.
#[local] Open Scope Z_scope.

(** ** Data *)

Definition IP_HLEN : Z := 20.
Definition IP_MF : Z := 8192.
Definition IP_OFFMASK : Z := 8191.
Definition IP_REASS_BUFSIZE : Z := 5760.
Definition IP_REASS_MAXAGE : Z := 30.
Definition IP_REASS_FLAG_LASTFRAG : Z := 1.
Definition MAX_MTU : Z := 1500.

(** [struct ip_hdr]: the fields as they lie in memory, in network byte order. *)
Record ip_hdr := mkHdr {
  v_hl_tos : Z; hlen : Z; id : Z; offset : Z; ttl_proto : Z; chksum : Z; src : Z; dest : Z
}.

#[export] Instance ip_hdr_eq_dec : EqDecision ip_hdr.
Proof. solve_decision. Defined.

Definition bytes16 (n : Z) : list Z := [Z.land n 255; Z.shiftr n 8].

(** The 20 bytes of a header, and the header at the start of some bytes. *)
Definition hdr_bytes (h : ip_hdr) : list Z :=
  bytes16 (v_hl_tos h) ++ bytes16 (hlen h) ++ bytes16 (id h) ++ bytes16 (offset h) ++
  bytes16 (ttl_proto h) ++ bytes16 (chksum h) ++ bytes32 (src h) ++ bytes32 (dest h).

Definition hdr_at (data : list Z) : option ip_hdr :=
  match data with
  | b0 :: b1 :: b2 :: b3 :: b4 :: b5 :: b6 :: b7 :: b8 :: b9 ::
    b10 :: b11 :: b12 :: b13 :: b14 :: b15 :: b16 :: b17 :: b18 :: b19 :: _ =>
      Some (mkHdr (b0 + 256 * b1) (b2 + 256 * b3) (b4 + 256 * b5) (b6 + 256 * b7)
                  (b8 + 256 * b9) (b10 + 256 * b11)
                  (word32 b12 b13 b14 b15) (word32 b16 b17 b18 b19))
  | _ => None
  end.

Definition IPH_HL (h : ip_hdr) : Z := Z.land (Z.shiftr (ntohs (v_hl_tos h)) 8) 15.
Definition IPH_LEN (h : ip_hdr) : Z := hlen h.
Definition IPH_ID (h : ip_hdr) : Z := id h.
Definition IPH_OFFSET (h : ip_hdr) : Z := offset h.
Definition IPH_LEN_SET (v : Z) (h : ip_hdr) : ip_hdr :=
  mkHdr (v_hl_tos h) v (id h) (offset h) (ttl_proto h) (chksum h) (src h) (dest h).
Definition IPH_OFFSET_SET (v : Z) (h : ip_hdr) : ip_hdr :=
  mkHdr (v_hl_tos h) (hlen h) (id h) v (ttl_proto h) (chksum h) (src h) (dest h).
Definition IPH_CHKSUM_SET (v : Z) (h : ip_hdr) : ip_hdr :=
  mkHdr (v_hl_tos h) (hlen h) (id h) (offset h) (ttl_proto h) v (src h) (dest h).

(** [IPH_CHKSUM_SET(h, 0); IPH_CHKSUM_SET(h, inet_chksum(h, IP_HLEN))] *)
Definition set_chksum (h : ip_hdr) : ip_hdr :=
  let h := IPH_CHKSUM_SET 0 h in IPH_CHKSUM_SET (inet_chksum (hdr_bytes h)) h.

(** A pbuf of the chain: the bytes at [payload] and the field [len]. *)
Record seg := mkSeg { bytes : list Z; plen : Z }.

Definition seg_of (l : list Z) : seg := mkSeg l (Z.of_nat (length l)).

(** ** [copy_from_pbuf] *)

(** [p->payload += off; p->len -= off] *)
Definition advance (off : Z) (s : seg) : seg :=
  mkSeg (drop (Z.to_nat off) (bytes s)) (u16 (plen s - off)).

(** [memcpy(buffer, src, l)] *)
Definition memcpy (l : Z) (src : list Z) : option (list Z) :=
  if l <=? Z.of_nat (length src) then Some (take (Z.to_nat l) src) else None.

(** The loop: what is copied, the rest of the chain from the returned pbuf on,
    and [*offset]. *)
Fixpoint copy_loop (p : list seg) (off n : Z) : option (list Z * list seg * Z) :=
  if n =? 0 then Some ([], p, off)
  else match p with
  | [] => None
  | s :: p' =>
      let l := if n <? plen s then n else plen s in
      match memcpy l (bytes s) with
      | None => None
      | Some bs =>
          let n := u16 (n - l) in
          if n =? 0 then Some (bs, p, l)
          else match copy_loop p' off n with
               | Some (bs', q, off') => Some (bs ++ bs', q, off')
               | None => None
               end
      end
  end.

Definition copy_from_pbuf (p : list seg) (off n : Z) : option (list Z * list seg * Z) :=
  match p with
  | [] => None
  | s :: p' => copy_loop (advance off s :: p') off n
  end.

(** ** The bitmap of the 8-byte units received *)

Definition bitmap_bits (k : Z) : Z := Z.shiftr 255 k.

Definition or_byte (i v : Z) (bm : list Z) : option (list Z) :=
  match bm !! Z.to_nat i with
  | Some b => Some (<[Z.to_nat i := u8 (Z.lor b v)]> bm)
  | None => None
  end.

(** [for (; n > 0; ++i) ip_reassbitmap[i] = 0xff] *)
Fixpoint fill_bytes (n : nat) (i : Z) (bm : list Z) : option (list Z) :=
  match n with
  | O => Some bm
  | S n' =>
      match bm !! Z.to_nat i with
      | Some _ => fill_bytes n' (u16 (i + 1)) (<[Z.to_nat i := 255]> bm)
      | None => None
      end
  end.

Definition update_bitmap (off n : Z) (bm : list Z) : option (list Z) :=
  let lo := off / 64 in
  let hi := (off + n) / 64 in
  let from := bitmap_bits (Z.land (off / 8) 7) in
  let upto := Z.lnot (bitmap_bits (Z.land ((off + n) / 8) 7)) in
  if lo =? hi then or_byte lo (Z.land from upto) bm
  else match or_byte lo from bm with
  | None => None
  | Some bm =>
      match fill_bytes (Z.to_nat (hi - (1 + lo))) (1 + lo) bm with
      | None => None
      | Some bm => or_byte hi upto bm
      end
  end.

(** [for (i = 0; i < k; ++i) if (ip_reassbitmap[i] != 0xff) goto nullreturn;] *)
Fixpoint all_full (n : nat) (i : Z) (bm : list Z) : option bool :=
  match n with
  | O => Some true
  | S n' =>
      match bm !! Z.to_nat i with
      | None => None
      | Some b => if b =? 255 then all_full n' (u16 (i + 1)) bm else Some false
      end
  end.

Definition check_full (reasslen : Z) (bm : list Z) : option bool :=
  match all_full (Z.to_nat (reasslen / 64 - 1)) 0 bm with
  | Some true =>
      match bm !! Z.to_nat (reasslen / 64) with
      | None => None
      | Some b => Some (b =? u8 (Z.lnot (bitmap_bits (Z.land (reasslen / 8) 7))))
      end
  | r => r
  end.

(** ** Reassembly *)

(** [lwip_stats.ip_frag]: the counters this file writes. *)
Record ip_frag_stats := mkStats {
  recv : Z; cachehit : Z; drop_ : Z; fw : Z; memerr : Z; xmit : Z
}.

Definition inc_recv (s : ip_frag_stats) := mkStats (u16 (recv s + 1)) (cachehit s) (drop_ s) (fw s) (memerr s) (xmit s).
Definition inc_cachehit (s : ip_frag_stats) := mkStats (recv s) (u16 (cachehit s + 1)) (drop_ s) (fw s) (memerr s) (xmit s).
Definition inc_drop (s : ip_frag_stats) := mkStats (recv s) (cachehit s) (u16 (drop_ s + 1)) (fw s) (memerr s) (xmit s).
Definition inc_fw (s : ip_frag_stats) := mkStats (recv s) (cachehit s) (drop_ s) (u16 (fw s + 1)) (memerr s) (xmit s).
Definition inc_memerr (s : ip_frag_stats) := mkStats (recv s) (cachehit s) (drop_ s) (fw s) (u16 (memerr s + 1)) (xmit s).
Definition inc_xmit (s : ip_frag_stats) := mkStats (recv s) (cachehit s) (drop_ s) (fw s) (memerr s) (u16 (xmit s + 1)).

(** The static variables; [ip_reassbuf] is the header at its start and the
    5760 bytes behind it. *)
Record rstate := mkR {
  reasshdr : ip_hdr; reassdata : list Z; reassbitmap : list Z;
  reasslen : Z; reassflags : Z; reasstmr : Z; stats : ip_frag_stats
}.

Definition with_stats (f : ip_frag_stats -> ip_frag_stats) (st : rstate) : rstate :=
  mkR (reasshdr st) (reassdata st) (reassbitmap st) (reasslen st) (reassflags st) (reasstmr st) (f (stats st)).
Definition with_hdr (h : ip_hdr) (st : rstate) : rstate :=
  mkR h (reassdata st) (reassbitmap st) (reasslen st) (reassflags st) (reasstmr st) (stats st).
Definition with_data (d : list Z) (st : rstate) : rstate :=
  mkR (reasshdr st) d (reassbitmap st) (reasslen st) (reassflags st) (reasstmr st) (stats st).
Definition with_bitmap (bm : list Z) (st : rstate) : rstate :=
  mkR (reasshdr st) (reassdata st) bm (reasslen st) (reassflags st) (reasstmr st) (stats st).
Definition with_len (n : Z) (st : rstate) : rstate :=
  mkR (reasshdr st) (reassdata st) (reassbitmap st) n (reassflags st) (reasstmr st) (stats st).
Definition with_flags (f : Z) (st : rstate) : rstate :=
  mkR (reasshdr st) (reassdata st) (reassbitmap st) (reasslen st) f (reasstmr st) (stats st).
Definition with_tmr (t : Z) (st : rstate) : rstate :=
  mkR (reasshdr st) (reassdata st) (reassbitmap st) (reasslen st) (reassflags st) t (stats st).

(** What [Pbuf] promises of [pbuf_alloc(PBUF_LINK, n, PBUF_POOL)]: a chain whose
    [len]s add up to [n] (here: what the payloads hold), or [NULL]. *)
Class PbufPool := {
  pool_alloc : Z -> option (list (list Z));
  pool_alloc_len : forall n c, pool_alloc n = Some c ->
    Z.of_nat (length (concat c)) = n
}.

(** [static void ip_reass_timer(void *arg)] *)
Definition ip_reass_timer (st : rstate) : rstate :=
  if 1 <? reasstmr st then with_tmr (u8 (reasstmr st - 1)) st
  else if reasstmr st =? 1 then with_tmr 0 st
  else st.

(** A new datagram: its header, the timer, no flag and an empty bitmap. *)
Definition reass_start (fraghdr : ip_hdr) (st : rstate) : rstate :=
  with_bitmap (replicate 90 0) (with_flags 0 (with_tmr IP_REASS_MAXAGE (with_hdr fraghdr st))).

Definition reass_begin (fraghdr : ip_hdr) (st : rstate) : rstate :=
  if reasstmr st =? 0 then reass_start fraghdr st else st.

(** Copy [bs] to [ip_reassbuf\[IP_HLEN + off\]]. *)
Definition write_data (off : Z) (bs : list Z) (d : list Z) : option (list Z) :=
  if off + Z.of_nat (length bs) <=? Z.of_nat (length d)
  then Some (take (Z.to_nat off) d ++ bs ++ drop (Z.to_nat off + length bs) d) else None.

(** The loop that copies the datagram into the new pbufs. *)
Fixpoint fill_pbufs (buf : list Z) (reasslen i : Z) (q : list (list Z)) : option (list (list Z)) :=
  match q with
  | [] => Some []
  | c :: q' =>
      let n := Z.of_nat (length c) in
      let l := if reasslen - i <? n then reasslen - i else n in
      match memcpy l (drop (Z.to_nat i) buf) with
      | None => None
      | Some bs =>
          match fill_pbufs buf reasslen (u16 (i + n)) q' with
          | None => None
          | Some r => Some ((bs ++ drop (Z.to_nat l) c) :: r)
          end
      end
  end.

Definition same_datagram (a b : ip_hdr) : bool :=
  (src a =? src b) && (dest a =? dest b) && (IPH_ID a =? IPH_ID b).

(** [len] and [offset] of the fragment. *)
Definition frag_len (h : ip_hdr) : Z := u16 (ntohs (IPH_LEN h) - IPH_HL h * 4).
Definition frag_off (h : ip_hdr) : Z := u16 (Z.land (ntohs (IPH_OFFSET h)) IP_OFFMASK * 8).

(** The last fragment gives the length of the datagram. *)
Definition note_last (h : ip_hdr) (off len : Z) (st : rstate) : rstate :=
  if Z.land (ntohs (IPH_OFFSET h)) IP_MF =? 0
  then with_len (u16 (off + len)) (with_flags (Z.lor (reassflags st) IP_REASS_FLAG_LASTFRAG) st)
  else st.

Section Reassembly.
Context {PP : PbufPool}.

(** The end of [ip_reass]: the datagram as an unfragmented packet. *)
Definition reass_deliver (st : rstate) : option (option (list (list Z)) * rstate) :=
  let st := with_len (u16 (reasslen st + IP_HLEN)) st in
  let h := set_chksum (IPH_OFFSET_SET 0 (IPH_LEN_SET (htons (reasslen st)) (reasshdr st))) in
  let st := with_tmr 0 (with_hdr h st) in
  match pool_alloc (reasslen st) with
  | Some p =>
      match fill_pbufs (hdr_bytes h ++ reassdata st) (reasslen st) 0 p with
      | Some p => Some (Some p, with_stats inc_fw st)
      | None => None
      end
  | None => Some (None, with_stats inc_memerr st)
  end.

(** [nullreturn:] *)
Definition nullreturn (st : rstate) : option (option (list (list Z)) * rstate) :=
  Some (None, with_stats inc_drop st).

(** The test for a full packet, once the last fragment has been seen. *)
Definition reass_check (st : rstate) : option (option (list (list Z)) * rstate) :=
  if Z.land (reassflags st) IP_REASS_FLAG_LASTFRAG =? 0 then nullreturn st
  else match check_full (reasslen st) (reassbitmap st) with
       | None => None
       | Some false => nullreturn st
       | Some true => reass_deliver st
       end.

(** [struct pbuf *ip_reass(struct pbuf *p)]; [None] inside the result is [NULL]. *)
Definition ip_reass (p : list (list Z)) (st : rstate) : option (option (list (list Z)) * rstate) :=
  let st := with_stats inc_recv st in
  match hdr_at (hd [] p) with
  | None => None
  | Some fraghdr =>
      let st := reass_begin fraghdr st in
      if same_datagram (reasshdr st) fraghdr then
        let st := with_stats inc_cachehit st in
        let len := frag_len fraghdr in
        let off := frag_off fraghdr in
        if (IP_REASS_BUFSIZE <? off) || (IP_REASS_BUFSIZE <? off + len)
        then nullreturn (with_tmr 0 st)
        else
          match copy_from_pbuf (map seg_of p) (IPH_HL fraghdr * 4) len with
          | None => None
          | Some (bs, _, _) =>
          match write_data off bs (reassdata st) with
          | None => None
          | Some d =>
          match update_bitmap off len (reassbitmap st) with
          | None => None
          | Some bm =>
              reass_check (note_last fraghdr off len (with_bitmap bm (with_data d st)))
          end end end
      else nullreturn st
  end.

(** A sequence of fragments. *)
Fixpoint reass_all (ps : list (list (list Z))) (st : rstate)
    : option (list (option (list (list Z))) * rstate) :=
  match ps with
  | [] => Some ([], st)
  | p :: ps =>
      match ip_reass p st with
      | None => None
      | Some (r, st) =>
          match reass_all ps st with
          | None => None
          | Some (rs, st) => Some (r :: rs, st)
          end
      end
  end.

End Reassembly.

(** ** Fragmentation *)

(** What [ip_frag] leaves behind: the frames given to [netif->output], in order,
    the bytes behind the header in the static [buf], and the counters. *)
Record frag_result := mkFrag { frames : list (list Z); fbody : list Z; fstats : ip_frag_stats }.

Definition emit (f : list Z) (r : outcome frag_result) : outcome frag_result :=
  match r with
  | Done r => Done (mkFrag (f :: frames r) (fbody r) (fstats r))
  | r => r
  end.

(** [pbuf_realloc] of the one [PBUF_REF] pbuf of length [rlen]. *)
Definition rambuf_realloc (new_len rlen : Z) : Z := if rlen <=? new_len then rlen else new_len.

Section Fragmentation.
(** Whether the pbuf for [buf] and the pbuf for the [k]-th link header are
    allocated (libc's [malloc]); the code does not test it. *)
Context (ref_alloc : bool) (ram_alloc : nat -> bool).

(** The loop of [ip_frag]: [iphdr] and [body] are [buf], [rlen] the length of
    [rambuf], [k] the frames already sent. *)
Fixpoint frag_loop (fuel : nat) (mtu omf : Z) (k : nat) (p : list seg)
    (poff ofo nfb left : Z) (iphdr : ip_hdr) (body : list Z) (rlen : Z) (st : ip_frag_stats)
    : outcome frag_result :=
  match fuel with
  | O => OutOfFuel
  | S fuel =>
      if left =? 0 then Done (mkFrag [] body st)
      else
        let last := left <=? mtu - IP_HLEN in
        let ofo := u16 (ofo + nfb) in
        let tmp := Z.lor omf (Z.land IP_OFFMASK ofo) in
        let tmp := if last then tmp else Z.lor tmp IP_MF in
        let iphdr := IPH_OFFSET_SET (htons tmp) iphdr in
        let nfb := u16 (Z.quot (mtu - IP_HLEN) 8) in
        let cop := if last then left else u16 (nfb * 8) in
        match copy_from_pbuf p poff cop with
        | None => Fault
        | Some (bs, p, poff) =>
        match write_data 0 bs body with
        | None => Fault
        | Some body =>
            let iphdr := set_chksum (IPH_LEN_SET (htons (u16 (cop + IP_HLEN))) iphdr) in
            let rlen := if last then rambuf_realloc (u16 (left + IP_HLEN)) rlen else rlen in
            if ram_alloc k then
              match memcpy rlen (hdr_bytes iphdr ++ body) with
              | None => Fault
              | Some frame =>
                  emit frame (frag_loop fuel mtu omf (S k) p poff ofo nfb (u16 (left - cop))
                                iphdr body rlen (inc_xmit st))
              end
            else Fault
        end end
  end.

(** One turn per byte left is enough when the loop ends. *)
Definition frag_fuel : nat := Z.to_nat 65536.

(** [err_t ip_frag(struct pbuf *p, struct netif *netif, struct ip_addr *dest)] *)
Definition ip_frag_run (fuel : nat) (p : list (list Z)) (mtu : Z) (body : list Z)
    (st : ip_frag_stats) : outcome frag_result :=
  if ref_alloc then
    match hdr_at (hd [] p) with
    | None => Fault
    | Some iphdr =>
        let tmp := ntohs (IPH_OFFSET iphdr) in
        let ofo := Z.land tmp IP_OFFMASK in
        let omf := Z.land tmp IP_MF in
        let left := u16 (Z.of_nat (length (concat p)) - IP_HLEN) in
        frag_loop fuel mtu omf 0 (map seg_of p) IP_HLEN ofo 0 left iphdr body mtu st
    end
  else Fault.

Definition ip_frag := ip_frag_run frag_fuel.

End Fragmentation.

(** ** The bitmap as a set of units *)

(** Unit [u] of the datagram (bytes [8 u] to [8 u + 7]) is marked. *)
Definition unit_bit (bm : list Z) (u : Z) : bool :=
  Z.testbit (nth (Z.to_nat (u / 8)) bm 0) (7 - u mod 8).

Lemma land7 x : Z.land x 7 = x mod 8.
Proof. change 7 with (Z.ones 3). rewrite Z.land_ones by lia. reflexivity. Qed.

Lemma bitmap_bits_spec k j : 0 <= k -> 0 <= j <= 7 ->
  Z.testbit (bitmap_bits k) (7 - j) = (k <=? j).
Proof.
  intros Hk Hj. unfold bitmap_bits. rewrite Z.shiftr_spec by lia.
  change 255 with (Z.ones 8). rewrite Z.testbit_ones by lia.
  destruct (Z.leb_spec k j), (Z.leb_spec 0 (7 - j + k)), (Z.ltb_spec (7 - j + k) 8); lia || reflexivity.
Qed.

Lemma upto_spec k j : 0 <= k -> 0 <= j <= 7 ->
  Z.testbit (Z.lnot (bitmap_bits k)) (7 - j) = (j <? k).
Proof.
  intros Hk Hj. rewrite Z.lnot_spec, bitmap_bits_spec by lia.
  now rewrite Z.leb_antisym, negb_involutive.
Qed.

Lemma u8_testbit x j : 0 <= j <= 7 -> Z.testbit (u8 x) (7 - j) = Z.testbit x (7 - j).
Proof. intros. apply Z.mod_pow2_bits_low. lia. Qed.

Lemma byte_bits x y : fits 8 x -> fits 8 y ->
  (forall j, 0 <= j <= 7 -> Z.testbit x (7 - j) = Z.testbit y (7 - j)) -> x = y.
Proof.
  intros Hx Hy H. apply Z.bits_inj'. intros n Hn. destruct (Z.le_gt_cases n 7).
  - replace n with (7 - (7 - n)) by lia. apply H. lia.
  - assert (P : forall z, fits 8 z -> Z.testbit z n = false).
    { intros z Hz. rewrite <- (wrap_small 8 z) by assumption. apply Z.mod_pow2_bits_high. lia. }
    now rewrite !P.
Qed.

Lemma nth_insert (i j : nat) v (bm : list Z) : (i < length bm)%nat ->
  nth j (<[i := v]> bm) 0 = if Nat.eqb j i then v else nth j bm 0.
Proof.
  intros Hi. rewrite !nth_lookup. destruct (Nat.eqb_spec j i) as [->|N].
  - now rewrite list_lookup_insert_eq.
  - now rewrite list_lookup_insert_ne by congruence.
Qed.

(** Change byte [i] of a bitmap: what its units become. *)
Lemma unit_bit_insert i v bm u : 0 <= i < Z.of_nat (length bm) -> 0 <= u ->
  unit_bit (<[Z.to_nat i := v]> bm) u =
  if u / 8 =? i then Z.testbit v (7 - u mod 8) else unit_bit bm u.
Proof.
  intros Hi Hu. unfold unit_bit. rewrite nth_insert by lia.
  destruct (Nat.eqb_spec (Z.to_nat (u / 8)) (Z.to_nat i)), (Z.eqb_spec (u / 8) i);
    reflexivity || (exfalso; zmod_lia).
Qed.

(** [bm'] is a bitmap like [bm] with the units of [P] marked too. *)
Definition marks (bm bm' : list Z) (P : Z -> bool) : Prop :=
  length bm' = length bm /\ is_bytes bm' /\
  forall u, 0 <= u -> unit_bit bm' u = unit_bit bm u || P u.

Lemma or_byte_ok i v bm : is_bytes bm -> 0 <= i < Z.of_nat (length bm) ->
  exists bm', or_byte i v bm = Some bm' /\
    marks bm bm' (fun u => (u / 8 =? i) && Z.testbit v (7 - u mod 8)).
Proof.
  intros Hb Hi. unfold or_byte.
  destruct (lookup_lt_is_Some_2 bm (Z.to_nat i) ltac:(lia)) as [b Eb]. rewrite Eb.
  eexists. split; [reflexivity|]. split; [apply length_insert|]. split.
  { apply Forall_insert; [exact Hb | auto with cint]. }
  intros u Hu. rewrite unit_bit_insert by assumption.
  destruct (Z.eqb_spec (u / 8) i) as [<-|]; [|now rewrite orb_false_r].
  rewrite u8_testbit, Z.lor_spec by (Z.div_mod_to_equations; lia).
  unfold unit_bit. now rewrite (nth_lookup_Some _ _ _ _ Eb).
Qed.

Lemma fill_bytes_ok n : forall i bm, is_bytes bm -> 0 <= i ->
  i + Z.of_nat n <= Z.of_nat (length bm) <= 65535 ->
  exists bm', fill_bytes n i bm = Some bm' /\
    marks bm bm' (fun u => (i <=? u / 8) && (u / 8 <? i + Z.of_nat n)).
Proof.
  induction n as [|n IH]; intros i bm Hb Hi Hn; cbn [fill_bytes].
  - exists bm. do 3 (split; [easy|]). intros u Hu.
    destruct (Z.leb_spec i (u / 8)), (Z.ltb_spec (u / 8) (i + Z.of_nat 0)); try lia;
      now rewrite orb_false_r.
  - destruct (lookup_lt_is_Some_2 bm (Z.to_nat i) ltac:(lia)) as [b ->].
    rewrite wrap_small by (unfold fits; pow2; lia).
    destruct (IH (i + 1) (<[Z.to_nat i := 255]> bm)) as (bm' & E & L & B & U).
    + apply Forall_insert; [exact Hb | unfold fits; pow2; lia].
    + lia.
    + rewrite length_insert. lia.
    + exists bm'. split; [exact E|]. rewrite length_insert in L. do 2 (split; [assumption|]).
      intros u Hu. rewrite U, unit_bit_insert by lia.
      change 255 with (Z.ones 8). rewrite Z.testbit_ones by lia.
      pose proof (Z.mod_pos_bound u 8 ltac:(lia)).
      destruct (Z.eqb_spec (u / 8) i), (Z.leb_spec i (u / 8)), (Z.leb_spec (i + 1) (u / 8)),
        (Z.ltb_spec (u / 8) (i + 1 + Z.of_nat n)), (Z.ltb_spec (u / 8) (i + Z.of_nat (S n))),
        (Z.leb_spec 0 (7 - u mod 8)), (Z.ltb_spec (7 - u mod 8) 8);
        try lia; cbn; now rewrite ?orb_true_r, ?orb_false_r.
Qed.

Lemma marks_trans a b c P Q R : marks a b P -> marks b c Q ->
  (forall u, 0 <= u -> P u || Q u = R u) -> marks a c R.
Proof.
  intros (L1 & B1 & U1) (L2 & B2 & U2) H. split; [congruence|]. split; [exact B2|].
  intros u Hu. now rewrite U2, U1, <- orb_assoc, H.
Qed.

Lemma marks_ext a b P R : marks a b P -> (forall u, 0 <= u -> P u = R u) -> marks a b R.
Proof. intros (L & B & U) H. repeat split; trivial. intros u Hu. now rewrite U, H. Qed.

(** The units of the bytes from [off] to [off + n]. *)
Definition in_units (off n u : Z) : bool := (off / 8 <=? u) && (u <? (off + n) / 8).

Lemma update_bitmap_ok off n bm : is_bytes bm -> length bm = 90%nat ->
  0 <= off -> 0 <= n -> off + n < IP_REASS_BUFSIZE ->
  exists bm', update_bitmap off n bm = Some bm' /\ marks bm bm' (in_units off n).
Proof.
  unfold IP_REASS_BUFSIZE. intros Hb Hl Ho Hn H. unfold update_bitmap, in_units.
  rewrite !land7. set (lo := off / 64). set (hi := (off + n) / 64).
  assert (Hlo : lo = off / 8 / 8) by (unfold lo; now rewrite Z.div_div by lia).
  assert (Hhi : hi = (off + n) / 8 / 8) by (unfold hi; now rewrite Z.div_div by lia).
  assert (0 <= lo <= hi /\ hi < 90) as (? & ?) by (unfold lo, hi; zmod_lia).
  assert (Hab : 0 <= off / 8 <= (off + n) / 8) by zmod_lia. clearbody lo hi.
  set (a := off / 8) in *. set (b := (off + n) / 8) in *. clearbody a b.
  destruct (Z.eqb_spec lo hi) as [E|E].
  - destruct (or_byte_ok lo (Z.land (bitmap_bits (a mod 8)) (Z.lnot (bitmap_bits (b mod 8)))) bm)
      as (bm' & -> & M); [assumption | lia |]. exists bm'. split; [reflexivity|].
    eapply marks_ext; [exact M|]. intros u Hu. cbn beta.
    rewrite Z.land_spec, bitmap_bits_spec, upto_spec by zmod_lia.
    apply eq_true_iff_eq. rewrite !andb_true_iff, Z.eqb_eq, !Z.leb_le, !Z.ltb_lt. zmod_lia.
  - destruct (or_byte_ok lo (bitmap_bits (a mod 8)) bm) as (bm1 & -> & M1); [assumption | lia |].
    destruct M1 as (L1 & B1 & U1).
    destruct (fill_bytes_ok (Z.to_nat (hi - (1 + lo))) (1 + lo) bm1) as (bm2 & -> & M2);
      [assumption | lia | lia |]. assert (L2 : length bm2 = 90%nat) by (destruct M2; congruence).
    destruct (or_byte_ok hi (Z.lnot (bitmap_bits (b mod 8))) bm2) as (bm3 & -> & M3);
      [apply M2 | lia |]. exists bm3. split; [reflexivity|].
    eapply marks_trans; [split; [exact L1|split; [exact B1|exact U1]] | |].
    { eapply marks_trans; [exact M2 | exact M3 | reflexivity]. }
    intros u Hu. cbn beta. rewrite bitmap_bits_spec, upto_spec by zmod_lia.
    apply eq_true_iff_eq. rewrite !orb_true_iff, !andb_true_iff, !Z.eqb_eq, !Z.leb_le, !Z.ltb_lt. zmod_lia.
Qed.

(** ** The test for a complete datagram *)

Lemma byte_units bm i (P : Z -> bool) v : is_bytes bm -> 0 <= i < Z.of_nat (length bm) -> fits 8 v ->
  (forall j, 0 <= j <= 7 -> Z.testbit v (7 - j) = P (8 * i + j)) ->
  nth (Z.to_nat i) bm 0 = v <-> forall u, 0 <= u -> u / 8 = i -> unit_bit bm u = P u.
Proof.
  intros Hb Hi Hv HP.
  assert (Eu : forall u, u / 8 = i -> u = 8 * i + u mod 8 /\ 0 <= u mod 8 <= 7) by (intros; zmod_lia).
  split.
  - intros E u Hu Hui. destruct (Eu u Hui) as [E' Hm]. unfold unit_bit.
    rewrite Hui, E, HP by assumption. now rewrite <- E'.
  - intros H. apply byte_bits; [|assumption|].
    { apply (proj1 (Forall_nth (fits 8) 0 bm) Hb). lia. }
    intros j Hj. rewrite HP by assumption. rewrite <- (H (8 * i + j)) by zmod_lia.
    unfold unit_bit. f_equal; [f_equal; f_equal|]; zmod_lia.
Qed.

Lemma all_full_ok n : forall i bm, is_bytes bm -> 0 <= i ->
  i + Z.of_nat n <= Z.of_nat (length bm) <= 65535 ->
  exists b, all_full n i bm = Some b /\
    (b = true <-> forall u, 0 <= u -> i <= u / 8 < i + Z.of_nat n -> unit_bit bm u = true).
Proof.
  induction n as [|n IH]; intros i bm Hb Hi Hn; cbn [all_full].
  - exists true. split; [reflexivity|]. split; [intros _ u ??; lia | reflexivity].
  - destruct (lookup_lt_is_Some_2 bm (Z.to_nat i) ltac:(lia)) as [b Eb]. rewrite Eb.
    pose proof (byte_units bm i (fun _ => true) 255 Hb ltac:(lia) ltac:(unfold fits; pow2; lia)) as B.
    rewrite (nth_lookup_Some _ _ _ _ Eb) in B.
    assert (T : forall j, 0 <= j <= 7 -> Z.testbit 255 (7 - j) = true).
    { intros j Hj. change 255 with (Z.ones 8). rewrite Z.testbit_ones by lia.
      apply andb_true_intro. split; [apply Z.leb_le | apply Z.ltb_lt]; lia. }
    specialize (B T). clear T. rewrite wrap_small by (unfold fits; pow2; lia).
    destruct (IH (i + 1) bm) as (r & E & R); [assumption | lia | lia |].
    destruct (Z.eqb_spec b 255) as [Hbb|Hbb].
    + exists r. split; [exact E|]. rewrite R. split; intros H u Hu Hui.
      * destruct (Z.eq_dec (u / 8) i); [now apply B | apply H; lia].
      * apply H; lia.
    + exists false. split; [reflexivity|]. split; [discriminate|]. intros H.
      exfalso. apply Hbb, B. intros u Hu Hui. apply H; lia.
Qed.

(** What the test decides: the bytes before the last but one are full, the
    last one has exactly the units of the datagram; the byte between is not read. *)
Definition seems_complete (bm : list Z) (n : Z) : Prop :=
  (forall u, 0 <= u < n / 8 -> u / 8 <> n / 64 - 1 -> unit_bit bm u = true) /\
  (forall u, n / 8 <= u < 8 * (n / 64 + 1) -> unit_bit bm u = false).

Lemma check_full_ok bm n : is_bytes bm -> length bm = 90%nat -> 0 <= n < IP_REASS_BUFSIZE ->
  exists b, check_full n bm = Some b /\ (b = true <-> seems_complete bm n).
Proof.
  unfold IP_REASS_BUFSIZE. intros Hb Hl Hn. unfold check_full.
  assert (0 <= n / 64 < 90) by zmod_lia.
  destruct (all_full_ok (Z.to_nat (n / 64 - 1)) 0 bm) as (r & -> & R); [assumption | lia | lia |].
  assert (E8 : n / 64 = n / 8 / 8) by (now rewrite Z.div_div by lia).
  destruct r.
  - destruct (lookup_lt_is_Some_2 bm (Z.to_nat (n / 64)) ltac:(lia)) as [b Eb]. rewrite Eb.
    eexists. split; [reflexivity|]. rewrite Z.eqb_eq, land7.
    pose proof (byte_units bm (n / 64) (fun u => u <? n / 8)
      (u8 (Z.lnot (bitmap_bits ((n / 8) mod 8)))) Hb ltac:(lia) ltac:(auto with cint)) as B.
    rewrite (nth_lookup_Some _ _ _ _ Eb) in B. rewrite B.
    2:{ intros j Hj. rewrite u8_testbit, upto_spec by zmod_lia. apply eq_true_iff_eq.
        rewrite !Z.ltb_lt. zmod_lia. }
    destruct R as [R _]. specialize (R eq_refl). split.
    + intros H0. split; intros u Hu.
      * intros Hne. destruct (Z.eq_dec (u / 8) (n / 64)).
        -- rewrite H0 by (assumption || lia). apply Z.ltb_lt. lia.
        -- apply R; zmod_lia.
      * rewrite H0 by zmod_lia. apply Z.ltb_ge. lia.
    + intros [H1 H2] u Hu Hui. destruct (Z.ltb_spec u (n / 8)).
      * apply H1; zmod_lia.
      * apply H2; zmod_lia.
  - exists false. split; [reflexivity|]. split; [discriminate|]. intros [H1 _].
    apply R. intros u Hu Hui. apply H1; zmod_lia.
Qed.

(** ** Headers and chains *)

Definition wf_hdr (h : ip_hdr) : Prop :=
  fits 16 (v_hl_tos h) /\ fits 16 (hlen h) /\ fits 16 (id h) /\ fits 16 (offset h) /\
  fits 16 (ttl_proto h) /\ fits 16 (chksum h) /\ fits 32 (src h) /\ fits 32 (dest h).

Lemma bytes16_div n : fits 16 n -> bytes16 n = [n mod 256; n / 256].
Proof.
  intros H. unfold bytes16. change 255 with (Z.ones 8).
  now rewrite Z.land_ones, Z.shiftr_div_pow2 by lia.
Qed.

Lemma bytes16_bytes n : fits 16 n -> is_bytes (bytes16 n).
Proof.
  intros H. rewrite bytes16_div by assumption. unfold fits in *. pow2.
  constructor; [|constructor; [|constructor]]; unfold fits; pow2; zmod_lia.
Qed.

Lemma bytes32_bytes n : fits 32 n -> is_bytes (bytes32 n).
Proof.
  intros H. destruct (word32_split n H) as (b0 & b1 & b2 & b3 & -> & ? & ? & ? & ?).
  rewrite bytes32_word32 by assumption. auto.
Qed.

Lemma hdr_bytes_length h : length (hdr_bytes h) = 20%nat.
Proof. reflexivity. Qed.

Lemma hdr_bytes_bytes h : wf_hdr h -> is_bytes (hdr_bytes h).
Proof.
  intros (?&?&?&?&?&?&?&?). unfold hdr_bytes.
  repeat apply Forall_app_2; auto using bytes16_bytes, bytes32_bytes.
Qed.

Lemma hdr_at_bytes h l : wf_hdr h -> hdr_at (hdr_bytes h ++ l) = Some h.
Proof.
  destruct h as [a b c d e f s t]. intros (?&?&?&?&?&?&?&?). cbn [v_hl_tos hlen id offset ttl_proto chksum src dest] in *.
  unfold hdr_bytes. cbn [v_hl_tos hlen id offset ttl_proto chksum src dest].
  rewrite !bytes16_div by assumption.
  destruct (word32_split s) as (s0 & s1 & s2 & s3 & -> & ? & ? & ? & ?); [assumption|].
  destruct (word32_split t) as (t0 & t1 & t2 & t3 & -> & ? & ? & ? & ?); [assumption|].
  rewrite !bytes32_word32 by assumption. cbn [app hdr_at]. f_equal. f_equal; zmod_lia.
Qed.

Lemma hdr_at_app l r h : hdr_at l = Some h -> hdr_at (l ++ r) = Some h.
Proof. do 20 (destruct l as [|? l]; [discriminate|]). intros H. exact H. Qed.

Lemma set_chksum_wf h : wf_hdr h -> wf_hdr (set_chksum h).
Proof.
  intros (?&?&?&?&?&?&?&?). unfold set_chksum, IPH_CHKSUM_SET, wf_hdr. cbn.
  split_and!; try assumption. now apply wrap_fits.
Qed.

(** The same bytes in pieces of at most 65535. *)
Definition short (p : list (list Z)) : Prop := Forall (fun q => Z.of_nat (length q) <= 65535) p.

Lemma advance_seg off l : 0 <= off <= Z.of_nat (length l) -> Z.of_nat (length l) <= 65535 ->
  advance off (seg_of l) = seg_of (drop (Z.to_nat off) l).
Proof.
  intros Ho Hl. unfold advance, seg_of. cbn. f_equal. rewrite length_drop.
  rewrite wrap_small; [lia | unfold fits; pow2; lia].
Qed.

Lemma memcpy_ok n l : 0 <= n <= Z.of_nat (length l) -> memcpy n l = Some (take (Z.to_nat n) l).
Proof. intros H. unfold memcpy. now replace (n <=? _) with true by (symmetry; apply Z.leb_le; lia). Qed.

Lemma copy_loop_ok p : forall off n, short p -> 0 < n <= 65535 -> n <= Z.of_nat (length (concat p)) ->
  exists q off', copy_loop (map seg_of p) off n = Some (take (Z.to_nat n) (concat p), map seg_of q, off') /\
    0 <= off' <= Z.of_nat (length (hd [] q)) /\ short q /\
    drop (Z.to_nat off') (concat q) = drop (Z.to_nat n) (concat p).
Proof.
  induction p as [|s p IH]; intros off n Hs Hn Hle; [cbn in Hle; lia|].
  inversion Hs as [|?? Hs1 Hs2]; subst. cbn [map copy_loop concat] in *.
  rewrite length_app in Hle. replace (n =? 0) with false by (symmetry; apply Z.eqb_neq; lia).
  cbn [plen bytes seg_of]. set (l := if n <? Z.of_nat (length s) then n else Z.of_nat (length s)).
  assert (Hl : l = Z.min n (Z.of_nat (length s))) by (unfold l; case_if; lia). clearbody l.
  rewrite memcpy_ok by lia. rewrite wrap_small by (unfold fits; pow2; lia).
  destruct (Z.eqb_spec (n - l) 0) as [E|E].
  - exists (s :: p), l. rewrite take_app_le by lia. replace n with l by lia.
    repeat split; try assumption; cbn [hd]; lia.
  - destruct (IH off (n - l) Hs2 ltac:(lia) ltac:(lia)) as (q & off' & -> & H1 & H2 & H3).
    exists q, off'. rewrite take_ge by lia. rewrite take_app_ge, drop_app_ge, H3 by lia.
    replace (Z.to_nat (n - l)) with (Z.to_nat n - length s)%nat by lia. auto.
Qed.

Lemma copy_from_pbuf_ok p off n : short p -> 0 <= off <= Z.of_nat (length (hd [] p)) ->
  0 < n <= 65535 -> off + n <= Z.of_nat (length (concat p)) ->
  exists q off', copy_from_pbuf (map seg_of p) off n =
      Some (take (Z.to_nat n) (drop (Z.to_nat off) (concat p)), map seg_of q, off') /\
    0 <= off' <= Z.of_nat (length (hd [] q)) /\ short q /\
    drop (Z.to_nat off') (concat q) = drop (Z.to_nat (off + n)) (concat p).
Proof.
  intros Hs Ho Hn Hle. destruct p as [|s p]; [cbn in *; lia|].
  inversion Hs as [|?? Hs1 Hs2]; subst. cbn [map copy_from_pbuf hd concat] in *.
  rewrite length_app in Hle. rewrite advance_seg by assumption.
  change (seg_of (drop (Z.to_nat off) s) :: map seg_of p) with (map seg_of (drop (Z.to_nat off) s :: p)).
  destruct (copy_loop_ok (drop (Z.to_nat off) s :: p) off n) as (q & off' & E & H1 & H2 & H3).
  - constructor; [rewrite length_drop; lia | assumption].
  - assumption.
  - cbn [concat]. rewrite length_app, length_drop. lia.
  - exists q, off'. rewrite E, H3. cbn [concat]. rewrite <- drop_app_le by lia.
    rewrite drop_drop. repeat split; try lia; try assumption. f_equal. lia.
Qed.

Lemma copy_bytes p off n : short p -> 0 <= off <= Z.of_nat (length (hd [] p)) -> p <> [] ->
  0 <= n <= 65535 -> off + n <= Z.of_nat (length (concat p)) ->
  exists q off', copy_from_pbuf (map seg_of p) off n =
    Some (take (Z.to_nat n) (drop (Z.to_nat off) (concat p)), q, off').
Proof.
  intros Hs Ho Hp Hn Hle. destruct (Z.eq_dec n 0) as [->|].
  - destruct p as [|s p]; [easy|]. do 2 eexists. reflexivity.
  - destruct (copy_from_pbuf_ok p off n) as (q & off' & E & _); try assumption; [lia|]. eauto.
Qed.

Lemma write_data_ok off bs d : 0 <= off -> off + Z.of_nat (length bs) <= Z.of_nat (length d) ->
  exists d', write_data off bs d = Some d' /\ length d' = length d /\
    forall i, d' !! i = if decide (Z.to_nat off <= i < Z.to_nat off + length bs)%nat
                        then bs !! (i - Z.to_nat off)%nat else d !! i.
Proof.
  intros Ho H. unfold write_data.
  replace (_ <=? _) with true by (symmetry; apply Z.leb_le; lia).
  eexists. split; [reflexivity|]. split; [rewrite !length_app, length_take, length_drop; lia|].
  intros i. case_decide as Hi.
  - rewrite lookup_app_r, length_take by (rewrite length_take; lia).
    rewrite lookup_app_l by lia. f_equal. lia.
  - destruct (Nat.lt_ge_cases i (Z.to_nat off)).
    + rewrite lookup_app_l by (rewrite length_take; lia). now rewrite lookup_take_lt.
    + rewrite lookup_app_r, length_take by (rewrite length_take; lia).
      rewrite lookup_app_r by lia. rewrite lookup_drop. f_equal. lia.
Qed.

Lemma fill_pbufs_ok buf n q : forall i, 0 <= i -> i + Z.of_nat (length (concat q)) = n ->
  n <= Z.of_nat (length buf) -> n <= 65535 ->
  exists r, fill_pbufs buf n i q = Some r /\
    concat r = take (length (concat q)) (drop (Z.to_nat i) buf).
Proof.
  induction q as [|c q IH]; intros i Hi Hn Hb Hw; [now exists []|].
  cbn [fill_pbufs concat] in *. rewrite length_app in *.
  set (l := if n - i <? _ then n - i else _).
  assert (Hl : l = Z.of_nat (length c)) by (unfold l; case_if; lia). clearbody l. subst l.
  rewrite memcpy_ok by (rewrite length_drop; lia). rewrite Nat2Z.id.
  rewrite wrap_small by (unfold fits; pow2; lia).
  destruct (IH (i + Z.of_nat (length c))) as (r & -> & Er); try lia.
  eexists. split; [reflexivity|]. cbn [concat]. rewrite Er, drop_all, app_nil_r.
  rewrite <- (take_drop (length c) (drop (Z.to_nat i) buf)) at 2.
  rewrite take_app_ge, length_take, length_drop by (rewrite length_take, length_drop; lia).
  rewrite drop_drop. do 2 f_equal; [|f_equal]; lia.
Qed.

(** The new pbufs keep their sizes. *)
Lemma fill_pbufs_shape buf n q : forall i r, fill_pbufs buf n i q = Some r -> map length r = map length q.
Proof.
  induction q as [|c q IH]; intros i r E; cbn [fill_pbufs] in E; [now injection E as <-|].
  set (l := if n - i <? _ then n - i else _) in E.
  assert (Hl : l <= Z.of_nat (length c)) by (unfold l; case_if; lia). clearbody l. unfold memcpy in E.
  destruct (Z.leb_spec l (Z.of_nat (length (drop (Z.to_nat i) buf)))) as [Hd|]; [|discriminate]. rewrite length_drop in Hd.
  destruct (fill_pbufs buf n _ q) as [r'|] eqn:E'; [|discriminate]. injection E as <-. cbn [map]. f_equal; [|now apply IH in E'].
  rewrite length_app, length_take, !length_drop. lia.
Qed.

Lemma ip_reass_shape `{PP : PbufPool} p st c st' : ip_reass p st = Some (Some c, st') ->
  exists q, pool_alloc (Z.of_nat (length (concat c))) = Some q /\ map length c = map length q.
Proof.
  assert (D : forall s, reass_deliver s = Some (Some c, st') ->
    exists q, pool_alloc (Z.of_nat (length (concat c))) = Some q /\ map length c = map length q).
  { intros s E. unfold reass_deliver in E. cbv zeta in E. destruct (pool_alloc _) as [q|] eqn:Eq; [|discriminate].
    destruct (fill_pbufs _ _ 0 q) as [r|] eqn:Er; [|discriminate]. injection E as -> _. apply fill_pbufs_shape in Er.
    exists q. split; [|exact Er]. rewrite <- Eq. f_equal. rewrite <- (pool_alloc_len _ _ Eq). f_equal.
    clear -Er. revert q Er. induction c as [|a c IH]; intros [|b q] E; try discriminate; [reflexivity|].
    cbn [map concat] in *. injection E as E1 E2. rewrite !length_app, E1. f_equal. now apply IH. }
  unfold ip_reass, reass_check, nullreturn. intros E. repeat case_match; try discriminate; eauto.
Qed.

(** ** One step of the reassembly *)

(** The state of [ip_reass] between calls. *)
Definition wf_reass (st : rstate) : Prop :=
  Z.of_nat (length (reassdata st)) = 5760 /\
  (reasstmr st <> 0 ->
     is_bytes (reassbitmap st) /\ length (reassbitmap st) = 90%nat /\
     (reassflags st = 0 \/ reassflags st = 1 /\ 0 <= reasslen st < IP_REASS_BUFSIZE)).

(** A packet that holds the bytes its header announces. *)
Definition wf_packet (p : list (list Z)) (h : ip_hdr) : Prop :=
  hdr_at (hd [] p) = Some h /\ short p /\ fits 16 (hlen h) /\ fits 16 (offset h) /\
  IPH_HL h * 4 <= ntohs (hlen h) /\ IPH_HL h * 4 <= Z.of_nat (length (hd [] p)) /\
  ntohs (hlen h) <= Z.of_nat (length (concat p)).

Lemma IPH_HL_range h : 0 <= IPH_HL h <= 15.
Proof.
  unfold IPH_HL. rewrite (Z.land_ones _ 4 ltac:(lia) : Z.land _ 15 = _).
  pose proof (Z.mod_pos_bound (Z.shiftr (ntohs (v_hl_tos h)) 8) (2 ^ 4) ltac:(lia)). pow2. lia.
Qed.

Lemma frag_len_range p h : wf_packet p h ->
  frag_len h = ntohs (hlen h) - IPH_HL h * 4 /\ 0 <= frag_len h <= 65535.
Proof.
  intros (_ & _ & Hf & _ & Hh & _). pose proof (IPH_HL_range h). unfold frag_len, IPH_LEN.
  pose proof (htons_fits _ Hf). unfold ntohs, fits in *. pow2.
  rewrite wrap_small by (unfold fits; pow2; lia). lia.
Qed.

Lemma frag_off_range h : frag_off h = Z.land (ntohs (offset h)) IP_OFFMASK * 8 /\
  0 <= frag_off h <= 65528 /\ frag_off h mod 8 = 0.
Proof.
  unfold frag_off, IPH_OFFSET, IP_OFFMASK. change 8191 with (Z.ones 13).
  rewrite Z.land_ones by lia.
  pose proof (Z.mod_pos_bound (ntohs (offset h)) (2 ^ 13) ltac:(lia)) as H.
  set (x := ntohs (offset h) mod 2 ^ 13) in *. clearbody x. pow2.
  rewrite wrap_small by (unfold fits; pow2; lia). split; [reflexivity|]. split; [lia|].
  apply Z.mod_mul. lia.
Qed.

Lemma reass_begin_stats h f st : reass_begin h (with_stats f st) = with_stats f (reass_begin h st).
Proof. unfold reass_begin. cbn [with_stats reasstmr]. now case_if. Qed.

Section Steps.
Context {PP : PbufPool}.

(** The state after a fragment has been copied, before the test. *)
Definition stored (h : ip_hdr) (p : list (list Z)) (st st' : rstate) : Prop :=
  reasshdr st' = reasshdr st /\ reasstmr st' = reasstmr st /\
  Z.of_nat (length (reassdata st')) = 5760 /\
  marks (reassbitmap st) (reassbitmap st') (in_units (frag_off h) (frag_len h)) /\
  (forall i, reassdata st' !! i =
     if decide (Z.to_nat (frag_off h) <= i < Z.to_nat (frag_off h) + Z.to_nat (frag_len h))%nat
     then drop (Z.to_nat (IPH_HL h * 4)) (concat p) !! (i - Z.to_nat (frag_off h))%nat
     else reassdata st !! i) /\
  if Z.land (ntohs (offset h)) IP_MF =? 0
  then reassflags st' = Z.lor (reassflags st) 1 /\ reasslen st' = frag_off h + frag_len h
  else reassflags st' = reassflags st /\ reasslen st' = reasslen st.

Lemma ip_reass_stored p h st : wf_packet p h -> wf_reass (reass_begin h st) -> reasstmr (reass_begin h st) <> 0 ->
  same_datagram (reasshdr (reass_begin h st)) h = true ->
  frag_off h + frag_len h < IP_REASS_BUFSIZE ->
  exists st', stored h p (reass_begin h st) st' /\ ip_reass p st = reass_check st'.
Proof.
  intros Hp Hst Htm Hsame Hlt. destruct (frag_len_range p h Hp) as [El Hl].
  destruct (frag_off_range h) as (_ & Ho & _).
  destruct Hp as (Hh & Hs & _ & _ & HL & Hhl & Hc). destruct Hst as (Hd & Hbm).
  destruct (Hbm Htm) as (Hb & Hbl & _). pose proof (IPH_HL_range h).
  assert (Hne : p <> []) by (intros ->; discriminate).
  destruct (copy_bytes p (IPH_HL h * 4) (frag_len h) Hs ltac:(lia) Hne Hl ltac:(lia)) as (q & off' & Ec).
  set (bs := take _ _) in Ec.
  assert (Hbs : length bs = Z.to_nat (frag_len h)) by (unfold bs; rewrite length_take, length_drop; lia).
  unfold IP_REASS_BUFSIZE in *.
  destruct (write_data_ok (frag_off h) bs (reassdata (reass_begin h st))) as (d & Ed & Ld & Hdi); [lia | lia |].
  destruct (update_bitmap_ok (frag_off h) (frag_len h) (reassbitmap (reass_begin h st)))
    as (bm & Eb & M); try assumption; try lia.
  unfold ip_reass. rewrite Hh, reass_begin_stats. set (s := reass_begin h st) in *.
  exists (note_last h (frag_off h) (frag_len h)
    (with_bitmap bm (with_data d (with_stats inc_cachehit (with_stats inc_recv s))))). split.
  - unfold stored, note_last, IPH_OFFSET. rewrite wrap_small by (unfold fits; pow2; lia).
    case_if; cbn; (split_and!; try reflexivity; try assumption; try lia);
      intros i; rewrite Hdi, Hbs; case_decide; try reflexivity;
      unfold bs; apply lookup_take_lt; lia.
  - cbn [with_stats reasshdr reassdata reassbitmap]. rewrite Hsame. unfold IP_REASS_BUFSIZE.
    replace (5760 <? frag_off h) with false by (symmetry; apply Z.ltb_ge; lia).
    replace (5760 <? frag_off h + frag_len h) with false by (symmetry; apply Z.ltb_ge; lia).
    cbn [orb]. rewrite Ec, Ed, Eb. reflexivity.
Qed.

(** The header of the delivered packet. *)
Definition whole_hdr (h : ip_hdr) (n : Z) : ip_hdr :=
  set_chksum (IPH_OFFSET_SET 0 (IPH_LEN_SET (htons (n + IP_HLEN)) h)).

Lemma reass_deliver_ok st : Z.of_nat (length (reassdata st)) = 5760 ->
  0 <= reasslen st < IP_REASS_BUFSIZE ->
  exists r st', reass_deliver st = Some (r, st') /\ wf_reass st' /\ reasstmr st' = 0 /\
    (r = None <-> pool_alloc (reasslen st + IP_HLEN) = None) /\
    forall c, r = Some c -> concat c =
      hdr_bytes (whole_hdr (reasshdr st) (reasslen st)) ++ take (Z.to_nat (reasslen st)) (reassdata st).
Proof.
  unfold IP_REASS_BUFSIZE, wf_reass. intros Hd Hn. unfold reass_deliver, whole_hdr, IP_HLEN.
  cbn [with_len with_tmr with_hdr reasslen reasshdr reassdata].
  rewrite wrap_small by (unfold fits; pow2; lia).
  set (h := set_chksum _). destruct (pool_alloc (reasslen st + 20)) as [p|] eqn:Ep.
  - pose proof (pool_alloc_len _ _ Ep) as Hl.
    destruct (fill_pbufs_ok (hdr_bytes h ++ reassdata st) (reasslen st + 20) p 0) as (r & -> & Er);
      rewrite ?length_app, ?hdr_bytes_length; try lia.
    do 2 eexists. split; [reflexivity|].
    cbn [with_stats with_tmr with_hdr with_len reassdata reasstmr].
    split_and!; [exact Hd | intros C; destruct (C eq_refl) | reflexivity | split; discriminate |].
    intros c [= ->]. rewrite Er. cbn [Z.to_nat drop]. rewrite drop_0.
    rewrite take_app_ge by (rewrite hdr_bytes_length; lia).
    rewrite hdr_bytes_length. do 2 f_equal. lia.
  - do 2 eexists. split; [reflexivity|].
    cbn [with_stats with_tmr with_hdr with_len reassdata reasstmr].
    split_and!; [exact Hd | intros C; destruct (C eq_refl) | reflexivity | split; reflexivity |].
    discriminate.
Qed.

Lemma reass_check_ok st : wf_reass st -> reasstmr st <> 0 ->
  exists r st', reass_check st = Some (r, st') /\ wf_reass st' /\
    (reassflags st = 1 -> seems_complete (reassbitmap st) (reasslen st) -> reass_check st = reass_deliver st) /\
    (reassflags st = 0 \/ ~ seems_complete (reassbitmap st) (reasslen st) ->
      r = None /\ st' = with_stats inc_drop st).
Proof.
  intros [Hd Hbm] Htm. destruct (Hbm Htm) as (Hb & Hl & Hf). unfold reass_check.
  destruct Hf as [Hf|[Hf Hn]]; rewrite Hf.
  - do 2 eexists. split; [reflexivity|]. split; [now split; [|auto]|]. split; [lia|]. auto.
  - change (Z.land 1 IP_REASS_FLAG_LASTFRAG =? 0) with false. cbv iota.
    destruct (check_full_ok (reassbitmap st) (reasslen st) Hb Hl Hn) as (b & Eb & B). rewrite Eb.
    destruct b.
    + destruct (reass_deliver_ok st Hd Hn) as (r & st' & E & W & _). exists r, st'.
      do 3 (split; [assumption || reflexivity || auto|]). intros [?|C]; [lia|]. destruct C. now apply B.
    + do 2 eexists. split; [reflexivity|]. split; [split; auto|]. split.
      * intros _ C. apply B in C. discriminate.
      * auto.
Qed.

Lemma stored_wf h p st st' : wf_reass st -> reasstmr st <> 0 -> frag_off h + frag_len h < IP_REASS_BUFSIZE ->
  0 <= frag_len h -> stored h p st st' -> wf_reass st'.
Proof.
  intros [Hd Hbm] Htm Hlt Hl (_ & _ & D & (L & B & _) & _ & F). destruct (Hbm Htm) as (_ & Hbl & Hf).
  split; [exact D|]. intros _. split; [exact B|]. split; [congruence|].
  destruct (frag_off_range h) as (_ & Ho & _).
  destruct (Z.land _ IP_MF =? 0); destruct F as [-> ->].
  - right. split; [|lia]. now destruct Hf as [->|[-> _]].
  - exact Hf.
Qed.

End Steps.

(** ** Sets of fragments *)

(** The fragments, as offset and length, cut [from .. n); all but the last are
    a multiple of 8 bytes long and longer than [m]. *)
Fixpoint tiles (m from n : Z) (fs : list (Z * Z)) : Prop :=
  match fs with
  | [] => from = n
  | f :: fs' =>
      fst f = from /\ 0 < snd f /\ (fs' = [] \/ snd f mod 8 = 0 /\ m < snd f) /\
      tiles m (from + snd f) n fs'
  end.

Lemma tiles_bounds m fs : forall from n f, tiles m from n fs -> f ∈ fs ->
  from <= fst f /\ 0 < snd f /\ fst f + snd f <= n.
Proof.
  induction fs as [|g fs IH]; intros from n f T Hf; [now apply not_elem_of_nil in Hf|].
  destruct T as (E & Hg & _ & T). pose proof (IH _ _ f T) as IHf.
  assert (from + snd g <= n).
  { destruct fs as [|g' fs]; [cbn in T; lia|].
    destruct (IH _ _ g' T ltac:(apply elem_of_cons; now left)). lia. }
  apply elem_of_cons in Hf as [->|Hf]; [lia|]. specialize (IHf Hf). lia.
Qed.

Lemma tiles_last m fs : forall from n f, tiles m from n fs -> f ∈ fs ->
  fst f + snd f = n \/ snd f mod 8 = 0 /\ m < snd f /\ fst f + snd f < n.
Proof.
  induction fs as [|g fs IH]; intros from n f T Hf; [now apply not_elem_of_nil in Hf|].
  destruct T as (E & Hg & L & T). apply elem_of_cons in Hf as [->|Hf]; [|eauto].
  destruct L as [->|L]; [left; cbn in T; lia|]. destruct fs as [|g' fs]; [left; cbn in T; lia|].
  destruct (tiles_bounds _ _ _ _ g' T ltac:(apply elem_of_cons; now left)). right. lia.
Qed.

Lemma tiles_cover m fs : forall from n i, tiles m from n fs -> from <= i < n ->
  exists f, f ∈ fs /\ fst f <= i < fst f + snd f.
Proof.
  induction fs as [|g fs IH]; intros from n i T Hi; [cbn in T; lia|].
  destruct T as (E & Hg & _ & T). destruct (Z.lt_ge_cases i (from + snd g)).
  - exists g. split; [apply elem_of_cons; now left | lia].
  - destruct (IH _ _ i T ltac:(lia)) as (f & Hf & ?). exists f. split; [apply elem_of_cons; now right | lia].
Qed.

Lemma tiles_disjoint m fs : forall from n f g i, tiles m from n fs -> f ∈ fs -> g ∈ fs ->
  fst f <= i < fst f + snd f -> fst g <= i < fst g + snd g -> f = g.
Proof.
  induction fs as [|h fs IH]; intros from n f g i T Hf Hg Hfi Hgi; [now apply not_elem_of_nil in Hf|].
  destruct T as (E & Hh & _ & T).
  apply elem_of_cons in Hf as [->|Hf], Hg as [->|Hg]; [reflexivity | | | eauto].
  - destruct (tiles_bounds _ _ _ _ g T Hg). lia.
  - destruct (tiles_bounds _ _ _ _ f T Hf). lia.
Qed.

Lemma tiles_aligned m fs : forall from n f, tiles m from n fs -> from mod 8 = 0 -> f ∈ fs -> fst f mod 8 = 0.
Proof.
  induction fs as [|g fs IH]; intros from n f T Hm Hf; [now apply not_elem_of_nil in Hf|].
  destruct T as (E & Hg & L & T). apply elem_of_cons in Hf as [->|Hf]; [now rewrite E|].
  destruct L as [->|[L _]]; [now apply not_elem_of_nil in Hf|].
  apply (IH _ _ f T); [|assumption]. now rewrite Z.add_mod, Hm, L by lia.
Qed.

Definition marked (S : list (Z * Z)) (u : Z) : bool := existsb (fun f => in_units (fst f) (snd f) u) S.
Definition last_in (S : list (Z * Z)) (n : Z) : bool := existsb (fun f => fst f + snd f =? n) S.

Lemma marked_iff S u : marked S u = true <-> exists f, f ∈ S /\ fst f / 8 <= u < (fst f + snd f) / 8.
Proof.
  unfold marked, in_units. rewrite existsb_exists. split; intros (f & Hf & H); exists f; split;
    try (now apply list_elem_of_In); [apply andb_prop in H as [?%Z.leb_le ?%Z.ltb_lt]; lia|].
  apply andb_true_intro. split; [apply Z.leb_le | apply Z.ltb_lt]; lia.
Qed.

Lemma last_in_iff S n : last_in S n = true <-> exists f, f ∈ S /\ fst f + snd f = n.
Proof.
  unfold last_in. rewrite existsb_exists. split; intros (f & Hf & H); exists f; split;
    try (now apply list_elem_of_In); now apply Z.eqb_eq.
Qed.

Section Sets.
Context (n : Z) (fs S : list (Z * Z)).
Hypothesis (Hn : 0 < n < IP_REASS_BUFSIZE) (T : tiles 64 0 n fs) (Sub : forall f, f ∈ S -> f ∈ fs).

(** Everything has come: the test succeeds. *)
Lemma complete_seems bm : (forall f, f ∈ fs -> f ∈ S) ->
  (forall u, 0 <= u -> unit_bit bm u = marked S u) -> last_in S n = true /\ seems_complete bm n.
Proof.
  intros All U. split.
  - apply last_in_iff. destruct (tiles_cover _ _ _ _ (n - 1) T ltac:(lia)) as (f & Hf & Hi).
    destruct (tiles_bounds _ _ _ _ f T Hf). exists f. split; [auto | lia].
  - split; intros u Hu.
    + intros _. rewrite U by lia. apply marked_iff.
      destruct (tiles_cover _ _ _ _ (8 * u) T ltac:(zmod_lia)) as (f & Hf & Hi).
      pose proof (tiles_aligned _ _ _ _ f T eq_refl Hf). exists f. split; [auto|].
      destruct (tiles_last _ _ _ _ f T Hf) as [L|L]; zmod_lia.
    + rewrite U by zmod_lia. apply not_true_is_false. rewrite marked_iff. intros (f & Hf & H).
      destruct (tiles_bounds _ _ _ _ f T (Sub f Hf)). zmod_lia.
Qed.

(** A fragment is missing: the last one, or the test fails. *)
Lemma incomplete_fails bm g : g ∈ fs -> g ∉ S ->
  (forall u, 0 <= u -> unit_bit bm u = marked S u) -> last_in S n = false \/ ~ seems_complete bm n.
Proof.
  intros Hg Hn' U. destruct (tiles_bounds _ _ _ _ g T Hg) as (B1 & B2 & B3).
  pose proof (tiles_aligned _ _ _ _ g T eq_refl Hg) as A.
  assert (Dis : forall f i, f ∈ S -> fst f <= i < fst f + snd f -> fst g <= i < fst g + snd g -> False).
  { intros f i Hf Hfi Hgi. apply Hn'. now rewrite <- (tiles_disjoint _ _ _ _ f g i T (Sub f Hf) Hg Hfi Hgi). }
  destruct (tiles_last _ _ _ _ g T Hg) as [L|(L1 & L2 & L3)].
  - left. apply not_true_is_false. rewrite last_in_iff. intros (f & Hf & E).
    destruct (tiles_bounds _ _ _ _ f T (Sub f Hf)). apply (Dis f (n - 1) Hf); lia.
  - right. intros [C _].
    assert (Hu : exists u, fst g / 8 <= u < (fst g + snd g) / 8 /\ u / 8 <> n / 64 - 1).
    { destruct (Z.eq_dec (fst g / 8 / 8) (n / 64 - 1)).
      - exists ((fst g + snd g) / 8 - 1). zmod_lia.
      - exists (fst g / 8). zmod_lia. }
    destruct Hu as (u & Hu & Hne). specialize (C u ltac:(zmod_lia) Hne).
    rewrite U in C by zmod_lia. apply marked_iff in C as (f & Hf & Hfu).
    pose proof (tiles_aligned _ _ _ _ f T eq_refl (Sub f Hf)).
    apply (Dis f (8 * u) Hf); zmod_lia.
Qed.

End Sets.

(** ** The datagram being reassembled *)

(** [p] is the packet of fragment [f] of the datagram [D] of [key]. *)
Definition is_frag (key : ip_hdr) (D : list Z) (f : Z * Z) (p : list (list Z)) : Prop :=
  exists h, wf_packet p h /\ same_datagram key h = true /\
    frag_off h = fst f /\ frag_len h = snd f /\
    (Z.land (ntohs (offset h)) IP_MF =? 0) = (fst f + snd f =? Z.of_nat (length D)) /\
    take (Z.to_nat (snd f)) (drop (Z.to_nat (IPH_HL h * 4)) (concat p)) =
    take (Z.to_nat (snd f)) (drop (Z.to_nat (fst f)) D).

(** The fragments of [S] have come, the first with the header [h0]. *)
Record received (D : list Z) (h0 : ip_hdr) (S : list (Z * Z)) (st : rstate) : Prop := {
  rc_wf : wf_reass st;
  rc_tmr : reasstmr st <> 0;
  rc_hdr : reasshdr st = h0;
  rc_bits : forall u, 0 <= u -> unit_bit (reassbitmap st) u = marked S u;
  rc_data : forall f i, f ∈ S -> (Z.to_nat (fst f) <= i < Z.to_nat (fst f) + Z.to_nat (snd f))%nat ->
    reassdata st !! i = D !! i;
  rc_flags : reassflags st = c_bool (last_in S (Z.of_nat (length D)));
  rc_len : last_in S (Z.of_nat (length D)) = true -> reasslen st = Z.of_nat (length D)
}.

Lemma same_datagram_iff a b : same_datagram a b = true <-> src a = src b /\ dest a = dest b /\ id a = id b.
Proof. unfold same_datagram, IPH_ID. rewrite !andb_true_iff, !Z.eqb_eq. tauto. Qed.

Lemma lookup_slice (l : list Z) a k i : (i < k)%nat -> take k (drop a l) !! i = l !! (a + i)%nat.
Proof. intros Hi. rewrite lookup_take_lt by assumption. apply lookup_drop. Qed.

Lemma reass_begin_idle st h : Z.of_nat (length (reassdata st)) = 5760 -> reasstmr st = 0 ->
  forall D, received D h [] (reass_begin h st).
Proof.
  intros Hd Ht D. unfold reass_begin. rewrite Ht. cbn [Z.eqb].
  constructor; cbn -[replicate]; try reflexivity; try discriminate.
  - split; [exact Hd|]. intros _. cbn -[replicate]. split_and!; [|apply length_replicate | now left].
    apply Forall_replicate. unfold fits. pow2. lia.
  - intros u Hu. unfold unit_bit. cbn -[replicate].
    assert (E : forall i, nth i (replicate 90 0) 0 = 0).
    { intros i. rewrite nth_lookup. destruct (_ !! i) eqn:E; [|reflexivity].
      now apply lookup_replicate in E as [-> _]. }
    rewrite E. apply Z.testbit_0_l.
  - intros f i Hf. now apply not_elem_of_nil in Hf.
Qed.

Lemma received_add D h0 S st f p h st' : received D h0 S st -> wf_packet p h -> 
  frag_off h = fst f -> frag_len h = snd f -> fst f + snd f <= Z.of_nat (length D) < IP_REASS_BUFSIZE ->
  (Z.land (ntohs (offset h)) IP_MF =? 0) = (fst f + snd f =? Z.of_nat (length D)) ->
  take (Z.to_nat (snd f)) (drop (Z.to_nat (IPH_HL h * 4)) (concat p)) =
    take (Z.to_nat (snd f)) (drop (Z.to_nat (fst f)) D) ->
  stored h p st st' -> received D h0 (f :: S) st'.
Proof.
  intros R Hp Eo El Hb Em Ed St. destruct (frag_len_range p h Hp) as (_ & Hl).
  pose proof (stored_wf h p st st' (rc_wf _ _ _ _ R) (rc_tmr _ _ _ _ R) ltac:(lia) ltac:(lia) St) as W.
  destruct St as (H1 & H2 & _ & (_ & _ & U) & Hd & F). rewrite Eo, El, Em in *.
  assert (EL : last_in (f :: S) (Z.of_nat (length D)) =
    (fst f + snd f =? Z.of_nat (length D)) || last_in S (Z.of_nat (length D))) by reflexivity.
  constructor; try assumption.
  - rewrite H2. apply R.
  - rewrite H1. apply R.
  - intros u Hu. rewrite U, (rc_bits _ _ _ _ R) by assumption. unfold marked. cbn [existsb]. apply orb_comm.
  - intros g i Hg Hi. rewrite Hd. case_decide as C.
    + pose proof (f_equal (lookup (i - Z.to_nat (fst f))%nat) Ed) as E.
      rewrite !lookup_slice in E by lia. rewrite lookup_drop, E. f_equal. lia.
    + apply elem_of_cons in Hg as [->|Hg]; [lia|]. now apply (rc_data _ _ _ _ R g).
  - rewrite EL. destruct (fst f + snd f =? _); destruct F as [-> _]; rewrite (rc_flags _ _ _ _ R);
      [now destruct (last_in S _) | reflexivity].
  - rewrite EL. destruct (Z.eqb_spec (fst f + snd f) (Z.of_nat (length D))) as [E|E]; destruct F as [_ ->].
    + intros _. exact E.
    + apply (rc_len _ _ _ _ R).
Qed.

Section Datagram.
Context {PP : PbufPool} (D : list Z) (h0 : ip_hdr) (fs : list (Z * Z)).
Hypothesis (Hn : 0 < Z.of_nat (length D) < IP_REASS_BUFSIZE) (T : tiles 64 0 (Z.of_nat (length D)) fs).

(** What the call that completes the datagram does. *)
Definition delivers (p : list (list Z)) (st : rstate) : Prop :=
  exists r st', ip_reass p st = Some (r, st') /\ wf_reass st' /\ reasstmr st' = 0 /\
    (r = None <-> pool_alloc (Z.of_nat (length D) + IP_HLEN) = None) /\
    forall c, r = Some c -> concat c = hdr_bytes (whole_hdr h0 (Z.of_nat (length D))) ++ D.

Lemma reass_step S st f p : (forall h, hdr_at (hd [] p) = Some h -> received D h0 S (reass_begin h st)) ->
  is_frag h0 D f p -> f ∈ fs -> (forall g, g ∈ S -> g ∈ fs) ->
  ((forall g, g ∈ fs -> g ∈ f :: S) -> delivers p st) /\
  ((exists g, g ∈ fs /\ (g ∉ f :: S)) ->
    exists st', ip_reass p st = Some (None, st') /\ received D h0 (f :: S) st').
Proof.
  intros R (h & Hp & Hs & Eo & El & Em & Ed) Hf Sub. specialize (R h (proj1 Hp)).
  destruct (tiles_bounds _ _ _ _ f T Hf) as (B1 & B2 & B3).
  destruct (ip_reass_stored p h st Hp (rc_wf _ _ _ _ R) (rc_tmr _ _ _ _ R)) as (st1 & St & E);
    [now rewrite (rc_hdr _ _ _ _ R) | lia |].
  pose proof (received_add D h0 S _ f p h st1 R Hp Eo El ltac:(lia) Em Ed St) as R'. rewrite E.
  destruct (reass_check_ok st1 (rc_wf _ _ _ _ R') (rc_tmr _ _ _ _ R')) as (r & st2 & E2 & W2 & Cy & Cn).
  assert (Sub' : forall g, g ∈ f :: S -> g ∈ fs).
  { intros g Hg. apply elem_of_cons in Hg as [->|]; auto. }
  split.
  - intros All. destruct (complete_seems _ fs (f :: S) Hn T Sub' (reassbitmap st1) All (rc_bits _ _ _ _ R')) as [L C].
    pose proof (rc_len _ _ _ _ R' L) as EL. pose proof (rc_flags _ _ _ _ R') as EF. rewrite L in EF.
    rewrite <- EL in C. specialize (Cy EF C).
    destruct (reass_deliver_ok st1 (proj1 (rc_wf _ _ _ _ R')) ltac:(lia)) as (r' & st' & E' & W & Tm & N & K).
    exists r', st'. rewrite E, Cy. rewrite EL, (rc_hdr _ _ _ _ R') in *. split_and!; try assumption.
    intros c Hc. rewrite (K c Hc). f_equal.
    apply list_eq. intros i. destruct (Nat.lt_ge_cases i (length D)) as [Hi|Hi].
    + destruct (tiles_cover _ _ _ _ (Z.of_nat i) T ltac:(lia)) as (g & Hg & Hgi).
      rewrite lookup_take_lt by lia. apply (rc_data _ _ _ _ R' g); [auto|].
      destruct (tiles_bounds _ _ _ _ g T Hg). lia.
    + rewrite !lookup_ge_None_2; [reflexivity | lia | rewrite length_take; lia].
  - intros (g & Hg & Hng).
    pose proof (incomplete_fails _ fs (f :: S) T Sub' (reassbitmap st1) g Hg Hng (rc_bits _ _ _ _ R')) as I.
    destruct Cn as [-> ->].
    { rewrite (rc_flags _ _ _ _ R'). destruct (last_in (f :: S) _) eqn:L; [|now left].
      right. destruct I as [|I]; [discriminate|]. now rewrite (rc_len _ _ _ _ R' L). }
    exists (with_stats inc_drop st1). split; [exact E2|]. destruct R'. now constructor.
Qed.

(** The run over the fragments that do not complete the datagram. *)
Lemma reass_run l x : forall S st, received D h0 S st -> (forall g, g ∈ S -> g ∈ fs) ->
  (forall y, y ∈ l ++ [x] -> is_frag h0 D (fst y) (snd y) /\ fst y ∈ fs) ->
  (exists g, g ∈ fs /\ (g ∉ S) /\ (g ∉ map fst l)) ->
  (forall g, g ∈ fs -> g ∈ S \/ g ∈ map fst (l ++ [x])) ->
  exists st1, reass_all (map snd l) st = Some (replicate (length l) None, st1) /\
    delivers (snd x) st1.
Proof.
  assert (B : forall S st h, received D h0 S st -> reass_begin h st = st).
  { intros S st h R. unfold reass_begin. pose proof (rc_tmr _ _ _ _ R).
    destruct (Z.eqb_spec (reasstmr st) 0); [contradiction | reflexivity]. }
  induction l as [|y l IH]; intros S st R Sub Fr (g & Hg & HgS & Hgl) All.
  - exists st. split; [reflexivity|]. cbn [app map] in *.
    destruct (Fr x ltac:(apply elem_of_cons; now left)) as [Fx Hx].
    destruct (reass_step S st (fst x) (snd x)) as [Go _]; try assumption.
    { intros h _. now rewrite (B _ _ _ R). }
    apply Go. intros g' Hg'. apply elem_of_cons. destruct (All g' Hg') as [|H]; [now right|].
    apply list_elem_of_singleton in H. now left.
  - cbn [app map length replicate] in *. apply not_elem_of_cons in Hgl as [Hgy Hgl].
    destruct (Fr y ltac:(apply elem_of_cons; now left)) as [Fy Hy].
    destruct (reass_step S st (fst y) (snd y)) as [_ Go]; try assumption.
    { intros h _. now rewrite (B _ _ _ R). }
    destruct Go as (st' & E & R').
    { exists g. split; [assumption|]. now apply not_elem_of_cons. }
    destruct (IH (fst y :: S) st') as (st1 & E1 & Dl); try assumption.
    + intros g' Hg'. apply elem_of_cons in Hg' as [->|]; auto.
    + intros z Hz. apply Fr, elem_of_cons. now right.
    + exists g. split_and!; [assumption | now apply not_elem_of_cons | assumption].
    + intros g' Hg'. destruct (All g' Hg') as [|H]; [left; apply elem_of_cons; now right|].
      apply elem_of_cons in H as [->|H]; [left; apply elem_of_cons; now left | now right].
    + exists st1. cbn [reass_all]. now rewrite E, E1.
Qed.

(** The same from the idle state: the first packet to come has the header [h0]. *)
Lemma reass_from_idle l x st : wf_reass st -> reasstmr st = 0 ->
  hdr_at (hd [] (snd (hd x l))) = Some h0 ->
  (forall y, y ∈ l ++ [x] -> is_frag h0 D (fst y) (snd y) /\ fst y ∈ fs) ->
  (exists g, g ∈ fs /\ (g ∉ map fst l)) ->
  (forall g, g ∈ fs -> g ∈ map fst (l ++ [x])) ->
  exists st1, reass_all (map snd l) st = Some (replicate (length l) None, st1) /\
    delivers (snd x) st1.
Proof.
  intros [Hd _] Ht H0 Fr (g & Hg & Hgl) All. destruct l as [|y l].
  - exists st. split; [reflexivity|]. destruct (Fr x ltac:(now apply list_elem_of_singleton)) as [Fx Hx].
    destruct (reass_step [] st (fst x) (snd x)) as [Go _]; try assumption.
    { intros h Hh. replace h with h0 by (cbn in H0; congruence). now apply reass_begin_idle. }
    { intros ? C. now apply not_elem_of_nil in C. }
    apply Go. intros g' Hg'. exact (All g' Hg').
  - cbn [app map hd length replicate] in *. apply not_elem_of_cons in Hgl as [Hgy Hgl].
    destruct (Fr y ltac:(apply elem_of_cons; now left)) as [Fy Hy].
    destruct (reass_step [] st (fst y) (snd y)) as [_ Go]; try assumption.
    { intros h Hh. replace h with h0 by congruence. now apply reass_begin_idle. }
    { intros ? C. now apply not_elem_of_nil in C. }
    destruct Go as (st' & E & R').
    { exists g. split; [assumption|]. now rewrite list_elem_of_singleton. }
    destruct (reass_run l x [fst y] st') as (st1 & E1 & Dl); try assumption.
    + intros g' Hg'. apply list_elem_of_singleton in Hg' as ->. assumption.
    + intros z Hz. apply Fr, elem_of_cons. now right.
    + exists g. now rewrite list_elem_of_singleton.
    + intros g' Hg'. rewrite list_elem_of_singleton. apply elem_of_cons. now apply All.
    + exists st1. cbn [reass_all]. now rewrite E, E1.
Qed.

End Datagram.

(** ** The frames of [ip_frag] *)

(** Headers that differ in length, offset and checksum only. *)
Definition same_fields (a b : ip_hdr) : Prop :=
  v_hl_tos a = v_hl_tos b /\ id a = id b /\ ttl_proto a = ttl_proto b /\
  src a = src b /\ dest a = dest b.

(** [F] is a frame of [f], behind a header like [h] with its checksum. *)
Definition frame_of (h : ip_hdr) (D : list Z) (mtu : Z) (f : Z * Z) (F : list Z) : Prop :=
  is_frag h D f [F] /\ Z.of_nat (length F) <= mtu /\
  exists h' rest, F = hdr_bytes h' ++ rest /\ wf_hdr h' /\ set_chksum h' = h' /\ same_fields h h'.

Lemma frame_hdr_at h D mtu f F : frame_of h D mtu f F -> exists h', hdr_at F = Some h' /\ same_fields h h'.
Proof. intros (_ & _ & h' & rest & -> & W & _ & S). exists h'. split; [now apply hdr_at_bytes | exact S]. Qed.

Lemma lor_MF x : 0 <= x < 8192 -> Z.lor x IP_MF = x + 8192.
Proof. intros H. pose proof (lor_add_swap 1 x 13) as L. unfold IP_MF. pow2.
  change (1 * 8192) with 8192 in L. lia. Qed.

Lemma offset_field x (last : bool) : 0 <= x < 8192 ->
  let tmp := if last then x else Z.lor x IP_MF in
  fits 16 tmp /\ Z.land tmp IP_OFFMASK = x /\ (Z.land tmp IP_MF =? 0) = last.
Proof.
  intros H tmp. assert (Hm : Z.land x IP_OFFMASK = x).
  { unfold IP_OFFMASK. rewrite (Z.land_ones x 13 ltac:(lia) : Z.land x 8191 = _). apply Z.mod_small. pow2. lia. }
  assert (H0 : Z.land x IP_MF = 0).
  { rewrite <- Hm, <- Z.land_assoc. apply Z.land_0_r. }
  unfold tmp. destruct last; [|rewrite !Z.land_lor_distr_l, Hm, H0, lor_MF by assumption];
    (split; [unfold fits; pow2; lia|]); (split; [|now rewrite ?H0]); try assumption.
  apply Z.lor_0_r.
Qed.

Lemma frame_is_frag h h' D o cop bs pad : wf_hdr h' -> IPH_HL h' = 5 -> same_fields h h' ->
  0 <= o -> o mod 8 = 0 -> 0 < cop -> o + cop <= Z.of_nat (length D) <= 65515 ->
  hlen h' = htons (u16 (cop + IP_HLEN)) ->
  offset h' = htons (if o + cop =? Z.of_nat (length D) then o / 8 else Z.lor (o / 8) IP_MF) ->
  bs = take (Z.to_nat cop) (drop (Z.to_nat o) D) -> Z.of_nat (length pad) <= 1480 - cop ->
  is_frag h D (o, cop) [hdr_bytes h' ++ bs ++ pad].
Proof.
  intros W HL (_ & Sid & _ & Ss & Sd) Ho Hm Hc Hle El Eo -> Hpad. unfold IP_HLEN in *.
  rewrite wrap_small in El by (unfold fits; pow2; lia).
  destruct (offset_field (o / 8) (o + cop =? Z.of_nat (length D)) ltac:(zmod_lia)) as (F & O1 & O2).
  cbv zeta in *.
  assert (Hoff : ntohs (offset h') = if o + cop =? Z.of_nat (length D) then o / 8 else Z.lor (o / 8) IP_MF).
  { rewrite Eo. now apply htons_htons. }
  assert (Hlen : ntohs (hlen h') = cop + 20).
  { rewrite El. apply htons_htons. unfold fits. pow2. lia. }
  assert (Hp : wf_packet [hdr_bytes h' ++ take (Z.to_nat cop) (drop (Z.to_nat o) D) ++ pad] h').
  { assert (Lt : length (take (Z.to_nat cop) (drop (Z.to_nat o) D)) = Z.to_nat cop)
      by (rewrite length_take, length_drop; lia).
    unfold wf_packet. cbn [hd concat]. rewrite app_nil_r, !length_app, hdr_bytes_length, Lt, HL, Hlen.
    split_and!; try lia; try apply W.
    - now apply hdr_at_bytes.
    - constructor; [|constructor]. rewrite !length_app, hdr_bytes_length, Lt. lia. }
  exists h'. split; [exact Hp|]. destruct (frag_len_range _ _ Hp) as [E _]. rewrite E, Hlen, HL.
  destruct (frag_off_range h') as [E' _]. rewrite E', Hoff, O1, O2. cbn [fst snd concat].
  split_and!; try (zmod_lia); [now apply same_datagram_iff|].
  rewrite app_nil_r. change (Z.to_nat (5 * 4)) with (length (hdr_bytes h')).
  rewrite drop_app_length, take_app_le by (rewrite length_take, length_drop; lia).
  rewrite take_take. f_equal. lia.
Qed.

(** The header of the frame at [o] with [cop] bytes of data. *)
Lemma frame_hdr h iphdr cop x (last : bool) : wf_hdr iphdr -> same_fields h iphdr -> 0 <= x < 8192 ->
  let tmp := if last then x else Z.lor x IP_MF in
  let h' := set_chksum (IPH_LEN_SET (htons (u16 (cop + IP_HLEN))) (IPH_OFFSET_SET (htons tmp) iphdr)) in
  wf_hdr h' /\ same_fields h h' /\ hlen h' = htons (u16 (cop + IP_HLEN)) /\ offset h' = htons tmp.
Proof.
  intros W S H tmp h'. destruct (offset_field x last H) as (F & _). split_and!; try reflexivity.
  - apply set_chksum_wf. destruct W as (?&?&?&?&?&?&?&?). unfold wf_hdr. cbn.
    split_and!; try assumption; apply htons_fits; [auto with cint | exact F].
  - exact S.
Qed.

Lemma frame_of_loop h h' D mtu o cop rlen body bs : wf_hdr h' -> IPH_HL h' = 5 -> same_fields h h' -> set_chksum h' = h' ->
  0 <= o -> o mod 8 = 0 -> 0 < cop -> o + cop <= Z.of_nat (length D) <= 65515 ->
  hlen h' = htons (u16 (cop + IP_HLEN)) ->
  offset h' = htons (if o + cop =? Z.of_nat (length D) then o / 8 else Z.lor (o / 8) IP_MF) ->
  bs = take (Z.to_nat cop) (drop (Z.to_nat o) D) -> Z.of_nat (length body) = 1480 ->
  (forall i, (i < length bs)%nat -> body !! i = bs !! i) ->
  cop + 20 <= rlen <= mtu -> rlen <= 1500 ->
  exists F, memcpy rlen (hdr_bytes h' ++ body) = Some F /\ frame_of h D mtu (o, cop) F.
Proof.
  intros W HL S Hk Ho Hm Hc Hle El Eo Ebs Hb Hbody Hr Hr'.
  assert (Lbs : length bs = Z.to_nat cop) by (rewrite Ebs, length_take, length_drop; lia).
  rewrite memcpy_ok by (rewrite length_app, hdr_bytes_length; lia). eexists. split; [reflexivity|].
  rewrite take_app_ge, hdr_bytes_length by (rewrite hdr_bytes_length; lia).
  assert (Eb : take (Z.to_nat rlen - 20) body = bs ++ drop (Z.to_nat cop) (take (Z.to_nat rlen - 20) body)).
  { rewrite <- (take_drop (Z.to_nat cop) (take _ body)) at 1. f_equal. apply list_eq. intros i.
    destruct (Nat.lt_ge_cases i (Z.to_nat cop)).
    - rewrite !lookup_take_lt by lia. apply Hbody. lia.
    - rewrite !lookup_ge_None_2; [reflexivity | lia | rewrite length_take; lia]. }
  rewrite Eb. set (pad := drop _ (take _ body)).
  assert (Lp : Z.of_nat (length pad) = rlen - 20 - cop)
    by (unfold pad; rewrite length_drop, length_take; lia).
  split; [|split].
  - apply frame_is_frag; try assumption. lia.
  - rewrite !length_app, hdr_bytes_length. lia.
  - eexists h', _. split; [reflexivity | now split].
Qed.

Section FragLoop.
Context (ram_alloc : nat -> bool) (Ram : forall k, ram_alloc k = true).
Context (h : ip_hdr) (D : list Z) (mtu : Z).
Hypothesis (HL : IPH_HL h = 5) (Hmtu : 28 <= mtu <= MAX_MTU) (HD : Z.of_nat (length D) <= 65515).

Lemma frag_loop_ok fuel : forall k p poff ofo nfb o left iphdr body st,
  left < Z.of_nat fuel -> short p -> 0 <= poff <= Z.of_nat (length (hd [] p)) ->
  drop (Z.to_nat poff) (concat p) = drop (Z.to_nat o) D ->
  0 <= o -> o mod 8 = 0 -> o + left = Z.of_nat (length D) -> 0 <= left ->
  u16 (ofo + nfb) = o / 8 -> wf_hdr iphdr -> same_fields h iphdr -> Z.of_nat (length body) = 1480 ->
  exists fs fr body' st',
    frag_loop ram_alloc fuel mtu 0 k (map seg_of p) poff ofo nfb left iphdr body mtu st =
      Done (mkFrag fr body' st') /\
    tiles (8 * ((mtu - IP_HLEN) / 8) - 1) o (Z.of_nat (length D)) fs /\
    Forall2 (frame_of h D mtu) fs fr.
Proof.
  unfold MAX_MTU, IP_HLEN in *. induction fuel as [|fuel IH];
    intros k p poff ofo nfb o left iphdr body st Hf Hs Hpo Hdr Ho Hm Hol Hl Hofo W S Hb; [lia|].
  cbn [frag_loop]. destruct (Z.eqb_spec left 0) as [->|Hl0].
  { exists [], [], body, st. split; [reflexivity|]. split; [cbn; lia | constructor]. }
  assert (Q : u16 (Z.quot (mtu - IP_HLEN) 8) = (mtu - 20) / 8).
  { unfold IP_HLEN. rewrite Z.quot_div_nonneg by lia. apply wrap_small. unfold fits. pow2. zmod_lia. }
  rewrite Q, Hofo. clear Q. set (step := (mtu - 20) / 8) in *.
  assert (Hstep : 8 <= 8 * step <= mtu - 20) by (unfold step; zmod_lia). clearbody step.
  rewrite (wrap_small 16 (step * 8)) by (unfold fits; pow2; lia). change IP_HLEN with 20.
  set (last := left <=? mtu - 20). set (cop := if last then left else step * 8).
  assert (Hlast : last = (o + cop =? Z.of_nat (length D)) /\ 0 < cop <= left /\ cop <= mtu - 20 /\
    (last = true -> cop = left) /\ (last = false -> cop = 8 * step)).
  { unfold cop, last. destruct (Z.leb_spec left (mtu - 20)); destruct (Z.eqb_spec (o + left) (Z.of_nat (length D))),
      (Z.eqb_spec (o + step * 8) (Z.of_nat (length D))); split_and!; try lia; try reflexivity; try discriminate. }
  destruct Hlast as (El & Hc & Hcm & Hlt & Hlf). clearbody cop last.
  pose proof (f_equal length Hdr) as Len. rewrite !length_drop in Len.
  destruct (copy_from_pbuf_ok p poff cop) as (q & poff' & -> & Hq & Hsq & Hdq); try assumption; try lia.
  rewrite Hdr. set (bs := take (Z.to_nat cop) (drop (Z.to_nat o) D)).
  assert (Lbs : length bs = Z.to_nat cop) by (unfold bs; rewrite length_take, length_drop; lia).
  destruct (write_data_ok 0 bs body) as (body' & -> & Lb' & Hb'); [lia | lia |].
  rewrite Z.lor_0_l. unfold IP_OFFMASK. rewrite (Z.land_comm 8191), (Z.land_ones _ 13 ltac:(lia) : Z.land _ 8191 = _).
  rewrite (Z.mod_small (o / 8)) by (pow2; zmod_lia).
  destruct (frame_hdr h iphdr cop (o / 8) last W S ltac:(zmod_lia)) as (W' & S' & Hh & Hoff).
  change IP_HLEN with 20 in *. set (h' := set_chksum _) in *.
  set (rlen := if last then rambuf_realloc _ mtu else mtu).
  assert (Hr : cop + 20 <= rlen <= mtu /\ (last = false -> rlen = mtu)).
  { unfold rlen, rambuf_realloc. destruct last; [|split; [lia|auto]].
    specialize (Hlt eq_refl). unfold IP_HLEN. rewrite wrap_small by (unfold fits; pow2; lia).
    split; [|discriminate]. destruct (Z.leb_spec mtu (left + 20)); lia. }
  destruct Hr as [Hr Hrf]. rewrite El in Hoff. rewrite Ram.
  destruct (frame_of_loop h h' D mtu o cop rlen body' bs) as (F & -> & HF); try assumption; try lia.
  { unfold IPH_HL. rewrite <- (proj1 S'). exact HL. }
  { reflexivity. }
  { reflexivity. }
  { intros i Hi. rewrite Hb'. cbn [Z.to_nat]. case_decide; [f_equal|]; lia. }
  rewrite (wrap_small 16 (left - cop)) by (unfold fits; pow2; lia).
  assert (IHc : exists fs fr body2 st2,
    frag_loop ram_alloc fuel mtu 0 (Datatypes.S k) (map seg_of q) poff' (o / 8) step (left - cop) h' body' rlen (inc_xmit st)
      = Done (mkFrag fr body2 st2) /\
    tiles (8 * step - 1) (o + cop) (Z.of_nat (length D)) fs /\ Forall2 (frame_of h D mtu) fs fr).
  { destruct last eqn:L.
    - rewrite Hlt by reflexivity. replace (left - left) with 0 by lia.
      destruct fuel as [|fuel']; [lia|]. cbn [frag_loop Z.eqb].
      exists [], [], body', (inc_xmit st). split; [reflexivity|]. split; [cbn; lia | constructor].
    - rewrite Hrf by reflexivity. apply IH; try assumption; try lia.
      + rewrite Hdq. replace (Z.to_nat (poff + cop)) with (Z.to_nat poff + Z.to_nat cop)%nat by lia.
        rewrite <- drop_drop, Hdr, drop_drop. f_equal. lia.
      + rewrite Hlf by reflexivity. zmod_lia.
      + rewrite Hlf by reflexivity. rewrite wrap_small; [zmod_lia | unfold fits; pow2; zmod_lia]. }
  destruct IHc as (fs & fr & body2 & st2 & -> & TT & FF).
  exists ((o, cop) :: fs), (F :: fr), body2, st2. split; [reflexivity|]. split; [|now constructor].
  cbn [tiles fst snd]. split_and!; try lia; [|exact TT]. destruct last.
  - left. destruct fs as [|f fs]; [reflexivity|]. symmetry in El. apply Z.eqb_eq in El.
    destruct (tiles_bounds _ _ _ _ f TT ltac:(apply elem_of_cons; now left)). lia.
  - right. rewrite Hlf by reflexivity. zmod_lia.
Qed.
End FragLoop.

Lemma is_frag_key key key' D f p : same_datagram key key' = true -> is_frag key D f p -> is_frag key' D f p.
Proof.
  intros K (h & Hp & S & R). exists h. split; [exact Hp|]. split; [|exact R].
  apply same_datagram_iff in K, S. apply same_datagram_iff. intuition congruence.
Qed.

(** What [ip_frag] sends for the packet of header [h] and data [D]. *)
Lemma ip_frag_frames ram_alloc p h D mtu body st : (forall k, ram_alloc k = true) ->
  short p -> hdr_at (hd [] p) = Some h -> wf_hdr h -> IPH_HL h = 5 ->
  concat p = hdr_bytes h ++ D -> Z.of_nat (length D) <= 65515 -> 28 <= mtu <= MAX_MTU ->
  Z.land (ntohs (offset h)) IP_OFFMASK = 0 -> Z.land (ntohs (offset h)) IP_MF = 0 ->
  Z.of_nat (length body) = 1480 ->
  exists fs fr body' st', ip_frag true ram_alloc p mtu body st = Done (mkFrag fr body' st') /\
    tiles (8 * ((mtu - IP_HLEN) / 8) - 1) 0 (Z.of_nat (length D)) fs /\
    Forall2 (frame_of h D mtu) fs fr.
Proof.
  intros Ram Hs Hh W HL Ep HD Hm Eo Em Hb. unfold ip_frag, ip_frag_run, IPH_OFFSET.
  rewrite Hh, Eo, Em, Ep. unfold IP_HLEN at 2. rewrite length_app, hdr_bytes_length.
  rewrite wrap_small by (unfold fits; pow2; lia).
  replace (Z.of_nat (20 + length D) - 20) with (Z.of_nat (length D)) by lia.
  assert (L20 : (20 <= length (hd [] p))%nat).
  { destruct (hd [] p) as [|? l]; [discriminate|].
    do 19 (destruct l as [|? l]; [discriminate|]). cbn. lia. }
  apply frag_loop_ok; try assumption; try reflexivity; try lia.
  - unfold frag_fuel. lia.
  - unfold IP_HLEN. lia.
  - rewrite Ep. exact (drop_app_length (hdr_bytes h) D).
  - repeat split.
Qed.

Lemma tiles_nodup fs : forall m from n, tiles m from n fs -> NoDup fs.
Proof.
  induction fs as [|f fs IH]; intros m from n T; [constructor|]. destruct T as (E & Hf & _ & T).
  constructor; [|eauto]. intros C. destruct (tiles_bounds _ _ _ _ f T C). lia.
Qed.

Lemma tiles_weaken fs : forall m m' from n, m' <= m -> tiles m from n fs -> tiles m' from n fs.
Proof.
  induction fs as [|f fs IH]; intros m m' from n Hm T; [exact T|].
  destruct T as (E & Hf & L & T). cbn. split_and!; trivial; [|eauto]. destruct L as [|[]]; [now left | right; lia].
Qed.

(** A shuffle of the frames is a shuffle of the fragments. *)
Lemma frames_pairs h D mtu fs fr order : Forall2 (frame_of h D mtu) fs fr -> order ≡ₚ fr ->
  exists ps, order = map snd ps /\ map fst ps ≡ₚ fs /\
    forall y, y ∈ ps -> frame_of h D mtu (fst y) (snd y).
Proof.
  intros F P. pose proof (Forall2_length _ _ _ F) as L.
  assert (E : fr = map snd (zip fs fr)) by (symmetry; apply snd_zip; lia).
  rewrite E in P. apply Permutation_map_inv in P as (ps & -> & P).
  exists ps. split; [reflexivity|]. split.
  - rewrite <- P. change (map fst (zip fs fr)) with ((zip fs fr).*1). now rewrite fst_zip by lia.
  - assert (G : Forall (fun y => frame_of h D mtu (fst y) (snd y)) (zip fs fr))
      by (clear -F; induction F; constructor; auto).
    rewrite P in G. apply Forall_forall. exact G.
Qed.

Lemma reass_all_snoc `{PP : PbufPool} ps p st rs st1 r st2 :
  reass_all ps st = Some (rs, st1) -> ip_reass p st1 = Some (r, st2) ->
  reass_all (ps ++ [p]) st = Some (rs ++ [r], st2).
Proof.
  revert st rs. induction ps as [|q ps IH]; intros st rs E Ep; cbn [app reass_all] in *.
  - injection E as <- <-. now rewrite Ep.
  - destruct (ip_reass q st) as [[r' st']|]; [|discriminate].
    destruct (reass_all ps st') as [[rs' st'']|] eqn:E'; [|discriminate].
    injection E as <- <-. now rewrite (IH _ _ E' Ep).
Qed.

Lemma whole_hdr_same a b n : same_fields a b -> whole_hdr a n = whole_hdr b n.
Proof.
  intros (E1 & E2 & E3 & E4 & E5). unfold whole_hdr, IPH_LEN_SET, IPH_OFFSET_SET. cbn.
  now rewrite E1, E2, E3, E4, E5.
Qed.

Lemma reass_begin_wf h st : wf_reass st -> wf_reass (reass_begin h st) /\ reasstmr (reass_begin h st) <> 0.
Proof.
  intros W. unfold reass_begin. destruct (Z.eqb_spec (reasstmr st) 0) as [E|E]; [|now split].
  destruct (reass_begin_idle st h (proj1 W) E []) as [W' T' _ _ _ _ _]. unfold reass_begin in W', T'.
  now rewrite E in W', T'.
Qed.

(** A fragment that ends exactly at the end of the buffer: its bit is in byte 90. *)
Lemma update_bitmap_end off n bm : is_bytes bm -> length bm = 90%nat -> 0 <= off -> 0 <= n ->
  off + n = IP_REASS_BUFSIZE -> update_bitmap off n bm = None.
Proof.
  unfold IP_REASS_BUFSIZE. intros Hb Hl Ho Hn E.
  assert (H90 : forall v b, length b = 90%nat -> or_byte 90 v b = None).
  { intros v b L. unfold or_byte. now rewrite lookup_ge_None_2 by (rewrite L; lia). }
  unfold update_bitmap. rewrite E. change (5760 / 64) with 90.
  destruct (Z.eqb_spec (off / 64) 90) as [->|Hne]; [now apply H90|].
  destruct (or_byte_ok (off / 64) (bitmap_bits (Z.land (off / 8) 7)) bm) as (bm1 & -> & M1);
    [assumption | zmod_lia |]. destruct M1 as (L1 & B1 & _).
  destruct (fill_bytes_ok (Z.to_nat (90 - (1 + off / 64))) (1 + off / 64) bm1) as (bm2 & -> & M2);
    [assumption | zmod_lia | zmod_lia |]. apply H90. destruct M2. congruence.
Qed.

Lemma ip_reass_step_cases `{PP : PbufPool} p h st : wf_packet p h -> wf_reass st ->
  let s := reass_begin h st in
  (same_datagram (reasshdr s) h = false -> ip_reass p st = nullreturn (with_stats inc_recv s)) /\
  (same_datagram (reasshdr s) h = true -> IP_REASS_BUFSIZE < frag_off h + frag_len h ->
    ip_reass p st = nullreturn (with_tmr 0 (with_stats inc_cachehit (with_stats inc_recv s)))) /\
  (same_datagram (reasshdr s) h = true -> frag_off h + frag_len h = IP_REASS_BUFSIZE ->
    ip_reass p st = None).
Proof.
  intros Hp W s. destruct (reass_begin_wf h st W) as [[Hd Hbm] Tm]. destruct (Hbm Tm) as (Hb & Hl & _).
  fold s in Hd, Hb, Hl. destruct (frag_len_range p h Hp) as [El Hlen]. destruct (frag_off_range h) as (_ & Ho & _).
  destruct Hp as (Hh & Hs & _ & _ & HL & Hhl & Hc). pose proof (IPH_HL_range h).
  unfold ip_reass. rewrite Hh, reass_begin_stats. fold s. cbn [with_stats reasshdr].
  split; [|split]; intros ->; [reflexivity | |].
  - intros Hlt. apply Z.ltb_lt in Hlt. now rewrite Hlt, orb_true_r.
  - intros E. unfold IP_REASS_BUFSIZE in *.
    replace (5760 <? frag_off h) with false by (symmetry; apply Z.ltb_ge; lia).
    replace (5760 <? frag_off h + frag_len h) with false by (symmetry; apply Z.ltb_ge; lia). cbn [orb].
    assert (Hne : p <> []) by (intros ->; discriminate).
    destruct (copy_bytes p (IPH_HL h * 4) (frag_len h) Hs ltac:(lia) Hne Hlen ltac:(lia)) as (q & off' & ->).
    destruct (write_data_ok (frag_off h) (take (Z.to_nat (frag_len h)) (drop (Z.to_nat (IPH_HL h * 4)) (concat p)))
      (reassdata s)) as (d & Ed & _); [lia | rewrite length_take, length_drop; lia |].
    cbn [with_stats reassdata reassbitmap]. rewrite Ed, update_bitmap_end; trivial; lia.
Qed.

Lemma same_datagram_refl a : same_datagram a a = true.
Proof. now apply same_datagram_iff. Qed.

Lemma reass_begin_data h st : reassdata (reass_begin h st) = reassdata st.
Proof. unfold reass_begin. now destruct (_ =? 0). Qed.

(** One fragment of [D], up to the test. *)
Lemma frag_stored `{PP : PbufPool} D key h0 S f p h st : received D h0 S (reass_begin h st) ->
  wf_packet p h -> same_datagram key h0 = true -> same_datagram key h = true ->
  frag_off h = fst f -> frag_len h = snd f ->
  (Z.land (ntohs (offset h)) IP_MF =? 0) = (fst f + snd f =? Z.of_nat (length D)) ->
  take (Z.to_nat (snd f)) (drop (Z.to_nat (IPH_HL h * 4)) (concat p)) =
    take (Z.to_nat (snd f)) (drop (Z.to_nat (fst f)) D) ->
  fst f + snd f <= Z.of_nat (length D) < IP_REASS_BUFSIZE ->
  exists st', ip_reass p st = reass_check st' /\ received D h0 (f :: S) st' /\
    forall i, ~ (Z.to_nat (fst f) <= i < Z.to_nat (fst f) + Z.to_nat (snd f))%nat ->
      reassdata st' !! i = reassdata st !! i.
Proof.
  intros R Hp K0 K Eo El Em Ed Hb.
  destruct (ip_reass_stored p h st Hp (rc_wf _ _ _ _ R) (rc_tmr _ _ _ _ R)) as (st' & St & E).
  { rewrite (rc_hdr _ _ _ _ R). apply same_datagram_iff in K0, K. apply same_datagram_iff. intuition congruence. }
  { lia. }
  exists st'. split; [exact E|]. split; [now apply (received_add D h0 S (reass_begin h st) f p h)|].
  destruct St as (_ & _ & _ & _ & Hd & _). intros i Hi. rewrite Hd, Eo, El.
  case_decide; [contradiction|]. now rewrite reass_begin_data.
Qed.

(** A list in three parts. *)
Lemma three_parts (d D X : list Z) a b : (a <= b <= length D)%nat -> (b <= length X)%nat -> length d = length D ->
  (forall i, d !! i = if decide (i < a \/ b <= i)%nat then D !! i else X !! i) ->
  d = take a D ++ take (b - a) (drop a X) ++ drop b D.
Proof.
  intros Hab HX Hd H. apply list_eq. intros i. rewrite H.
  destruct (Nat.lt_ge_cases i a) as [Ha|Ha].
  - rewrite decide_True by lia. rewrite lookup_app_l, lookup_take_lt by (rewrite ?length_take; lia). reflexivity.
  - rewrite lookup_app_r by (rewrite length_take; lia). rewrite length_take, (Nat.min_l a) by lia.
    destruct (Nat.lt_ge_cases i b) as [Hb|Hb].
    + rewrite decide_False by lia. rewrite lookup_app_l by (rewrite length_take, length_drop; lia).
      rewrite lookup_take_lt, lookup_drop by lia. f_equal. lia.
    + rewrite decide_True by lia. rewrite lookup_app_r by (rewrite length_take, length_drop; lia).
      rewrite length_take, length_drop, lookup_drop. f_equal. lia.
Qed.

(** The loop of [ip_frag] when a fragment has no room for 8 bytes of data. *)
Lemma frag_loop_diverges ram_alloc mtu omf left : (forall k, ram_alloc k = true) ->
  13 <= mtu < 28 -> mtu - IP_HLEN < left <= 65535 -> 0 < left ->
  forall fuel k p poff ofo nfb iphdr body st, p <> [] -> Z.of_nat (length body) = 1480 ->
  frag_loop ram_alloc fuel mtu omf k p poff ofo nfb left iphdr body mtu st = OutOfFuel.
Proof.
  unfold IP_HLEN. intros Ram Hm Hl Hl0. induction fuel as [|fuel IH];
    intros k p poff ofo nfb iphdr body st Hp Hb; [reflexivity|].
  cbn [frag_loop]. replace (left =? 0) with false by (symmetry; apply Z.eqb_neq; lia).
  change IP_HLEN with 20. replace (left <=? mtu - 20) with false by (symmetry; apply Z.leb_gt; lia).
  replace (Z.quot (mtu - 20) 8) with 0 by (destruct (Z.le_gt_cases 20 mtu); Z.quot_rem_to_equations; lia).
  change (u16 (u16 0 * 8)) with 0. destruct p as [|s p]; [easy|].
  change (copy_from_pbuf (s :: p) poff 0) with (Some (@nil Z, advance poff s :: p, poff)). cbv iota beta.
  change (write_data 0 [] body) with (if 0 + 0 <=? Z.of_nat (length body) then Some body else None).
  rewrite Hb, Ram. cbv iota beta. change (0 + 0 <=? 1480) with true. cbv iota.
  rewrite memcpy_ok by (rewrite length_app, hdr_bytes_length; lia).
  rewrite Z.sub_0_r, (wrap_small 16 left) by (unfold fits; pow2; lia). now rewrite IH.
Qed.

(** Trimming a frame to the length in its header changes nothing. *)
Lemma is_frag_trim h D mtu f F : frame_of h D mtu f F -> IPH_HL h = 5 ->
  exists h' rest, F = hdr_bytes h' ++ rest /\ wf_hdr h' /\ set_chksum h' = h' /\ same_fields h h' /\
    ntohs (hlen h') = 20 + snd f /\ 20 + snd f <= Z.of_nat (length F) /\
    frag_off h' = fst f /\ (Z.land (ntohs (offset h')) IP_MF =? 0) = (fst f + snd f =? Z.of_nat (length D)) /\
    is_frag h D f [take (Z.to_nat (20 + snd f)) F] /\ hdr_at (take (Z.to_nat (20 + snd f)) F) = hdr_at F.
Proof.
  intros ((h1 & Hp & K & Eo & El & Em & Ed) & _ & h' & rest & EF & W & C & S) HL.
  assert (h1 = h') as -> by (destruct Hp as (H & _); cbn in H; rewrite EF, hdr_at_bytes in H by exact W; congruence).
  assert (HL' : IPH_HL h' = 5) by (unfold IPH_HL; now rewrite <- (proj1 S)).
  destruct (frag_len_range _ _ Hp) as [E Rl]. rewrite El in E, Rl.
  pose proof Hp as (H1 & H2 & H3 & H4 & H5 & H6 & H7). rewrite HL' in *.
  cbn [hd concat] in H1, H2, H6, H7. rewrite app_nil_r in H7.
  assert (Hn : ntohs (hlen h') = 20 + snd f) by lia.
  assert (At : hdr_at (take (Z.to_nat (20 + snd f)) F) = hdr_at F).
  { rewrite EF, take_app_ge by (rewrite hdr_bytes_length; lia). now rewrite !hdr_at_bytes. }
  exists h', rest. split_and!; try assumption; try lia. exists h'. split.
  - split_and!; cbn [hd concat]; rewrite ?app_nil_r, ?length_take, ?HL'; try assumption; try lia.
    + now rewrite At.
    + constructor; [|constructor]. inversion_clear H2. rewrite length_take. lia.
  - split_and!; try assumption. rewrite <- Ed, HL'. cbn [concat]. rewrite !app_nil_r, skipn_firstn_comm.
    rewrite take_take. f_equal. lia.
Qed.

(** The frames of a packet, each as [tr] leaves it, come to an idle [ip_reass] in
    some order. *)
Lemma frames_reassemble `{PP : PbufPool} (tr : list Z -> list Z) h D mtu fs fr order rst :
  Forall2 (frame_of h D mtu) fs fr -> tiles 64 0 (Z.of_nat (length D)) fs ->
  (forall f F, f ∈ fs -> frame_of h D mtu f F -> is_frag h D f [tr F] /\ hdr_at (tr F) = hdr_at F) ->
  0 < Z.of_nat (length D) < IP_REASS_BUFSIZE -> order ≡ₚ fr ->
  wf_reass rst -> reasstmr rst = 0 -> pool_alloc (Z.of_nat (length D) + IP_HLEN) <> None ->
  exists l F rst1 c rst2, order = l ++ [F] /\
    reass_all (map (fun F => [tr F]) l) rst = Some (replicate (length l) None, rst1) /\
    ip_reass [tr F] rst1 = Some (Some c, rst2) /\ reasstmr rst2 = 0 /\ wf_reass rst2 /\
    concat c = hdr_bytes (whole_hdr h (Z.of_nat (length D))) ++ D.
Proof.
  intros F T Tr Hn P Wr Ht Hpool. unfold IP_REASS_BUFSIZE in *.
  destruct (frames_pairs h D mtu fs fr order F P) as (ps & -> & Pf & Fr).
  pose proof (tiles_nodup _ _ _ _ T) as ND. rewrite <- Pf in ND.
  destruct ps as [|x l _] using rev_ind.
  { apply Permutation_nil_l in Pf. subst fs. cbn in T. lia. }
  assert (Mem : forall y, y ∈ l ++ [x] -> fst y ∈ fs).
  { intros y Hy. rewrite <- Pf. now apply (list_elem_of_fmap_2 fst). }
  assert (F0 : exists h0, hdr_at (hd [] [tr (snd (hd x l))]) = Some h0 /\ same_fields h h0).
  { assert (Hx : hd x l ∈ l ++ [x]) by (destruct l; apply elem_of_cons; now left).
    destruct (frame_hdr_at _ _ _ _ _ (Fr _ Hx)) as (h0 & H0 & S0). exists h0. split; [|exact S0].
    cbn [hd]. now rewrite (proj2 (Tr _ _ (Mem _ Hx) (Fr _ Hx))). }
  destruct F0 as (h0 & H0 & S0).
  assert (K : same_datagram h h0 = true) by (apply same_datagram_iff; unfold same_fields in S0; tauto).
  set (one := fun y : (Z * Z) * list Z => (fst y, [tr (snd y)])).
  assert (M1 : forall k, map fst (map one k) = map fst k) by (intros; now rewrite map_map).
  assert (M2 : forall k, map snd (map one k) = map (fun F => [tr F]) (map snd k)) by (intros; now rewrite !map_map).
  rewrite map_app in ND, Pf. destruct (reass_from_idle D h0 fs Hn T (map one l) (one x) rst) as (st1 & E1 & Dl);
    try assumption.
  - destruct l; exact H0.
  - intros y Hy. change [one x] with (map one [x]) in Hy. rewrite <- map_app in Hy.
    apply list_elem_of_fmap in Hy as (z & -> & Hz). split; [|exact (Mem z Hz)].
    apply is_frag_key with h; [exact K|]. exact (proj1 (Tr _ _ (Mem z Hz) (Fr z Hz))).
  - exists (fst x). rewrite M1. apply NoDup_app in ND as (_ & ND & _). split.
    + rewrite <- Pf. apply elem_of_app. right. now apply list_elem_of_singleton.
    + intros C. apply (ND _ C). now apply list_elem_of_singleton.
  - intros g Hg. rewrite <- Pf in Hg. now rewrite map_app, M1.
  - destruct Dl as (r & rst' & E2 & W2 & Tm & N & K'). rewrite length_map in E1. rewrite M2 in E1.
    destruct r as [c|]; [|now destruct Hpool; apply N].
    exists (map snd l), (snd x), st1, c, rst'. rewrite length_map. specialize (K' c eq_refl).
    rewrite <- (whole_hdr_same h h0) in K' by assumption. rewrite map_app. now split_and!.
Qed.

(** ** Properties *)

(** C23: Reassembly does not depend on the order of arrival: for a datagram of at
    most 5759 bytes cut into fragments (all but the last a multiple of 8 bytes,
    and longer than 64), whatever the order and the duplicates in which the
    fragments come to an idle [ip_reass], and however each lies in its pbufs,
    every call but the completing one returns [NULL], and the completing one
    returns a packet with the header of the first arrival (length, offset and
    checksum rewritten) and exactly the bytes of the datagram, unless the pool
    has no pbufs for it; then [ip_reass] is idle again. *)
Theorem reassembly_any_order `{PP : PbufPool} (D : list Z) key fs l f p st :
  0 < Z.of_nat (length D) < IP_REASS_BUFSIZE -> tiles 64 0 (Z.of_nat (length D)) fs ->
  wf_reass st -> reasstmr st = 0 ->
  (forall y, y ∈ l ++ [(f, p)] -> is_frag key D (fst y) (snd y) /\ fst y ∈ fs) ->
  (exists g, g ∈ fs /\ (g ∉ map fst l)) -> (forall g, g ∈ fs -> g ∈ map fst (l ++ [(f, p)])) ->
  exists h0 st1 r st2, hdr_at (hd [] (snd (hd (f, p) l))) = Some h0 /\
    reass_all (map snd l) st = Some (replicate (length l) None, st1) /\
    ip_reass p st1 = Some (r, st2) /\ wf_reass st2 /\ reasstmr st2 = 0 /\
    (r = None <-> pool_alloc (Z.of_nat (length D) + IP_HLEN) = None) /\
    forall c, r = Some c -> concat c = hdr_bytes (whole_hdr h0 (Z.of_nat (length D))) ++ D.
Proof.
  intros Hn T W Ht Fr Mis All.
  assert (F0 : hd (f, p) l ∈ l ++ [(f, p)]).
  { destruct l; apply elem_of_cons; now left. }
  destruct (Fr _ F0) as [(h0 & (H0 & _) & K & _) _].
  destruct (reass_from_idle D h0 fs Hn T l (f, p) st) as (st1 & E1 & r & st2 & E2 & Rest);
    try assumption.
  { intros y Hy. destruct (Fr y Hy). split; [|assumption]. now apply is_frag_key with key. }
  exists h0, st1, r, st2. auto.
Qed.

(** C24: Fragmentation and reassembly are inverse: for a packet with a header of
    20 bytes and at most 5759 bytes of data and an MTU from 92 to 1500,
    [ip_frag] ends, its frames fit the MTU, and giving them to an idle
    [ip_reass] in any order yields [NULL] for all but the last and then the
    packet: its data, and its header up to length, offset and checksum (exactly
    the packet if these were right). *)
Theorem frag_reass_roundtrip `{PP : PbufPool} ram_alloc p h D mtu body st rst :
  (forall k, ram_alloc k = true) ->
  short p -> hdr_at (hd [] p) = Some h -> wf_hdr h -> IPH_HL h = 5 ->
  concat p = hdr_bytes h ++ D -> 0 < Z.of_nat (length D) < IP_REASS_BUFSIZE -> 92 <= mtu <= MAX_MTU ->
  Z.land (ntohs (offset h)) IP_OFFMASK = 0 -> Z.land (ntohs (offset h)) IP_MF = 0 ->
  Z.of_nat (length body) = 1480 ->
  wf_reass rst -> reasstmr rst = 0 -> pool_alloc (Z.of_nat (length D) + IP_HLEN) <> None ->
  exists r, ip_frag true ram_alloc p mtu body st = Done r /\
    Forall (fun F => Z.of_nat (length F) <= mtu) (frames r) /\
    forall order, order ≡ₚ frames r -> exists c rst',
      reass_all (map (fun F => [F]) order) rst =
        Some (replicate (length order - 1) None ++ [Some c], rst') /\ reasstmr rst' = 0 /\
      concat c = hdr_bytes (whole_hdr h (Z.of_nat (length D))) ++ D /\
      (h = whole_hdr h (Z.of_nat (length D)) -> concat c = concat p).
Proof.
  intros Ram Hs Hh W HL Ep Hn Hm Eo Em Hb Wr Ht Hpool. unfold IP_REASS_BUFSIZE in *.
  destruct (ip_frag_frames ram_alloc p h D mtu body st) as (fs & fr & body' & st' & E & T & F);
    try assumption; try lia.
  rewrite E. eexists. split; [reflexivity|]. cbn [frames]. split.
  { clear -F. induction F as [|f G fs fr (_ & L & _)]; constructor; auto. }
  intros order P. apply (tiles_weaken _ _ 64) in T; [|unfold IP_HLEN; zmod_lia].
  destruct (frames_reassemble (fun F => F) h D mtu fs fr order rst) as (l & G & rst1 & c & rst2 & -> & E1 & E2 & Tm & _ & K);
    try assumption; [intros f G _ Hf; split; [apply Hf | reflexivity]|].
  exists c, rst2. rewrite map_app, length_app. cbn [length].
  replace (length l + 1 - 1)%nat with (length l) by lia.
  split; [now apply (reass_all_snoc _ _ _ _ rst1)|]. split_and!; [assumption | assumption |].
  intros Eh. now rewrite K, Ep, <- Eh.
Qed.

(** C31: [ip_reass] keeps its buffers in bounds except for one fragment length: on
    a packet that holds what its header announces it faults exactly when the
    fragment belongs to the datagram in the buffer and ends at byte 5760, whose
    unit has its bit in byte 90 of the 90-byte bitmap; every other call leaves a
    well-formed state. *)
Theorem ip_reass_safe `{PP : PbufPool} p h st : wf_packet p h -> wf_reass st ->
  (ip_reass p st = None <->
     same_datagram (reasshdr (reass_begin h st)) h = true /\
     frag_off h + frag_len h = IP_REASS_BUFSIZE) /\
  forall r st', ip_reass p st = Some (r, st') -> wf_reass st'.
Proof.
  intros Hp W. destruct (ip_reass_step_cases p h st Hp W) as (C1 & C2 & C3).
  destruct (reass_begin_wf h st W) as [W' Tm]. destruct (frag_len_range p h Hp) as [_ Hlen].
  destruct (same_datagram _ h) eqn:S.
  2:{ rewrite C1 by reflexivity. split; [split; [discriminate | now intros []]|].
      intros r st' [= <- <-]. exact W'. }
  destruct (Z.lt_trichotomy (frag_off h + frag_len h) IP_REASS_BUFSIZE) as [H|[H|H]].
  - destruct (ip_reass_stored p h st Hp W' Tm S H) as (st1 & St & E).
    pose proof (stored_wf h p _ st1 W' Tm H (proj1 Hlen) St) as W1.
    assert (T1 : reasstmr st1 <> 0) by (destruct St as (_ & -> & _); exact Tm).
    destruct (reass_check_ok st1 W1 T1) as (r & st2 & E2 & W2 & _). rewrite E, E2.
    split; [split; [discriminate | lia]|]. intros r' st' [= <- <-]. exact W2.
  - rewrite C3 by trivial. split; [now split|]. discriminate.
  - rewrite C2 by trivial. split; [split; [discriminate | lia]|].
    intros r st' [= <- <-]. split; [exact (proj1 W')|]. intros C. now destruct C.
Qed.

(** The completeness test skips one byte of the bitmap: for a datagram of
    [64 k + r] bytes, [k >= 2] and [0 < r < 64], whose bytes [64 (k - 1)] to
    [64 k - 1] never arrive, the first and the last fragment suffice for
    [ip_reass] to deliver a packet, with whatever the buffer held in the place
    of the missing block. *)
Theorem reassembly_skips_block `{PP : PbufPool} D key p1 p2 k st :
  let n := Z.of_nat (length D) in
  2 <= k -> 64 * k < n < 64 * k + 64 -> n < IP_REASS_BUFSIZE ->
  wf_reass st -> reasstmr st = 0 ->
  is_frag key D (0, 64 * (k - 1)) p1 -> is_frag key D (64 * k, n - 64 * k) p2 ->
  exists h0 st1 r st2, hdr_at (hd [] p1) = Some h0 /\
    ip_reass p1 st = Some (None, st1) /\ ip_reass p2 st1 = Some (r, st2) /\
    (r = None <-> pool_alloc (n + IP_HLEN) = None) /\
    forall c, r = Some c -> concat c = hdr_bytes (whole_hdr h0 n) ++
      take (Z.to_nat (64 * (k - 1))) D ++
      take 64 (drop (Z.to_nat (64 * (k - 1))) (reassdata st)) ++
      drop (Z.to_nat (64 * k)) D.
Proof.
  intros n Hk Hn Hb W Ht (h1 & P1 & K1 & O1 & L1 & M1 & D1) (h2 & P2 & K2 & O2 & L2 & M2 & D2).
  cbn [fst snd] in *. fold n in M1, M2.
  pose proof (reass_begin_idle st h1 (proj1 W) Ht D) as R0.
  destruct (frag_stored D key h1 [] (0, 64 * (k - 1)) p1 h1 st) as (st1 & E1 & R1 & X1);
    try assumption; [cbn [fst snd]; lia|].
  destruct (reass_check_ok st1 (rc_wf _ _ _ _ R1) (rc_tmr _ _ _ _ R1)) as (r1 & st1' & C1 & _ & _ & N1).
  destruct N1 as [-> ->].
  { left. rewrite (rc_flags _ _ _ _ R1). cbn [last_in existsb fst snd]. fold n.
    now replace (0 + 64 * (k - 1) =? n) with false by (symmetry; apply Z.eqb_neq; lia). }
  assert (R1' : received D h1 [(0, 64 * (k - 1))] (reass_begin h2 (with_stats inc_drop st1))).
  { unfold reass_begin. cbn [with_stats reasstmr]. pose proof (rc_tmr _ _ _ _ R1).
    destruct (Z.eqb_spec (reasstmr st1) 0); [contradiction|]. destruct R1. now constructor. }
  destruct (frag_stored D key h1 [(0, 64 * (k - 1))] (64 * k, n - 64 * k) p2 h2 (with_stats inc_drop st1)) as (st2 & E2 & R2 & X2);
    try assumption; [cbn [fst snd]; lia|].
  assert (L : last_in [(64 * k, n - 64 * k); (0, 64 * (k - 1))] n = true).
  { apply last_in_iff. exists (64 * k, n - 64 * k). split; [apply elem_of_cons; now left | cbn; lia]. }
  pose proof (rc_len _ _ _ _ R2 L) as EL. pose proof (rc_flags _ _ _ _ R2) as EF. fold n in EL, EF. rewrite L in EF.
  assert (C : seems_complete (reassbitmap st2) n).
  { split; intros u Hu; [intros Hne|]; rewrite (rc_bits _ _ _ _ R2) by zmod_lia.
    - apply marked_iff. destruct (Z.le_gt_cases (8 * k) u).
      + exists (64 * k, n - 64 * k). split; [apply elem_of_cons; now left | cbn; zmod_lia].
      + exists (0, 64 * (k - 1)). split; [apply elem_of_cons; right; now apply list_elem_of_singleton | cbn; zmod_lia].
    - apply not_true_is_false. rewrite marked_iff. intros (f & Hf & H).
      apply elem_of_cons in Hf as [->|Hf]; [|apply list_elem_of_singleton in Hf as ->]; cbn in H; zmod_lia. }
  destruct (reass_check_ok st2 (rc_wf _ _ _ _ R2) (rc_tmr _ _ _ _ R2)) as (_ & _ & _ & _ & Y2 & _).
  rewrite EL in Y2. pose proof (proj1 (rc_wf _ _ _ _ R2)) as Hd2.
  destruct (reass_deliver_ok st2 Hd2 ltac:(lia)) as (r & st3 & E3 & _ & _ & N3 & Dl).
  rewrite EL, (rc_hdr _ _ _ _ R2) in *.
  exists h1, (with_stats inc_drop st1), r, st3. rewrite E1, E2, (Y2 EF C).
  split_and!; try assumption; [apply P1|]. intros c Hc. rewrite (Dl c Hc). f_equal.
  replace 64%nat with (Z.to_nat (64 * k) - Z.to_nat (64 * (k - 1)))%nat by lia.
  apply three_parts; [lia | destruct W; unfold IP_REASS_BUFSIZE in *; lia | rewrite length_take; unfold IP_REASS_BUFSIZE in *; lia |].
  intros i. case_decide as Hi.
  - destruct (Nat.lt_ge_cases i (Z.to_nat n)) as [Hin|Hin].
    + rewrite lookup_take_lt by lia. destruct Hi.
      * apply (rc_data _ _ _ _ R2 (0, 64 * (k - 1))); [apply elem_of_cons; right; now apply list_elem_of_singleton | cbn; lia].
      * apply (rc_data _ _ _ _ R2 (64 * k, n - 64 * k)); [apply elem_of_cons; now left | cbn [fst snd]; lia].
    + rewrite !lookup_ge_None_2; [reflexivity | lia | rewrite length_take; lia].
  - rewrite lookup_take_lt by lia. rewrite X2 by (cbn [fst snd]; lia). cbn [with_stats reassdata].
    apply X1. cbn [fst snd]. lia.
Qed.

(** With an MTU from 13 to 27, too small for a header and 8 bytes of data,
    [ip_frag] of a packet that does not fit it never ends: it sends empty
    fragments for ever. *)
Theorem ip_frag_small_mtu_diverges ram_alloc p h D mtu body st : (forall k, ram_alloc k = true) ->
  hdr_at (hd [] p) = Some h -> concat p = hdr_bytes h ++ D ->
  13 <= mtu < 28 -> mtu - IP_HLEN < Z.of_nat (length D) <= 65515 -> (0 < length D)%nat ->
  Z.of_nat (length body) = 1480 ->
  forall fuel, ip_frag_run true ram_alloc fuel p mtu body st = OutOfFuel.
Proof.
  intros Ram Hh Ep Hm Hl Hl0 Hb fuel. unfold ip_frag_run. rewrite Hh, Ep, length_app, hdr_bytes_length.
  unfold IP_HLEN in *. rewrite wrap_small by (unfold fits; pow2; lia).
  apply frag_loop_diverges; trivial; unfold IP_HLEN; try lia.
  destruct p; discriminate.
Qed.

(** ** Concrete inputs *)

Definition fitsb (w x : Z) : bool := (0 <=? x) && (x <? 2 ^ w).

Lemma fitsb_sound w x : fitsb w x = true -> fits w x.
Proof. unfold fitsb, fits. intros [?%Z.leb_le ?%Z.ltb_lt]%andb_prop. lia. Qed.

(** A test for [is_frag]. *)
Definition is_fragb (key : ip_hdr) (D : list Z) (f : Z * Z) (p : list (list Z)) : bool :=
  match hdr_at (hd [] p) with
  | None => false
  | Some h =>
      forallb (fun q => Z.of_nat (length q) <=? 65535) p && fitsb 16 (hlen h) && fitsb 16 (offset h) &&
      (IPH_HL h * 4 <=? ntohs (hlen h)) && (IPH_HL h * 4 <=? Z.of_nat (length (hd [] p))) &&
      (ntohs (hlen h) <=? Z.of_nat (length (concat p))) &&
      same_datagram key h && (frag_off h =? fst f) && (frag_len h =? snd f) &&
      Bool.eqb (Z.land (ntohs (offset h)) IP_MF =? 0) (fst f + snd f =? Z.of_nat (length D)) &&
      bool_decide (take (Z.to_nat (snd f)) (drop (Z.to_nat (IPH_HL h * 4)) (concat p)) =
                   take (Z.to_nat (snd f)) (drop (Z.to_nat (fst f)) D))
  end.

Lemma forallb_short p : forallb (fun q : list Z => Z.of_nat (length q) <=? 65535) p = true -> short p.
Proof. intros H. apply Forall_forall. intros q Hq. rewrite forallb_forall in H. apply Z.leb_le, H. now apply list_elem_of_In. Qed.

Lemma is_fragb_sound key D f p : is_fragb key D f p = true -> is_frag key D f p.
Proof.
  unfold is_fragb. destruct (hdr_at (hd [] p)) as [h|] eqn:E; [|discriminate].
  rewrite !andb_true_iff, !Z.leb_le, !Z.eqb_eq, eqb_true_iff, bool_decide_eq_true.
  intros ((((((((((H1 & H2) & H3) & H4) & H5) & H6) & H7) & H8) & H9) & H10) & H11).
  exists h. split; [|auto]. unfold wf_packet. auto 10 using fitsb_sound, forallb_short.
Qed.

(** A pool with room for 2034 bytes, in two pbufs. *)
Definition demo_alloc (n : Z) : option (list (list Z)) :=
  if (0 <=? n) && (n <=? 2034)
  then Some [replicate (Z.to_nat (Z.min n 114)) 0; replicate (Z.to_nat (n - Z.min n 114)) 0] else None.

Lemma demo_alloc_len n c : demo_alloc n = Some c -> Z.of_nat (length (concat c)) = n.
Proof.
  unfold demo_alloc. case_if; [|discriminate]. intros [= <-]. cbn [concat].
  rewrite !length_app, !length_replicate. cbn [length]. lia.
Qed.

Definition demo_pool : PbufPool := {| pool_alloc := demo_alloc; pool_alloc_len := demo_alloc_len |}.
#[local] Existing Instance demo_pool.

Definition demo_stats : ip_frag_stats := mkStats 0 0 0 0 0 0.
Definition demo_idle : rstate :=
  mkR (mkHdr 0 0 0 0 0 0 0 0) (replicate (Z.to_nat 5760) 170) [] 0 0 0 demo_stats.
Definition demo_data (n : nat) : list Z := map (fun i => Z.of_nat i mod 256) (seq 0 n).

(** The header of an unfragmented packet with [n] bytes of data, and a fragment in two pbufs. *)
Definition demo_hdr (n : Z) : ip_hdr := whole_hdr (mkHdr 69 0 7 0 64 0 16777343 33554559) n.
Definition demo_frag (D : list Z) (f : Z * Z) : list (list Z) :=
  let mf := if fst f + snd f =? Z.of_nat (length D) then 0 else IP_MF in
  let h := set_chksum (IPH_LEN_SET (htons (snd f + 20))
             (IPH_OFFSET_SET (htons (Z.lor (fst f / 8) mf)) (demo_hdr 0))) in
  let d := take (Z.to_nat (snd f)) (drop (Z.to_nat (fst f)) D) in
  [hdr_bytes h ++ take 5 d; drop 5 d].

Lemma demo_idle_wf : wf_reass demo_idle.
Proof. split; [reflexivity | intros C; now destruct C]. Qed.

Lemma reassembly_any_order_witness :
  let D := demo_data 150 in
  let l := map (fun f => (f, demo_frag D f)) [(72, 78); (72, 78)] in
  exists h0 st1 c st2, reass_all (map snd l) demo_idle = Some ([None; None], st1) /\
    ip_reass (demo_frag D (0, 72)) st1 = Some (Some c, st2) /\ concat c = hdr_bytes (whole_hdr h0 150) ++ D.
Proof.
  intros D l.
  destruct (reassembly_any_order D (demo_hdr 0) [(0, 72); (72, 78)] l (0, 72) (demo_frag D (0, 72)) demo_idle)
    as (h0 & st1 & r & st2 & _ & E1 & E2 & _ & _ & N & K).
  - split; reflexivity.
  - repeat split; try lia; try (now left); try (right; split; reflexivity).
  - exact demo_idle_wf.
  - reflexivity.
  - intros y Hy. apply elem_of_cons in Hy as [->|Hy]; [|apply elem_of_cons in Hy as [->|Hy];
      [|apply list_elem_of_singleton in Hy as ->]]; (split; [apply is_fragb_sound; vm_compute; reflexivity|]);
      cbn [fst]; rewrite elem_of_cons, list_elem_of_singleton; auto.
  - exists (0, 72). split; [apply elem_of_cons; now left|]. cbn. intros C.
    apply elem_of_cons in C as [C|C]; [discriminate|]. now apply list_elem_of_singleton in C.
  - intros g Hg. cbn in *. apply elem_of_cons in Hg as [->|Hg].
    + apply elem_of_cons. right. apply elem_of_cons. right. now apply list_elem_of_singleton.
    + apply list_elem_of_singleton in Hg as ->. apply elem_of_cons. now left.
  - destruct r as [c|]; [|exfalso; destruct N as [N _]; specialize (N eq_refl); vm_compute in N; discriminate].
    exists h0, st1, c, st2. split; [exact E1|]. split; [exact E2|]. exact (K c eq_refl).
Defined.

Definition demo_packet (n : nat) : list (list Z) :=
  let D := demo_data n in [hdr_bytes (demo_hdr (Z.of_nat n)) ++ take 50 D; drop 50 D].

Lemma demo_hdr_ok n : 0 <= n <= 65515 -> wf_hdr (demo_hdr n).
Proof.
  intros Hn. apply set_chksum_wf. unfold wf_hdr. cbn. split_and!; try (unfold fits; pow2; lia).
  apply htons_fits. unfold IP_HLEN, fits. pow2. lia.
Qed.

Lemma frag_reass_roundtrip_witness :
  exists r, ip_frag true (fun _ => true) (demo_packet 300) 116 (replicate (Z.to_nat 1480) 0) demo_stats = Done r /\
    exists c rst', reass_all (map (fun F => [F]) (rev (frames r))) demo_idle =
      Some (replicate (length (rev (frames r)) - 1) None ++ [Some c], rst') /\
    concat c = concat (demo_packet 300).
Proof.
  destruct (frag_reass_roundtrip (fun _ => true) (demo_packet 300) (demo_hdr 300) (demo_data 300) 116
    (replicate (Z.to_nat 1480) 0) demo_stats demo_idle) as (r & E & _ & K); try reflexivity.
  - apply forallb_short. vm_compute. reflexivity.
  - apply demo_hdr_ok. lia.
  - split; reflexivity.
  - split; vm_compute; discriminate.
  - exact demo_idle_wf.
  - vm_compute. discriminate.
  - exists r. split; [exact E|].
    destruct (K (rev (frames r))) as (c & rst' & E' & _ & _ & C); [symmetry; apply Permutation_rev|].
    exists c, rst'. split; [exact E'|]. apply C. vm_compute. reflexivity.
Defined.

Lemma ip_reass_safe_witness :
  ip_reass (demo_frag (demo_data (Z.to_nat 5760)) (5688, 72)) demo_idle = None.
Proof.
  destruct (hdr_at (hd [] (demo_frag (demo_data (Z.to_nat 5760)) (5688, 72)))) as [h|] eqn:E; [|vm_compute in E; discriminate].
  assert (Hp : is_fragb (demo_hdr 0) (demo_data (Z.to_nat 5760)) (5688, 72) (demo_frag (demo_data (Z.to_nat 5760)) (5688, 72)) = true)
    by (vm_compute; reflexivity).
  apply is_fragb_sound in Hp as (h' & Hp & _ & Eo & El & _).
  apply (ip_reass_safe _ h' demo_idle Hp demo_idle_wf). split; [apply same_datagram_refl|].
  rewrite Eo, El. reflexivity.
Defined.

Lemma reassembly_skips_block_witness :
  exists h0 st1 c st2,
    ip_reass (demo_frag (demo_data 150) (0, 64)) demo_idle = Some (None, st1) /\
    ip_reass (demo_frag (demo_data 150) (128, 22)) st1 = Some (Some c, st2) /\
    concat c = hdr_bytes (whole_hdr h0 150) ++ take 64 (demo_data 150) ++ replicate 64 170 ++ drop 128 (demo_data 150).
Proof.
  destruct (reassembly_skips_block (demo_data 150) (demo_hdr 0) (demo_frag (demo_data 150) (0, 64))
    (demo_frag (demo_data 150) (128, 22)) 2 demo_idle) as (h0 & st1 & r & st2 & _ & E1 & E2 & N & K).
  - lia.
  - split; reflexivity.
  - reflexivity.
  - exact demo_idle_wf.
  - reflexivity.
  - apply is_fragb_sound. vm_compute. reflexivity.
  - apply is_fragb_sound. vm_compute. reflexivity.
  - destruct r as [c|]; [|exfalso; destruct N as [N _]; specialize (N eq_refl); vm_compute in N; discriminate].
    exists h0, st1, c, st2. split; [exact E1|]. split; [exact E2|]. rewrite (K c eq_refl). reflexivity.
Defined.

Lemma ip_frag_small_mtu_diverges_witness :
  ip_frag_run true (fun _ => true) (Pos.to_nat (10 ^ 6)) (demo_packet 300) 27 (replicate (Z.to_nat 1480) 0) demo_stats = OutOfFuel.
Proof.
  apply (ip_frag_small_mtu_diverges _ _ (demo_hdr 300) (demo_data 300)); try reflexivity.
  - split; [lia | reflexivity].
  - split; [reflexivity | vm_compute; discriminate].
  - apply Nat.ltb_lt. reflexivity.
Defined.
