(* ===== verification/PbufPool.v ===== *)
(** * PbufPool: the pool of [Pbuf] as the pool of [IpFrag]

    [ip_reass] asks [pbuf_alloc(PBUF_LINK, n, PBUF_POOL)] for the pbufs of the
    datagram it delivers.  Its theorems are proved against the class [PbufPool];
    here [pbuf_alloc] itself, on any state whose pool is well formed, is shown to
    be an instance of it. *)
From Stdlib Require Import ZArith Lia List Bool.
From stdpp Require Import base gmap list.
From S2P Require Import Prelude Pbuf IpFrag.
Import ListNotations.
#[local] Open Scope Z_scope.

Section Pool.
Context {PF : Platform} (st : pstate) (P : list Z).

(** The bytes of a payload, and of a chain of at most [fuel] pbufs. *)
Definition payload_bytes (s : pstate) (a n : Z) : list Z :=
  map (fun i => default 0 (mem s !! (a + Z.of_nat i))) (seq 0 (Z.to_nat n)).

Fixpoint chain_bytes (fuel : nat) (s : pstate) (p : Z) : list (list Z) :=
  match fuel with
  | O => []
  | S fuel =>
      match pbufs s !! p with
      | Some b => payload_bytes s (payload b) (len b) :: chain_bytes fuel s (next b)
      | None => []
      end
  end.

Lemma chain_bytes_length s l : forall fuel p, chain (pbufs s) p l -> (length l <= fuel)%nat ->
  pbufs s !! 0 = None -> len_ok l ->
  Z.of_nat (length (concat (chain_bytes fuel s p))) = sum_len l.
Proof.
  induction l as [|[a b] l IH]; intros fuel p C Hf H0 L.
  - cbn in C. subst p. destruct fuel; [reflexivity|]. cbn [chain_bytes]. now rewrite H0.
  - destruct C as (-> & _ & E & C). destruct fuel as [|fuel]; [cbn in Hf; lia|].
    inversion L as [|?? Hl L']; subst. cbn [chain_bytes snd] in *. rewrite E. cbn [concat].
    rewrite length_app, Nat2Z.inj_add, (IH fuel (next b) C) by (trivial; cbn in Hf; lia).
    unfold payload_bytes. rewrite length_map, length_seq. cbn. unfold sum_len. lia.
Qed.

(** The pbufs [ip_reass] gets, as the bytes they hold. *)
Definition reass_alloc (n : Z) : option (list (list Z)) :=
  if (0 <=? n) && (n <=? 65535) then
    match pbuf_alloc PBUF_LINK n PBUF_POOL st with
    | Some (p, st') => if p =? 0 then None else Some (chain_bytes (length P) st' p)
    | None => None
    end
  else None.

Hypothesis (Ready : pool_ready st P) (Used : fits 16 (used (Pbuf.stats st))) (Null : pbufs st !! 0 = None).

Lemma reass_alloc_len n c : reass_alloc n = Some c -> Z.of_nat (length (concat c)) = n.
Proof using All.
  unfold reass_alloc. case_if; [|discriminate].
  destruct (alloc_pool_cases st P PBUF_LINK n Ready ltac:(lia) Used) as (p & st' & E & _ & _ & Fr & R).
  rewrite E. destruct (_ && _) in R.
  - destruct R as (l & rest & EP & _ & C & S & _ & L & _ & Hp & _).
    destruct (Z.eqb_spec p 0); [contradiction|]. intros [= <-]. rewrite <- S.
    apply chain_bytes_length; trivial.
    + rewrite EP, length_app, length_fmap. lia.
    + rewrite Fr; [exact Null|]. intros C0. destruct Ready as (_ & _ & F).
      pose proof (proj1 (Forall_forall _ _) F 0 C0) as (b & Eb & _). congruence.
  - destruct R as (-> & _). discriminate.
Qed.

(** [pbuf_alloc] keeps the promise [ip_reass] relies on. *)
Definition pbuf_pool_instance : PbufPool :=
  {| pool_alloc := reass_alloc; pool_alloc_len := reass_alloc_len |}.

(** When it succeeds: 16 buffers of 128 bytes with room for a link header. *)
Lemma reass_alloc_some n : 0 <= n <= 65535 ->
  reass_alloc n <> None <-> (1 <= length P)%nat /\ n <= 128 * Z.of_nat (length P) - PBUF_LINK_HLEN.
Proof using All.
  intros Hn. unfold reass_alloc.
  replace ((0 <=? n) && (n <=? 65535)) with true
    by (symmetry; apply andb_true_intro; split; apply Z.leb_le; lia).
  destruct (alloc_pool_cases st P PBUF_LINK n Ready Hn Used) as (p & st' & E & _ & _ & _ & R). rewrite E.
  change (layer_offset PBUF_LINK) with 14 in R. unfold PBUF_LINK_HLEN.
  destruct (Z.leb_spec 1 (Z.of_nat (length P))), (Z.leb_spec n (128 * Z.of_nat (length P) - 14)); cbn [andb] in R.
  1: { destruct R as (l & rest & _ & _ & _ & _ & _ & _ & _ & Hp & _).
       destruct (Z.eqb_spec p 0); [contradiction|]. split; [lia | discriminate]. }
  all: destruct R as (-> & _); cbn; split; [congruence | lia].
Qed.

End Pool.

(** ** The largest datagram *)

(** The pool behind [ip_reass]: the fragments of a datagram of [D] come in any
    order, and the one that completes it yields the packet exactly when the
    packet and a link header fit in the free pbufs.  With the 16 pbufs of the
    build no datagram of more than 2014 bytes is ever delivered, whatever the
    5760 bytes of the reassembly buffer. *)
Theorem reassembly_pool_limit {PF : Platform} st P (R : pool_ready st P) (U : fits 16 (used (Pbuf.stats st)))
  (N : pbufs st !! 0 = None) (D : list Z) key fs l f p rst :
  0 < Z.of_nat (length D) < IP_REASS_BUFSIZE -> tiles 64 0 (Z.of_nat (length D)) fs ->
  wf_reass rst -> reasstmr rst = 0 ->
  (forall y, y ∈ l ++ [(f, p)] -> is_frag key D (fst y) (snd y) /\ fst y ∈ fs) ->
  (exists g, g ∈ fs /\ (g ∉ map fst l)) -> (forall g, g ∈ fs -> g ∈ map fst (l ++ [(f, p)])) ->
  exists st1 r st2, reass_all (PP := pbuf_pool_instance st P R U N) (map snd l) rst = Some (replicate (length l) None, st1) /\
    ip_reass (PP := pbuf_pool_instance st P R U N) p st1 = Some (r, st2) /\
    (r <> None <-> (1 <= length P)%nat /\ Z.of_nat (length D) + IP_HLEN <= 128 * Z.of_nat (length P) - PBUF_LINK_HLEN).
Proof.
  intros Hn T W Ht Fr Mis All.
  assert (F0 : hd (f, p) l ∈ l ++ [(f, p)]) by (destruct l; apply elem_of_cons; now left).
  destruct (Fr _ F0) as [(h0 & (H0 & _) & K & _) _].
  destruct (reass_from_idle (PP := pbuf_pool_instance st P R U N) D h0 fs Hn T l (f, p) rst) as (st1 & E1 & r & st2 & E2 & Rest);
    try assumption.
  { intros y Hy. destruct (Fr y Hy). split; [|assumption]. now apply is_frag_key with key. }
  exists st1, r, st2. split; [exact E1|]. split; [exact E2|].
  destruct Rest as (_ & _ & I & _). unfold IP_REASS_BUFSIZE in Hn.
  rewrite I, <- (reass_alloc_some st P R U N) by (unfold IP_HLEN; lia). reflexivity.
Qed.
