(* ===== verification/Tcp.v ===== *)
(** * Tcp: the data of lwIP's TCP

    [nsc-0.5.3/lwip-HEAD/src/include/lwip/tcp.h]: sequence-number comparison, the
    segment header, segments and the protocol control block, for the build of
    NSC: [LWIP_CALLBACK_API] 1, [SO_REUSE] 0, [TCP_QUEUE_OOSEQ] 1, the sizes of
    [lwipopts.h], and [unsigned long] of 32 bits (NSC's targets are ILP32).

    A segment is its header and the chain of its data: the header lies in front
    of the data in the same pbufs, so that [dataptr] and the pointer to the
    header are not part of the model.  The fields of a header to be sent are
    stored in network byte order, as in memory; [tcp_input] converts the header
    of a received one in place.  The linked lists of segments are lists.  The
    statistic counters of TCP are not modelled. *)
From Stdlib Require Import ZArith Lia List Bool.
From stdpp Require Import base list.
From coqutil Require Import Datatypes.RecordSetters.
From S2P Require Import Prelude Inet.
Export RecordSetters.TriangleBracketNotations.
Import ListNotations.
#[local] Open Scope Z_scope.

(** Updates of a record stay folded in [simpl] and [cbn]. *)
#[global] Arguments apply_update {R E} u r : simpl never.

(** ** Constants *)

Definition ERR_OK : Z := 0.
Definition ERR_MEM : Z := -1.
Definition ERR_BUF : Z := -2.
Definition ERR_ABRT : Z := -3.
Definition ERR_RST : Z := -4.
Definition ERR_CONN : Z := -6.

Definition TCP_FIN : Z := 1.
Definition TCP_SYN : Z := 2.
Definition TCP_RST : Z := 4.
Definition TCP_PSH : Z := 8.
Definition TCP_ACK : Z := 16.
Definition TCP_FLAGS : Z := 63.

Definition TF_ACK_DELAY : Z := 1.
Definition TF_ACK_NOW : Z := 2.
Definition TF_INFR : Z := 4.
Definition TF_RESET : Z := 8.
Definition TF_CLOSED : Z := 16.
Definition TF_GOT_FIN : Z := 32.

Definition TCP_HLEN : Z := 20.
Definition TCP_TTL : Z := 255.
Definition TCP_MSS : Z := 1460.
Definition TCP_SND_BUF : Z := 63 * 1024.
Definition TCP_WND : Z := 63 * 1024.
Definition TCP_SND_QUEUELEN : Z := 4 * TCP_SND_BUF / TCP_MSS.
Definition IP_PROTO_TCP : Z := 6.

Inductive tcp_state :=
| CLOSED | LISTEN | SYN_SENT | SYN_RCVD | ESTABLISHED | FIN_WAIT_1 | FIN_WAIT_2
| CLOSE_WAIT | CLOSING | LAST_ACK | TIME_WAIT.

#[export] Instance tcp_state_eq_dec : EqDecision tcp_state.
Proof. solve_decision. Defined.

(** The numbers of the C enumeration. *)
Definition state_num (s : tcp_state) : Z :=
  match s with
  | CLOSED => 0 | LISTEN => 1 | SYN_SENT => 2 | SYN_RCVD => 3 | ESTABLISHED => 4
  | FIN_WAIT_1 => 5 | FIN_WAIT_2 => 6 | CLOSE_WAIT => 7 | CLOSING => 8
  | LAST_ACK => 9 | TIME_WAIT => 10
  end.

(** ** Sequence numbers *)

Definition TCP_SEQ_LT (a b : Z) : bool := s32 (a - b) <? 0.
Definition TCP_SEQ_LEQ (a b : Z) : bool := s32 (a - b) <=? 0.
Definition TCP_SEQ_GT (a b : Z) : bool := 0 <? s32 (a - b).
Definition TCP_SEQ_GEQ (a b : Z) : bool := 0 <=? s32 (a - b).
Definition TCP_SEQ_BETWEEN (a b c : Z) : bool := TCP_SEQ_GEQ a b && TCP_SEQ_LEQ a c.

(** ** Headers and segments *)

Record tcp_hdr := mkTcpHdr {
  th_src : Z; th_dest : Z; th_seqno : Z; th_ackno : Z;
  _hdrlen_rsvd_flags : Z; th_wnd : Z; th_chksum : Z; th_urgp : Z
}.

#[export] Instance tcp_hdr_eq_dec : EqDecision tcp_hdr.
Proof. solve_decision. Defined.

Definition TCPH_HDRLEN (h : tcp_hdr) : Z := Z.shiftr (ntohs (_hdrlen_rsvd_flags h)) 12.
Definition TCPH_FLAGS (h : tcp_hdr) : Z := Z.land (ntohs (_hdrlen_rsvd_flags h)) TCP_FLAGS.
Definition TCPH_HDRLEN_SET (len : Z) (h : tcp_hdr) : tcp_hdr :=
  h <| _hdrlen_rsvd_flags := htons (u16 (Z.lor (Z.shiftl len 12) (TCPH_FLAGS h))) |>.
Definition TCPH_FLAGS_SET (fl : Z) (h : tcp_hdr) : tcp_hdr :=
  h <| _hdrlen_rsvd_flags :=
    htons (u16 (Z.lor (Z.land (ntohs (_hdrlen_rsvd_flags h)) (Z.lnot TCP_FLAGS)) fl)) |>.
Definition TCPH_SET_FLAG (fl : Z) (h : tcp_hdr) : tcp_hdr :=
  h <| _hdrlen_rsvd_flags := htons (u16 (Z.lor (ntohs (_hdrlen_rsvd_flags h)) fl)) |>.

(** The bytes of a header in memory. *)
Definition u16_bytes_le (n : Z) : list Z := [n mod 256; n / 256].
Definition tcp_hdr_bytes (h : tcp_hdr) : list Z :=
  u16_bytes_le (th_src h) ++ u16_bytes_le (th_dest h) ++ bytes32 (th_seqno h) ++
  bytes32 (th_ackno h) ++ u16_bytes_le (_hdrlen_rsvd_flags h) ++ u16_bytes_le (th_wnd h) ++
  u16_bytes_le (th_chksum h) ++ u16_bytes_le (th_urgp h).

(** [struct tcp_seg]: [p] is the chain of the data, the options included; its
    first piece lies behind the header. *)
Record tcp_seg := mkSeg { p : list (list Z); len : Z; tcphdr : tcp_hdr }.

#[export] Instance tcp_seg_eq_dec : EqDecision tcp_seg.
Proof. solve_decision. Defined.

Definition tot_len (q : list (list Z)) : Z := Z.of_nat (length (concat q)).
Definition pbuf_clen (q : list (list Z)) : Z := u8 (Z.of_nat (length q)).

(** The 1 a FIN or SYN counts in sequence numbers. *)
Definition syn_fin (fl : Z) : Z :=
  if (Z.land fl TCP_FIN =? 0) && (Z.land fl TCP_SYN =? 0) then 0 else 1.
Definition TCP_TCPLEN (s : tcp_seg) : Z := len s + syn_fin (TCPH_FLAGS (tcphdr s)).

(** ** The protocol control block *)

Record tcp_pcb := mkPcb {
  local_ip : Z; remote_ip : Z; so_options : Z; tos : Z; ttl : Z;
  state : tcp_state; prio : Z; local_port : Z; remote_port : Z; flags : Z;
  rcv_nxt : Z; rcv_wnd : Z;
  tmr : Z; polltmr : Z; pollinterval : Z; rtime : Z; mss : Z;
  rttest : Z; rtseq : Z; sa : Z; sv : Z; rto : Z; nrtx : Z;
  lastack : Z; dupacks : Z; cwnd : Z; ssthresh : Z;
  snd_nxt : Z; snd_max : Z; snd_wnd : Z; snd_wl1 : Z; snd_wl2 : Z; snd_lbb : Z;
  acked : Z; snd_buf : Z; snd_queuelen : Z;
  unsent : list tcp_seg; unacked : list tcp_seg; ooseq : list tcp_seg;
  keepalive : Z; keep_cnt : Z
}.

(** [flags |= f], [flags &= ~f] *)
Definition set_flags (f : Z) (pcb : tcp_pcb) : tcp_pcb := pcb <| flags ::= fun x => Z.lor x f |>.
Definition clear_flags (f : Z) (pcb : tcp_pcb) : tcp_pcb :=
  pcb <| flags ::= fun x => u8 (Z.land x (Z.lnot f)) |>.
Definition has_flag (f : Z) (pcb : tcp_pcb) : bool := negb (Z.land (flags pcb) f =? 0).

(** ** Flags *)

Lemma has_set_flags f g pcb : Z.land f g = 0 -> has_flag g (set_flags f pcb) = has_flag g pcb.
Proof.
  intros H. unfold has_flag. change (flags (set_flags f pcb)) with (Z.lor (flags pcb) f).
  now rewrite Z.land_lor_distr_l, H, Z.lor_0_r.
Qed.

Lemma has_clear_flags f g pcb : fits 8 g -> Z.land f g = 0 -> has_flag g (clear_flags f pcb) = has_flag g pcb.
Proof.
  intros Hg H. unfold has_flag. do 2 f_equal.
  change (flags (clear_flags f pcb)) with (u8 (Z.land (flags pcb) (Z.lnot f))).
  apply Z.bits_inj'. intros n Hn. rewrite !Z.land_spec. unfold wrap. destruct (Z.ltb_spec n 8).
  - rewrite Z.mod_pow2_bits_low, Z.land_spec, Z.lnot_spec by lia.
    apply (f_equal (fun z => Z.testbit z n)) in H. rewrite Z.land_spec, Z.bits_0 in H.
    destruct (Z.testbit (flags pcb) n), (Z.testbit f n), (Z.testbit g n); easy.
  - replace g with (g mod 2 ^ 8) by (apply Z.mod_small, Hg).
    rewrite (Z.mod_pow2_bits_high g) by lia. now rewrite !andb_false_r.
Qed.

(** ** Sequence numbers as offsets

    A sequence number is [u32 (x + a)] for an offset [a]; two of them less than
    2^31 apart compare as their offsets. *)

Lemma seq_diff x a b : - 2 ^ 31 <= a - b < 2 ^ 31 -> s32 (u32 (x + a) - u32 (x + b)) = a - b.
Proof.
  intros H. unfold swrap. rewrite wrap_sub_l, wrap_sub_r.
  replace (x + a - (x + b)) with (a - b) by lia. change (32 - 1) with 31.
  unfold wrap. destruct (Z.ltb_spec ((a - b) mod 2 ^ 32) (2 ^ 31)); pow2; zmod_lia.
Qed.

Section Offsets.
Context (x a b : Z) (H : - 2 ^ 31 < a - b < 2 ^ 31).

Lemma seq_lt : TCP_SEQ_LT (u32 (x + a)) (u32 (x + b)) = (a <? b).
Proof using H. unfold TCP_SEQ_LT. rewrite seq_diff by lia. destruct (Z.ltb_spec (a - b) 0), (Z.ltb_spec a b); lia || reflexivity. Qed.

Lemma seq_leq : TCP_SEQ_LEQ (u32 (x + a)) (u32 (x + b)) = (a <=? b).
Proof using H. unfold TCP_SEQ_LEQ. rewrite seq_diff by lia. destruct (Z.leb_spec (a - b) 0), (Z.leb_spec a b); lia || reflexivity. Qed.

Lemma seq_gt : TCP_SEQ_GT (u32 (x + a)) (u32 (x + b)) = (b <? a).
Proof using H. unfold TCP_SEQ_GT. rewrite seq_diff by lia. destruct (Z.ltb_spec 0 (a - b)), (Z.ltb_spec b a); lia || reflexivity. Qed.

Lemma seq_geq : TCP_SEQ_GEQ (u32 (x + a)) (u32 (x + b)) = (b <=? a).
Proof using H. unfold TCP_SEQ_GEQ. rewrite seq_diff by lia. destruct (Z.leb_spec 0 (a - b)), (Z.leb_spec b a); lia || reflexivity. Qed.

Lemma seq_eqb : (u32 (x + a) =? u32 (x + b)) = (a =? b).
Proof using H.
  destruct (Z.eqb_spec a b) as [->|N]; [apply Z.eqb_refl|]. apply Z.eqb_neq. intros E.
  pose proof (seq_diff x a b ltac:(lia)) as D. rewrite E, Z.sub_diag in D. change (s32 0) with 0 in D. lia.
Qed.

End Offsets.

Lemma seq_between x a b c : - 2 ^ 31 < a - b < 2 ^ 31 -> - 2 ^ 31 < a - c < 2 ^ 31 ->
  TCP_SEQ_BETWEEN (u32 (x + a)) (u32 (x + b)) (u32 (x + c)) = (b <=? a) && (a <=? c).
Proof. intros H1 H2. unfold TCP_SEQ_BETWEEN. now rewrite seq_geq, seq_leq by assumption. Qed.

Lemma seq_add x a b : u32 (u32 (x + a) + b) = u32 (x + (a + b)).
Proof. rewrite wrap_add_l. f_equal. lia. Qed.

Lemma seq_sub x a b : u32 (u32 (x + a) - b) = u32 (x + (a - b)).
Proof. rewrite wrap_sub_l. f_equal. lia. Qed.

(** ** Projections of updated records

    [upd] rewrites [f (r <| g := v |>)] to [v] when [f] is [g], and to [f r] when
    the update does not concern [f]. *)
Ltac upd_at f u r :=
  lazymatch u with
  | @mk_update _ _ ?g _ ?tr =>
      first
        [ constr_eq f g;
          lazymatch tr with
          | constant ?v => change (f (apply_update u r)) with v
          | ?h => change (f (apply_update u r)) with (h (f r)); cbv beta
          end
        | change (f (apply_update u r)) with (f r) ]
  end.
Ltac upd := repeat match goal with |- context [?f (apply_update ?u ?r)] => progress upd_at f u r end.
