(* ===== verification/TcpOut.v ===== *)
(** * TcpOut: the sending half of lwIP's TCP

    [nsc-0.5.3/lwip-HEAD/src/core/tcp_out.c].  What a function gives to
    [ip_output] is its list of packets, in order.  What it takes from elsewhere
    are parameters: the ticks, the address [ip_route] finds, whether an
    allocation succeeds ([memp_malloc], [pbuf_alloc] on libc's heap) and whether
    the call comes from the input processing of the same connection
    ([tcp_input_pcb == pcb]).  A header has always room in front of the data of a
    [PBUF_TRANSPORT] pbuf, so that [pbuf_header] does not fail. *)
From Stdlib Require Import ZArith Lia List Bool.
From stdpp Require Import base list.
From coqutil Require Import Datatypes.RecordSetters.
From S2P Require Import Prelude Inet Tcp.
Import ListNotations.
#[local] Open Scope Z_scope.

(** A packet given to [ip_output]. *)
Record packet := mkPacket {
  pk_hdr : tcp_hdr; pk_data : list (list Z); pk_src : Z; pk_dest : Z; pk_ttl : Z; pk_tos : Z
}.

(** The pbufs of a segment with its header in front. *)
Definition seg_chain (h : tcp_hdr) (d : list (list Z)) : list (list Z) :=
  (tcp_hdr_bytes h ++ hd [] d) :: tl d.

(** [chksum = 0; chksum = inet_chksum_pseudo(p, src, dest, IP_PROTO_TCP, p->tot_len)] *)
Definition tcp_set_chksum (h : tcp_hdr) (d : list (list Z)) (src dest : Z) : tcp_hdr :=
  let h := h <| th_chksum := 0 |> in
  h <| th_chksum := inet_chksum_pseudo (seg_chain h d) src dest IP_PROTO_TCP (TCP_HLEN + tot_len d) |>.

(** A header with ports and the flags [fl], 5 words long. *)
Definition bare_hdr (lport rport seqno ackno fl wnd : Z) : tcp_hdr :=
  TCPH_HDRLEN_SET 5 (TCPH_FLAGS_SET fl
    (mkTcpHdr (htons lport) (htons rport) (htonl seqno) (htonl ackno) 0 (htons wnd) 0 0)).

(** ** Enqueueing *)

Section Enqueue.
(** Whether the [k]-th allocation of the call succeeds. *)
Context (alloc : nat -> bool).

(** The pbufs for one segment: the chain, or [None] when memory runs out. *)
Definition seg_pbufs (k : nat) (data : list Z) (copy : bool) (optdata : option (list Z))
    : option (list (list Z)) :=
  match optdata with
  | Some o => if alloc k then Some [o] else None
  | None =>
      if copy then (if alloc k then Some [data] else None)
      else if alloc k && alloc (S k) then Some [[]; data] else None
  end.

(** The header of a segment to be sent. *)
Definition seg_hdr (pcb : tcp_pcb) (seqno fl : Z) (optdata : option (list Z)) : tcp_hdr :=
  let h := TCPH_FLAGS_SET fl
    (mkTcpHdr (htons (local_port pcb)) (htons (remote_port pcb)) (htonl seqno) 0 0 0 0 0) in
  TCPH_HDRLEN_SET (match optdata with
                   | None => 5
                   | Some o => 5 + Z.of_nat (length o) / 4
                   end) h.

(** The loop that cuts the data in segments: the segments, the number of pbufs
    and the length of the last segment. *)
Fixpoint enq_loop (fuel k : nat) (pcb : tcp_pcb) (first : bool) (data : list Z) (seqno fl : Z)
    (copy : bool) (optdata : option (list Z)) (queuelen seglen : Z)
    : option (list tcp_seg * Z * Z) :=
  let left := Z.of_nat (length data) in
  if first || (0 <? left) then
    match fuel with
    | O => None
    | S fuel =>
        let seglen := u16 (if mss pcb <? left then mss pcb else left) in
        if alloc k then
          match seg_pbufs (S k) (take (Z.to_nat seglen) data) copy optdata with
          | None => None
          | Some q =>
              let queuelen := u8 (queuelen + Z.of_nat (length q)) in
              if TCP_SND_QUEUELEN <? queuelen then None
              else
                let seg := mkSeg q seglen (seg_hdr pcb seqno fl optdata) in
                match enq_loop fuel (S (k + length q)) pcb false (drop (Z.to_nat seglen) data)
                        (u32 (seqno + seglen)) fl copy optdata queuelen seglen with
                | None => None
                | Some (segs, queuelen, seglen) => Some (seg :: segs, queuelen, seglen)
                end
          end
        else None
    end
  else Some ([], queuelen, seglen).

(** Every turn takes a pbuf, and more than [TCP_SND_QUEUELEN] are an error. *)
Definition enq_fuel : nat := 180.

(** The first new segment is chained to the last unsent one when it fits. *)
Definition can_chain (pcb : tcp_pcb) (useg seg : tcp_seg) (fl : Z) : bool :=
  negb (TCP_TCPLEN useg =? 0) &&
  (Z.land (TCPH_FLAGS (tcphdr useg)) (Z.lor TCP_SYN TCP_FIN) =? 0) &&
  (Z.land fl (Z.lor TCP_SYN TCP_FIN) =? 0) &&
  (len useg + len seg <=? mss pcb).

Definition chain_seg (useg seg : tcp_seg) : tcp_seg :=
  mkSeg (p useg ++ p seg) (u16 (len useg + len seg)) (tcphdr useg).

(** Apply [f] to the last element. *)
Fixpoint map_last (f : tcp_seg -> tcp_seg) (q : list tcp_seg) : list tcp_seg :=
  match q with
  | [] => []
  | [s] => [f s]
  | s :: q => s :: map_last f q
  end.

Definition set_psh (s : tcp_seg) : tcp_seg := mkSeg (p s) (len s) (TCPH_SET_FLAG TCP_PSH (tcphdr s)).

(** The unsent queue with the new segments behind it. *)
Definition enq_append (pcb : tcp_pcb) (queue : list tcp_seg) (fl seglen : Z) : list tcp_seg :=
  match queue, last (unsent pcb) with
  | seg :: rest, Some useg =>
      if can_chain pcb useg seg fl then
        let q := map_last (fun u => chain_seg u seg) (unsent pcb) ++ rest in
        match rest with
        | [] => q
        | _ => if 0 <? seglen then map_last set_psh q else q
        end
      else let q := unsent pcb ++ queue in if 0 <? seglen then map_last set_psh q else q
  | _, _ => if 0 <? seglen then map_last set_psh queue else queue
  end.

(** [err_t tcp_enqueue(pcb, arg, len, flags, copy, optdata, optlen)]; the data
    are [arg] up to [len] (no caller passes a null [arg] with a length). *)
Definition tcp_enqueue (pcb : tcp_pcb) (arg : list Z) (fl : Z) (copy : bool)
    (optdata : option (list Z)) : Z * tcp_pcb :=
  let len := Z.of_nat (length arg) in
  if snd_buf pcb <? len then (ERR_MEM, pcb)
  else if TCP_SND_QUEUELEN <=? snd_queuelen pcb then (ERR_MEM, pcb)
  else
    match enq_loop enq_fuel 0 pcb true arg (snd_lbb pcb) fl copy optdata (snd_queuelen pcb) 0 with
    | None => (ERR_MEM, pcb)
    | Some (queue, queuelen, seglen) =>
        let len := u16 (len + syn_fin fl) in
        (ERR_OK,
         pcb <| unsent := enq_append pcb queue fl seglen |>
             <| snd_lbb := u32 (snd_lbb pcb + len) |>
             <| snd_buf := u16 (snd_buf pcb - Z.land (len + 1) (Z.lnot 1)) |>
             <| snd_queuelen := queuelen |>)
    end.

Definition tcp_send_ctrl (pcb : tcp_pcb) (fl : Z) : Z * tcp_pcb := tcp_enqueue pcb [] fl true None.

Definition tcp_write (pcb : tcp_pcb) (arg : list Z) (copy : bool) : Z * tcp_pcb :=
  match state pcb with
  | ESTABLISHED | CLOSE_WAIT | SYN_SENT | SYN_RCVD =>
      if 0 <? Z.of_nat (length arg) then tcp_enqueue pcb arg 0 copy None else (ERR_OK, pcb)
  | _ => (ERR_CONN, pcb)
  end.

End Enqueue.

(** ** Output *)

Section Output.
Context (ticks : Z) (ip_route : Z -> option Z).

(** [tcp_output_segment(seg, pcb)]: the segment with its header completed, the
    control block, and the packet, if there is a route. *)
Definition tcp_output_segment (seg : tcp_seg) (pcb : tcp_pcb) : tcp_seg * tcp_pcb * list packet :=
  let h := (tcphdr seg) <| th_ackno := htonl (rcv_nxt pcb) |>
             <| th_wnd := (if rcv_wnd pcb <? mss pcb then 0 else htons (rcv_wnd pcb)) |> in
  let pcb' :=
    if local_ip pcb =? 0 then
      match ip_route (remote_ip pcb) with
      | Some ip => Some (pcb <| local_ip := ip |>)
      | None => None
      end
    else Some pcb in
  match pcb' with
  | None => (mkSeg (p seg) (len seg) h, pcb, [])
  | Some pcb =>
      let pcb := pcb <| rtime := 0 |> in
      let pcb := if rttest pcb =? 0
                 then pcb <| rttest := ticks |> <| rtseq := ntohl (th_seqno h) |> else pcb in
      let h := tcp_set_chksum h (p seg) (local_ip pcb) (remote_ip pcb) in
      (mkSeg (p seg) (len seg) h, pcb,
       [mkPacket h (p seg) (local_ip pcb) (remote_ip pcb) (ttl pcb) (tos pcb)])
  end.

(** Where a sent segment goes on the unacked queue: in front of it in the case
    of a retransmission, else behind it. *)
Definition insert_unacked (seg : tcp_seg) (q : list tcp_seg) : list tcp_seg :=
  match last q with
  | None => [seg]
  | Some useg =>
      if TCP_SEQ_LT (ntohl (th_seqno (tcphdr seg))) (ntohl (th_seqno (tcphdr useg)))
      then seg :: q else q ++ [seg]
  end.

(** The window allows the segment to be sent. *)
Definition fits_window (seg : tcp_seg) (pcb : tcp_pcb) (wnd : Z) : bool :=
  u32 (ntohl (th_seqno (tcphdr seg)) - lastack pcb + len seg) <=? wnd.

(** One segment of the loop of [tcp_output]. *)
Definition output_step (seg : tcp_seg) (rest : list tcp_seg) (pcb : tcp_pcb) : tcp_pcb * list packet :=
  let pcb := pcb <| unsent := rest |> in
  let '(seg, pcb) :=
    match state pcb with
    | SYN_SENT => (seg, pcb)
    | _ => (mkSeg (p seg) (len seg) (TCPH_SET_FLAG TCP_ACK (tcphdr seg)),
            clear_flags (Z.lor TF_ACK_DELAY TF_ACK_NOW) pcb)
    end in
  let '(seg, pcb, out) := tcp_output_segment seg pcb in
  let pcb := pcb <| snd_nxt := u32 (ntohl (th_seqno (tcphdr seg)) + TCP_TCPLEN seg) |> in
  let pcb := if TCP_SEQ_LT (snd_max pcb) (snd_nxt pcb) then pcb <| snd_max := snd_nxt pcb |> else pcb in
  let pcb := if 0 <? TCP_TCPLEN seg then pcb <| unacked ::= insert_unacked seg |> else pcb in
  (pcb, out).

Fixpoint output_loop (q : list tcp_seg) (wnd : Z) (pcb : tcp_pcb) : tcp_pcb * list packet :=
  match q with
  | [] => (pcb, [])
  | seg :: rest =>
      if fits_window seg pcb wnd then
        let '(pcb, out) := output_step seg rest pcb in
        let '(pcb, outs) := output_loop rest wnd pcb in
        (pcb, out ++ outs)
      else (pcb, [])
  end.

(** The empty ACK of [tcp_output]. *)
Definition ack_packet (pcb : tcp_pcb) : packet :=
  mkPacket (tcp_set_chksum (bare_hdr (local_port pcb) (remote_port pcb) (snd_nxt pcb) (rcv_nxt pcb)
                              TCP_ACK (rcv_wnd pcb)) [] (local_ip pcb) (remote_ip pcb))
           [] (local_ip pcb) (remote_ip pcb) (ttl pcb) (tos pcb).

(** [err_t tcp_output(struct tcp_pcb *pcb)] *)
Definition tcp_output (in_input ack_alloc : bool) (pcb : tcp_pcb) : Z * tcp_pcb * list packet :=
  if in_input then (ERR_OK, pcb, [])
  else
    let wnd := Z.min (snd_wnd pcb) (cwnd pcb) in
    if has_flag TF_ACK_NOW pcb &&
       match unsent pcb with [] => true | seg :: _ => negb (fits_window seg pcb wnd) end
    then
      if ack_alloc then
        let pcb := clear_flags (Z.lor TF_ACK_DELAY TF_ACK_NOW) pcb in (ERR_OK, pcb, [ack_packet pcb])
      else (ERR_BUF, pcb, [])
    else let '(pcb, out) := output_loop (unsent pcb) wnd pcb in (ERR_OK, pcb, out).

(** [tcp_ack(pcb)], [tcp_ack_now(pcb)] *)
Definition tcp_ack_now (in_input ack_alloc : bool) (pcb : tcp_pcb) : tcp_pcb * list packet :=
  let '(_, pcb, out) := tcp_output in_input ack_alloc (set_flags TF_ACK_NOW pcb) in (pcb, out).

Definition tcp_ack (in_input ack_alloc : bool) (pcb : tcp_pcb) : tcp_pcb * list packet :=
  if has_flag TF_ACK_DELAY pcb
  then tcp_ack_now in_input ack_alloc (clear_flags TF_ACK_DELAY pcb)
  else (set_flags TF_ACK_DELAY pcb, []).

(** [tcp_rst]: the reset packet, when its pbuf is allocated. *)
Definition tcp_rst (ok : bool) (seqno ackno lip rip lport rport : Z) : list packet :=
  if ok then
    [mkPacket (tcp_set_chksum (bare_hdr lport rport seqno ackno (Z.lor TCP_RST TCP_ACK) TCP_WND) [] lip rip)
       [] lip rip TCP_TTL 0]
  else [].

(** [tcp_rexmit_rto]: all unacked segments go back in front of the unsent ones. *)
Definition tcp_rexmit_rto (in_input ack_alloc : bool) (pcb : tcp_pcb) : tcp_pcb * list packet :=
  match unacked pcb with
  | [] => (pcb, [])
  | seg :: _ =>
      let pcb := pcb <| unsent := unacked pcb ++ unsent pcb |> <| unacked := [] |>
                     <| snd_nxt := ntohl (th_seqno (tcphdr seg)) |>
                     <| nrtx := u8 (nrtx pcb + 1) |> <| rttest := 0 |> in
      let '(_, pcb, out) := tcp_output in_input ack_alloc pcb in (pcb, out)
  end.

(** [tcp_rexmit]: the first one does. *)
Definition tcp_rexmit (in_input ack_alloc : bool) (pcb : tcp_pcb) : tcp_pcb * list packet :=
  match unacked pcb with
  | [] => (pcb, [])
  | seg :: rest =>
      let pcb := pcb <| unsent := seg :: unsent pcb |> <| unacked := rest |>
                     <| snd_nxt := ntohl (th_seqno (tcphdr seg)) |>
                     <| nrtx := u8 (nrtx pcb + 1) |> <| rttest := 0 |> in
      let '(_, pcb, out) := tcp_output in_input ack_alloc pcb in (pcb, out)
  end.

(** [tcp_keepalive]: the code writes no flags, so that the six flag bits are
    those of the memory the pbuf was made of, [garbage]. *)
Definition tcp_keepalive (ok : bool) (garbage : Z) (pcb : tcp_pcb) : list packet :=
  if ok then
    let h := TCPH_HDRLEN_SET 5
      (mkTcpHdr (htons (local_port pcb)) (htons (remote_port pcb)) (htonl (u32 (snd_nxt pcb - 1)))
         (htonl (rcv_nxt pcb)) garbage (htons (rcv_wnd pcb)) 0 0) in
    [mkPacket (tcp_set_chksum h [] (local_ip pcb) (remote_ip pcb)) [] (local_ip pcb) (remote_ip pcb) (ttl pcb) 0]
  else [].

End Output.
