(* ===== verification/TcpPcb.v ===== *)
(** * TcpPcb: the connections of lwIP's TCP

    [nsc-0.5.3/lwip-HEAD/src/core/tcp.c]: the lists of control blocks, the calls
    of the application, and the timers.

    A control block lives at an address in [pcbs] or [lpcbs]; using an address
    at which there is none (a block that has been freed) is a fault ([None]).
    [memp_malloc] is libc's [malloc] in NSC's build ([src/nsc/support.c]): here a
    counter, so that a freed address is not handed out again, with an oracle
    that says which requests fail.  [out] is what has been given to [ip_output],
    [told] what has been given to the error callbacks.

    The callbacks of the application are the class [App]: what they return, what
    they make of their connection, and the packets they have sent.  They do not
    touch the lists.  Functions that only store a callback or free segments have
    no definition of their own. *)
From Stdlib Require Import ZArith Lia List Bool.
From stdpp Require Import base gmap list.
From coqutil Require Import Datatypes.RecordSetters.
From S2P Require Import Prelude Inet IpAddr Tcp TcpOut.
Import ListNotations.
#[local] Open Scope Z_scope.
#[local] Open Scope sm_scope.

(** ** Constants *)

Definition ERR_VAL : Z := -7.
Definition ERR_USE : Z := -10.
Definition TCP_PRIO_NORMAL : Z := 64.
Definition TCP_PRIO_MAX : Z := 127.
Definition TCP_SLOW_INTERVAL : Z := 500.
Definition TCP_FIN_WAIT_TIMEOUT : Z := 20000.
Definition TCP_SYN_RCVD_TIMEOUT : Z := 20000.
Definition TCP_OOSEQ_TIMEOUT : Z := 6.
Definition TCP_MSL : Z := 60000.
Definition TCP_KEEPDEFAULT : Z := 7200000.
Definition TCP_KEEPINTVL : Z := 75000.
Definition TCP_MAXIDLE : Z := 9 * TCP_KEEPINTVL.
Definition TCP_MAXRTX : Z := 12.
Definition TCP_SYNMAXRTX : Z := 6.
Definition TCP_LOCAL_PORT_RANGE_START : Z := 4096.
Definition TCP_LOCAL_PORT_RANGE_END : Z := 32767.
Definition SOF_ACCEPTCONN : Z := 2.
Definition SOF_KEEPALIVE : Z := 8.

Definition tcp_backoff : list Z := [1; 2; 3; 4; 5; 6; 7; 7; 7; 7; 7; 7; 7].

(** ** State *)

(** A listening control block. *)
Record tcp_pcb_listen := mkListen {
  l_local_ip : Z; l_so_options : Z; l_tos : Z; l_ttl : Z; l_prio : Z; l_local_port : Z
}.

Record tcp_globals := mkGlobals {
  pcbs : gmap nat tcp_pcb;          (* the control blocks in use *)
  lpcbs : gmap nat tcp_pcb_listen;  (* the listening ones *)
  mallocs : nat;                    (* requests to [memp_malloc] so far *)
  tcp_listen_pcbs : list nat; tcp_active_pcbs : list nat; tcp_tw_pcbs : list nat;
  tcp_input_pcb : option nat;
  tcp_ticks : Z; tcp_timer : Z;
  port : Z;                         (* static variable of [tcp_new_port] *)
  iss : Z;                          (* static variable of [tcp_next_iss] *)
  out : list packet;
  told : list (nat * Z)
}.

(** A pointer to a control block: its type is known by its [state]. *)
Inductive tcp_ptr := Pcb (x : nat) | Lpcb (x : nat).

(** The application's callbacks; [None]: none is registered. *)
Class App := {
  on_connected : tcp_pcb -> tcp_pcb;
  on_accept : tcp_pcb -> Z * tcp_pcb;
  on_sent : Z -> tcp_pcb -> option (Z * tcp_pcb * list packet);
  on_recv : option (list (list Z)) -> tcp_pcb -> option (Z * tcp_pcb * list packet);
  on_poll : tcp_pcb -> option (Z * tcp_pcb * list packet)
}.

(** What is outside: routing, memory, and what uninitialised memory holds. *)
Class Env := {
  ip_route : Z -> option Z;
  malloc_ok : nat -> bool;
  seg_ok : nat -> bool;
  pbuf_ok : bool;
  garbage : Z
}.

Abbreviation TM := (SM tcp_globals).

Definition get (x : nat) : TM tcp_pcb := fun g =>
  match pcbs g !! x with Some pcb => Some (pcb, g) | None => None end.
Definition put (x : nat) (pcb : tcp_pcb) : TM unit := fun g => Some (tt, g <| pcbs ::= insert x pcb |>).
Definition get_listen (x : nat) : TM tcp_pcb_listen := fun g =>
  match lpcbs g !! x with Some l => Some (l, g) | None => None end.

(** [x->f := ...] *)
Definition change (x : nat) (f : tcp_pcb -> tcp_pcb) : TM unit := pcb <- get x ;; put x (f pcb).
Definition send (ps : list packet) : TM unit := fun g => Some (tt, g <| out ::= fun o => o ++ ps |>).

(** A loop over the elements of a list of control blocks. *)
Fixpoint for_each (f : nat -> TM unit) (l : list nat) : TM unit :=
  match l with
  | [] => sm_ret tt
  | x :: l => f x ;; for_each f l
  end.

(** ** Memory and lists *)

Section Pool.
Context {V : Env}.

Definition memp_malloc : TM (option nat) := fun g =>
  let k := mallocs g in
  Some (if malloc_ok k then Some k else None, g <| mallocs := S k |>).

(** Freeing what is not in use is a fault. *)
Definition memp_free (x : nat) : TM unit := fun g =>
  match pcbs g !! x with
  | Some _ => Some (tt, g <| pcbs ::= delete x |>)
  | None => None
  end.

Definition memp_free_listen (x : nat) : TM unit := fun g =>
  match lpcbs g !! x with
  | Some _ => Some (tt, g <| lpcbs ::= delete x |>)
  | None => None
  end.

(** [TCP_RMV]: unlink the first occurrence. *)
Fixpoint TCP_RMV (x : nat) (l : list nat) : list nat :=
  match l with
  | [] => []
  | y :: l => if decide (y = x) then l else y :: TCP_RMV x l
  end.

(** [tcp_pcb_purge(pcb)] *)
Definition tcp_pcb_purge (pcb : tcp_pcb) : tcp_pcb :=
  match state pcb with
  | CLOSED | TIME_WAIT | LISTEN => pcb
  | _ => pcb <| ooseq := [] |> <| unsent := [] |> <| unacked := [] |>
  end.

(** ** Output *)

(** [tcp_output(pcb)] for the control block at [x]. *)
Definition tcp_output_at (x : nat) : TM Z := fun g =>
  match pcbs g !! x with
  | None => None
  | Some pcb =>
      let '(err, pcb, ps) :=
        tcp_output (tcp_ticks g) ip_route (bool_decide (tcp_input_pcb g = Some x)) pbuf_ok pcb in
      Some (err, g <| pcbs ::= insert x pcb |> <| out ::= fun o => o ++ ps |>)
  end.

(** The macro [tcp_ack_now(pcb)]. *)
Definition tcp_ack_now_at (x : nat) : TM unit :=
  change x (set_flags TF_ACK_NOW) ;; tcp_output_at x ;; sm_ret tt.

(** The macro [tcp_ack(pcb)]. *)
Definition tcp_ack_at (x : nat) : TM unit :=
  pcb <- get x ;;
  if has_flag TF_ACK_DELAY pcb
  then change x (clear_flags TF_ACK_DELAY) ;; tcp_ack_now_at x
  else change x (set_flags TF_ACK_DELAY).

(** [tcp_pcb_remove] once the block is off its list. *)
Definition tcp_pcb_remove_rest (x : nat) : TM unit :=
  change x tcp_pcb_purge ;;
  pcb <- get x ;;
  (match state pcb with
   | TIME_WAIT | LISTEN => sm_ret tt
   | _ => if has_flag TF_ACK_DELAY pcb
          then change x (set_flags TF_ACK_NOW) ;; tcp_output_at x ;; sm_ret tt
          else sm_ret tt
   end) ;;
  change x (fun pcb => pcb <| state := CLOSED |>).

(** [tcp_pcb_remove(&tcp_active_pcbs, pcb)], [tcp_pcb_remove(&tcp_tw_pcbs, pcb)] *)
Definition tcp_pcb_remove_active (x : nat) : TM unit :=
  sm_modify (fun g => g <| tcp_active_pcbs ::= TCP_RMV x |>) ;; tcp_pcb_remove_rest x.
Definition tcp_pcb_remove_tw (x : nat) : TM unit :=
  sm_modify (fun g => g <| tcp_tw_pcbs ::= TCP_RMV x |>) ;; tcp_pcb_remove_rest x.

(** [TCP_EVENT_ERR(pcb->errf, pcb->callback_arg, err)] *)
Definition tell (x : nat) (err : Z) : TM unit := fun g =>
  Some (tt, g <| told ::= fun l => l ++ [(x, err)] |>).

(** [void tcp_abort(struct tcp_pcb *pcb)] *)
Definition tcp_abort (x : nat) : TM unit :=
  pcb <- get x ;;
  match state pcb with
  | TIME_WAIT => tcp_pcb_remove_tw x ;; memp_free x
  | _ =>
      tcp_pcb_remove_active x ;;
      memp_free x ;;
      tell x ERR_ABRT ;;
      send (tcp_rst pbuf_ok (snd_nxt pcb) (rcv_nxt pcb) (local_ip pcb) (remote_ip pcb)
              (local_port pcb) (remote_port pcb))
  end.

(** ** Creation *)

(** The loop of [tcp_kill_prio] over the active connections: the one to kill. *)
Definition kill_prio_step (ticks prio : Z) (best : option nat * Z * Z) (y : nat * tcp_pcb)
    : option nat * Z * Z :=
  let '(inactive, inactivity, mprio) := best in
  let '(x, pcb) := y in
  if (Tcp.prio pcb <=? prio) && (Tcp.prio pcb <=? mprio) && (inactivity <=? u32 (ticks - tmr pcb))
  then (Some x, u32 (ticks - tmr pcb), Tcp.prio pcb)
  else best.

(** The loop of [tcp_kill_timewait]. *)
Definition kill_timewait_step (ticks : Z) (best : option nat * Z) (y : nat * tcp_pcb) : option nat * Z :=
  let '(inactive, inactivity) := best in
  let '(x, pcb) := y in
  if inactivity <=? u32 (ticks - tmr pcb) then (Some x, u32 (ticks - tmr pcb)) else best.

(** The control blocks of a list, read one after the other. *)
Fixpoint get_all (l : list nat) : TM (list (nat * tcp_pcb)) :=
  match l with
  | [] => sm_ret []
  | x :: l => pcb <- get x ;; r <- get_all l ;; sm_ret ((x, pcb) :: r)
  end.

Definition abort_found (x : option nat) : TM unit :=
  match x with Some x => tcp_abort x | None => sm_ret tt end.

Definition tcp_kill_prio (prio : Z) : TM unit :=
  g <- sm_get ;;
  l <- get_all (tcp_active_pcbs g) ;;
  abort_found (fst (fst (fold_left (kill_prio_step (tcp_ticks g) prio) l (None, 0, TCP_PRIO_MAX)))).

Definition tcp_kill_timewait : TM unit :=
  g <- sm_get ;;
  l <- get_all (tcp_tw_pcbs g) ;;
  abort_found (fst (fold_left (kill_timewait_step (tcp_ticks g)) l (None, 0))).

(** [u32_t tcp_next_iss(void)] *)
Definition tcp_next_iss : TM Z := fun g =>
  let n := u32 (iss g + tcp_ticks g) in Some (n, g <| iss := n |>).

(** A new control block; all else is 0. *)
Definition new_pcb (n ticks : Z) : tcp_pcb :=
  mkPcb 0 0 0 0 TCP_TTL CLOSED TCP_PRIO_NORMAL 0 0 0
    0 TCP_WND ticks 0 0 0 TCP_MSS
    0 0 0 (3000 / TCP_SLOW_INTERVAL) (3000 / TCP_SLOW_INTERVAL) 0
    n 0 1 0 n n 0 0 n n 0 TCP_SND_BUF 0 [] [] [] TCP_KEEPDEFAULT 0.

(** Memory for a block: if there is none, connections are killed. *)
Definition alloc_block (prio : Z) : TM (option nat) :=
  x <- memp_malloc ;;
  match x with
  | Some x => sm_ret (Some x)
  | None =>
      tcp_kill_timewait ;;
      x <- memp_malloc ;;
      match x with
      | Some x => sm_ret (Some x)
      | None => tcp_kill_prio prio ;; memp_malloc
      end
  end.

(** [struct tcp_pcb *tcp_alloc(u8_t prio)] *)
Definition tcp_alloc (prio : Z) : TM (option nat) :=
  x <- alloc_block prio ;;
  match x with
  | None => sm_ret None
  | Some x =>
      n <- tcp_next_iss ;;
      g <- sm_get ;;
      put x (new_pcb n (tcp_ticks g)) ;;
      sm_ret (Some x)
  end.

Definition tcp_new : TM (option nat) := tcp_alloc TCP_PRIO_NORMAL.

(** ** Addresses *)

(** The local ports in use. *)
Definition used_ports (g : tcp_globals) : option (list Z) :=
  match mapM (fun x => option_map local_port (pcbs g !! x)) (tcp_active_pcbs g),
        mapM (fun x => option_map local_port (pcbs g !! x)) (tcp_tw_pcbs g),
        mapM (fun x => option_map l_local_port (lpcbs g !! x)) (tcp_listen_pcbs g) with
  | Some a, Some t, Some l => Some (a ++ t ++ l)
  | _, _, _ => None
  end.

(** [if (++port > END) port = START] *)
Definition next_port (p : Z) : Z :=
  if TCP_LOCAL_PORT_RANGE_END <? u16 (p + 1) then TCP_LOCAL_PORT_RANGE_START else u16 (p + 1).

(** The [goto again] of [tcp_new_port]. *)
Fixpoint new_port_loop (fuel : nat) (used : list Z) (p : Z) : outcome Z :=
  match fuel with
  | O => OutOfFuel
  | S fuel =>
      let p := next_port p in
      if existsb (Z.eqb p) used then new_port_loop fuel used p else Done p
  end.

(** [static u16_t tcp_new_port(void)]; one try per port in use, and one more. *)
Definition tcp_new_port : TM Z := fun g =>
  match used_ports g with
  | None => None
  | Some used =>
      match new_port_loop (S (length used)) used (port g) with
      | Done p => Some (p, g <| port := p |>)
      | _ => None
      end
  end.

(** The test of [tcp_bind] on one control block. *)
Definition in_use (ip port : Z) (want : option Z) (wanted : Z) : bool :=
  (port =? wanted) &&
  (ip_addr_isany (Some ip) || ip_addr_isany want ||
   match want with Some a => ip =? a | None => false end).

(** The control block bound. *)
Definition bound_pcb (ipaddr : option Z) (port : Z) (pcb : tcp_pcb) : tcp_pcb :=
  (match ipaddr with
   | Some a => if a =? 0 then pcb else pcb <| local_ip := a |>
   | None => pcb
   end) <| local_port := port |>.

(** [err_t tcp_bind(pcb, ipaddr, port)] *)
Definition tcp_bind (x : nat) (ipaddr : option Z) (port : Z) : TM Z :=
  port <- (if port =? 0 then tcp_new_port else sm_ret port) ;;
  g <- sm_get ;;
  match mapM (fun y => lpcbs g !! y) (tcp_listen_pcbs g), mapM (fun y => pcbs g !! y) (tcp_active_pcbs g) with
  | Some ls, Some acts =>
      if existsb (fun l => in_use (l_local_ip l) (l_local_port l) ipaddr port) ls ||
         existsb (fun c => in_use (local_ip c) (local_port c) ipaddr port) acts
      then sm_ret ERR_USE
      else change x (bound_pcb ipaddr port) ;; sm_ret ERR_OK
  | _, _ => sm_fail
  end.

(** [struct tcp_pcb *tcp_listen(pcb)]; [prio] of the new block is not set. *)
Definition tcp_listen (c : tcp_ptr) : TM (option tcp_ptr) :=
  match c with
  | Lpcb _ => sm_ret (Some c)
  | Pcb x =>
      pcb <- get x ;;
      l <- memp_malloc ;;
      match l with
      | None => sm_ret None
      | Some l =>
          memp_free x ;;
          sm_modify (fun g => g
            <| lpcbs ::= insert l (mkListen (local_ip pcb) (Z.lor (so_options pcb) SOF_ACCEPTCONN)
                                     (tos pcb) (ttl pcb) garbage (local_port pcb)) |>
            <| tcp_listen_pcbs ::= cons l |>) ;;
          sm_ret (Some (Lpcb l))
      end
  end.

(** [htonl] of the MSS option, as bytes in memory. *)
Definition mss_option (m : Z) : list Z := [2; 4; u8 (m / 256); Z.land m 255].

(** [tcp_enqueue(pcb, ...)] for the control block at [x]. *)
Definition tcp_enqueue_at (x : nat) (arg : list Z) (fl : Z) (copy : bool) (optdata : option (list Z)) : TM Z :=
  pcb <- get x ;;
  let '(err, pcb) := tcp_enqueue seg_ok pcb arg fl copy optdata in
  put x pcb ;; sm_ret err.

(** The control block of a connection about to be opened. *)
Definition connecting (ip rport n : Z) (pcb : tcp_pcb) : tcp_pcb :=
  pcb <| rcv_nxt := 0 |> <| snd_nxt := n |> <| lastack := u32 (n - 1) |> <| snd_lbb := u32 (n - 1) |>
      <| rcv_wnd := TCP_WND |> <| snd_wnd := TCP_WND |> <| mss := TCP_MSS |> <| cwnd := 1 |>
      <| ssthresh := u16 (TCP_MSS * 10) |> <| state := SYN_SENT |>.

(** [err_t tcp_connect(pcb, ipaddr, port, connected)] *)
Definition tcp_connect (x : nat) (ipaddr : option Z) (rport : Z) : TM Z :=
  match ipaddr with
  | None => sm_ret ERR_VAL
  | Some ip =>
      change x (fun pcb => pcb <| remote_ip := ip |> <| remote_port := rport |>) ;;
      pcb <- get x ;;
      (if local_port pcb =? 0
       then p <- tcp_new_port ;; change x (fun pcb => pcb <| local_port := p |>)
       else sm_ret tt) ;;
      n <- tcp_next_iss ;;
      change x (connecting ip rport n) ;;
      sm_modify (fun g => g <| tcp_active_pcbs ::= cons x |>) ;;
      err <- tcp_enqueue_at x [] TCP_SYN false (Some (mss_option TCP_MSS)) ;;
      (if err =? ERR_OK then tcp_output_at x ;; sm_ret tt else sm_ret tt) ;;
      sm_ret err
  end.

(** ** Use and end of a connection *)

(** [err_t tcp_write(pcb, dataptr, len, copy)] for the control block at [x]. *)
Definition tcp_write_at (x : nat) (arg : list Z) (copy : bool) : TM Z :=
  pcb <- get x ;;
  let '(err, pcb) := tcp_write seg_ok pcb arg copy in
  put x pcb ;; sm_ret err.

(** [tcp_close] on a connection: send a FIN and go to [next]. *)
Definition close_with_fin (x : nat) (next : tcp_state) : TM Z :=
  err <- tcp_enqueue_at x [] TCP_FIN true None ;;
  if err =? ERR_OK
  then change x (fun pcb => pcb <| state := next |>) ;; tcp_output_at x
  else sm_ret err.

(** [err_t tcp_close(struct tcp_pcb *pcb)] *)
Definition tcp_close (c : tcp_ptr) : TM Z :=
  match c with
  | Lpcb x =>
      sm_modify (fun g => g <| tcp_listen_pcbs ::= TCP_RMV x |>) ;;
      memp_free_listen x ;;
      sm_ret ERR_OK
  | Pcb x =>
      pcb <- get x ;;
      match state pcb with
      | CLOSED => memp_free x ;; sm_ret ERR_OK
      | SYN_SENT => tcp_pcb_remove_active x ;; memp_free x ;; sm_ret ERR_OK
      | SYN_RCVD | ESTABLISHED => close_with_fin x FIN_WAIT_1
      | CLOSE_WAIT => close_with_fin x LAST_ACK
      | _ => sm_ret ERR_OK
      end
  end.

(** The window after the application has taken [n] bytes. *)
Definition open_window (n wnd : Z) : Z := if TCP_WND <? u32 (wnd + n) then TCP_WND else u16 (wnd + n).

(** [void tcp_recved(pcb, len)] *)
Definition tcp_recved (x : nat) (n : Z) : TM unit :=
  change x (fun pcb => pcb <| rcv_wnd ::= open_window n |>) ;;
  pcb <- get x ;;
  if negb (has_flag TF_ACK_DELAY pcb) && negb (has_flag TF_ACK_NOW pcb) then tcp_ack_at x
  else if has_flag TF_ACK_DELAY pcb && (TCP_WND / 2 <=? rcv_wnd pcb) then tcp_ack_now_at x
  else sm_ret tt.

Definition tcp_setprio (x : nat) (prio : Z) : TM unit := change x (fun pcb => pcb <| Tcp.prio := prio |>).
Definition tcp_poll (x : nat) (interval : Z) : TM unit :=
  change x (fun pcb => pcb <| pollinterval := interval |>).

(** ** Timers *)

Section Timers.
Context {A : App}.

(** The retransmission timer of [tcp_slowtmr]: the control block just before
    [tcp_rexmit_rto]; [None]: the index of [tcp_backoff] is out of range. *)
Definition back_off (pcb : tcp_pcb) : option tcp_pcb :=
  match (match state pcb with
         | SYN_SENT => Some pcb
         | _ => match tcp_backoff !! Z.to_nat (nrtx pcb) with
                | None => None
                | Some b => Some (pcb <| rto := u16 (Z.shiftl (Z.shiftr (sa pcb) 3 + sv pcb) b) |>)
                end
         end) with
  | None => None
  | Some pcb =>
      let eff_wnd := Z.min (cwnd pcb) (snd_wnd pcb) in
      let pcb := pcb <| ssthresh := u16 (Z.shiftr eff_wnd 1) |> in
      let pcb := if ssthresh pcb <? mss pcb then pcb <| ssthresh := u16 (mss pcb * 2) |> else pcb in
      Some (pcb <| cwnd := mss pcb |>)
  end.

(** [tcp_rexmit_rto(pcb)] for the control block at [x]. *)
Definition tcp_rexmit_rto_at (x : nat) : TM unit := fun g =>
  match pcbs g !! x with
  | None => None
  | Some pcb =>
      let '(pcb, ps) := tcp_rexmit_rto (tcp_ticks g) ip_route
                          (bool_decide (tcp_input_pcb g = Some x)) pbuf_ok pcb in
      Some (tt, g <| pcbs ::= insert x pcb |> <| out ::= fun o => o ++ ps |>)
  end.

(** Whether the connection has been retransmitting for too long. *)
Definition gave_up (pcb : tcp_pcb) : bool :=
  (bool_decide (state pcb = SYN_SENT) && (nrtx pcb =? TCP_SYNMAXRTX)) || (nrtx pcb =? TCP_MAXRTX).

(** The first test of [tcp_slowtmr] on an active connection. *)
Definition slow_retransmit (x : nat) : TM unit :=
  change x (fun pcb => pcb <| rtime := u16 (rtime pcb + 1) |>) ;;
  pcb <- get x ;;
  if negb (match unacked pcb with [] => true | _ => false end) && (rto pcb <=? rtime pcb) then
    match back_off pcb with
    | None => sm_fail
    | Some pcb => put x pcb ;; tcp_rexmit_rto_at x
    end
  else sm_ret tt.

(** The time since the connection was last active. *)
Definition idle (ticks : Z) (pcb : tcp_pcb) : Z := u32 (ticks - tmr pcb).

(** The keepalive probes. *)
Definition slow_keepalive (x : nat) : TM unit :=
  pcb <- get x ;;
  g <- sm_get ;;
  if negb (Z.land (so_options pcb) SOF_KEEPALIVE =? 0) &&
     (bool_decide (state pcb = ESTABLISHED) || bool_decide (state pcb = CLOSE_WAIT)) then
    if u32 (keepalive pcb + TCP_MAXIDLE) / TCP_SLOW_INTERVAL <? idle (tcp_ticks g) pcb then tcp_abort x
    else if u32 (keepalive pcb + keep_cnt pcb * TCP_KEEPINTVL) / TCP_SLOW_INTERVAL <? idle (tcp_ticks g) pcb then
      send (tcp_keepalive pbuf_ok garbage pcb) ;;
      change x (fun pcb => pcb <| keep_cnt := u8 (keep_cnt pcb + 1) |>)
    else sm_ret tt
  else sm_ret tt.

(** Out-of-sequence data kept for too long are dropped. *)
Definition slow_ooseq (x : nat) : TM unit :=
  pcb <- get x ;;
  g <- sm_get ;;
  match ooseq pcb with
  | [] => sm_ret tt
  | _ => if rto pcb * TCP_OOSEQ_TIMEOUT <=? idle (tcp_ticks g) pcb
         then change x (fun pcb => pcb <| ooseq := [] |>) else sm_ret tt
  end.

(** A state that has lasted for too long. *)
Definition stuck (s : tcp_state) (timeout ticks : Z) (pcb : tcp_pcb) : bool :=
  bool_decide (state pcb = s) && (timeout / TCP_SLOW_INTERVAL <? idle ticks pcb).

(** The callback that polls the application; [err] keeps its value when there is
    none. *)
Definition slow_poll (x : nat) (err : Z) : TM Z :=
  change x (fun pcb => pcb <| polltmr := u8 (polltmr pcb + 1) |>) ;;
  pcb <- get x ;;
  if pollinterval pcb <=? polltmr pcb then
    change x (fun pcb => pcb <| polltmr := 0 |>) ;;
    pcb <- get x ;;
    err <- (match on_poll pcb with
            | Some (err, pcb, ps) => put x pcb ;; send ps ;; sm_ret err
            | None => sm_ret err
            end) ;;
    (if err =? ERR_OK then tcp_output_at x ;; sm_ret tt else sm_ret tt) ;;
    sm_ret err
  else sm_ret err.

(** One active connection in [tcp_slowtmr]. *)
Definition slowtmr_active (x : nat) (err : Z) : TM Z :=
  pcb <- get x ;;
  let remove1 := gave_up pcb in
  (if remove1 then sm_ret tt else slow_retransmit x) ;;
  g <- sm_get ;;
  pcb <- get x ;;
  let remove2 := stuck FIN_WAIT_2 TCP_FIN_WAIT_TIMEOUT (tcp_ticks g) pcb in
  slow_keepalive x ;;
  slow_ooseq x ;;
  g <- sm_get ;;
  pcb <- get x ;;
  let remove3 := stuck SYN_RCVD TCP_SYN_RCVD_TIMEOUT (tcp_ticks g) pcb in
  if remove1 || remove2 || remove3 then
    change x tcp_pcb_purge ;;
    sm_modify (fun g => g <| tcp_active_pcbs ::= TCP_RMV x |>) ;;
    tell x ERR_ABRT ;;
    memp_free x ;;
    sm_ret err
  else slow_poll x err.

Fixpoint slowtmr_actives (l : list nat) (err : Z) : TM Z :=
  match l with
  | [] => sm_ret err
  | x :: l => err <- slowtmr_active x err ;; slowtmr_actives l err
  end.

(** One connection in TIME-WAIT. *)
Definition slowtmr_tw (x : nat) : TM unit :=
  pcb <- get x ;;
  g <- sm_get ;;
  if 2 * TCP_MSL / TCP_SLOW_INTERVAL <? idle (tcp_ticks g) pcb then
    change x tcp_pcb_purge ;;
    sm_modify (fun g => g <| tcp_tw_pcbs ::= TCP_RMV x |>) ;;
    memp_free x
  else sm_ret tt.

(** [void tcp_slowtmr(void)] *)
Definition tcp_slowtmr : TM unit :=
  sm_modify (fun g => g <| tcp_ticks := u32 (tcp_ticks g + 1) |>) ;;
  g <- sm_get ;;
  slowtmr_actives (tcp_active_pcbs g) ERR_OK ;;
  g <- sm_get ;;
  for_each slowtmr_tw (tcp_tw_pcbs g).

(** [void tcp_fasttmr(void)] *)
Definition fasttmr_active (x : nat) : TM unit :=
  pcb <- get x ;;
  if has_flag TF_ACK_DELAY pcb
  then tcp_ack_now_at x ;; change x (clear_flags (Z.lor TF_ACK_DELAY TF_ACK_NOW))
  else sm_ret tt.

Definition tcp_fasttmr : TM unit := g <- sm_get ;; for_each fasttmr_active (tcp_active_pcbs g).

(** [void tcp_tmr(void)] *)
Definition tcp_tmr : TM unit :=
  tcp_fasttmr ;;
  sm_modify (fun g => g <| tcp_timer := u8 (tcp_timer g + 1) |>) ;;
  g <- sm_get ;;
  if Z.land (tcp_timer g) 1 =? 0 then sm_ret tt else tcp_slowtmr.

End Timers.
End Pool.

(** [void tcp_init(void)], and the initial values of the static variables. *)
Definition tcp_init : tcp_globals :=
  mkGlobals ∅ ∅ 0 [] [] [] None 0 0 TCP_LOCAL_PORT_RANGE_START 6510 [] [].

(** ** A surrounding for concrete runs *)

(** An application that registers no callbacks and accepts everything. *)
Definition quiet_app : App := {|
  on_connected := fun pcb => pcb; on_accept := fun pcb => (ERR_OK, pcb);
  on_sent := fun _ _ => None; on_recv := fun _ _ => None; on_poll := fun _ => None
|}.

(** Enough memory, and one interface, 10.0.0.1. *)
Definition plain_env : Env := {|
  ip_route := fun _ => Some 16777226; malloc_ok := fun _ => true; seg_ok := fun _ => true;
  pbuf_ok := true; garbage := 0
|}.
