(* ===== verification/TcpIn.v ===== *)
(** * TcpIn: the receiving half of lwIP's TCP

    [nsc-0.5.3/lwip-HEAD/src/core/tcp_in.c]: the state machine [tcp_process], the
    processing of acknowledgements and data [tcp_receive], and the parser of the
    options.  They run inside [tcp_input], which sets [tcp_input_pcb] to the
    connection, so that their calls of [tcp_output] send nothing.

    The static variables of the file are the record [input]; a division by zero
    or an access outside a chain is a fault ([None]). *)
From Stdlib Require Import ZArith Lia List Bool.
From stdpp Require Import base list.
From coqutil Require Import Datatypes.RecordSetters.
From S2P Require Import Prelude Inet Tcp TcpOut TcpPcb.
Import ListNotations.
#[local] Open Scope Z_scope.

(** ** The segment being processed *)

(** [inseg] (its [p] is [NULL] once the data belong to the application) and the
    other static variables; [opts] are the bytes from the end of the fixed header. *)
Record input := mkInput {
  in_p : option (list (list Z)); in_len : Z; in_hdr : tcp_hdr; opts : list Z;
  seqno : Z; ackno : Z; in_flags : Z; tcplen : Z;
  recv_flags : Z; recv_data : option (list (list Z))
}.

Definition in_has (f : Z) (i : input) : bool := negb (Z.land (in_flags i) f =? 0).

(** [tcp_ack] and [tcp_ack_now] as they act here: [tcp_output] returns at once. *)
Definition ack_in (pcb : tcp_pcb) : tcp_pcb := fst (tcp_ack 0 (fun _ => None) true true pcb).
Definition ack_now_in (pcb : tcp_pcb) : tcp_pcb := fst (tcp_ack_now 0 (fun _ => None) true true pcb).

(** ** Acknowledgements *)

(** Update the send window. *)
Definition update_window (i : input) (pcb : tcp_pcb) : tcp_pcb :=
  if TCP_SEQ_LT (snd_wl1 pcb) (seqno i) ||
     ((snd_wl1 pcb =? seqno i) && TCP_SEQ_LT (snd_wl2 pcb) (ackno i)) ||
     ((snd_wl2 pcb =? ackno i) && (snd_wnd pcb <? th_wnd (in_hdr i)))
  then pcb <| snd_wnd := th_wnd (in_hdr i) |> <| snd_wl1 := seqno i |> <| snd_wl2 := ackno i |>
  else pcb.

(** Inflate the congestion window by one segment unless it overflows. *)
Definition inflate_cwnd (pcb : tcp_pcb) : tcp_pcb :=
  if cwnd pcb <? u16 (cwnd pcb + mss pcb) then pcb <| cwnd := u16 (cwnd pcb + mss pcb) |> else pcb.

(** A duplicate acknowledgement ([lastack == ackno]). *)
Definition dup_ack (right_wnd_edge : Z) (pcb : tcp_pcb) : tcp_pcb :=
  let pcb := pcb <| acked := 0 |> in
  if u32 (snd_wl1 pcb + snd_wnd pcb) =? right_wnd_edge then
    let pcb := pcb <| dupacks := u8 (dupacks pcb + 1) |> in
    if (3 <=? dupacks pcb) && negb (match unacked pcb with [] => true | _ => false end) then
      if has_flag TF_INFR pcb then inflate_cwnd pcb
      else
        let pcb := fst (tcp_rexmit 0 (fun _ => None) true true pcb) in
        let pcb := if snd_wnd pcb <? cwnd pcb
                   then pcb <| ssthresh := u16 (snd_wnd pcb / 2) |>
                   else pcb <| ssthresh := cwnd pcb / 2 |> in
        set_flags TF_INFR (pcb <| cwnd := u16 (ssthresh pcb + 3 * mss pcb) |>)
    else pcb
  else pcb.

(** The congestion window after an acknowledgement of new data; [None]: a
    division by zero. *)
Definition grow_cwnd (pcb : tcp_pcb) : option tcp_pcb :=
  if state_num ESTABLISHED <=? state_num (state pcb) then
    if cwnd pcb <? ssthresh pcb then Some (inflate_cwnd pcb)
    else if cwnd pcb =? 0 then None
    else
      let new_cwnd := u16 (cwnd pcb + mss pcb * mss pcb / cwnd pcb) in
      Some (if cwnd pcb <? new_cwnd then pcb <| cwnd := new_cwnd |> else pcb)
  else Some pcb.

(** [ntohl(seg->tcphdr->seqno) + TCP_TCPLEN(seg)] of a queued segment. *)
Definition seg_end (s : tcp_seg) : Z := u32 (ntohl (th_seqno (tcphdr s)) + TCP_TCPLEN s).

(** Drop the acknowledged segments in front of [unacked]: the rest, and the
    number of pbufs left. *)
Fixpoint drop_acked (ack : Z) (q : list tcp_seg) (queuelen : Z) : list tcp_seg * Z :=
  match q with
  | [] => ([], queuelen)
  | s :: q' =>
      if TCP_SEQ_LEQ (seg_end s) ack
      then drop_acked ack q' (u8 (queuelen - pbuf_clen (p s)))
      else (q, queuelen)
  end.

(** The same for [unsent], where retransmitted segments lie; also [snd_nxt]. *)
Fixpoint drop_unsent (ack smax : Z) (q : list tcp_seg) (queuelen nxt : Z) : list tcp_seg * Z * Z :=
  match q with
  | [] => ([], queuelen, nxt)
  | s :: q' =>
      if TCP_SEQ_BETWEEN ack (seg_end s) smax
      then drop_unsent ack smax q' (u8 (queuelen - pbuf_clen (p s)))
             (match q' with [] => nxt | s' :: _ => htonl (th_seqno (tcphdr s')) end)
      else (q, queuelen, nxt)
  end.

(** An acknowledgement of new data: first the counters and the send buffer, then
    the congestion window and the queue. *)
Definition new_ack_vars (ack : Z) (pcb : tcp_pcb) : tcp_pcb :=
  let pcb := if has_flag TF_INFR pcb
             then (clear_flags TF_INFR pcb) <| cwnd := ssthresh pcb |> else pcb in
  let pcb := pcb <| nrtx := 0 |> <| rto := u16 (Z.shiftr (sa pcb) 3 + sv pcb) |>
                 <| acked := u16 (ack - lastack pcb) |> in
  pcb <| snd_buf := u16 (snd_buf pcb + Z.land (acked pcb + 1) (Z.lnot 1)) |>
      <| dupacks := 0 |> <| lastack := ack |>.

Definition new_ack (ack : Z) (pcb : tcp_pcb) : option tcp_pcb :=
  match grow_cwnd (new_ack_vars ack pcb) with
  | None => None
  | Some pcb =>
      let '(q, n) := drop_acked ack (unacked pcb) (snd_queuelen pcb) in
      Some (pcb <| unacked := q |> <| snd_queuelen := n |> <| polltmr := 0 |>)
  end.

(** The estimation of the round-trip time. *)
Definition update_rtt (ticks ack : Z) (pcb : tcp_pcb) : tcp_pcb :=
  if negb (rttest pcb =? 0) && TCP_SEQ_LT (rtseq pcb) ack then
    let m := s32 (ticks - rttest pcb) in
    let m := s32 (m - Z.shiftr (sa pcb) 3) in
    let sa' := s16 (sa pcb + m) in
    let m := if m <? 0 then s32 (- m) else m in
    let m := s32 (m - Z.shiftr (sv pcb) 2) in
    let sv' := s16 (sv pcb + m) in
    pcb <| sa := sa' |> <| sv := sv' |> <| rto := u16 (Z.shiftr sa' 3 + sv') |> <| rttest := 0 |>
  else pcb.

(** What [tcp_receive] does for a segment with the ACK flag. *)
Definition receive_ack (ticks : Z) (i : input) (pcb : tcp_pcb) : option tcp_pcb :=
  let right_wnd_edge := u32 (snd_wnd pcb + snd_wl1 pcb) in
  let pcb := update_window i pcb in
  let r := if lastack pcb =? ackno i then Some (dup_ack right_wnd_edge pcb)
           else if TCP_SEQ_BETWEEN (ackno i) (u32 (lastack pcb + 1)) (snd_max pcb)
           then new_ack (ackno i) pcb else Some pcb in
  match r with
  | None => None
  | Some pcb =>
      let '(q, n, nxt) := drop_unsent (ackno i) (snd_max pcb) (unsent pcb) (snd_queuelen pcb) (snd_nxt pcb) in
      Some (update_rtt ticks (ackno i)
        (pcb <| unsent := q |> <| snd_queuelen := n |> <| snd_nxt := nxt |>))
  end.

(** ** Data *)

(** Move the payload pointers so that the first [off] bytes are gone; [None]:
    the chain is shorter. *)
Fixpoint trim_front (off : Z) (q : list (list Z)) : option (list (list Z)) :=
  match q with
  | [] => None
  | s :: q' =>
      if Z.of_nat (length s) <? off
      then match trim_front (off - Z.of_nat (length s)) q' with
           | Some q' => Some ([] :: q')
           | None => None
           end
      else Some (drop (Z.to_nat off) s :: q')
  end.

(** [pbuf_realloc(q, n)]: nothing when the chain has no more than [n] bytes. *)
Fixpoint shrink_chain (n : Z) (q : list (list Z)) : list (list Z) :=
  match q with
  | [] => []
  | s :: q' =>
      if n <=? Z.of_nat (length s) then [take (Z.to_nat n) s]
      else s :: shrink_chain (n - Z.of_nat (length s)) q'
  end.

Definition pbuf_realloc (n : Z) (q : list (list Z)) : list (list Z) :=
  if tot_len q <=? n then q else shrink_chain n q.

(** Received segments have their header in host byte order. *)
Definition rx_seqno (s : tcp_seg) : Z := th_seqno (tcphdr s).

(** Cut a queued or incoming segment to the bytes before [upto]. *)
Definition trim_end (upto : Z) (s : tcp_seg) : tcp_seg :=
  let n := u16 (upto - rx_seqno s) in
  mkSeg (pbuf_realloc n (p s)) n (tcphdr s).

(** The loop that finds the place of [ins] on [ooseq]; [copy_ok]: [tcp_seg_copy]
    has memory.  The result is the list from [prev] on. *)
Fixpoint ooseq_insert (copy_ok : bool) (prev : option tcp_seg) (ins : tcp_seg) (q : list tcp_seg)
    : list tcp_seg :=
  let back := match prev with Some s => [s] | None => [] end in
  match q with
  | [] => back
  | next :: q' =>
      if rx_seqno ins =? rx_seqno next then
        if (len next <? len ins) && copy_ok then back ++ ins :: q' else back ++ q
      else
        let ins' := if TCP_SEQ_GT (u32 (rx_seqno ins + len ins)) (rx_seqno next)
                    then trim_end (rx_seqno next) ins else ins in
        let here :=
          match prev with
          | None => TCP_SEQ_LT (rx_seqno ins) (rx_seqno next)
          | Some s => TCP_SEQ_BETWEEN (rx_seqno ins) (u32 (rx_seqno s + 1)) (u32 (rx_seqno next - 1))
          end in
        if here then
          if copy_ok then
            match prev with
            | None => ins' :: q
            | Some s =>
                (if TCP_SEQ_GT (u32 (rx_seqno s + len s)) (rx_seqno ins)
                 then trim_end (rx_seqno ins) s else s) :: ins' :: q
            end
          else back ++ q
        else
          match q' with
          | [] =>
              if TCP_SEQ_GT (rx_seqno ins) (rx_seqno next) && copy_ok then
                back ++ [if TCP_SEQ_GT (u32 (rx_seqno next + len next)) (rx_seqno ins)
                         then trim_end (rx_seqno ins) next else next; ins]
              else back ++ q
          | _ => back ++ ooseq_insert copy_ok (Some next) ins q'
          end
  end.

(** [rcv_wnd] after [n] bytes have been received. *)
Definition shrink_wnd (n wnd : Z) : Z := if wnd <? n then 0 else wnd - n.

(** The segments of [ooseq] that are now in sequence. *)
Fixpoint dequeue_ooseq (q : list tcp_seg) (i : input) (pcb : tcp_pcb) : input * tcp_pcb :=
  match q with
  | [] => (i, pcb <| ooseq := [] |>)
  | s :: q' =>
      if rx_seqno s =? rcv_nxt pcb then
        let n := TCP_TCPLEN s in
        let pcb := pcb <| rcv_nxt := u32 (rcv_nxt pcb + n) |> <| rcv_wnd := shrink_wnd n (rcv_wnd pcb) |> in
        let i := i <| seqno := rx_seqno s |> in
        let i := if 0 <? tot_len (p s)
                 then i <| recv_data := Some (match recv_data i with Some d => d ++ p s | None => p s end) |>
                 else i in
        let i := if Z.land (TCPH_FLAGS (tcphdr s)) TCP_FIN =? 0 then i
                 else i <| recv_flags := TF_GOT_FIN |> in
        dequeue_ooseq q' i pcb
      else (i, pcb <| ooseq := q |>)
  end.

(** Trim the end of the incoming segment at the first segment of [ooseq]: the
    data and their length. *)
Definition trim_overlap (i : input) (q : list (list Z)) (oo : list tcp_seg) : list (list Z) * Z :=
  match oo with
  | s :: _ =>
      if TCP_SEQ_LEQ (rx_seqno s) (u32 (seqno i + in_len i))
      then let n := u16 (rx_seqno s - seqno i) in (pbuf_realloc n q, n)
      else (q, in_len i)
  | [] => (q, in_len i)
  end.

(** The incoming segment is the next in sequence. *)
Definition receive_inseq (i : input) (q : list (list Z)) (pcb : tcp_pcb) : input * tcp_pcb :=
  let '(q, n) := trim_overlap i q (ooseq pcb) in
  let tl := u16 (n + syn_fin (TCPH_FLAGS (in_hdr i))) in
  let i := i <| in_len := n |> <| tcplen := tl |> in
  let pcb := pcb <| rcv_nxt := u32 (rcv_nxt pcb + tl) |> <| rcv_wnd := shrink_wnd tl (rcv_wnd pcb) |> in
  let i := if 0 <? tot_len q then i <| recv_data := Some q |> <| in_p := None |>
           else i <| in_p := Some q |> in
  let i := if Z.land (TCPH_FLAGS (in_hdr i)) TCP_FIN =? 0 then i
           else i <| recv_flags := TF_GOT_FIN |> in
  let '(i, pcb) := dequeue_ooseq (ooseq pcb) i pcb in
  (i, ack_in pcb).

(** The incoming segment is out of sequence. *)
Definition receive_ooseq (copy_ok : bool) (i : input) (q : list (list Z)) (pcb : tcp_pcb) : tcp_pcb :=
  let pcb := ack_now_in pcb in
  let ins := mkSeg q (in_len i) (in_hdr i) in
  match ooseq pcb with
  | [] => if copy_ok then pcb <| ooseq := [ins] |> else pcb
  | _ => pcb <| ooseq := ooseq_insert copy_ok None ins (ooseq pcb) |>
  end.

(** Trim what has been received already off the front of the segment. *)
Definition receive_trim (i : input) (q : list (list Z)) (pcb : tcp_pcb)
    : option (input * list (list Z) * tcp_pcb) :=
  if TCP_SEQ_BETWEEN (rcv_nxt pcb) (u32 (seqno i + 1)) (u32 (seqno i + tcplen i - 1)) then
    let off := s32 (rcv_nxt pcb - seqno i) in
    match trim_front off q with
    | None => None
    | Some q =>
        Some (i <| in_p := Some q |> <| in_len := u16 (in_len i - u32 (rcv_nxt pcb - seqno i)) |>
                <| in_hdr := (in_hdr i) <| th_seqno := rcv_nxt pcb |> |> <| seqno := rcv_nxt pcb |>, q, pcb)
    end
  else Some (i, q, if TCP_SEQ_LT (seqno i) (rcv_nxt pcb) then ack_now_in pcb else pcb).

Definition in_window (s : Z) (pcb : tcp_pcb) : bool :=
  TCP_SEQ_BETWEEN s (rcv_nxt pcb) (u32 (rcv_nxt pcb + rcv_wnd pcb - 1)).

(** What [tcp_receive] does for the data. *)
Definition receive_data (copy_ok : bool) (i : input) (pcb : tcp_pcb) : option (input * tcp_pcb) :=
  if 0 <? tcplen i then
    match in_p i with
    | None => None
    | Some q =>
        match receive_trim i q pcb with
        | None => None
        | Some (i, q, pcb) =>
            Some (if in_window (seqno i) pcb then
                    if rcv_nxt pcb =? seqno i then receive_inseq i q pcb
                    else (i, receive_ooseq copy_ok i q pcb)
                  else (i, ack_now_in pcb))
        end
    end
  else Some (i, if in_window (seqno i) pcb then pcb else ack_now_in pcb).

(** [static void tcp_receive(struct tcp_pcb *pcb)] *)
Definition tcp_receive (ticks : Z) (copy_ok : bool) (i : input) (pcb : tcp_pcb) : option (input * tcp_pcb) :=
  match (if in_has TCP_ACK i then receive_ack ticks i pcb else Some pcb) with
  | None => None
  | Some pcb => receive_data copy_ok i pcb
  end.

(** ** Options *)

(** The loop of [tcp_parseopt], [c] being an [u8_t]: the MSS option, if any. *)
Fixpoint parse_opts (fuel : nat) (os : list Z) (limit c : Z) : outcome (option Z) :=
  match fuel with
  | O => OutOfFuel
  | S fuel =>
      if c <? limit then
        match os !! Z.to_nat c with
        | None => Fault
        | Some opt =>
            if opt =? 0 then Done None
            else if opt =? 1 then parse_opts fuel os limit (u8 (c + 1))
            else
              match os !! Z.to_nat (c + 1) with
              | None => Fault
              | Some l =>
                  if (opt =? 2) && (l =? 4) then
                    match os !! Z.to_nat (c + 2), os !! Z.to_nat (c + 3) with
                    | Some hi, Some lo => Done (Some (Z.lor (Z.shiftl hi 8) lo))
                    | _, _ => Fault
                    end
                  else if l =? 0 then Done None
                  else parse_opts fuel os limit (u8 (c + l))
              end
        end
      else Done None
  end.

(** [static void tcp_parseopt(struct tcp_pcb *pcb)] *)
Definition tcp_parseopt (fuel : nat) (i : input) (pcb : tcp_pcb) : outcome tcp_pcb :=
  if 5 <? TCPH_HDRLEN (in_hdr i) then
    match parse_opts fuel (opts i) (Z.shiftl (TCPH_HDRLEN (in_hdr i) - 5) 2) 0 with
    | Done (Some m) => Done (pcb <| mss := if TCP_MSS <? m then TCP_MSS else m |>)
    | Done None => Done pcb
    | Fault => Fault
    | OutOfFuel => OutOfFuel
    end
  else Done pcb.

(** ** The state machine *)

(** What becomes of the control block: it stays where it is, moves to the list
    of the connections in TIME-WAIT, or has been freed by [tcp_abort]. *)
Inductive fate := Stay | ToTimeWait | Aborted.

Record processed := mkProcessed {
  pr_err : Z; pr_in : input; pr_pcb : tcp_pcb; pr_out : list packet; pr_fate : fate
}.

(** [tcp_ack_now(pcb); tcp_pcb_purge(pcb); TCP_RMV(&tcp_active_pcbs, pcb);
    pcb->state = TIME_WAIT; TCP_REG(&tcp_tw_pcbs, pcb)] *)
Definition to_time_wait (i : input) (pcb : tcp_pcb) : processed :=
  mkProcessed ERR_OK i ((tcp_pcb_purge (ack_now_in pcb)) <| state := TIME_WAIT |>) [] ToTimeWait.

Definition stay (i : input) (pcb : tcp_pcb) : processed := mkProcessed ERR_OK i pcb [] Stay.

Section Process.
Context {A : App} (ticks : Z) (copy_ok rst_ok : bool) (fuel : nat) (src_ip dest_ip : Z).

(** The reset sent to a segment that does not fit. *)
Definition reset_reply (i : input) : list packet :=
  tcp_rst rst_ok (ackno i) (u32 (seqno i + tcplen i)) dest_ip src_ip
    (th_dest (in_hdr i)) (th_src (in_hdr i)).

Definition process_rst (i : input) (pcb : tcp_pcb) : processed :=
  let acceptable :=
    match state pcb with
    | SYN_SENT => ackno i =? snd_nxt pcb
    | _ => TCP_SEQ_BETWEEN (seqno i) (rcv_nxt pcb) (u32 (rcv_nxt pcb + rcv_wnd pcb))
    end in
  if acceptable
  then mkProcessed ERR_RST (i <| recv_flags := TF_RESET |>) (clear_flags TF_ACK_DELAY pcb) [] Stay
  else stay i pcb.

Definition process_syn_sent (i : input) (pcb : tcp_pcb) : outcome processed :=
  if in_has TCP_ACK i then
    if in_has TCP_SYN i then
      match unacked pcb with
      | [] => Fault
      | rseg :: rest =>
          if ackno i =? u32 (ntohl (th_seqno (tcphdr rseg)) + 1) then
            let pcb := pcb <| snd_buf := u16 (snd_buf pcb + 1) |> <| rcv_nxt := u32 (seqno i + 1) |>
                           <| lastack := ackno i |> <| snd_wnd := th_wnd (in_hdr i) |>
                           <| snd_wl1 := u32 (seqno i - 1) |> <| state := ESTABLISHED |>
                           <| cwnd := mss pcb |> <| snd_queuelen := u8 (snd_queuelen pcb - 1) |>
                           <| unacked := rest |> in
            match tcp_parseopt fuel i pcb with
            | Done pcb => Done (stay i (ack_in (on_connected pcb)))
            | Fault => Fault
            | OutOfFuel => OutOfFuel
            end
          else Done (mkProcessed ERR_OK i pcb (reset_reply i) Stay)
      end
    else Done (mkProcessed ERR_OK i pcb (reset_reply i) Stay)
  else Done (stay i pcb).

(** [tcp_receive], then the rest. *)
Definition after_receive (i : input) (pcb : tcp_pcb) (k : input -> tcp_pcb -> processed) : outcome processed :=
  match tcp_receive ticks copy_ok i pcb with
  | None => Fault
  | Some (i, pcb) => Done (k i pcb)
  end.

Definition process_syn_rcvd (i : input) (pcb : tcp_pcb) : outcome processed :=
  if in_has TCP_ACK i && negb (in_has TCP_RST i) then
    if TCP_SEQ_BETWEEN (ackno i) (u32 (lastack pcb + 1)) (snd_nxt pcb) then
      let '(err, pcb) := on_accept (pcb <| state := ESTABLISHED |>) in
      if err =? ERR_OK then
        after_receive i pcb (fun i pcb => stay i (pcb <| cwnd := mss pcb |>))
      else
        Done (mkProcessed ERR_ABRT i pcb
          (tcp_rst rst_ok (snd_nxt pcb) (rcv_nxt pcb) (local_ip pcb) (remote_ip pcb)
             (local_port pcb) (remote_port pcb)) Aborted)
    else Done (mkProcessed ERR_OK i pcb (reset_reply i) Stay)
  else Done (stay i pcb).

(** The segment acknowledges everything sent, our FIN included. *)
Definition acks_all (i : input) (pcb : tcp_pcb) : bool := in_has TCP_ACK i && (ackno i =? snd_nxt pcb).

(** [static err_t tcp_process(struct tcp_pcb *pcb)] *)
Definition tcp_process (i : input) (pcb : tcp_pcb) : outcome processed :=
  if in_has TCP_RST i then Done (process_rst i pcb)
  else
    let pcb := pcb <| tmr := ticks |> <| keep_cnt := 0 |> in
    match state pcb with
    | SYN_SENT => process_syn_sent i pcb
    | SYN_RCVD => process_syn_rcvd i pcb
    | CLOSE_WAIT | ESTABLISHED =>
        after_receive i pcb (fun i pcb =>
          if in_has TCP_FIN i then stay i ((ack_now_in pcb) <| state := CLOSE_WAIT |>) else stay i pcb)
    | FIN_WAIT_1 =>
        after_receive i pcb (fun i pcb =>
          if in_has TCP_FIN i then
            if acks_all i pcb then to_time_wait i pcb
            else stay i ((ack_now_in pcb) <| state := CLOSING |>)
          else if acks_all i pcb then stay i (pcb <| state := FIN_WAIT_2 |>) else stay i pcb)
    | FIN_WAIT_2 =>
        after_receive i pcb (fun i pcb => if in_has TCP_FIN i then to_time_wait i pcb else stay i pcb)
    | CLOSING =>
        after_receive i pcb (fun i pcb => if acks_all i pcb then to_time_wait i pcb else stay i pcb)
    | LAST_ACK =>
        after_receive i pcb (fun i pcb =>
          if acks_all i pcb
          then stay (i <| recv_flags := TF_CLOSED |>) (pcb <| state := CLOSED |>) else stay i pcb)
    | _ => Done (stay i pcb)
    end.

End Process.
