(* ===== verification/TcpInput.v ===== *)
(** * TcpInput: the way of a TCP segment into the stack

    [tcp_input], [tcp_listen_input] and [tcp_timewait_input] of
    [nsc-0.5.3/lwip-HEAD/src/core/tcp_in.c]: the checks on the segment, the
    search for the connection it belongs to, and what is done with the result of
    [tcp_process] ([TcpIn]).

    The packet is the chain of its payloads from the IP header on, in pbufs that
    own their memory ([PBUF_RAM], [PBUF_POOL]): for these [pbuf_header] moves the
    payload pointer forward without a test, so that moving it over the end of the
    pbuf is a fault here.  The IP header is in the first pbuf ([ip_input] tests
    it). *)
From Stdlib Require Import ZArith Lia List Bool.
From stdpp Require Import base gmap list.
From coqutil Require Import Datatypes.RecordSetters.
From S2P Require Import IpFrag Prelude Inet IpAddr Tcp TcpOut TcpPcb TcpIn.
Import ListNotations.
#[local] Open Scope Z_scope.
#[local] Open Scope sm_scope.

(** ** Headers in memory *)

(** The header at the start of a payload. *)
Definition tcp_hdr_at (data : list Z) : option tcp_hdr :=
  match data with
  | b0 :: b1 :: b2 :: b3 :: b4 :: b5 :: b6 :: b7 :: b8 :: b9 ::
    b10 :: b11 :: b12 :: b13 :: b14 :: b15 :: b16 :: b17 :: b18 :: b19 :: _ =>
      Some (mkTcpHdr (b0 + 256 * b1) (b2 + 256 * b3) (word32 b4 b5 b6 b7) (word32 b8 b9 b10 b11)
              (b12 + 256 * b13) (b14 + 256 * b15) (b16 + 256 * b17) (b18 + 256 * b19))
  | _ => None
  end.

(** [pbuf_header(p, -n)] *)
Definition hide_header (n : Z) (q : list (list Z)) : option (list (list Z)) :=
  match q with
  | s :: q => if n <=? Z.of_nat (length s) then Some (drop (Z.to_nat n) s :: q) else None
  | [] => None
  end.

(** The fields of the header in host byte order. *)
Definition hdr_to_host (h : tcp_hdr) : tcp_hdr :=
  mkTcpHdr (ntohs (th_src h)) (ntohs (th_dest h)) (ntohl (th_seqno h)) (ntohl (th_ackno h))
    (_hdrlen_rsvd_flags h) (ntohs (th_wnd h)) (th_chksum h) (th_urgp h).

(** The static variables for the segment [q], the payload behind the IP header. *)
Definition set_input (q : list (list Z)) : option input :=
  match tcp_hdr_at (hd [] q), q with
  | Some h, s :: _ =>
      match hide_header (TCPH_HDRLEN h * 4) q with
      | None => None
      | Some d =>
          let h := hdr_to_host h in
          Some (mkInput (Some d) (u16 (tot_len d)) h (drop (Z.to_nat TCP_HLEN) s)
                  (th_seqno h) (th_ackno h) (TCPH_FLAGS h)
                  (u16 (tot_len d + syn_fin (TCPH_FLAGS h))) 0 None)
      end
  | _, _ => None
  end.

(** ** Demultiplexing *)

(** The connection is that of the segment. *)
Definition conn_matches (i : input) (src dest : Z) (pcb : tcp_pcb) : bool :=
  (remote_port pcb =? th_src (in_hdr i)) && (local_port pcb =? th_dest (in_hdr i)) &&
  (remote_ip pcb =? src) && (local_ip pcb =? dest).

Definition listen_matches (i : input) (dest : Z) (l : tcp_pcb_listen) : bool :=
  (ip_addr_isany (Some (l_local_ip l)) || (l_local_ip l =? dest)) && (l_local_port l =? th_dest (in_hdr i)).

(** The first element of a list of control blocks with the property [m];
    [None]: the list goes through a block that is not in use. *)
Fixpoint find_block {T} (blocks : gmap nat T) (m : T -> bool) (l : list nat) : option (option nat) :=
  match l with
  | [] => Some None
  | x :: l =>
      match blocks !! x with
      | None => None
      | Some b => if m b then Some (Some x) else find_block blocks m l
      end
  end.

Section Input.
Context {A : App} {V : Env}.

(** One option byte is looked at once, unless the loop does not end. *)
Definition opt_fuel : nat := 41.

Definition tcp_parseopt_at (x : nat) (i : input) : TM unit :=
  pcb <- get x ;;
  match tcp_parseopt opt_fuel i pcb with
  | Done pcb => put x pcb
  | _ => sm_fail
  end.

(** The control block of a connection asked for. *)
Definition syn_rcvd_pcb (l : tcp_pcb_listen) (i : input) (src dest : Z) (pcb : tcp_pcb) : tcp_pcb :=
  pcb <| local_ip := dest |> <| local_port := l_local_port l |> <| remote_ip := src |>
      <| remote_port := th_src (in_hdr i) |> <| state := SYN_RCVD |> <| rcv_nxt := u32 (seqno i + 1) |>
      <| snd_wnd := th_wnd (in_hdr i) |> <| ssthresh := th_wnd (in_hdr i) |>
      <| snd_wl1 := u32 (seqno i - 1) |> <| so_options := Z.land (l_so_options l) 409 |>.

(** [static err_t tcp_listen_input(struct tcp_pcb_listen *pcb)] *)
Definition tcp_listen_input (l : tcp_pcb_listen) (i : input) (src dest : Z) : TM unit :=
  if in_has TCP_ACK i then
    send (tcp_rst pbuf_ok (u32 (ackno i + 1)) (u32 (seqno i + tcplen i)) dest src
            (th_dest (in_hdr i)) (th_src (in_hdr i)))
  else if in_has TCP_SYN i then
    x <- tcp_alloc (l_prio l) ;;
    match x with
    | None => sm_ret tt
    | Some x =>
        change x (syn_rcvd_pcb l i src dest) ;;
        sm_modify (fun g => g <| tcp_active_pcbs ::= cons x |>) ;;
        tcp_parseopt_at x i ;;
        pcb <- get x ;;
        tcp_enqueue_at x [] (Z.lor TCP_SYN TCP_ACK) false (Some (mss_option (mss pcb))) ;;
        tcp_output_at x ;;
        sm_ret tt
    end
  else sm_ret tt.

(** [static err_t tcp_timewait_input(struct tcp_pcb *pcb)] *)
Definition tcp_timewait_input (x : nat) (i : input) : TM unit :=
  change x (fun pcb => if TCP_SEQ_GT (u32 (seqno i + tcplen i)) (rcv_nxt pcb)
                       then pcb <| rcv_nxt := u32 (seqno i + tcplen i) |> else pcb) ;;
  (if 0 <? tcplen i then tcp_ack_now_at x else sm_ret tt) ;;
  tcp_output_at x ;;
  sm_ret tt.

(** ** Segments of a connection *)

(** A callback that [tcp_input] calls; [err] keeps its value when there is none. *)
Definition call_back (x : nat) (r : tcp_pcb -> option (Z * tcp_pcb * list packet)) (err : Z) : TM Z :=
  pcb <- get x ;;
  match r pcb with
  | Some (err, pcb, ps) => put x pcb ;; send ps ;; sm_ret err
  | None => sm_ret err
  end.

(** The application is told of acknowledged and of received data, and of the end
    of the peer's data. *)
Definition notify (x : nat) (i : input) : TM unit :=
  pcb <- get x ;;
  err <- (if 0 <? acked pcb then call_back x (on_sent (acked pcb)) ERR_OK else sm_ret ERR_OK) ;;
  err <- (match recv_data i with
          | Some d => call_back x (on_recv (Some d)) err
          | None => sm_ret err
          end) ;;
  err <- (if Z.land (recv_flags i) TF_GOT_FIN =? 0 then sm_ret err else call_back x (on_recv None) err) ;;
  if err =? ERR_OK then tcp_output_at x ;; sm_ret tt else sm_ret tt.

(** What [tcp_process] did with the lists. *)
Definition settle (x : nat) (f : fate) : TM unit :=
  match f with
  | Stay => sm_ret tt
  | ToTimeWait => sm_modify (fun g => g <| tcp_active_pcbs ::= TCP_RMV x |> <| tcp_tw_pcbs ::= cons x |>)
  | Aborted =>
      sm_modify (fun g => g <| tcp_active_pcbs ::= TCP_RMV x |>) ;; memp_free x ;; tell x ERR_ABRT
  end.

(** The connection at [x] gets the segment [i]; while [tcp_process] runs
    [tcp_input_pcb] is the connection. *)
Definition tcp_input_conn (x : nat) (i : input) (src dest : Z) : TM unit :=
  pcb <- get x ;;
  g <- sm_get ;;
  match tcp_process (tcp_ticks g) (seg_ok 0) pbuf_ok opt_fuel src dest i pcb with
  | Done r =>
      sm_modify (fun g => g <| tcp_input_pcb := Some x |>) ;;
      put x (pr_pcb r) ;;
      settle x (pr_fate r) ;;
      send (pr_out r) ;;
      sm_modify (fun g => g <| tcp_input_pcb := None |>) ;;
      if pr_err r =? ERR_ABRT then sm_ret tt
      else if negb (Z.land (recv_flags (pr_in r)) TF_RESET =? 0) then
        tell x ERR_RST ;; tcp_pcb_remove_active x ;; memp_free x
      else if negb (Z.land (recv_flags (pr_in r)) TF_CLOSED =? 0) then
        tcp_pcb_remove_active x ;; memp_free x
      else notify x (pr_in r)
  | _ => sm_fail
  end.

(** The lists are searched one after the other; what is found goes to the front
    of its list, unless it is in TIME-WAIT. *)
Definition demux (i : input) (src dest : Z) : TM unit := fun g =>
  match find_block (pcbs g) (conn_matches i src dest) (tcp_active_pcbs g) with
  | None => None
  | Some (Some x) =>
      tcp_input_conn x i src dest (g <| tcp_active_pcbs ::= fun l => x :: TCP_RMV x l |>)
  | Some None =>
      match find_block (pcbs g) (conn_matches i src dest) (tcp_tw_pcbs g) with
      | None => None
      | Some (Some x) => tcp_timewait_input x i g
      | Some None =>
          match find_block (lpcbs g) (listen_matches i dest) (tcp_listen_pcbs g) with
          | None => None
          | Some (Some x) =>
              match lpcbs g !! x with
              | Some l => tcp_listen_input l i src dest (g <| tcp_listen_pcbs ::= fun q => x :: TCP_RMV x q |>)
              | None => None
              end
          | Some None =>
              if in_has TCP_RST i then Some (tt, g)
              else send (tcp_rst pbuf_ok (ackno i) (u32 (seqno i + tcplen i)) dest src
                           (th_dest (in_hdr i)) (th_src (in_hdr i))) g
          end
      end
  end.

(** [void tcp_input(struct pbuf *p, struct netif *inp)] *)
Definition tcp_input (inp : netif) (p : list (list Z)) : TM unit :=
  match hdr_at (hd [] p) with
  | None => sm_fail
  | Some iphdr =>
      match hide_header (IPH_HL iphdr * 4) p with
      | None => sm_fail
      | Some q =>
          if tot_len q <? TCP_HLEN then sm_ret tt
          else if ip_addr_isbroadcast (IpFrag.dest iphdr) inp || ip_addr_ismulticast (IpFrag.dest iphdr) then sm_ret tt
          else if negb (inet_chksum_pseudo q (IpFrag.src iphdr) (IpFrag.dest iphdr) IP_PROTO_TCP (tot_len q) =? 0)
          then sm_ret tt
          else
            match set_input q with
            | None => sm_fail
            | Some i => demux i (IpFrag.src iphdr) (IpFrag.dest iphdr)
            end
      end
  end.

End Input.
