(* ===== verification/TcpTx.v ===== *)
(** * TcpTx: the send queue

    [tcp_enqueue] and [tcp_output] ([TcpOut]): the stream is cut in segments and
    put at the end of [unsent], nothing is lost on the way to [unacked], and no
    more is sent than the windows allow. *)
From Stdlib Require Import ZArith Lia List Bool.
From stdpp Require Import base list.
From coqutil Require Import Datatypes.RecordSetters.
From S2P Require Import Prelude Inet Tcp TcpOut TcpPcb.
Import ListNotations.
#[local] Open Scope Z_scope.

(** ** Flags of a header *)

Lemma lor_fits w a b : 0 <= w -> fits w a -> fits w b -> fits w (Z.lor a b).
Proof.
  intros Hw A B. assert (E : Z.lor a b = wrap w (Z.lor a b)).
  { unfold wrap. rewrite <- Z.land_ones, Z.land_lor_distr_l, !Z.land_ones by exact Hw. f_equal; symmetry; now apply Z.mod_small. }
  rewrite E. now apply wrap_fits.
Qed.

Lemma set_flag_word f h : fits 16 (_hdrlen_rsvd_flags h) -> fits 16 f ->
  ntohs (_hdrlen_rsvd_flags (TCPH_SET_FLAG f h)) = Z.lor (ntohs (_hdrlen_rsvd_flags h)) f.
Proof.
  intros Hh Hf. unfold TCPH_SET_FLAG. upd. unfold ntohs.
  assert (L : fits 16 (Z.lor (htons (_hdrlen_rsvd_flags h)) f)) by (apply lor_fits; auto using htons_fits; lia).
  rewrite wrap_small by exact L. now apply htons_htons.
Qed.

Lemma flags_set_flag f h : fits 16 (_hdrlen_rsvd_flags h) -> fits 6 f ->
  TCPH_FLAGS (TCPH_SET_FLAG f h) = Z.lor (TCPH_FLAGS h) f.
Proof.
  intros Hh Hf. unfold TCPH_FLAGS. rewrite set_flag_word; [|exact Hh | unfold fits in *; pow2; lia].
  rewrite Z.land_lor_distr_l. f_equal. change TCP_FLAGS with (2 ^ 6 - 1).
  rewrite land_ones_mod by lia. now apply Z.mod_small.
Qed.

Lemma set_flag_fits f h : fits 16 (_hdrlen_rsvd_flags h) -> fits 16 (_hdrlen_rsvd_flags (TCPH_SET_FLAG f h)).
Proof. intros _. unfold TCPH_SET_FLAG. upd. apply htons_fits, wrap_fits. lia. Qed.

(** Flags that do not count in sequence numbers. *)
Lemma syn_fin_lor a f : Z.land f 3 = 0 -> syn_fin (Z.lor a f) = syn_fin a.
Proof.
  intros H. assert (F : forall g, Z.land g 3 = g -> Z.land f g = 0).
  { intros g Hg. rewrite <- Hg, (Z.land_comm g 3), Z.land_assoc, H. apply Z.land_0_l. }
  unfold syn_fin. rewrite !Z.land_lor_distr_l, (F TCP_FIN), (F TCP_SYN), !Z.lor_0_r by reflexivity. reflexivity.
Qed.

(** The header of a new segment. *)
Lemma seg_hdr_eq pcb seqno fl o : fits 6 fl -> let n := match o with None => 5 | Some o => 5 + Z.of_nat (length o) / 4 end in
  n < 16 -> seg_hdr pcb seqno fl o =
    mkTcpHdr (htons (local_port pcb)) (htons (remote_port pcb)) (htonl seqno) 0 (htons (4096 * n + fl)) 0 0 0.
Proof.
  intros Hf n Hn. assert (N : 5 <= n) by (unfold n; destruct o; [pose proof (Z.div_pos (Z.of_nat (length l)) 4 ltac:(lia) ltac:(lia))|]; lia).
  unfold fits in Hf. pow2. unfold seg_hdr, TCPH_HDRLEN_SET, TCPH_FLAGS_SET, TCPH_FLAGS, ntohs. fold n. upd.
  cbn [_hdrlen_rsvd_flags]. change (htons 0) with 0. rewrite Z.land_0_l, Z.lor_0_l.
  rewrite (wrap_small 16 fl) by (unfold fits; pow2; lia). rewrite htons_htons by (unfold fits; pow2; lia).
  change TCP_FLAGS with (2 ^ 6 - 1). rewrite land_ones_mod, (Z.mod_small fl) by (pow2; lia).
  rewrite shiftl_mul by lia. rewrite lor_add by (pow2; lia). rewrite wrap_small by (unfold fits; pow2; lia).
  rewrite (Z.mul_comm n). reflexivity.
Qed.

Lemma seg_hdr_len pcb seqno fl o : fits 6 fl -> match o with None => True | Some o => (length o <= 40)%nat end ->
  TCPH_HDRLEN (seg_hdr pcb seqno fl o) = 5 + match o with None => 0 | Some o => Z.of_nat (length o) / 4 end /\
  TCPH_FLAGS (seg_hdr pcb seqno fl o) = fl /\ fits 16 (_hdrlen_rsvd_flags (seg_hdr pcb seqno fl o)) /\
  th_seqno (seg_hdr pcb seqno fl o) = htonl seqno.
Proof.
  intros Hf Ho. set (m := match o with None => 0 | Some o => Z.of_nat (length o) / 4 end).
  assert (M : 0 <= m <= 10) by (unfold m; destruct o; [zmod_lia | lia]).
  assert (E : (match o with None => 5 | Some o => 5 + Z.of_nat (length o) / 4 end) = 5 + m) by (unfold m; now destruct o).
  rewrite seg_hdr_eq; [|exact Hf|rewrite E; lia]. rewrite E. unfold fits in Hf. pow2.
  assert (F : fits 16 (4096 * (5 + m) + fl)) by (unfold fits; pow2; lia).
  unfold TCPH_HDRLEN, TCPH_FLAGS, ntohs. cbn [_hdrlen_rsvd_flags th_seqno]. rewrite htons_htons by exact F.
  split_and!; [| |apply htons_fits; exact F | reflexivity].
  - rewrite shiftr_div by lia. pow2. zmod_lia.
  - change TCP_FLAGS with (2 ^ 6 - 1). rewrite land_ones_mod by lia. pow2. zmod_lia.
Qed.

(** ** Queues *)

(** The segments of a queue follow each other in the sequence space. *)
Fixpoint contiguous (from : Z) (q : list tcp_seg) (to : Z) : Prop :=
  match q with
  | [] => from = to
  | s :: q => ntohl (th_seqno (tcphdr s)) = from /\ contiguous (u32 (from + TCP_TCPLEN s)) q to
  end.

(** The payload of a segment lies behind its options. *)
Definition opt_len (s : tcp_seg) : Z := 4 * (TCPH_HDRLEN (tcphdr s) - 5).
Definition seg_data (s : tcp_seg) : list Z := drop (Z.to_nat (opt_len s)) (concat (p s)).
Definition queue_data (q : list tcp_seg) : list Z := concat (map seg_data q).

(** A segment as [tcp_enqueue] makes them, for a maximal size [m]. *)
Record seg_wf (m : Z) (s : tcp_seg) : Prop := {
  sw_hdr : fits 16 (_hdrlen_rsvd_flags (tcphdr s));
  sw_opts : 0 <= opt_len s;
  sw_tot : tot_len (p s) = opt_len s + len s;
  sw_len : 0 <= len s <= m
}.

Lemma contiguous_app q1 q2 : forall a c, contiguous a (q1 ++ q2) c <-> exists b, contiguous a q1 b /\ contiguous b q2 c.
Proof.
  induction q1 as [|s q1 IH]; intros a c; cbn [app contiguous]; [naive_solver|].
  rewrite IH. naive_solver.
Qed.

Lemma queue_data_app q1 q2 : queue_data (q1 ++ q2) = queue_data q1 ++ queue_data q2.
Proof. unfold queue_data. now rewrite map_app, concat_app. Qed.

Lemma opt_len_flag f s : fits 16 (_hdrlen_rsvd_flags (tcphdr s)) -> fits 6 f ->
  TCPH_HDRLEN (TCPH_SET_FLAG f (tcphdr s)) = TCPH_HDRLEN (tcphdr s).
Proof.
  intros Hs Hf. unfold TCPH_HDRLEN. rewrite set_flag_word; [|exact Hs | unfold fits in *; pow2; lia].
  rewrite Z.shiftr_lor, (Z.shiftr_eq_0 f 12), Z.lor_0_r; [reflexivity| |].
  - apply Hf.
  - unfold fits in Hf. destruct (Z.eq_dec f 0) as [->|]; [reflexivity|]. apply Z.log2_lt_pow2; pow2; lia.
Qed.

(** Setting a flag changes nothing else about a segment. *)
Definition with_flag (f : Z) (s : tcp_seg) : tcp_seg := mkSeg (p s) (len s) (TCPH_SET_FLAG f (tcphdr s)).

Section Flag.
Context (f : Z) (Hf : fits 6 f) (H3 : Z.land f 3 = 0) (m : Z) (s : tcp_seg) (W : seg_wf m s).

Lemma with_flag_wf : seg_wf m (with_flag f s).
Proof using Hf W.
  destruct W as [W1 W2 W3 W4]. assert (E : opt_len (with_flag f s) = opt_len s) by (unfold opt_len; cbn; now rewrite opt_len_flag).
  constructor; rewrite ?E; trivial. now apply set_flag_fits.
Qed.

Lemma with_flag_tcplen : TCP_TCPLEN (with_flag f s) = TCP_TCPLEN s.
Proof using Hf H3 W.
  unfold TCP_TCPLEN. cbn. rewrite flags_set_flag by (apply W || exact Hf). now rewrite syn_fin_lor.
Qed.

Lemma with_flag_data : seg_data (with_flag f s) = seg_data s.
Proof using Hf W. unfold seg_data, opt_len. cbn. rewrite opt_len_flag by (apply W || exact Hf). reflexivity. Qed.

End Flag.

Lemma map_last_app g q s : map_last g (q ++ [s]) = q ++ [g s].
Proof. induction q as [|x q IH]; [reflexivity|]. cbn [app map_last]. rewrite IH. now destruct q. Qed.

Lemma last_split (q : list tcp_seg) : q = [] \/ exists q' s, q = q' ++ [s] /\ last q = Some s.
Proof. destruct q as [|s q _] using rev_ind; [now left|]. right. exists q, s. now rewrite last_snoc. Qed.

(** PSH on the last segment. *)
Lemma psh_last m q a b : contiguous a q b -> Forall (seg_wf m) q ->
  contiguous a (map_last set_psh q) b /\ Forall (seg_wf m) (map_last set_psh q) /\
  queue_data (map_last set_psh q) = queue_data q.
Proof.
  intros C F. destruct (last_split q) as [->|(q' & s & -> & _)]; [now split_and!|].
  rewrite map_last_app. change (set_psh s) with (with_flag TCP_PSH s).
  apply Forall_app in F as [F1 F2]. apply Forall_inv in F2 as W.
  assert (Hf : fits 6 TCP_PSH) by now split.
  split_and!.
  - apply contiguous_app in C as (c & C1 & C2 & C3). apply contiguous_app. exists c. split; [exact C1|].
    cbn [contiguous]. split; [exact C2|]. now rewrite (with_flag_tcplen TCP_PSH Hf eq_refl m s W).
  - apply Forall_app_2; [exact F1|]. constructor; [|constructor]. now apply with_flag_wf.
  - rewrite !queue_data_app. f_equal. unfold queue_data. cbn. now rewrite (with_flag_data TCP_PSH Hf m s W).
Qed.

(** ** Cutting the data *)

Fixpoint pbufs (q : list tcp_seg) : Z :=
  match q with [] => 0 | s :: q => Z.of_nat (length (p s)) + pbufs q end.

Lemma pbufs_nonneg q : 0 <= pbufs q.
Proof. induction q; cbn; lia. Qed.

(** What the callers of [tcp_enqueue] give it: data alone, or a flag, perhaps with
    options. *)
Record enq_args (data : list Z) (fl : Z) (o : option (list Z)) : Prop := {
  ea_fl : fits 6 fl;
  ea_alone : syn_fin fl = 1 -> data = [];
  ea_opts : match o with None => True | Some o => (length o <= 40)%nat /\ Z.of_nat (length o) mod 4 = 0 /\ syn_fin fl = 1 end
}.

Lemma syn_fin_01 fl : syn_fin fl = 0 \/ syn_fin fl = 1.
Proof. unfold syn_fin. destruct (_ && _); auto. Qed.

(** The flags of a new segment, and whether it has options. *)
Definition made_with (fl : Z) (o : option (list Z)) (s : tcp_seg) : Prop :=
  TCPH_FLAGS (tcphdr s) = fl /\ (o = None -> opt_len s = 0).

Section Loop.
Context (alloc : nat -> bool) (pcb : tcp_pcb) (Hm : 0 < mss pcb <= 65535) (fl : Z) (o : option (list Z)) (copy : bool).

(** The length of the first segment. *)
Definition cut (data : list Z) : Z := u16 (if mss pcb <? Z.of_nat (length data) then mss pcb else Z.of_nat (length data)).

Lemma cut_min data : cut data = Z.min (mss pcb) (Z.of_nat (length data)).
Proof using Hm.
  unfold cut. destruct (Z.ltb_spec (mss pcb) (Z.of_nat (length data))); rewrite wrap_small by (unfold fits; pow2; lia); lia.
Qed.

(** One segment. *)
Lemma new_seg k data seqno q : enq_args data fl o -> fits 32 seqno ->
  seg_pbufs alloc k (take (Z.to_nat (cut data)) data) copy o = Some q ->
  let s := mkSeg q (cut data) (seg_hdr pcb seqno fl o) in
  seg_wf (mss pcb) s /\ ntohl (th_seqno (tcphdr s)) = seqno /\ TCP_TCPLEN s = cut data + syn_fin fl /\
  made_with fl o s /\ seg_data s = take (Z.to_nat (cut data)) data /\ 0 < Z.of_nat (length q) <= 2.
Proof using Hm.
  intros [Hf Ha Ho] Fs E s. pose proof (cut_min data) as C.
  destruct (seg_hdr_len pcb seqno fl o Hf ltac:(destruct o; [apply Ho | exact I])) as (H1 & H2 & H3 & H4).
  assert (Ol : opt_len s = match o with None => 0 | Some o => Z.of_nat (length o) end).
  { unfold opt_len. cbn [tcphdr s]. rewrite H1. destruct o; [destruct Ho; zmod_lia | lia]. }
  assert (D : concat q = (match o with None => [] | Some o => o end) ++ take (Z.to_nat (cut data)) data /\ 0 < Z.of_nat (length q) <= 2).
  { unfold seg_pbufs in E. destruct o as [ol|].
    - rewrite Ha by apply Ho. destruct (alloc k); [|discriminate]. injection E as <-. rewrite take_nil. cbn. split; [reflexivity | lia].
    - destruct copy; [destruct (alloc k) | destruct (_ && _)]; try discriminate; injection E as <-; cbn; rewrite ?app_nil_r; split; (reflexivity || lia). }
  destruct D as [D L]. assert (T : Z.of_nat (length (take (Z.to_nat (cut data)) data)) = cut data) by (rewrite length_take; lia).
  split_and!; trivial; try lia.
  - constructor; cbn [tcphdr p len s]; trivial; try lia.
    + rewrite Ol. destruct o; lia.
    + rewrite Ol. unfold tot_len. rewrite D, length_app, Nat2Z.inj_add, T. destruct o; cbn; lia.
  - cbn [tcphdr s]. rewrite H4. now apply htonl_htonl.
  - unfold TCP_TCPLEN. cbn [tcphdr len s]. now rewrite H2.
  - split; [exact H2 | intros Eo; now rewrite Ol, Eo].
  - unfold seg_data. rewrite Ol. cbn [p s]. rewrite D. destruct o; [|reflexivity].
    rewrite Nat2Z.id. apply drop_app_length.
Qed.

Lemma enq_loop_ok fuel : forall k first data seqno ql sl segs ql' sl', enq_args data fl o -> fits 32 seqno ->
  0 <= ql <= TCP_SND_QUEUELEN ->
  enq_loop alloc fuel k pcb first data seqno fl copy o ql sl = Some (segs, ql', sl') ->
  contiguous seqno segs (u32 (seqno + (Z.of_nat (length data) + if first then syn_fin fl else 0))) /\
  Forall (seg_wf (mss pcb)) segs /\ Forall (made_with fl o) segs /\ queue_data segs = data /\
  ql' = ql + pbufs segs /\ ql' <= TCP_SND_QUEUELEN /\ (segs = [] <-> first = false /\ data = []).
Proof using Hm.
  assert (End : forall data seqno ql, fits 32 seqno -> Z.of_nat (length data) <= 0 -> ql <= TCP_SND_QUEUELEN ->
    contiguous seqno [] (u32 (seqno + (Z.of_nat (length data) + 0))) /\ Forall (seg_wf (mss pcb)) [] /\
    Forall (made_with fl o) [] /\ queue_data [] = data /\ ql = ql + pbufs [] /\
    ql <= TCP_SND_QUEUELEN /\ (@nil tcp_seg = [] <-> false = false /\ data = [])).
  { intros data seqno ql Fs L Q. destruct data; [|cbn in L; lia]. cbn [length Z.of_nat Z.add contiguous pbufs].
    rewrite !Z.add_0_r, wrap_small by exact Fs. split_and!; try apply Forall_nil; try easy. }
  induction fuel as [|fuel IH]; intros k first data seqno ql sl segs ql' sl' Ha Fs Hq E; cbn [enq_loop] in E.
  - destruct (first || _) eqn:B; [discriminate|]. apply orb_false_iff in B as [-> B%Z.ltb_ge]. injection E as <- <- <-.
    apply End; trivial; lia.
  - destruct (first || _) eqn:B.
    2:{ apply orb_false_iff in B as [-> B%Z.ltb_ge]. injection E as <- <- <-. apply End; trivial; lia. }
    destruct (alloc k); [|discriminate]. cbv zeta in E. fold (cut data) in E.
    destruct (seg_pbufs alloc (S k) _ copy o) as [q|] eqn:Q; [|discriminate].
    destruct (new_seg (S k) data seqno q Ha Fs Q) as (W & N & T & Fl & D & L).
    assert (U : u8 (ql + Z.of_nat (length q)) = ql + Z.of_nat (length q)).
    { apply wrap_small. change TCP_SND_QUEUELEN with 176 in Hq. unfold fits. pow2. lia. }
    rewrite U in E. destruct (Z.ltb_spec TCP_SND_QUEUELEN (ql + Z.of_nat (length q))); [discriminate|].
    destruct (enq_loop alloc fuel _ pcb false _ _ fl copy o _ _) as [[[segs1 ql1] sl1]|] eqn:R; [|discriminate].
    injection E as <- <- <-. pose proof (cut_min data) as C.
    assert (Ha' : enq_args (drop (Z.to_nat (cut data)) data) fl o).
    { destruct Ha as [A1 A2 A3]. constructor; trivial. intros H'. now rewrite (A2 H'), drop_nil. }
    apply IH in R; [|exact Ha'|apply wrap_fits; lia|lia]. destruct R as (R1 & R2 & R3 & R4 & -> & R6 & R7).
    rewrite length_drop, Z.add_0_r in R1.
    split; [cbn [contiguous]; split; [exact N|]|split_and!; [now constructor | now constructor | | cbn [pbufs p]; lia | exact R6 | ]].
    + rewrite T. destruct (syn_fin_01 fl) as [Z0|Z1].
      * rewrite Z0, Z.add_0_r. replace (if first then 0 else 0) with 0 by now destruct first.
        rewrite wrap_add_l in R1. rewrite Z.add_0_r. revert R1.
        replace (seqno + cut data + Z.of_nat (length data - Z.to_nat (cut data))) with (seqno + Z.of_nat (length data)) by lia. trivial.
      * assert (E0 : data = []) by (now apply Ha). subst data. assert (C0 : cut [] = 0) by (rewrite C; cbn; lia).
        destruct first; [|cbn in B; discriminate]. rewrite C0 in *. rewrite Z1. cbn in R4. cbn [length Z.of_nat] in R1 |- *.
        rewrite (proj2 R7) by (split; [reflexivity | apply drop_nil]). cbn [contiguous]. f_equal; lia.
    + unfold queue_data. cbn [map concat]. rewrite D. fold (queue_data segs1). rewrite R4. apply take_drop.
    + split; [discriminate | intros [-> ->]; discriminate].
Qed.

End Loop.

(** ** Appending to the queue *)

Lemma flags_tested a b : Z.land a (Z.lor TCP_SYN TCP_FIN) = b -> b = 0 -> syn_fin a = 0.
Proof.
  intros <- H. assert (F : forall g, Z.land 3 g = g -> Z.land a g = 0).
  { intros g Hg. rewrite <- Hg, Z.land_assoc. change (Z.lor TCP_SYN TCP_FIN) with 3 in H. rewrite H. apply Z.land_0_l. }
  unfold syn_fin. now rewrite (F TCP_FIN), (F TCP_SYN).
Qed.

(** Chaining a new segment to the last one. *)
Lemma chain_ok m pcb u s fl o : mss pcb = m -> m <= 65535 -> seg_wf m u -> seg_wf m s -> made_with fl o s ->
  (o <> None -> syn_fin fl = 1) -> can_chain pcb u s fl = true ->
  seg_wf m (chain_seg u s) /\ seg_data (chain_seg u s) = seg_data u ++ seg_data s /\
  TCP_TCPLEN (chain_seg u s) = TCP_TCPLEN u + TCP_TCPLEN s /\ tcphdr (chain_seg u s) = tcphdr u.
Proof.
  intros Em Hm [U1 U2 U3 U4] [S1 S2 S3 S4] [Hfl Ho] Hopt C. unfold can_chain in C.
  rewrite !andb_true_iff, Z.leb_le in C. destruct C as [[[_ Cu%Z.eqb_eq] Cs%Z.eqb_eq] Cl].
  assert (Fu : syn_fin (TCPH_FLAGS (tcphdr u)) = 0) by now apply (flags_tested _ 0).
  assert (Fs : syn_fin fl = 0) by now apply (flags_tested _ 0).
  assert (Os : opt_len s = 0) by (apply Ho; destruct o; [assert (syn_fin fl = 1) by (apply Hopt; discriminate); lia | reflexivity]).
  assert (L : u16 (len u + len s) = len u + len s) by (apply wrap_small; unfold fits; pow2; lia).
  assert (Oc : opt_len (chain_seg u s) = opt_len u) by reflexivity.
  unfold tot_len in U3, S3. split_and!; trivial.
  - constructor; rewrite ?Oc; trivial; cbn [chain_seg p len]; rewrite ?L; [|lia].
    unfold tot_len. rewrite concat_app, length_app. lia.
  - unfold seg_data. rewrite Oc, Os. cbn [chain_seg p]. rewrite concat_app. apply drop_app_le. lia.
  - unfold TCP_TCPLEN. rewrite Hfl. cbn [chain_seg len tcphdr]. rewrite L, Fu, Fs. lia.
Qed.

Lemma pbufs_app q1 q2 : pbufs (q1 ++ q2) = pbufs q1 + pbufs q2.
Proof. induction q1; cbn; lia. Qed.

Lemma pbufs_psh q : pbufs (map_last set_psh q) = pbufs q.
Proof.
  destruct (last_split q) as [->|(q' & s & -> & _)]; [reflexivity|]. now rewrite map_last_app, !pbufs_app.
Qed.

(** A queue that may get a PSH. *)
Record good_queue (m a : Z) (q : list tcp_seg) (c : Z) : Prop := {
  gq_seqs : contiguous a q c;
  gq_wf : Forall (seg_wf m) q
}.

Lemma good_psh (b : bool) m a q c : good_queue m a q c ->
  let q' := if b then map_last set_psh q else q in
  good_queue m a q' c /\ queue_data q' = queue_data q /\ pbufs q' = pbufs q.
Proof.
  intros [G1 G2]. destruct b; [|now split_and!].
  destruct (psh_last m q a c G1 G2) as (P1 & P2 & P3). split_and!; trivial; [now constructor | apply pbufs_psh].
Qed.

Lemma good_app m a b c q1 q2 : good_queue m a q1 b -> good_queue m b q2 c -> good_queue m a (q1 ++ q2) c.
Proof.
  intros [G1 G2] [H1 H2]. constructor; [apply contiguous_app; eauto | now apply Forall_app_2].
Qed.

Lemma enq_append_ok m pcb queue fl o sl a b c : mss pcb = m -> m <= 65535 -> good_queue m a (unsent pcb) b ->
  good_queue m b queue c -> Forall (made_with fl o) queue -> (o <> None -> syn_fin fl = 1) -> queue <> [] ->
  let q := enq_append pcb queue fl sl in
  good_queue m a q c /\ queue_data q = queue_data (unsent pcb) ++ queue_data queue /\ pbufs q = pbufs (unsent pcb) + pbufs queue.
Proof.
  intros Em Hm Gu Gq Fq Ho Hq. destruct queue as [|s rest]; [easy|]. unfold enq_append.
  destruct (last_split (unsent pcb)) as [E|(q' & u & E & ->)]; rewrite E in *.
  { cbn [last]. destruct Gu as [Eab _]. cbn in Eab. subst b. now apply good_psh. }
  apply Forall_inv in Fq as Fs. destruct (can_chain pcb u s fl) eqn:C.
  - rewrite map_last_app, <- app_assoc. cbn [app].
    destruct Gu as [(b' & C1 & Cu & Cb)%contiguous_app [Fu Wu]%Forall_app]. destruct Gq as [[Cs Cr] Ws].
    apply Forall_cons in Wu as [Wu _]. apply Forall_cons in Ws as [Ws Wr]. cbn [contiguous] in Cb, Cr.
    destruct (chain_ok m pcb u s fl o Em Hm Wu Ws Fs Ho C) as (K1 & K2 & K3 & K4).
    assert (G : good_queue m a (q' ++ chain_seg u s :: rest) c).
    { constructor; [|apply Forall_app_2; [exact Fu | now constructor]]. apply contiguous_app. exists b'. split; [exact C1|].
      cbn [contiguous]. rewrite K3, K4. split; [exact Cu|]. rewrite <- Cb, wrap_add_l, <- Z.add_assoc in Cr. exact Cr. }
    assert (D : queue_data (q' ++ chain_seg u s :: rest) = queue_data (q' ++ [u]) ++ queue_data (s :: rest)).
    { rewrite !queue_data_app, <- app_assoc. f_equal. unfold queue_data. cbn [map concat]. now rewrite K2, app_nil_r, <- app_assoc. }
    assert (P : pbufs (q' ++ chain_seg u s :: rest) = pbufs (q' ++ [u]) + pbufs (s :: rest)).
    { rewrite !pbufs_app. cbn [pbufs chain_seg p]. rewrite length_app. lia. }
    destruct rest; [now split_and!|]. destruct (good_psh (0 <? sl) m a _ c G) as (P1 & P2 & P3).
    split_and!; [exact P1 | now rewrite P2 | now rewrite P3].
  - destruct (good_psh (0 <? sl) m a _ c (good_app m a b c _ _ Gu Gq)) as (P1 & P2 & P3).
    split_and!; [exact P1 | rewrite P2; apply queue_data_app | rewrite P3; apply pbufs_app].
Qed.

(** ** [tcp_enqueue] *)

(** A number rounded up to an even one. *)
Lemma round_even n : Z.land (n + 1) (Z.lnot 1) = n + n mod 2.
Proof.
  change 1 with (Z.ones 1) at 2. rewrite <- Z.ldiff_land, Z.ldiff_ones_r, shiftl_mul, shiftr_div by lia.
  change (2 ^ 1) with 2. zmod_lia.
Qed.

(** The pbufs of a new segment. *)
Definition per_seg (copy : bool) (o : option (list Z)) : Z :=
  match o with Some _ => 1 | None => if copy then 1 else 2 end.

Section Enqueue.
Context (alloc : nat -> bool) (pcb : tcp_pcb) (Hm : 0 < mss pcb <= 65535) (fl : Z) (o : option (list Z)) (copy : bool).

Lemma seg_pbufs_some k data : (forall k, alloc k = true) ->
  exists q, seg_pbufs alloc k data copy o = Some q /\ Z.of_nat (length q) = per_seg copy o.
Proof.
  intros A. unfold seg_pbufs, per_seg. rewrite !A. destruct o, copy; cbn [andb]; eauto.
Qed.

(** With memory, the loop ends when the pbufs of [n] segments fit the queue. *)
Lemma enq_loop_some n : (forall k, alloc k = true) -> forall fuel k first data seqno ql sl,
  Z.of_nat (length data) <= Z.of_nat n * mss pcb -> (first = true -> n <> O) -> (n <= fuel)%nat -> 0 <= ql ->
  ql + Z.of_nat n * per_seg copy o <= TCP_SND_QUEUELEN ->
  exists r, enq_loop alloc fuel k pcb first data seqno fl copy o ql sl = Some r.
Proof using Hm.
  intros Al. induction n as [|n IH]; intros fuel k first data seqno ql sl Hd Hf Hfu Hq0 Hq.
  - destruct first; [now destruct (Hf eq_refl)|]. destruct data; [|cbn in Hd; lia]. destruct fuel; cbn; eauto.
  - destruct fuel as [|fuel]; [lia|]. cbn [enq_loop]. destruct (first || _) eqn:B; [|eauto].
    rewrite Al. cbv zeta. fold (cut pcb data). pose proof (cut_min pcb Hm data) as C.
    destruct (seg_pbufs_some (S k) (take (Z.to_nat (cut pcb data)) data) Al) as (q & -> & L).
    assert (P : 1 <= per_seg copy o <= 2) by (unfold per_seg; destruct o, copy; lia).
    change TCP_SND_QUEUELEN with 176 in *. rewrite (wrap_small 8) by (unfold fits; pow2; lia).
    rewrite (proj2 (Z.ltb_ge _ _)) by lia.
    edestruct (IH fuel) as ([[segs ql'] sl'] & ->); [ | discriminate | lia | | | eauto]; [ | lia | lia].
    rewrite length_drop. lia.
Qed.

Context (arg : list Z) (Ha : enq_args arg fl o).

(** What [tcp_enqueue] adds. *)
Definition added : Z := Z.of_nat (length arg) + syn_fin fl.

(** The control block after a successful call. *)
Record enqueued (a : Z) (pcb' : tcp_pcb) : Prop := {
  en_queue : good_queue (mss pcb) a (unsent pcb') (snd_lbb pcb');
  en_data : queue_data (unsent pcb') = queue_data (unsent pcb) ++ arg;
  en_lbb : snd_lbb pcb' = u32 (snd_lbb pcb + added);
  en_pbufs : snd_queuelen pcb' - snd_queuelen pcb = pbufs (unsent pcb') - pbufs (unsent pcb);
  en_bound : snd_queuelen pcb' <= TCP_SND_QUEUELEN;
  en_buf : snd_buf pcb' = u16 (snd_buf pcb - (added + added mod 2));
  en_rest : pcb' = pcb <| unsent := unsent pcb' |> <| snd_lbb := snd_lbb pcb' |> <| snd_buf := snd_buf pcb' |>
                       <| snd_queuelen := snd_queuelen pcb' |>
}.

Lemma added_range : fits 16 (snd_buf pcb) -> Z.of_nat (length arg) <= snd_buf pcb -> 0 <= added <= 65535.
Proof using Ha.
  intros F L. unfold fits in F. pow2. unfold added. destruct (syn_fin_01 fl) as [->|E]; [lia|].
  rewrite (ea_alone _ _ _ Ha E), E. cbn. lia.
Qed.

(** The result of a call. *)
Lemma tcp_enqueue_ok a : good_queue (mss pcb) a (unsent pcb) (snd_lbb pcb) -> fits 32 (snd_lbb pcb) ->
  fits 16 (snd_buf pcb) -> 0 <= snd_queuelen pcb ->
  let '(err, pcb') := tcp_enqueue alloc pcb arg fl copy o in
  (err = ERR_OK /\ enqueued a pcb' \/ err = ERR_MEM /\ pcb' = pcb) /\
  (forall n, (forall k, alloc k = true) -> Z.of_nat (length arg) <= snd_buf pcb ->
     Z.of_nat (length arg) <= Z.of_nat n * mss pcb -> n <> O -> snd_queuelen pcb < TCP_SND_QUEUELEN ->
     snd_queuelen pcb + Z.of_nat n * per_seg copy o <= TCP_SND_QUEUELEN -> err = ERR_OK).
Proof using Hm Ha.
  intros G Fl Fb Hq. unfold tcp_enqueue. destruct (Z.ltb_spec (snd_buf pcb) (Z.of_nat (length arg))) as [L|L].
  { split; [now right | lia]. }
  destruct (Z.leb_spec TCP_SND_QUEUELEN (snd_queuelen pcb)) as [Q|Q]; [split; [now right | lia]|].
  destruct (enq_loop alloc enq_fuel 0 pcb true arg (snd_lbb pcb) fl copy o (snd_queuelen pcb) 0) as [[[queue ql] sl]|] eqn:E.
  - split; [left; split; [reflexivity|] | reflexivity].
    apply (enq_loop_ok alloc pcb Hm fl o copy) in E; [|exact Ha|exact Fl|lia].
    destruct E as (E1 & E2 & E3 & E4 & -> & E6 & E7).
    pose proof (added_range Fb L) as R.
    assert (Hopt : o <> None -> syn_fin fl = 1) by (intros No; destruct Ha as [_ _ Ho]; destruct o; [apply Ho | easy]).
    destruct (enq_append_ok (mss pcb) pcb queue fl o sl a (snd_lbb pcb) _ eq_refl ltac:(lia) G
      (Build_good_queue _ _ _ _ E1 E2) E3 Hopt) as (A1 & A2 & A3); [intros ->; now destruct (proj1 E7 eq_refl)|].
    set (q := enq_append pcb queue fl sl) in *. rewrite (wrap_small 16 (Z.of_nat (length arg) + syn_fin fl)) by (unfold fits; pow2; unfold added in R; lia).
    fold added in *. rewrite round_even.
    constructor; [exact A1 | | reflexivity | | exact E6 | reflexivity | reflexivity].
    + change (queue_data q = queue_data (unsent pcb) ++ arg). now rewrite A2, E4.
    + change (snd_queuelen pcb + pbufs queue - snd_queuelen pcb = pbufs q - pbufs (unsent pcb)). lia.
  - split; [right; split; reflexivity|]. intros n Al _ Hn N0 _ Hr. exfalso.
    assert (P : 1 <= per_seg copy o) by (unfold per_seg; destruct o, copy; lia).
    destruct (enq_loop_some n Al enq_fuel 0 true arg (snd_lbb pcb) (snd_queuelen pcb) 0 Hn ltac:(trivial)) as (r & R);
      try lia; [|congruence]. change TCP_SND_QUEUELEN with 176 in *. unfold enq_fuel. nia.
Qed.

(** C22: [tcp_enqueue] appends to the stream, or does nothing.  For a queue whose
    segments follow each other up to [snd_lbb], a call that returns [ERR_OK] has
    put exactly the given bytes (or SYN or FIN) behind the queued ones, in
    segments of at most [mss] bytes that follow each other up to the new
    [snd_lbb], has counted the pbufs right, and has taken the bytes, rounded up
    to an even number, off the send buffer; one that returns [ERR_MEM] has
    changed nothing.  With memory at hand and room in the buffer and the queue,
    the call succeeds. *)
Theorem tcp_enqueue_appends a : good_queue (mss pcb) a (unsent pcb) (snd_lbb pcb) -> fits 32 (snd_lbb pcb) ->
  fits 16 (snd_buf pcb) -> 0 <= snd_queuelen pcb ->
  let '(err, pcb') := tcp_enqueue alloc pcb arg fl copy o in
  (err = ERR_OK /\ enqueued a pcb' \/ err = ERR_MEM /\ pcb' = pcb) /\
  (forall n, (forall k, alloc k = true) -> Z.of_nat (length arg) <= snd_buf pcb ->
     Z.of_nat (length arg) <= Z.of_nat n * mss pcb -> n <> O -> snd_queuelen pcb < TCP_SND_QUEUELEN ->
     snd_queuelen pcb + Z.of_nat n * per_seg copy o <= TCP_SND_QUEUELEN -> err = ERR_OK).
Proof using Hm Ha. apply tcp_enqueue_ok. Qed.

End Enqueue.

(** A connection with one segment of 1000 bytes queued. *)
Definition demo_tx : tcp_pcb :=
  (new_pcb 6510 0) <| state := ESTABLISHED |> <| local_port := 80 |> <| remote_port := 5000 |> <| snd_lbb := 7510 |>
    <| snd_wnd := 4000 |> <| cwnd := 3000 |> <| lastack := 6510 |> <| local_ip := 16777226 |> <| snd_queuelen := 1 |>
    <| unsent := [mkSeg [replicate 1000 7] 1000
        (mkTcpHdr (htons 80) (htons 5000) (htonl 6510) 0 (htons 20480) 0 0 0)] |>.

Lemma tcp_enqueue_appends_witness :
  let '(err, pcb') := tcp_enqueue (fun _ => true) demo_tx (replicate 3000 9) 0 true None in
  err = ERR_OK /\ enqueued demo_tx 0 (replicate 3000 9) 6510 pcb' /\ map len (unsent pcb') = [1000; 1460; 1460; 80].
Proof.
  assert (Ha : enq_args (replicate 3000 9) 0 None) by (constructor; [now split | discriminate | exact I]).
  assert (G : good_queue (mss demo_tx) 6510 (unsent demo_tx) (snd_lbb demo_tx)).
  { constructor; [split; vm_compute; reflexivity|]. constructor; [|constructor].
    constructor; [now split | discriminate | reflexivity | split; discriminate]. }
  assert (Hm : 0 < mss demo_tx <= 65535) by (split; [reflexivity | discriminate]).
  assert (F1 : fits 32 (snd_lbb demo_tx)) by (split; [discriminate | reflexivity]).
  assert (F2 : fits 16 (snd_buf demo_tx)) by (split; [discriminate | reflexivity]).
  assert (F3 : 0 <= snd_queuelen demo_tx) by discriminate.
  pose proof (tcp_enqueue_appends (fun _ => true) demo_tx Hm 0 None true (replicate 3000 9) Ha 6510 G F1 F2 F3) as T.
  destruct (tcp_enqueue (fun _ => true) demo_tx (replicate 3000 9) 0 true None) as [err pcb'] eqn:E.
  apply (f_equal (fun x => (fst x, map len (unsent (snd x))))) in E. vm_compute in E. cbn [fst snd] in E. injection E as E1 E2.
  destruct T as [[[T1 T2]|[T1 _]] _]; [|rewrite <- E1 in T1; discriminate T1].
  split; [exact T1|]. split; [exact T2|]. symmetry. exact E2.
Defined.

(** ** [tcp_output] *)

(** What of a segment does not change when it is sent. *)
Definition key (s : tcp_seg) : list (list Z) * Z * Z := (p s, len s, th_seqno (tcphdr s)).

(** Segments that are kept until they are acknowledged. *)
Definition occupies (s : tcp_seg) : Prop := 0 < TCP_TCPLEN s.
#[export] Instance occupies_dec s : Decision (occupies s).
Proof. unfold occupies. apply _. Defined.

(** The packet [pk] is the segment [s], sent by the connection [c]. *)
Record carries (c : tcp_pcb) (s : tcp_seg) (pk : packet) : Prop := {
  ca_data : pk_data pk = p s;
  ca_seqno : th_seqno (pk_hdr pk) = th_seqno (tcphdr s);
  ca_ackno : th_ackno (pk_hdr pk) = htonl (rcv_nxt c);
  ca_wnd : th_wnd (pk_hdr pk) = if rcv_wnd c <? mss c then 0 else htons (rcv_wnd c);
  ca_flags : TCPH_FLAGS (pk_hdr pk) = match state c with SYN_SENT => TCPH_FLAGS (tcphdr s) | _ => Z.lor (TCPH_FLAGS (tcphdr s)) TCP_ACK end;
  ca_dest : pk_dest pk = remote_ip c
}.

Section Output.
Context (ticks : Z) (ip_route : Z -> option Z).

(** A source address is known, or [ip_route] finds one. *)
Definition routed (c : tcp_pcb) : Prop := local_ip c <> 0 \/ exists a, ip_route (remote_ip c) = Some a /\ a <> 0.

(** What sending one segment leaves alone. *)
Record same_peer (c c' : tcp_pcb) : Prop := {
  sp_lastack : lastack c' = lastack c;
  sp_rcv_nxt : rcv_nxt c' = rcv_nxt c;
  sp_rcv_wnd : rcv_wnd c' = rcv_wnd c;
  sp_mss : mss c' = mss c;
  sp_state : state c' = state c;
  sp_remote : remote_ip c' = remote_ip c;
  sp_routed : routed c -> routed c'
}.

Lemma same_peer_refl c : same_peer c c.
Proof. now constructor. Qed.

Lemma same_peer_trans a b c : same_peer a b -> same_peer b c -> same_peer a c.
Proof. intros [] []. constructor; congruence || auto. Qed.

Lemma carries_same a b s pk : same_peer a b -> carries b s pk -> carries a s pk.
Proof. intros [S1 S2 S3 S4 S5 S6 _] [C1 C2 C3 C4 C5 C6]. constructor; rewrite ?C4, ?C5, ?S3, ?S4, ?S5; congruence. Qed.

Lemma insert_unacked_perm s q : insert_unacked s q ≡ₚ s :: q.
Proof.
  unfold insert_unacked. destruct (last_split q) as [->|(q' & u & -> & ->)]; [reflexivity|].
  destruct (TCP_SEQ_LT _ _); [reflexivity|]. symmetry. apply Permutation_cons_append.
Qed.

(** [tcp_output_segment] with a route. *)
Lemma output_segment_sent s c : routed c -> exists s' c' pk, tcp_output_segment ticks ip_route s c = (s', c', [pk]) /\
  key s' = key s /\ _hdrlen_rsvd_flags (tcphdr s') = _hdrlen_rsvd_flags (tcphdr s) /\
  (pk_data pk = p s /\ th_seqno (pk_hdr pk) = th_seqno (tcphdr s) /\ th_ackno (pk_hdr pk) = htonl (rcv_nxt c) /\
   th_wnd (pk_hdr pk) = (if rcv_wnd c <? mss c then 0 else htons (rcv_wnd c)) /\
   _hdrlen_rsvd_flags (pk_hdr pk) = _hdrlen_rsvd_flags (tcphdr s) /\ pk_dest pk = remote_ip c) /\
  same_peer c c' /\ unsent c' = unsent c /\ unacked c' = unacked c.
Proof.
  intros R. unfold tcp_output_segment. cbv zeta.
  assert (P : exists c1, (if local_ip c =? 0 then match ip_route (remote_ip c) with
      | Some ip => Some (c <| local_ip := ip |>) | None => None end else Some c) = Some c1 /\
      same_peer c c1 /\ unsent c1 = unsent c /\ unacked c1 = unacked c).
  { destruct (Z.eqb_spec (local_ip c) 0) as [E|N].
    - destruct R as [N|(a & Ea & Na)]; [congruence|]. rewrite Ea. eexists; split; [reflexivity|].
      split_and!; try reflexivity. constructor; try reflexivity. intros _. left. exact Na.
    - exists c. split_and!; trivial. apply same_peer_refl. }
  destruct P as (c1 & -> & S & U1 & U2). 
  destruct (rttest _ =? 0); (eexists _, _, _; split; [reflexivity|]; split_and!; try reflexivity; try exact U1; try exact U2;
    [exact (sp_remote _ _ S) | eapply same_peer_trans; [exact S | now constructor]]).
Qed.

(** One turn of the loop. *)
Lemma output_step_sent m s rest c : routed c -> seg_wf m s -> exists s' c' pk, output_step ticks ip_route s rest c = (c', [pk]) /\
  carries c s pk /\ key s' = key s /\ same_peer c c' /\ unsent c' = rest /\
  unacked c' ≡ₚ unacked c ++ (if decide (occupies s) then [s'] else []) /\
  snd_nxt c' = u32 (ntohl (th_seqno (tcphdr s)) + TCP_TCPLEN s).
Proof.
  intros R W. set (c0 := c <| unsent := rest |>).
  set (s1 := match state c with SYN_SENT => s | _ => with_flag TCP_ACK s end).
  set (c1 := match state c with SYN_SENT => c0 | _ => clear_flags (Z.lor TF_ACK_DELAY TF_ACK_NOW) c0 end).
  assert (Es : (match state c0 with SYN_SENT => (s, c0)
    | _ => (mkSeg (p s) (len s) (TCPH_SET_FLAG TCP_ACK (tcphdr s)), clear_flags (Z.lor TF_ACK_DELAY TF_ACK_NOW) c0) end) = (s1, c1)).
  { change (state c0) with (state c). unfold s1, c1. now destruct (state c). }
  assert (Hf : fits 6 TCP_ACK) by now split.
  assert (K1 : key s1 = key s) by (unfold s1; now destruct (state c)).
  assert (T1 : TCP_TCPLEN s1 = TCP_TCPLEN s).
  { unfold s1. pose proof (with_flag_tcplen TCP_ACK Hf eq_refl m s W). now destruct (state c). }
  assert (F1 : TCPH_FLAGS (tcphdr s1) = match state c with SYN_SENT => TCPH_FLAGS (tcphdr s) | _ => Z.lor (TCPH_FLAGS (tcphdr s)) TCP_ACK end).
  { unfold s1. pose proof (flags_set_flag TCP_ACK (tcphdr s) (sw_hdr _ _ W) Hf). now destruct (state c). }
  assert (S1 : same_peer c c1) by (unfold c1; destruct (state c); now constructor).
  assert (U1 : unacked c1 = unacked c) by (unfold c1; now destruct (state c)).
  assert (N1 : unsent c1 = rest) by (unfold c1; now destruct (state c)).
  destruct (output_segment_sent s1 c1 (sp_routed _ _ S1 R)) as (s2 & c2 & pk & E & K2 & H2 & (P1 & P2 & P3 & P4 & P5 & P6) & S2 & N2 & U2).
  assert (T2 : TCP_TCPLEN s2 = TCP_TCPLEN s).
  { rewrite <- T1. unfold TCP_TCPLEN, TCPH_FLAGS. rewrite H2. assert (L : len s2 = len s1) by exact (f_equal (fun k => snd (fst k)) K2). now rewrite L. }
  assert (Q2 : th_seqno (tcphdr s2) = th_seqno (tcphdr s)) by exact (f_equal snd (eq_trans K2 K1)).
  unfold output_step. fold c0. rewrite Es, E. cbv zeta.
  assert (Ca : carries c s pk).
  { apply (carries_same c c1 s pk S1). constructor; trivial.
    - rewrite P1. exact (f_equal (fun k => fst (fst k)) K1).
    - rewrite P2. exact (f_equal snd K1).
    - unfold TCPH_FLAGS at 1. rewrite P5, (sp_state _ _ S1). exact F1. }
  exists s2. match goal with |- exists c' pk', (?x, _) = _ /\ _ => exists x end. exists pk. split; [reflexivity|].
  split; [exact Ca|]. split; [congruence|]. rewrite T2, Q2.
  assert (S : same_peer c c2) by (eapply same_peer_trans; eassumption). unfold occupies. clear - S N1 N2 U1 U2.
  set (n := u32 (ntohl (th_seqno (tcphdr s)) + TCP_TCPLEN s)).
  assert (B : (0 <? TCP_TCPLEN s) = bool_decide (0 < TCP_TCPLEN s)) by (destruct (Z.ltb_spec 0 (TCP_TCPLEN s)); symmetry;
    [now apply bool_decide_eq_true | apply bool_decide_eq_false; lia]).
  rewrite B. rewrite <- N1, <- N2, <- U1, <- U2. clear B N1 N2 U1 U2.
  destruct (TCP_SEQ_LT (snd_max _) (snd_nxt _)), (decide (0 < TCP_TCPLEN s)) as [H|H];
    rewrite ?(bool_decide_eq_true_2 _ H), ?(bool_decide_eq_false_2 _ H); split_and!; try reflexivity;
    try (eapply same_peer_trans; [exact S | now constructor]);
    try (rewrite app_nil_r; reflexivity); upd; (etransitivity; [apply insert_unacked_perm | apply Permutation_cons_append]).
Qed.

Lemma output_loop_sent m w c0 q : Forall (seg_wf m) q -> forall c, routed c -> same_peer c0 c -> unsent c = q ->
  exists k sent, let '(c', ps) := output_loop ticks ip_route q w c in
    Forall (fun s => fits_window s c0 w = true) (take k q) /\
    (forall s, q !! k = Some s -> fits_window s c0 w = false) /\ unsent c' = drop k q /\
    Forall2 (carries c0) (take k q) ps /\ same_peer c0 c' /\
    map key sent = map key (filter occupies (take k q)) /\ unacked c' ≡ₚ unacked c ++ sent.
Proof.
  induction 1 as [|s q W Wq IH]; intros c R S U.
  - exists 0%nat, []. cbn. split_and!; trivial; try apply Forall_nil; try apply Forall2_nil; try easy. now rewrite app_nil_r.
  - cbn [output_loop]. assert (Fw : fits_window s c w = fits_window s c0 w) by (unfold fits_window; now rewrite (sp_lastack _ _ S)).
    rewrite Fw. destruct (fits_window s c0 w) eqn:F.
    + destruct (output_step_sent m s q c R W) as (s' & c1 & pk & E & Ca & K & S1 & U1 & P1 & _). rewrite E.
      destruct (IH c1 (sp_routed _ _ S1 R) (same_peer_trans _ _ _ S S1) U1) as (k & sent & H).
      exists (Datatypes.S k), ((if decide (occupies s) then [s'] else []) ++ sent).
      destruct (output_loop ticks ip_route q w c1) as [c' ps]. destruct H as (H1 & H2 & H3 & H4 & H5 & H6 & H7).
      cbn [take drop]. split_and!; trivial.
      * now constructor.
      * cbn [app]. apply Forall2_cons; split; [exact (carries_same c0 c s pk S Ca) | exact H4].
      * rewrite filter_cons, map_app, H6. destruct (decide (occupies s)); cbn; [now rewrite K | reflexivity].
      * now rewrite H7, P1, app_assoc.
    + exists 0%nat, []. cbn. split_and!; trivial; try apply Forall_nil; try apply Forall2_nil; try (intros ? [= <-]; exact F); now rewrite app_nil_r.
Qed.

(** The result of [tcp_output], with its own test of the window. *)
Lemma tcp_output_sent ok m c : routed c -> Forall (seg_wf m) (unsent c) ->
  let w := Z.min (snd_wnd c) (cwnd c) in
  exists k sent, let '(_, c', ps) := tcp_output ticks ip_route false ok c in
    Forall (fun s => fits_window s c w = true) (take k (unsent c)) /\
    (forall s, unsent c !! k = Some s -> fits_window s c w = false) /\
    unsent c' = drop k (unsent c) /\ unacked c' ≡ₚ unacked c ++ sent /\
    map key sent = map key (filter occupies (take k (unsent c))) /\
    (Forall2 (carries c) (take k (unsent c)) ps /\ (has_flag TF_ACK_NOW c = true -> k <> O) \/
     has_flag TF_ACK_NOW c = true /\ k = O /\ ps = if ok then [ack_packet c] else []).
Proof.
  intros R W w. unfold tcp_output. fold w.
  destruct (has_flag TF_ACK_NOW c) eqn:Now; cbn [andb].
  - destruct (unsent c) as [|s q] eqn:U.
    + exists 0%nat, []. destruct ok; cbn; rewrite ?app_nil_r; split_and!; trivial; try easy; right; now split_and!.
    + destruct (fits_window s c w) eqn:F; cbn [negb].
      * destruct (output_loop_sent m w c (s :: q) W c R (same_peer_refl c) U) as (k & sent & H). exists k, sent.
        destruct (output_loop ticks ip_route (s :: q) w c) as [c' ps]. destruct H as (H1 & H2 & H3 & H4 & H5 & H6 & H7).
        split_and!; trivial. left. split; [exact H4|]. intros _ ->. specialize (H2 s eq_refl). congruence.
      * exists 0%nat, []. destruct ok; cbn; rewrite ?app_nil_r; split_and!; trivial;
          try (intros ? [= <-]; exact F); right; now split_and!.
  - destruct (output_loop_sent m w c (unsent c) W c R (same_peer_refl c) eq_refl) as (k & sent & H). exists k, sent.
    destruct (output_loop ticks ip_route (unsent c) w c) as [c' ps]. destruct H as (H1 & H2 & H3 & H4 & H5 & H6 & H7).
    split_and!; trivial. left. split; [exact H4 | discriminate].
Qed.

(** Where the last byte of a segment lies, counted from the last acknowledged one. *)
Definition last_byte (c : tcp_pcb) (s : tcp_seg) : Z := u32 (ntohl (th_seqno (tcphdr s)) - lastack c + len s).

(** C21: [tcp_output] sends what the windows allow, and loses nothing.  It sends
    the longest prefix of the queue that lies within the smaller of the peer's
    window and the congestion window, in order, with the current acknowledgement
    and window in every header, and leaves the rest; the segments sent that
    occupy sequence numbers are those that join the unacknowledged ones.  An
    acknowledgement that is due goes out even if no segment does. *)
Theorem tcp_output_within_window ok m c : routed c -> Forall (seg_wf m) (unsent c) ->
  let w := Z.min (snd_wnd c) (cwnd c) in
  exists k sent, let '(_, c', ps) := tcp_output ticks ip_route false ok c in
    Forall (fun s => last_byte c s <= w) (take k (unsent c)) /\
    (forall s, unsent c !! k = Some s -> w < last_byte c s) /\
    unsent c' = drop k (unsent c) /\ unacked c' ≡ₚ unacked c ++ sent /\
    map key sent = map key (filter occupies (take k (unsent c))) /\
    (Forall2 (carries c) (take k (unsent c)) ps /\ (has_flag TF_ACK_NOW c = true -> k <> O) \/
     has_flag TF_ACK_NOW c = true /\ k = O /\ ps = if ok then [ack_packet c] else []).
Proof.
  intros R W w. destruct (tcp_output_sent ok m c R W) as (k & sent & H). exists k, sent.
  destruct (tcp_output _ _ _ _ _) as [[e c'] ps]. destruct H as (H1 & H2 & H3). split_and!; try apply H3.
  - eapply Forall_impl; [exact H1|]. intros s Hs. now apply Z.leb_le.
  - intros s Hs. apply Z.leb_gt, H2, Hs.
Qed.

End Output.

(** Three short segments, of which the window takes two. *)
Definition demo_seg (d : list Z) (o : Z) : tcp_seg :=
  mkSeg [d] (Z.of_nat (length d)) (mkTcpHdr (htons 80) (htons 5000) (htonl (6510 + o)) 0 (htons 20480) 0 0 0).

Definition demo_window : tcp_pcb :=
  demo_tx <| cwnd := 5 |> <| unsent := [demo_seg [1; 2; 3] 0; demo_seg [4; 5] 3; demo_seg [6; 7; 8; 9] 5] |>.

Lemma tcp_output_within_window_witness : exists k sent, let '(_, c', ps) := tcp_output 0 (fun _ => None) false true demo_window in
  unsent c' = drop k (unsent demo_window) /\ unacked c' ≡ₚ [] ++ sent /\ k = 2%nat /\ length ps = 2%nat.
Proof.
  destruct (tcp_output_within_window 0 (fun _ => None) true 1460 demo_window) as (k & sent & H).
  - left. discriminate.
  - repeat constructor; cbn; (easy || (split; easy)).
  - exists k, sent.
    assert (E1 : length (unsent (snd (fst (tcp_output 0 (fun _ => None) false true demo_window)))) = 1%nat) by reflexivity.
    assert (E2 : length (snd (tcp_output 0 (fun _ => None) false true demo_window)) = 2%nat) by reflexivity.
    destruct (tcp_output 0 (fun _ => None) false true demo_window) as [[e c'] ps].
    destruct H as (_ & _ & H1 & H2 & _). cbn [fst snd] in *. split_and!; trivial.
    rewrite H1, length_drop in E1. change (length (unsent demo_window)) with 3%nat in E1. lia.
Defined.

(** ** The send buffer *)

(** C40: the send buffer is counted in even numbers.  While [snd_buf] is even, as
    it is at first, writing never takes more off it than it holds; but when it is
    odd (as after [tcp_connect], which takes 2 for the SYN of which 1 comes
    back), a write of exactly [snd_buf] bytes makes it 65535, and when it is 0 a
    FIN makes it 65534: the application may then write on. *)
Theorem snd_buf_bounds alloc pcb arg fl o copy pcb' a : 0 < mss pcb <= 65535 -> enq_args arg fl o ->
  good_queue (mss pcb) a (unsent pcb) (snd_lbb pcb) -> fits 32 (snd_lbb pcb) -> fits 16 (snd_buf pcb) ->
  0 <= snd_queuelen pcb -> tcp_enqueue alloc pcb arg fl copy o = (ERR_OK, pcb') ->
  (snd_buf pcb mod 2 = 0 -> syn_fin fl = 0 -> snd_buf pcb' = snd_buf pcb - added fl arg - added fl arg mod 2 /\ 0 <= snd_buf pcb') /\
  (snd_buf pcb mod 2 = 1 -> Z.of_nat (length arg) = snd_buf pcb -> syn_fin fl = 0 -> snd_buf pcb' = 65535) /\
  (snd_buf pcb = 0 -> syn_fin fl = 1 -> snd_buf pcb' = 65534).
Proof.
  intros Hm Ha G Fl Fb Hq E. assert (L : Z.of_nat (length arg) <= snd_buf pcb).
  { unfold tcp_enqueue in E. destruct (Z.ltb_spec (snd_buf pcb) (Z.of_nat (length arg))); [discriminate | assumption]. }
  pose proof (tcp_enqueue_ok alloc pcb Hm fl o copy arg Ha a G Fl Fb Hq) as T. rewrite E in T.
  destruct T as [[[_ T]|[T _]] _]; [|discriminate]. rewrite (en_buf _ _ _ _ _ T). unfold added, fits in *. pow2.
  split_and!.
  - intros Ev ->. rewrite Z.add_0_r. unfold wrap. pow2. rewrite Z.mod_small; zmod_lia.
  - intros Od El ->. rewrite Z.add_0_r, El, Od. replace (snd_buf pcb - (snd_buf pcb + 1)) with (-1) by lia. reflexivity.
  - intros E0 ->. rewrite E0 in *. destruct arg; [reflexivity | cbn [length] in L; lia].
Qed.

(** After [tcp_connect] there are 64511 bytes of send buffer. *)
Lemma snd_buf_bounds_witness : exists pcb',
  tcp_enqueue (fun _ => true) (demo_tx <| snd_buf := 3 |>) [1; 2; 3] 0 true None = (ERR_OK, pcb') /\ snd_buf pcb' = 65535.
Proof.
  eexists. split; [reflexivity|].
  eapply (snd_buf_bounds (fun _ => true) (demo_tx <| snd_buf := 3 |>) [1; 2; 3] 0 None true _ 6510); try reflexivity.
  - split; [reflexivity | discriminate].
  - constructor; [now split | discriminate | exact I].
  - constructor; [split; reflexivity|]. constructor; [|constructor].
    constructor; [now split | discriminate | reflexivity | split; discriminate].
  - split; [discriminate | reflexivity].
  - split; [discriminate | reflexivity].
  - discriminate.
Defined.
