(* ===== verification/TcpWire.v ===== *)
(** * TcpWire: a segment on its way from one stack to another

    What [tcp_output_segment] ([TcpOut]) writes is what [tcp_input] ([TcpInput])
    reads: the checksum is right and the fields come out as they went in; and a
    segment in which one byte has changed is dropped. *)
From Stdlib Require Import ZArith Lia List Bool.
From stdpp Require Import base gmap list.
From coqutil Require Import Datatypes.RecordSetters.
From S2P Require Import IpFrag Prelude Inet IpAddr Tcp TcpOut TcpPcb TcpIn TcpInput.
Import ListNotations.
#[local] Open Scope Z_scope.

(** ** Headers *)

Definition hdr_fits (h : tcp_hdr) : Prop :=
  fits 16 (th_src h) /\ fits 16 (th_dest h) /\ fits 32 (th_seqno h) /\ fits 32 (th_ackno h) /\
  fits 16 (_hdrlen_rsvd_flags h) /\ fits 16 (th_wnd h) /\ fits 16 (th_chksum h) /\ fits 16 (th_urgp h).

Lemma tcp_hdr_bytes_length h : length (tcp_hdr_bytes h) = 20%nat.
Proof. reflexivity. Qed.

Lemma u16_bytes_le_bytes n : fits 16 n -> is_bytes (u16_bytes_le n).
Proof. intros H. unfold fits in H. pow2. repeat constructor; unfold fits; pow2; zmod_lia. Qed.

Lemma tcp_hdr_bytes_bytes h : hdr_fits h -> is_bytes (tcp_hdr_bytes h).
Proof.
  intros (?&?&?&?&?&?&?&?). unfold tcp_hdr_bytes.
  repeat apply Forall_app_2; auto using u16_bytes_le_bytes, bytes32_bytes.
Qed.

Lemma tcp_hdr_at_bytes h l : hdr_fits h -> tcp_hdr_at (tcp_hdr_bytes h ++ l) = Some h.
Proof.
  intros (H1&H2&H3&H4&H5&H6&H7&H8). destruct h as [a b s k f w c u].
  cbn [th_src th_dest th_seqno th_ackno _hdrlen_rsvd_flags th_wnd th_chksum th_urgp] in *.
  destruct (word32_split s H3) as (s0 & s1 & s2 & s3 & -> & ? & ? & ? & ?).
  destruct (word32_split k H4) as (k0 & k1 & k2 & k3 & -> & ? & ? & ? & ?).
  unfold tcp_hdr_bytes. cbn [th_src th_dest th_seqno th_ackno _hdrlen_rsvd_flags th_wnd th_chksum th_urgp].
  rewrite !bytes32_word32 by assumption. cbn [u16_bytes_le app tcp_hdr_at]. unfold fits in *. pow2.
  f_equal. f_equal; zmod_lia.
Qed.

(** A header with the values in host byte order, before the checksum. *)
Definition wire_hdr (sport dport seq ack hl fl wnd : Z) : tcp_hdr :=
  mkTcpHdr (htons sport) (htons dport) (htonl seq) (htonl ack) (htons (4096 * hl + fl)) (htons wnd) 0 0.

Record wire_fits (sport dport seq ack hl fl wnd : Z) : Prop := {
  wi_sport : fits 16 sport; wi_dport : fits 16 dport; wi_seq : fits 32 seq; wi_ack : fits 32 ack;
  wi_hl : 0 <= hl < 16; wi_fl : fits 6 fl; wi_wnd : fits 16 wnd
}.

Section Header.
Context (sport dport seq ack hl fl wnd : Z) (W : wire_fits sport dport seq ack hl fl wnd).

Abbreviation h := (wire_hdr sport dport seq ack hl fl wnd).

Lemma wire_hlf_fits : fits 16 (4096 * hl + fl).
Proof using W. destruct W as [_ _ _ _ H1 H2 _]. unfold fits in *. pow2. lia. Qed.

Lemma wire_hdr_fits : hdr_fits h.
Proof using W.
  pose proof wire_hlf_fits. destruct W. split_and!; cbn; auto using htons_fits, htonl_fits; now split.
Qed.

Lemma wire_hdrlen : TCPH_HDRLEN h = hl.
Proof using W.
  unfold TCPH_HDRLEN, ntohs, wire_hdr. cbn. rewrite htons_htons by apply wire_hlf_fits.
  rewrite shiftr_div by lia. destruct W as [_ _ _ _ H1 H2 _]. unfold fits in H2. pow2. zmod_lia.
Qed.

Lemma wire_flags : TCPH_FLAGS h = fl.
Proof using W.
  unfold TCPH_FLAGS, ntohs, wire_hdr. cbn. rewrite htons_htons by apply wire_hlf_fits.
  change TCP_FLAGS with (2 ^ 6 - 1). rewrite land_ones_mod by lia.
  destruct W as [_ _ _ _ H1 H2 _]. unfold fits in H2. pow2. zmod_lia.
Qed.

End Header.

(** The static variables of [tcp_input] for that header and the data [d], whose
    first bytes are the options. *)
Definition wire_input (sport dport seq ack hl fl wnd chk : Z) (d : list Z) : input :=
  let q := [drop (Z.to_nat (4 * (hl - 5))) d] in
  mkInput (Some q) (u16 (tot_len q))
    (mkTcpHdr sport dport seq ack (htons (4096 * hl + fl)) wnd chk 0) d seq ack fl
    (u16 (tot_len q + syn_fin fl)) 0 None.

Lemma drop_hdr h n d : drop (20 + n) (tcp_hdr_bytes h ++ d) = drop n d.
Proof. reflexivity. Qed.

Lemma drop_hdr_0 h d : drop (Z.to_nat TCP_HLEN) (tcp_hdr_bytes h ++ d) = d.
Proof. reflexivity. Qed.

Lemma set_input_wire sport dport seq ack hl fl wnd chk d :
  wire_fits sport dport seq ack hl fl wnd -> fits 16 chk -> 5 <= hl -> 4 * (hl - 5) <= Z.of_nat (length d) ->
  set_input [tcp_hdr_bytes ((wire_hdr sport dport seq ack hl fl wnd) <| th_chksum := chk |>) ++ d]
  = Some (wire_input sport dport seq ack hl fl wnd chk d).
Proof.
  intros W C H1 H2. set (h0 := wire_hdr sport dport seq ack hl fl wnd). set (h := h0 <| th_chksum := chk |>).
  assert (F : hdr_fits h).
  { destruct (wire_hdr_fits _ _ _ _ _ _ _ W) as (?&?&?&?&?&?&?&?). now split_and!. }
  assert (El : TCPH_HDRLEN h = hl) by (apply (wire_hdrlen sport dport seq ack hl fl wnd W)).
  assert (Ef : TCPH_FLAGS (hdr_to_host h) = fl) by (apply (wire_flags sport dport seq ack hl fl wnd W)).
  assert (Eh : hdr_to_host h = mkTcpHdr sport dport seq ack (htons (4096 * hl + fl)) wnd chk 0).
  { clear - W. destruct W. unfold hdr_to_host, ntohs, ntohl. subst h h0. upd. unfold wire_hdr.
    cbn [th_src th_dest th_seqno th_ackno _hdrlen_rsvd_flags th_wnd th_chksum th_urgp].
    now rewrite !htons_htons, !htonl_htonl by assumption. }
  unfold set_input. cbn [hd]. rewrite tcp_hdr_at_bytes by exact F. cbv zeta. rewrite Ef, Eh, El. unfold hide_header.
  rewrite length_app, tcp_hdr_bytes_length. rewrite (proj2 (Z.leb_le _ _)) by lia.
  replace (Z.to_nat (hl * 4)) with (20 + Z.to_nat (4 * (hl - 5)))%nat by lia.
  now rewrite !drop_hdr, !drop_hdr_0.
Qed.

(** ** The checksum *)

(** A datagram of which the IP header is 20 bytes long. *)
Record sendable (d : list (list Z)) (src dest : Z) : Prop := {
  se_bytes : Forall is_bytes d;
  se_len : tot_len d <= 65535 - 40;
  se_src : fits 32 src;
  se_dest : fits 32 dest
}.

Lemma concat_seg_chain h d : concat (seg_chain h d) = tcp_hdr_bytes h ++ concat d.
Proof. unfold seg_chain. destruct d; cbn; now rewrite ?app_nil_r, ?app_assoc. Qed.

Lemma piece_len (q : list Z) (d : list (list Z)) : q ∈ d -> Z.of_nat (length q) <= tot_len d.
Proof.
  unfold tot_len. induction d as [|s d IH]; intros H; [now apply elem_of_nil in H|].
  cbn [concat]. rewrite length_app. apply elem_of_cons in H as [->|H]; [lia|]. specialize (IH H). lia.
Qed.

Lemma seg_chain_payloads h d src dest : hdr_fits h -> sendable d src dest -> payloads (seg_chain h d).
Proof.
  intros F [B L _ _]. assert (P : forall q, q ∈ d -> is_bytes q /\ Z.of_nat (length q) <= 65535 - 40).
  { intros q Hq. split; [rewrite Forall_forall in B; now apply B | pose proof (piece_len q d Hq); lia]. }
  unfold seg_chain. constructor.
  - destruct d as [|s d]; cbn [hd].
    + rewrite app_nil_r. split; [now apply tcp_hdr_bytes_bytes | rewrite tcp_hdr_bytes_length; lia].
    + destruct (P s ltac:(apply elem_of_cons; auto)). split; [apply Forall_app_2; [now apply tcp_hdr_bytes_bytes | assumption]|].
      rewrite length_app, tcp_hdr_bytes_length. lia.
  - apply Forall_forall. intros q Hq. destruct (P q); [|split; [assumption | lia]].
    destruct d; [now apply elem_of_nil in Hq | now apply elem_of_cons; right].
Qed.

Section Checksum.
Context (h : tcp_hdr) (d : list (list Z)) (src dest : Z) (F : hdr_fits h) (S : sendable d src dest).

Abbreviation plen := (TCP_HLEN + tot_len d).
Abbreviation chk := (inet_chksum_pseudo (seg_chain (h <| th_chksum := 0 |>) d) src dest IP_PROTO_TCP plen).

Lemma cleared_fits : hdr_fits (h <| th_chksum := 0 |>).
Proof using F. destruct F as (?&?&?&?&?&?&?&?). split_and!; trivial. now split. Qed.

Lemma plen_fits : fits 16 plen.
Proof using S. clear F. destruct S as [_ L _ _]. unfold fits, TCP_HLEN. pow2. unfold tot_len in *. lia. Qed.

Lemma chk_fits : fits 16 chk.
Proof using F S.
  pose proof plen_fits. rewrite chksum_pseudo_norm; [|eapply seg_chain_payloads; [apply cleared_fits | exact S]|apply S|apply S|now split|assumption].
  pose proof (word_sum_bound _ (is_bytes_concat _ (seg_chain_payloads _ _ _ _ cleared_fits S))) as B.
  assert (P : 0 <= pseudo_words src dest IP_PROTO_TCP plen) by (apply pseudo_words_nonneg; [apply S | apply S | now split | assumption]).
  unfold fits. pow2. match goal with |- context [norm16 ?s] => pose proof (norm16_range s ltac:(lia)) end. lia.
Qed.

Lemma tcp_set_chksum_eq : tcp_set_chksum h d src dest = h <| th_chksum := chk |>.
Proof using. clear. destruct h. reflexivity. Qed.

Abbreviation sent := (tcp_hdr_bytes (tcp_set_chksum h d src dest) ++ concat d).

Lemma sent_bytes : is_bytes sent.
Proof using F S.
  apply Forall_app_2.
  - rewrite tcp_set_chksum_eq. apply tcp_hdr_bytes_bytes. pose proof chk_fits. destruct F as (?&?&?&?&?&?&?&?). now split_and!.
  - apply Forall_concat. apply S.
Qed.

Lemma sent_length : Z.of_nat (length sent) = plen.
Proof using. clear F S. rewrite length_app, tcp_hdr_bytes_length. unfold tot_len, TCP_HLEN. lia. Qed.

Lemma sent_sum : norm16 (word_sum sent + pseudo_words src dest IP_PROTO_TCP plen) = 65535.
Proof using F S.
  pose proof (seg_chain_payloads _ _ _ _ cleared_fits S) as Pt. pose proof sent_bytes as B. pose proof sent_length as L.
  pose proof plen_fits as Fp.
  cut (norm16 (word_sum (concat [sent]) + pseudo_words src dest IP_PROTO_TCP plen) = 65535); [cbn [concat]; now rewrite app_nil_r|].
  set (pre := u16_bytes_le (th_src h) ++ u16_bytes_le (th_dest h) ++ bytes32 (th_seqno h) ++
    bytes32 (th_ackno h) ++ u16_bytes_le (_hdrlen_rsvd_flags h) ++ u16_bytes_le (th_wnd h)).
  apply (pseudo_filled_sum (seg_chain (h <| th_chksum := 0 |>) d) [sent] pre (u16_bytes_le (th_urgp h) ++ concat d));
    try apply S; try exact Pt; try exact Fp; [|now split | now exists 8%nat| |].
  - constructor; [|constructor]. split; [exact B|]. unfold fits in Fp. pow2. lia.
  - rewrite concat_seg_chain. unfold tcp_hdr_bytes, pre. upd. now rewrite <- !app_assoc.
  - rewrite tcp_set_chksum_eq. unfold tcp_hdr_bytes, pre. upd. cbn [concat]. now rewrite app_nil_r, <- !app_assoc.
Qed.

Lemma received_norm l : is_bytes l -> Z.of_nat (length l) = plen ->
  inet_chksum_pseudo [l] src dest IP_PROTO_TCP plen = 65535 - norm16 (word_sum l + pseudo_words src dest IP_PROTO_TCP plen).
Proof using S.
  intros B L. pose proof plen_fits as Fp.
  rewrite chksum_pseudo_norm; [cbn [concat]; now rewrite app_nil_r | |apply S|apply S|now split|exact Fp].
  constructor; [|constructor]. split; [exact B|]. unfold fits in Fp. pow2. lia.
Qed.

(** The receiver's sum is 0, and is not after one byte has changed. *)
Lemma sent_verifies : inet_chksum_pseudo [sent] src dest IP_PROTO_TCP plen = 0.
Proof using F S. rewrite received_norm by (apply sent_bytes || apply sent_length). now rewrite sent_sum. Qed.

Lemma changed_fails p x y q : sent = p ++ y :: q -> fits 8 x -> x <> y ->
  inet_chksum_pseudo [p ++ x :: q] src dest IP_PROTO_TCP plen <> 0.
Proof using F S.
  intros E Fx Hxy. pose proof sent_bytes as B. pose proof sent_length as L. pose proof sent_sum as Es. rewrite E in B, L, Es.
  apply Forall_app in B as Bs. destruct Bs as [Bp By]. apply Forall_cons in By as [Fy Bq].
  assert (B' : is_bytes (p ++ x :: q)) by (apply Forall_app_2; [exact Bp | now constructor]).
  rewrite received_norm; [|exact B'|rewrite <- L, !length_app; reflexivity].
  pose proof plen_fits as Fp. pose proof (word_sum_bound _ B').
  assert (P : 0 <= pseudo_words src dest IP_PROTO_TCP plen) by (apply pseudo_words_nonneg; [apply S | apply S | now split | exact Fp]).
  pose proof (pseudo_changed_sum p q x y _ Fx Fy Hxy B B' P Es).
  pose proof (norm16_range (word_sum (p ++ x :: q) + pseudo_words src dest IP_PROTO_TCP plen) ltac:(lia)). lia.
Qed.

End Checksum.

(** ** From stack to stack *)

Section Path.
Context {A : App} {V : Env}.

(** The checks of [tcp_input] in front of the demultiplexing; [iph] is the header
    that [ip_output] has put in front of the segment [l]. *)
Lemma tcp_input_frame inp iph l g : wf_hdr iph -> IPH_HL iph = 5 -> TCP_HLEN <= Z.of_nat (length l) ->
  ip_addr_isbroadcast (IpFrag.dest iph) inp || ip_addr_ismulticast (IpFrag.dest iph) = false ->
  tcp_input inp [hdr_bytes iph ++ l] g =
    if inet_chksum_pseudo [l] (IpFrag.src iph) (IpFrag.dest iph) IP_PROTO_TCP (Z.of_nat (length l)) =? 0
    then match set_input [l] with None => None | Some i => demux i (IpFrag.src iph) (IpFrag.dest iph) g end
    else Some (tt, g).
Proof.
  intros Wf HL L B. unfold tcp_input. cbn [hd].
  rewrite hdr_at_bytes by exact Wf. rewrite HL. unfold hide_header.
  rewrite length_app, hdr_bytes_length, (proj2 (Z.leb_le _ _)) by lia.
  change (drop (Z.to_nat (5 * 4)) (hdr_bytes iph ++ l)) with l.
  assert (T : tot_len [l] = Z.of_nat (length l)) by (unfold tot_len; cbn [concat]; now rewrite app_nil_r).
  rewrite T, (proj2 (Z.ltb_ge _ _)) by lia. rewrite B.
  destruct (inet_chksum_pseudo [l] _ _ IP_PROTO_TCP _ =? 0); [|reflexivity]. cbn [negb]. now destruct (set_input [l]).
Qed.

(** C20: a segment arrives as it was sent.  For every header and data that fit a
    datagram, the segment that [tcp_set_chksum] completes passes, behind any IP
    header with its addresses, the checks of [tcp_input] at a unicast address,
    and is demultiplexed with the sender's ports, numbers, flags and window in
    host byte order, its options, and its data; if one byte of it, header or
    data, arrives changed, it is dropped. *)
Theorem tcp_segment_roundtrip inp g iph sport dport seq ack hl fl wnd d :
  let src := IpFrag.src iph in let dest := IpFrag.dest iph in
  let l := tcp_hdr_bytes (tcp_set_chksum (wire_hdr sport dport seq ack hl fl wnd) d src dest) ++ concat d in
  wire_fits sport dport seq ack hl fl wnd -> 5 <= hl -> 4 * (hl - 5) <= tot_len d -> sendable d src dest ->
  wf_hdr iph -> IPH_HL iph = 5 -> ip_addr_isbroadcast dest inp || ip_addr_ismulticast dest = false ->
  (exists chk, tcp_input inp [hdr_bytes iph ++ l] g =
     demux (wire_input sport dport seq ack hl fl wnd chk (concat d)) src dest g) /\
  (forall p x y q, l = p ++ y :: q -> fits 8 x -> x <> y ->
     tcp_input inp [hdr_bytes iph ++ p ++ x :: q] g = Some (tt, g)).
Proof.
  intros src dest l W H1 H2 S Wf HL B. pose proof (wire_hdr_fits _ _ _ _ _ _ _ W) as F.
  set (h := wire_hdr sport dport seq ack hl fl wnd) in *.
  pose proof (sent_length h d src dest) as L. assert (T : 0 <= tot_len d) by (unfold tot_len; lia). split.
  - pose proof (sent_verifies h d src dest F S) as V0. pose proof (chk_fits h d src dest F S) as C.
    eexists. rewrite tcp_input_frame by (trivial; fold l in L; lia). fold l in L, V0. fold src dest. rewrite L, V0, Z.eqb_refl.
    unfold l. rewrite tcp_set_chksum_eq.
    pose proof (set_input_wire sport dport seq ack hl fl wnd _ (concat d) W C H1 H2) as Es. fold h in Es. now rewrite Es.
  - intros p x y q E Fx Hxy. pose proof (changed_fails h d src dest F S p x y q E Fx Hxy) as N.
    fold l in L. rewrite E in L. assert (L' : Z.of_nat (length (p ++ x :: q)) = TCP_HLEN + tot_len d)
      by (rewrite <- L, !length_app; reflexivity).
    rewrite tcp_input_frame by (trivial; lia). fold src dest. now rewrite L', (proj2 (Z.eqb_neq _ _) N).
Qed.

End Path.

Definition demo_iph : ip_hdr := mkHdr (htons 17664) (htons 47) 9 0 (htons 65286) 5 16777226 33554442.

Lemma tcp_segment_roundtrip_witness :
  let l := tcp_hdr_bytes (tcp_set_chksum (wire_hdr 4097 80 1000 77 6 (TCP_ACK + TCP_PSH) 512)
    [[2; 4; 5; 180; 65]; [66; 67]] 16777226 33554442) ++ [2; 4; 5; 180; 65; 66; 67] in
  (exists chk, tcp_input (A := quiet_app) (V := plain_env) (mkNetif 33554442 255 2) [hdr_bytes demo_iph ++ l] tcp_init =
     demux (A := quiet_app) (V := plain_env)
       (wire_input 4097 80 1000 77 6 24 512 chk [2; 4; 5; 180; 65; 66; 67]) 16777226 33554442 tcp_init) /\
  in_p (wire_input 4097 80 1000 77 6 24 512 0 [2; 4; 5; 180; 65; 66; 67]) = Some [[65; 66; 67]].
Proof.
  intros l. split; [|reflexivity].
  destruct (tcp_segment_roundtrip (A := quiet_app) (V := plain_env) (mkNetif 33554442 255 2) tcp_init demo_iph
    4097 80 1000 77 6 24 512 [[2; 4; 5; 180; 65]; [66; 67]]) as [(chk & E) _].
  - constructor; now split.
  - lia.
  - discriminate.
  - constructor; [repeat constructor; easy | discriminate | now split | now split].
  - repeat split; easy.
  - reflexivity.
  - reflexivity.
  - exists chk. exact E.
Defined.
