(* ===== verification/TcpOpts.v ===== *)
(** * TcpOpts: the options of a segment

    [tcp_parseopt] ([TcpIn]) finds the MSS option of any well-formed list of
    options, but there are options on which it never returns. *)
From Stdlib Require Import ZArith Lia List Bool.
From stdpp Require Import base list.
From coqutil Require Import Datatypes.RecordSetters.
From S2P Require Import Prelude Inet Tcp TcpOut TcpPcb TcpIn TcpInput.
Import ListNotations.
#[local] Open Scope Z_scope.

(** ** Options as a sender writes them *)

Inductive tcp_option :=
| NOP
| MSS (m : Z)
| Other (kind : Z) (data : list Z).

Definition option_bytes (o : tcp_option) : list Z :=
  match o with
  | NOP => [1]
  | MSS m => [2; 4; m / 256; m mod 256]
  | Other k d => k :: 2 + Z.of_nat (length d) :: d
  end.

Definition option_ok (o : tcp_option) : Prop :=
  match o with
  | NOP => True
  | MSS m => fits 16 m
  | Other k d => 2 <= k <= 255 /\ (k = 2 -> length d <> 2%nat)
  end.

Definition options_bytes (os : list tcp_option) : list Z := flat_map option_bytes os.

(** The first MSS option. *)
Fixpoint first_mss (os : list tcp_option) : option Z :=
  match os with
  | [] => None
  | MSS m :: _ => Some m
  | _ :: os => first_mss os
  end.

(** The end of the options: the end of the header, or an end-of-list option. *)
Definition ends_options (rest : list Z) : Prop := match rest with [] => True | b :: _ => b = 0 end.

Lemma lookup_at (pre l : list Z) (c k : Z) : c = Z.of_nat (length pre) -> 0 <= k ->
  (pre ++ l) !! Z.to_nat (c + k) = l !! Z.to_nat k.
Proof.
  intros -> H. rewrite lookup_app_r by lia. f_equal. lia.
Qed.

(** [tail]: what follows the header. *)
Lemma parse_opts_ok os tail : Forall option_ok os -> forall fuel pre rest limit, ends_options rest ->
  limit = Z.of_nat (length (pre ++ options_bytes os ++ rest)) -> limit <= 40 -> (length os < fuel)%nat ->
  parse_opts fuel (pre ++ options_bytes os ++ rest ++ tail) limit (Z.of_nat (length pre)) = Done (first_mss os).
Proof.
  induction 1 as [|o os Ho Hos IH]; intros fuel pre rest limit He El Hl Hf; (destruct fuel as [|fuel]; [cbn in Hf; lia|]);
    set (c := Z.of_nat (length pre)) in *; cbn [parse_opts].
  - cbn [options_bytes flat_map app first_mss] in *. destruct rest as [|b rest].
    + rewrite El, app_nil_r, Z.ltb_irrefl. reflexivity.
    + rewrite (proj2 (Z.ltb_lt _ _)) by (rewrite El, length_app; cbn [length]; lia).
      rewrite <- (Z.add_0_r c) at 1. rewrite (lookup_at pre _ c 0 eq_refl) by lia. cbn. cbn in He. now subst b.
  - assert (Sp : pre ++ options_bytes (o :: os) ++ rest = (pre ++ option_bytes o) ++ options_bytes os ++ rest)
      by (cbn [options_bytes flat_map]; now rewrite <- !app_assoc).
    rewrite Sp in El. assert (L : c + Z.of_nat (length (option_bytes o)) <= limit) by (rewrite El, !length_app; lia).
    rewrite (proj2 (Z.ltb_lt c limit)) by (destruct o; cbn [option_bytes length] in L; lia).
    assert (Sp' : pre ++ options_bytes (o :: os) ++ rest ++ tail = (pre ++ option_bytes o) ++ options_bytes os ++ rest ++ tail)
      by (cbn [options_bytes flat_map]; now rewrite <- !app_assoc).
    assert (Next : forall n, n = length (option_bytes o) -> first_mss (o :: os) = first_mss os ->
      parse_opts fuel (pre ++ options_bytes (o :: os) ++ rest ++ tail) limit (u8 (c + Z.of_nat n)) = Done (first_mss (o :: os))).
    { intros n -> ->. rewrite wrap_small by (unfold fits; pow2; lia). rewrite Sp'.
      replace (c + Z.of_nat (length (option_bytes o))) with (Z.of_nat (length (pre ++ option_bytes o))) by (rewrite length_app; lia).
      apply IH; trivial. cbn in Hf. lia. }
    assert (At : forall k, 0 <= k -> (pre ++ options_bytes (o :: os) ++ rest ++ tail) !! Z.to_nat (c + k) =
      (option_bytes o ++ options_bytes os ++ rest ++ tail) !! Z.to_nat k).
    { intros k Hk. rewrite (lookup_at pre _ c k eq_refl Hk). cbn [options_bytes flat_map]. now rewrite <- app_assoc. }
    rewrite <- (Z.add_0_r c) at 1. rewrite !At by lia. destruct o as [|m|k d]; cbn [option_bytes app].
    + apply (Next 1%nat); reflexivity.
    + cbn. f_equal. f_equal. rewrite shiftl_mul by lia. rewrite (lor_add (m / 256) (m mod 256) 8) by (pow2; zmod_lia).
      pow2. zmod_lia.
    + destruct Ho as [Hk Hm]. set (rest' := d ++ options_bytes os ++ rest ++ tail).
      change ((k :: 2 + Z.of_nat (length d) :: rest') !! Z.to_nat 0) with (Some k).
      change ((k :: 2 + Z.of_nat (length d) :: rest') !! Z.to_nat 1) with (Some (2 + Z.of_nat (length d))). cbv iota.
      rewrite (proj2 (Z.eqb_neq k 0)), (proj2 (Z.eqb_neq k 1)) by lia.
      replace ((k =? 2) && (2 + Z.of_nat (length d) =? 4)) with false
        by (symmetry; apply andb_false_iff; destruct (Z.eqb_spec k 2); [right; apply Z.eqb_neq; specialize (Hm e); lia | now left]).
      rewrite (proj2 (Z.eqb_neq (2 + _) 0)) by lia.
      replace (2 + Z.of_nat (length d)) with (Z.of_nat (S (S (length d)))) by lia. now apply Next.
Qed.

Lemma options_count os : Z.of_nat (length os) <= Z.of_nat (length (options_bytes os)).
Proof.
  induction os as [|o os IH]; [easy|]. cbn [options_bytes flat_map]. rewrite length_app.
  unfold options_bytes in IH. destruct o; cbn [option_bytes length] in *; lia.
Qed.

(** Two options of kind 3: the length of the second takes the [u8_t] index back to 0. *)
Definition endless_options : list Z := [3; 10; 0; 0; 0; 0; 0; 0; 0; 0; 3; 246].

Lemma endless_at fuel : parse_opts fuel endless_options 12 0 = OutOfFuel /\ parse_opts fuel endless_options 12 10 = OutOfFuel.
Proof. induction fuel as [|fuel [IH1 IH2]]; [now split|]. split; [exact IH2 | exact IH1]. Qed.

(** C25: [tcp_parseopt] reads the options as they were written, when they are well
    formed: it ends within the fuel of the model, leaves the control block alone
    when there is no MSS option, and else sets [mss] to the first one or to
    [TCP_MSS], whichever is less.  But the index is 8 bits wide, and there are
    options on which the loop never ends. *)
Theorem tcp_parseopt_options i pcb os rest tail : Forall option_ok os -> ends_options rest ->
  opts i = options_bytes os ++ rest ++ tail -> TCPH_HDRLEN (in_hdr i) <= 15 ->
  Z.of_nat (length (options_bytes os ++ rest)) = 4 * (TCPH_HDRLEN (in_hdr i) - 5) ->
  tcp_parseopt opt_fuel i pcb =
    Done (match first_mss os with None => pcb | Some m => pcb <| mss := Z.min m TCP_MSS |> end) /\
  forall fuel j, opts j = endless_options -> TCPH_HDRLEN (in_hdr j) = 8 -> tcp_parseopt fuel j pcb = OutOfFuel.
Proof.
  intros Ho He Eo Hh El. split.
  - unfold tcp_parseopt. pose proof (options_count os) as C. rewrite length_app in El.
    destruct (Z.ltb_spec 5 (TCPH_HDRLEN (in_hdr i))) as [H|H].
    + rewrite shiftl_mul by lia. replace ((TCPH_HDRLEN (in_hdr i) - 5) * 2 ^ 2) with (4 * (TCPH_HDRLEN (in_hdr i) - 5)) by (pow2; lia).
      rewrite Eo, <- El. pose proof (parse_opts_ok os tail Ho opt_fuel [] rest _ He eq_refl) as P. cbn [app length] in P.
      change (Z.of_nat 0) with 0 in P.      rewrite length_app in P. rewrite P by (unfold opt_fuel; lia). destruct (first_mss os) as [m|]; [|reflexivity].
      destruct (Z.ltb_spec TCP_MSS m); [rewrite Z.min_r by lia | rewrite Z.min_l by lia]; reflexivity.
    + destruct os; [reflexivity|]. cbn [length] in C. lia.
  - intros fuel j Ej Hj. unfold tcp_parseopt. rewrite Hj, Ej. change (Z.shiftl (8 - 5) 2) with 12.
    change (5 <? 8) with true. cbv iota. now rewrite (proj1 (endless_at fuel)).
Qed.

(** A header of 28 bytes: padding, then the MSS. *)
Definition demo_opts : input :=
  let h := mkTcpHdr 80 4097 901 0 (htons 28674) 1000 0 0 in
  mkInput (Some [[]]) 0 h [1; 1; 2; 4; 2; 24; 1; 0; 65; 66] 901 0 TCP_SYN 1 0 None.

Lemma tcp_parseopt_options_witness : tcp_parseopt opt_fuel demo_opts (new_pcb 0 0) = Done ((new_pcb 0 0) <| mss := 536 |>).
Proof.
  destruct (tcp_parseopt_options demo_opts (new_pcb 0 0) [NOP; NOP; MSS 536; NOP] [0] [65; 66]) as [E _]; trivial.
  - repeat (apply Forall_cons; split; [try exact I; split; discriminate || reflexivity|]). apply Forall_nil. exact I.
  - reflexivity.
  - discriminate.
Defined.
