(* ===== verification/TcpFsm.v ===== *)
(** * TcpFsm: the state machine of TCP

    [tcp_process] ([TcpIn]) always returns, and the state after a segment is the one
    that RFC 793 prescribes, which [rfc793_next] computes from the numbers of the
    segment and of the connection, unless it is one of six cases in which the
    code departs from the RFC ([diverges]).  [TcpDefects] shows what it does in
    them. *)
From Stdlib Require Import ZArith Lia List Bool.
From stdpp Require Import base list.
From coqutil Require Import Datatypes.RecordSetters.
From S2P Require Import Prelude Inet IpAddr Tcp TcpOut TcpPcb TcpIn.
Import ListNotations.
#[local] Open Scope Z_scope.

(** ** What the parts leave alone *)

Lemma ack_in_state pcb : state (ack_in pcb) = state pcb.
Proof. unfold ack_in, tcp_ack. destruct (has_flag _ pcb); reflexivity. Qed.

Lemma inflate_cwnd_state pcb : state (inflate_cwnd pcb) = state pcb.
Proof. unfold inflate_cwnd. destruct (_ <? _); reflexivity. Qed.

Lemma tcp_rexmit_state pcb : state (fst (tcp_rexmit 0 (fun _ => None) true true pcb)) = state pcb.
Proof. unfold tcp_rexmit. destruct (unacked pcb); reflexivity. Qed.

Lemma update_window_state i pcb : state (update_window i pcb) = state pcb.
Proof. unfold update_window. destruct (_ || _); reflexivity. Qed.

Lemma dup_ack_state e pcb : state (dup_ack e pcb) = state pcb.
Proof.
  unfold dup_ack. destruct (_ =? _); [|reflexivity]. destruct (_ && _); [|reflexivity].
  destruct (has_flag _ _); [rewrite inflate_cwnd_state; reflexivity|]. cbv zeta.
  match goal with |- context [tcp_rexmit ?a ?b ?c ?d ?p] =>
    transitivity (state (fst (tcp_rexmit a b c d p))); [|rewrite tcp_rexmit_state; reflexivity];
    generalize (fst (tcp_rexmit a b c d p)) end.
  intros r. destruct (snd_wnd r <? cwnd r); reflexivity.
Qed.

Lemma grow_cwnd_state pcb pcb' : grow_cwnd pcb = Some pcb' -> state pcb' = state pcb.
Proof.
  unfold grow_cwnd. destruct (_ <=? _); [|congruence]. destruct (_ <? _); [intros [= <-]; apply inflate_cwnd_state|].
  destruct (_ =? _); [discriminate|]. intros [= <-]. destruct (_ <? _); reflexivity.
Qed.

Lemma new_ack_state ack pcb pcb' : new_ack ack pcb = Some pcb' -> state pcb' = state pcb.
Proof.
  unfold new_ack. destruct (grow_cwnd _) as [g|] eqn:E; [|discriminate]. apply grow_cwnd_state in E.
  destruct (drop_acked _ _ _). intros [= <-]. change (state g = state pcb). rewrite E.
  unfold new_ack_vars. destruct (has_flag _ _); reflexivity.
Qed.

Lemma receive_ack_state t i pcb pcb' : receive_ack t i pcb = Some pcb' -> state pcb' = state pcb.
Proof.
  unfold receive_ack. pose proof (update_window_state i pcb) as W. revert W. generalize (update_window i pcb).
  intros w W. cbv zeta. destruct (if _ =? _ then _ else _) as [r|] eqn:E; [|discriminate].
  assert (R : state r = state pcb).
  { destruct (_ =? _); [injection E as <-; now rewrite dup_ack_state|].
    destruct (TCP_SEQ_BETWEEN _ _ _); [apply new_ack_state in E | injection E as <-]; congruence. }
  destruct (drop_unsent _ _ _ _ _) as [[q n] nxt]. intros [= <-].
  unfold update_rtt. destruct (_ && _); exact R.
Qed.

Lemma dequeue_ooseq_state q : forall i pcb, state (snd (dequeue_ooseq q i pcb)) = state pcb.
Proof.
  induction q as [|s q IH]; intros i pcb; cbn [dequeue_ooseq]; [reflexivity|].
  destruct (_ =? _); [|reflexivity]. now rewrite IH.
Qed.

(** [flags] and [ackno] of the segment stay what they are; at most the end of the
    peer's data is reported. *)
Definition same_in (a b : input) : Prop :=
  in_flags a = in_flags b /\ ackno a = ackno b /\ (recv_flags a = recv_flags b \/ recv_flags a = TF_GOT_FIN).

Lemma same_in_refl a : same_in a a.
Proof. split_and!; auto. Qed.

Lemma same_in_trans a b c : same_in a b -> same_in b c -> same_in a c.
Proof. intros (A1 & A2 & A3) (B1 & B2 & B3). split_and!; try congruence. destruct A3 as [->|]; auto. Qed.

Lemma in_has_same f a b : same_in a b -> in_has f a = in_has f b.
Proof. intros [E _]. unfold in_has. now rewrite E. Qed.

Lemma dequeue_ooseq_in q : forall i pcb, same_in (fst (dequeue_ooseq q i pcb)) i.
Proof.
  induction q as [|s q IH]; intros i pcb; cbn [dequeue_ooseq]; [apply same_in_refl|].
  destruct (_ =? _); [|apply same_in_refl]. eapply same_in_trans; [apply IH|].
  destruct (0 <? tot_len (p s)), (Z.land (TCPH_FLAGS (tcphdr s)) TCP_FIN =? 0); split_and!; auto.
Qed.

Lemma receive_inseq_keeps i q pcb :
  state (snd (receive_inseq i q pcb)) = state pcb /\ same_in (fst (receive_inseq i q pcb)) i.
Proof.
  unfold receive_inseq. destruct (trim_overlap _ _ _) as [q' n]. cbv zeta.
  match goal with |- context [dequeue_ooseq ?l ?i ?p] =>
    pose proof (dequeue_ooseq_state l i p) as D; pose proof (dequeue_ooseq_in l i p) as I;
    destruct (dequeue_ooseq l i p) as [i' p'] end.
  cbn [fst snd] in *. rewrite ack_in_state, D. split; [reflexivity|]. eapply same_in_trans; [exact I|].
  destruct (0 <? tot_len q'), (Z.land _ TCP_FIN =? 0); split_and!; auto.
Qed.

Lemma receive_ooseq_state ok i q pcb : state (receive_ooseq ok i q pcb) = state pcb.
Proof. unfold receive_ooseq. destruct (ooseq _); [destruct ok|]; reflexivity. Qed.

(** ** [tcp_receive] returns *)

(** A segment as [tcp_input] hands it on: a chain of at least one pbuf, whose
    length, with 1 for a SYN or FIN, is [tcplen]. *)
Record input_wf (i : input) : Prop := {
  wf_chain : exists q, in_p i = Some q /\ q <> [] /\ tcplen i <= tot_len q + 1;
  wf_len : 0 <= tcplen i <= 65535
}.

(** The division of [tcp_receive] is by a window that is not 0. *)
Definition cwnd_ok (pcb : tcp_pcb) : Prop := 0 < cwnd pcb /\ (has_flag TF_INFR pcb = true -> 0 < ssthresh pcb).

Lemma trim_front_some q : forall off, q <> [] -> off <= tot_len q -> exists q', trim_front off q = Some q'.
Proof.
  induction q as [|s q IH]; intros off Hq Ho; [easy|]. unfold tot_len in Ho. cbn [concat] in Ho.
  rewrite length_app in Ho. cbn [trim_front]. destruct (Z.ltb_spec (Z.of_nat (length s)) off); [|eauto].
  destruct (IH (off - Z.of_nat (length s))) as (q' & ->); [|unfold tot_len; lia | eauto].
  intros ->. cbn in Ho. lia.
Qed.

(** The part to trim lies within the segment. *)
Lemma trim_range nxt s n : 0 <= n <= 65535 -> 0 < n ->
  TCP_SEQ_BETWEEN nxt (u32 (s + 1)) (u32 (s + n - 1)) = true -> s32 (nxt - s) < n.
Proof.
  intros Hn Hn0. unfold TCP_SEQ_BETWEEN, TCP_SEQ_GEQ, TCP_SEQ_LEQ, swrap.
  rewrite !wrap_sub_r. replace (nxt - (s + 1)) with (nxt - s - 1) by lia.
  replace (nxt - (s + n - 1)) with (nxt - s - (n - 1)) by lia. generalize (nxt - s). intros a.
  change (32 - 1) with 31. unfold wrap. rewrite <- (Zminus_mod_idemp_l a 1), <- (Zminus_mod_idemp_l a (n - 1)).
  pow2. pose proof (Z.mod_pos_bound a 4294967296 ltac:(lia)) as B. revert B. generalize (a mod 4294967296).
  intros b B [H1 H2]%andb_prop. apply Z.leb_le in H1, H2. destruct (Z.ltb_spec b 2147483648); [|lia].
  destruct (Z.eq_dec b 0) as [->|Nb]; [lia|]. destruct (Z_lt_dec b n); [lia|].
  rewrite (Z.mod_small (b - (n - 1))) in H2 by lia.
  destruct (Z.ltb_spec (b - (n - 1)) 2147483648); lia.
Qed.

Lemma receive_data_total ok i pcb : input_wf i ->
  exists i' pcb', receive_data ok i pcb = Some (i', pcb') /\ state pcb' = state pcb /\ same_in i' i.
Proof.
  intros [(q & Ep & Hq & Hl) Ht]. unfold receive_data. destruct (Z.ltb_spec 0 (tcplen i)) as [L|L].
  2:{ eexists _, _. split; [reflexivity|]. split; [|apply same_in_refl]. destruct (in_window _ _); reflexivity. }
  rewrite Ep. assert (R : exists i1 q1 p1, receive_trim i q pcb = Some (i1, q1, p1) /\ state p1 = state pcb /\ same_in i1 i).
  { unfold receive_trim. destruct (TCP_SEQ_BETWEEN _ _ _) eqn:B.
    - apply trim_range in B; [|lia|lia].
      destruct (trim_front_some q (s32 (rcv_nxt pcb - seqno i)) Hq ltac:(lia)) as (q' & ->).
      eexists _, _, _. split; [reflexivity|]. split; [reflexivity | split_and!; auto].
    - eexists _, _, _. split; [reflexivity|]. split; [|apply same_in_refl]. destruct (TCP_SEQ_LT _ _); reflexivity. }
  destruct R as (i1 & q1 & p1 & -> & R & I1). destruct (in_window _ _).
  - destruct (_ =? _).
    + destruct (receive_inseq_keeps i1 q1 p1) as [E F]. destruct (receive_inseq i1 q1 p1) as [i2 p2].
      exists i2, p2. cbn in *. split_and!; [reflexivity | congruence | now apply (same_in_trans i2 i1 i)..].
    + eexists _, _. split; [reflexivity|]. now rewrite receive_ooseq_state.
  - eexists _, _. split; [reflexivity|]. now split.
Qed.

Lemma grow_cwnd_total pcb : 0 < cwnd pcb -> exists pcb', grow_cwnd pcb = Some pcb'.
Proof.
  intros H. unfold grow_cwnd. destruct (_ <=? _); [|eauto]. destruct (_ <? _); [eauto|].
  replace (cwnd pcb =? 0) with false by (symmetry; apply Z.eqb_neq; lia). eauto.
Qed.

Lemma update_window_cwnd i pcb : cwnd_ok pcb -> cwnd_ok (update_window i pcb).
Proof. unfold update_window. destruct (_ || _); trivial. Qed.

Lemma receive_ack_total t i pcb : cwnd_ok pcb -> exists pcb', receive_ack t i pcb = Some pcb'.
Proof.
  intros C. unfold receive_ack. apply (update_window_cwnd i) in C. revert C.
  generalize (update_window i pcb). intros w [C1 C2]. cbv zeta.
  assert (R : exists r, (if lastack w =? ackno i then Some (dup_ack (u32 (snd_wnd pcb + snd_wl1 pcb)) w)
    else if TCP_SEQ_BETWEEN (ackno i) (u32 (lastack w + 1)) (snd_max w) then new_ack (ackno i) w else Some w) = Some r).
  { destruct (_ =? _); [eauto|]. destruct (TCP_SEQ_BETWEEN _ _ _); [|eauto]. unfold new_ack.
    destruct (grow_cwnd_total (new_ack_vars (ackno i) w)) as (g & ->); [|destruct (drop_acked _ _ _); eauto].
    unfold new_ack_vars. destruct (has_flag TF_INFR w); [now apply C2 | exact C1]. }
  destruct R as (r & ->). destruct (drop_unsent _ _ _ _ _) as [[q n] nxt]. eauto.
Qed.

Lemma tcp_receive_total t ok i pcb : input_wf i -> cwnd_ok pcb ->
  exists i' pcb', tcp_receive t ok i pcb = Some (i', pcb') /\ state pcb' = state pcb /\ same_in i' i.
Proof.
  intros Hi Hc. unfold tcp_receive. destruct (in_has TCP_ACK i).
  - destruct (receive_ack_total t i pcb Hc) as (w & E). rewrite E. apply receive_ack_state in E.
    destruct (receive_data_total ok i w Hi) as (i' & p' & -> & E' & I'). exists i', p'. split_and!; [reflexivity | congruence | apply I' ..].
  - now apply receive_data_total.
Qed.

(** ** The diagram *)

Definition acks_nxt (i : input) (nxt : Z) : Prop := in_has TCP_ACK i = true /\ ackno i = nxt.

Lemma acks_all_fin i i' pcb : same_in i' i -> acks_all i' pcb = true -> acks_nxt i (snd_nxt pcb).
Proof.
  intros S H. unfold acks_all in H. rewrite (in_has_same _ _ _ S) in H. apply andb_prop in H as [H1 H2%Z.eqb_eq].
  destruct S as (_ & S & _). split; congruence.
Qed.

(** The arrows of the diagram that the code can take, [nxt] being [snd_nxt] after
    the segment: what the lists of control blocks depend on. *)
Inductive arrow (i : input) (nxt : Z) : tcp_state -> tcp_state -> Prop :=
| no_change s : arrow i nxt s s
| syn_ack_received : in_has TCP_SYN i = true -> in_has TCP_ACK i = true -> arrow i nxt SYN_SENT ESTABLISHED
| ack_of_syn : in_has TCP_ACK i = true -> arrow i nxt SYN_RCVD ESTABLISHED
| fin_received : in_has TCP_FIN i = true -> arrow i nxt ESTABLISHED CLOSE_WAIT
| ack_of_fin : acks_nxt i nxt -> arrow i nxt FIN_WAIT_1 FIN_WAIT_2
| fin_crossed : in_has TCP_FIN i = true -> arrow i nxt FIN_WAIT_1 CLOSING
| fin_and_ack : in_has TCP_FIN i = true -> acks_nxt i nxt -> arrow i nxt FIN_WAIT_1 TIME_WAIT
| fin_later : in_has TCP_FIN i = true -> arrow i nxt FIN_WAIT_2 TIME_WAIT
| closing_acked : acks_nxt i nxt -> arrow i nxt CLOSING TIME_WAIT
| last_acked : acks_nxt i nxt -> arrow i nxt LAST_ACK CLOSED.

(** The callbacks leave the state of their connection alone. *)
Class AppKeepsState (A : App) : Prop := {
  connected_state pcb : state (on_connected pcb) = state pcb;
  accept_state pcb : state (snd (on_accept pcb)) = state pcb;
  accept_cwnd pcb : cwnd_ok pcb -> cwnd_ok (snd (on_accept pcb))
}.

Section Fsm.
Context {A : App} {K : AppKeepsState A} (ticks : Z) (copy_ok rst_ok : bool) (fuel : nat) (src dest : Z).

Abbreviation process := (tcp_process ticks copy_ok rst_ok fuel src dest).

(** What is to be shown of a result. *)
Record follows (i : input) (pcb : tcp_pcb) (r : processed) : Prop := {
  fo_diagram : arrow i (snd_nxt (pr_pcb r)) (state pcb) (state (pr_pcb r));
  fo_list : pr_fate r = ToTimeWait <-> state pcb <> TIME_WAIT /\ state (pr_pcb r) = TIME_WAIT;
  fo_queues : pr_fate r = ToTimeWait ->
    unsent (pr_pcb r) = [] /\ unacked (pr_pcb r) = [] /\ ooseq (pr_pcb r) = [];
  fo_closed : state pcb <> CLOSED -> state (pr_pcb r) = CLOSED -> recv_flags (pr_in r) = TF_CLOSED;
  fo_flags : pr_fate r = ToTimeWait -> recv_flags (pr_in r) = recv_flags i \/ recv_flags (pr_in r) = TF_GOT_FIN;
  fo_err : pr_err r = ERR_ABRT <-> pr_fate r = Aborted
}.

(** A result that stays on its list, in a state the diagram allows. *)
Lemma stay_follows i0 i pcb pcb' : arrow i0 (snd_nxt pcb') (state pcb) (state pcb') ->
  (state pcb' = TIME_WAIT -> state pcb = TIME_WAIT) ->
  (state pcb <> CLOSED -> state pcb' = CLOSED -> recv_flags i = TF_CLOSED) -> follows i0 pcb (stay i pcb').
Proof. intros D T C. constructor; cbn; trivial; try easy. split; [discriminate | intros [N E]; now apply T in E]. Qed.

Lemma kept_follows i pcb r : pr_fate r = Stay -> pr_err r <> ERR_ABRT -> state (pr_pcb r) = state pcb -> follows i pcb r.
Proof.
  intros F N E. constructor; rewrite ?E, ?F; [constructor | now split | intros; easy | congruence | easy | easy].
Qed.

Lemma same_follows i0 i pcb pcb' : state pcb' = state pcb -> follows i0 pcb (stay i pcb').
Proof. intros E. now apply kept_follows. Qed.

Lemma to_time_wait_follows i0 i pcb pcb' : same_in i i0 -> arrow i0 (snd_nxt pcb') (state pcb) TIME_WAIT -> state pcb <> TIME_WAIT ->
  state pcb' = state pcb -> state pcb <> CLOSED -> state pcb <> LISTEN -> follows i0 pcb (to_time_wait i pcb').
Proof.
  intros I D N E C L.
  assert (Q : snd_nxt (pr_pcb (to_time_wait i pcb')) = snd_nxt pcb').
  { change (snd_nxt (tcp_pcb_purge (ack_now_in pcb')) = snd_nxt pcb'). unfold tcp_pcb_purge. destruct (state (ack_now_in pcb')); reflexivity. }
  constructor; [rewrite Q; exact D | now split | intros _ | easy | intros _; apply I | easy].
  set (q := tcp_pcb_purge (ack_now_in pcb')). change (unsent q = [] /\ unacked q = [] /\ ooseq q = []).
  unfold q, tcp_pcb_purge. change (state (ack_now_in pcb')) with (state pcb'). rewrite E.
  destruct (state pcb); easy.
Qed.

Lemma parseopt_state i pcb pcb' : tcp_parseopt fuel i pcb = Done pcb' -> state pcb' = state pcb.
Proof.
  unfold tcp_parseopt. destruct (5 <? _); [|congruence].
  destruct (parse_opts _ _ _ _) as [[m|]| |]; intros E; now inversion E.
Qed.

(** [tcp_receive], then a result that follows. *)
Lemma after_receive_follows i pcb pcb0 k : input_wf i -> cwnd_ok pcb ->
  (forall i' pcb', state pcb' = state pcb -> same_in i' i -> follows i pcb0 (k i' pcb')) ->
  exists r, after_receive ticks copy_ok i pcb k = Done r /\ follows i pcb0 r.
Proof.
  intros Hi Hc Hk. unfold after_receive.
  destruct (tcp_receive_total ticks copy_ok i pcb Hi Hc) as (i' & pcb' & -> & E & I'). eauto.
Qed.

Lemma process_syn_sent_follows i pcb pcb0 : state pcb = SYN_SENT -> state pcb0 = SYN_SENT -> unacked pcb <> [] ->
  (exists m, parse_opts fuel (opts i) (Z.shiftl (TCPH_HDRLEN (in_hdr i) - 5) 2) 0 = Done m) ->
  exists r, process_syn_sent rst_ok fuel src dest i pcb = Done r /\ follows i pcb0 r.
Proof using K.
  intros E E0 U (m & Hm). assert (S : forall i' ps, follows i pcb0 (mkProcessed ERR_OK i' pcb ps Stay)).
  { intros i' ps. apply kept_follows; cbn; easy || congruence. }
  unfold process_syn_sent. destruct (in_has TCP_ACK i) eqn:Ack; [|eexists; split; [reflexivity | apply S]].
  destruct (in_has TCP_SYN i) eqn:Syn; [|eexists; split; [reflexivity | apply S]].
  destruct (unacked pcb) as [|rseg rest]; [easy|].
  destruct (_ =? _); [|eexists; split; [reflexivity | apply S]]. cbv zeta.
  match goal with |- context [tcp_parseopt fuel i ?x] => set (q := x) end.
  assert (P : exists q', tcp_parseopt fuel i q = Done q').
  { unfold tcp_parseopt. rewrite Hm. destruct (5 <? _); [destruct m|]; eauto. }
  destruct P as (q' & P). rewrite P. apply parseopt_state in P. eexists; split; [reflexivity|].
  assert (Q : state (ack_in (on_connected q')) = ESTABLISHED) by (rewrite ack_in_state, connected_state, P; reflexivity).
  apply stay_follows; rewrite Q, ?E0; [now constructor | easy | easy].
Qed.

Lemma process_syn_rcvd_follows i pcb pcb0 : state pcb = SYN_RCVD -> state pcb0 = SYN_RCVD -> input_wf i -> cwnd_ok pcb ->
  exists r, process_syn_rcvd ticks copy_ok rst_ok src dest i pcb = Done r /\ follows i pcb0 r.
Proof using K.
  intros E E0 Hi Hc. assert (S : forall i' ps, follows i pcb0 (mkProcessed ERR_OK i' pcb ps Stay)).
  { intros i' ps. apply kept_follows; cbn; easy || congruence. }
  unfold process_syn_rcvd. destruct (in_has TCP_ACK i) eqn:Ack; cbn [andb]; [|eexists; split; [reflexivity | apply S]].
  destruct (negb _); [|eexists; split; [reflexivity | apply S]].
  destruct (TCP_SEQ_BETWEEN _ _ _); [|eexists; split; [reflexivity | apply S]].
  set (w := pcb <| state := ESTABLISHED |>). assert (Cw : cwnd_ok w) by exact Hc.
  pose proof (accept_state w) as As. pose proof (accept_cwnd w Cw) as Ac.
  destruct (on_accept w) as [err q]. cbn [snd] in As, Ac. change (state q = ESTABLISHED) in As.
  destruct (err =? ERR_OK).
  - apply after_receive_follows; [exact Hi | exact Ac|]. intros i' pcb' E' _.
    assert (Q : state (pcb' <| cwnd := mss pcb' |>) = ESTABLISHED) by (change (state pcb' = ESTABLISHED); congruence).
    apply stay_follows; rewrite Q, ?E0; [now constructor | easy | easy].
  - eexists; split; [reflexivity|]. constructor; cbn; rewrite ?As, ?E0; try easy. now constructor.
Qed.

(** What every state does. *)
Lemma process_follows i pcb : input_wf i -> cwnd_ok pcb ->
  (state pcb = SYN_SENT -> unacked pcb <> [] /\
     exists m, parse_opts fuel (opts i) (Z.shiftl (TCPH_HDRLEN (in_hdr i) - 5) 2) 0 = Done m) ->
  exists r, process i pcb = Done r /\ follows i pcb r.
Proof using K.
  intros Hi Hc Hs. unfold tcp_process. destruct (in_has TCP_RST i).
  { exists (process_rst i pcb). split; [reflexivity|]. unfold process_rst.
    destruct (match state pcb with SYN_SENT => _ | _ => _ end); now apply kept_follows. }
  set (q := pcb <| tmr := ticks |> <| keep_cnt := 0 |>). change (state q) with (state pcb).
  assert (Hq : cwnd_ok q) by exact Hc. assert (Es : state q = state pcb) by reflexivity.
  destruct (state pcb) eqn:E; try (eexists; split; [reflexivity | apply same_follows; congruence]).
  - destruct Hs as [U O]; [reflexivity|]. now apply process_syn_sent_follows.
  - now apply process_syn_rcvd_follows.
  - apply after_receive_follows; trivial. intros i' p' E' I'. rewrite (in_has_same _ _ _ I').
    destruct (in_has TCP_FIN i) eqn:Fin.
    + apply stay_follows; rewrite E; [now constructor | easy | easy].
    + apply same_follows. congruence.
  - apply after_receive_follows; trivial. intros i' p' E' I'. rewrite (in_has_same _ _ _ I').
    destruct (in_has TCP_FIN i) eqn:Fin.
    + destruct (acks_all i' p') eqn:Al; [|apply stay_follows; rewrite E; [now constructor | easy | easy]].
      apply (acks_all_fin _ _ _ I') in Al. apply to_time_wait_follows; rewrite ?E; try easy; [now constructor | congruence].
    + destruct (acks_all i' p') eqn:Al; [|apply same_follows; congruence].
      apply (acks_all_fin _ _ _ I') in Al. apply stay_follows; rewrite E; [now constructor | easy | easy].
  - apply after_receive_follows; trivial. intros i' p' E' I'. rewrite (in_has_same _ _ _ I').
    destruct (in_has TCP_FIN i) eqn:Fin.
    + apply to_time_wait_follows; rewrite ?E; try easy; [now constructor | congruence].
    + apply same_follows. congruence.
  - apply after_receive_follows; trivial. intros i' p' E' I'. rewrite (in_has_same _ _ _ I').
    destruct (in_has TCP_FIN i) eqn:Fin.
    + apply stay_follows; rewrite E; [constructor | easy | easy].
    + apply same_follows. congruence.
  - apply after_receive_follows; trivial. intros i' p' E' I'. destruct (acks_all i' p') eqn:Al.
    + apply (acks_all_fin _ _ _ I') in Al. apply to_time_wait_follows; rewrite ?E; try easy; [now constructor | congruence].
    + apply same_follows. congruence.
  - apply after_receive_follows; trivial. intros i' p' E' I'. destruct (acks_all i' p') eqn:Al.
    + apply (acks_all_fin _ _ _ I') in Al. apply stay_follows; rewrite E; [now constructor | easy | reflexivity].
    + apply same_follows. congruence.
Qed.

(** What else the result says: the list of the block, its queues, what is
    reported. *)
Record reports (i : input) (pcb : tcp_pcb) (r : processed) : Prop := {
  re_list : pr_fate r = ToTimeWait <-> state pcb <> TIME_WAIT /\ state (pr_pcb r) = TIME_WAIT;
  re_queues : pr_fate r = ToTimeWait ->
    unsent (pr_pcb r) = [] /\ unacked (pr_pcb r) = [] /\ ooseq (pr_pcb r) = [];
  re_closed : state pcb <> CLOSED -> state (pr_pcb r) = CLOSED -> recv_flags (pr_in r) = TF_CLOSED;
  re_err : pr_err r = ERR_ABRT <-> pr_fate r = Aborted
}.

(** *** The acknowledgement leaves [snd_nxt] alone *)

Definition same_out (a b : tcp_pcb) : Prop := snd_nxt a = snd_nxt b /\ unsent a = unsent b.

Lemma same_out_refl a : same_out a a.
Proof. now split. Qed.

Lemma same_out_trans a b c : same_out a b -> same_out b c -> same_out a c.
Proof. unfold same_out. intuition congruence. Qed.

Lemma ack_in_out pcb : same_out (ack_in pcb) pcb.
Proof. unfold ack_in, tcp_ack. destruct (has_flag _ pcb); now split. Qed.

Lemma dup_ack_out e pcb : unacked pcb = [] \/ 0 <= dupacks pcb < 2 \/ has_flag TF_INFR pcb = true ->
  same_out (dup_ack e pcb) pcb.
Proof.
  intros H. unfold dup_ack. destruct (_ =? e); [|now split]. cbv zeta.
  set (p1 := pcb <| dupacks := u8 (dupacks pcb + 1) |>). change (unacked p1) with (unacked pcb).
  change (dupacks p1) with (u8 (dupacks pcb + 1)). change (has_flag TF_INFR p1) with (has_flag TF_INFR pcb).
  assert (S1 : same_out p1 pcb) by now split.
  match goal with |- context [if ?c then _ else _] => destruct c eqn:E end; [|exact S1].
  apply andb_prop in E as [E1%Z.leb_le E2]. destruct H as [H|[H|H]].
  - change (negb match unacked pcb with [] => true | _ => false end = true) in E2. rewrite H in E2. discriminate.
  - change (3 <= u8 (dupacks pcb + 1)) in E1. rewrite wrap_small in E1 by (unfold fits; pow2; lia). lia.
  - match goal with |- context [if ?c then _ else _] => change c with (has_flag TF_INFR pcb) end. rewrite H. unfold inflate_cwnd. destruct (_ <? _); exact S1.
Qed.

Lemma grow_cwnd_out pcb pcb' : grow_cwnd pcb = Some pcb' -> same_out pcb' pcb.
Proof.
  unfold grow_cwnd, inflate_cwnd. destruct (_ <=? _); [|intros [= <-]; apply same_out_refl].
  destruct (_ <? _); [intros [= <-]; destruct (_ <? _); now split|]. destruct (_ =? 0); [discriminate|].
  intros [= <-]. destruct (_ <? _); now split.
Qed.

Lemma new_ack_out ack pcb pcb' : new_ack ack pcb = Some pcb' -> same_out pcb' pcb.
Proof.
  unfold new_ack. destruct (grow_cwnd _) as [g|] eqn:E; [|discriminate]. apply grow_cwnd_out in E.
  destruct (drop_acked _ _ _). intros [= <-]. apply (same_out_trans _ g); [now split|].
  eapply same_out_trans; [exact E|]. unfold new_ack_vars. destruct (has_flag _ _); now split.
Qed.

(** Everything, our FIN included, has been sent, and the segment is not the third
    duplicate acknowledgement, which starts a retransmission. *)
Definition all_out (i : input) (pcb : tcp_pcb) : Prop :=
  unsent pcb = [] /\ snd_nxt pcb = snd_lbb pcb /\
  (lastack pcb = ackno i -> unacked pcb = [] \/ 0 <= dupacks pcb < 2 \/ has_flag TF_INFR pcb = true).

Lemma receive_ack_out t i pcb pcb' : receive_ack t i pcb = Some pcb' -> all_out i pcb -> snd_nxt pcb' = snd_nxt pcb.
Proof.
  unfold receive_ack. cbv zeta. intros E (U & _ & D).
  assert (W : exists w, update_window i pcb = w /\ same_out w pcb /\ lastack w = lastack pcb /\
    (unacked w = unacked pcb /\ dupacks w = dupacks pcb /\ has_flag TF_INFR w = has_flag TF_INFR pcb)).
  { eexists; split; [reflexivity|]. unfold update_window. destruct (_ || _); now split_and!. }
  destruct W as (w & Ew & [W1 W2] & W3 & W4 & W5 & W6). rewrite Ew, W3 in E. rewrite <- W4, <- W5, <- W6 in D.
  destruct (if lastack pcb =? ackno i then _ else _) as [r|] eqn:R; [|discriminate].
  assert (S : same_out r w).
  { destruct (Z.eqb_spec (lastack pcb) (ackno i)) as [L|_]; [injection R as <-; now apply dup_ack_out, D|].
    destruct (TCP_SEQ_BETWEEN _ _ _); [now apply new_ack_out in R | injection R as <-; apply same_out_refl]. }
  destruct S as [S1 S2]. rewrite S2, W2, U in E. cbn [drop_unsent] in E. injection E as <-.
  unfold update_rtt. destruct (_ && _); exact (eq_trans S1 W1).
Qed.

Lemma dequeue_ooseq_out q : forall i pcb, same_out (snd (dequeue_ooseq q i pcb)) pcb.
Proof.
  induction q as [|s q IH]; intros i pcb; cbn [dequeue_ooseq]; [now split|].
  destruct (_ =? _); [|now split]. eapply same_out_trans; [apply IH | now split].
Qed.

Lemma receive_data_out ok i pcb i' pcb' : receive_data ok i pcb = Some (i', pcb') -> same_out pcb' pcb.
Proof.
  unfold receive_data. destruct (0 <? _); [|destruct (in_window _ _); intros [= <- <-]; now split].
  destruct (in_p i) as [q|]; [|discriminate]. destruct (receive_trim i q pcb) as [[[i1 q1] p1]|] eqn:E; [|discriminate].
  assert (T : same_out p1 pcb).
  { unfold receive_trim in E. destruct (TCP_SEQ_BETWEEN _ _ _).
    - destruct (trim_front _ q); [injection E as <- <- <-; apply same_out_refl | discriminate].
    - destruct (TCP_SEQ_LT _ _); injection E as <- <- <-; now split. }
  clear E. intros E. injection E as E. destruct (in_window _ _); [|injection E as <- <-; exact T].
  destruct (_ =? _).
  - unfold receive_inseq in E. destruct (trim_overlap _ _ _) as [q2 n]. cbv zeta in E.
    match type of E with context [dequeue_ooseq ?l ?ii ?pp] => pose proof (dequeue_ooseq_out l ii pp) as D;
      destruct (dequeue_ooseq l ii pp) as [i2 p2] end.
    injection E as <- <-. eapply same_out_trans; [apply ack_in_out|]. eapply same_out_trans; [exact D | exact T].
  - injection E as <- <-. unfold receive_ooseq. destruct (ooseq _); [destruct ok|]; exact T.
Qed.

Lemma tcp_receive_out t ok i pcb i' pcb' : tcp_receive t ok i pcb = Some (i', pcb') -> all_out i pcb ->
  snd_nxt pcb' = snd_lbb pcb.
Proof.
  unfold tcp_receive. intros E Ao. rewrite <- (proj1 (proj2 Ao)). destruct (in_has TCP_ACK i).
  - destruct (receive_ack t i pcb) as [w|] eqn:R; [|discriminate]. rewrite <- (receive_ack_out _ _ _ _ R Ao).
    now apply receive_data_out in E as [E _].
  - now apply receive_data_out in E as [E _].
Qed.

(** *** RFC 793 *)

(** The segment has a number that is expected (the table of section 3.3). *)
Definition acceptable (i : input) (pcb : tcp_pcb) : bool :=
  if tcplen i =? 0 then if rcv_wnd pcb =? 0 then seqno i =? rcv_nxt pcb else u32 (seqno i - rcv_nxt pcb) <? rcv_wnd pcb
  else (u32 (seqno i - rcv_nxt pcb) <? rcv_wnd pcb) || (u32 (seqno i + tcplen i - 1 - rcv_nxt pcb) <? rcv_wnd pcb).

(** SND.UNA < SEG.ACK =< SND.NXT. *)
Definition acks_new (i : input) (pcb : tcp_pcb) : bool :=
  in_has TCP_ACK i && (0 <? u32 (ackno i - lastack pcb)) &&
  (u32 (ackno i - lastack pcb) <=? u32 (snd_nxt pcb - lastack pcb)).

(** "Our FIN is acknowledged": the FIN is the last thing that was given a number. *)
Definition acks_fin (i : input) (pcb : tcp_pcb) : bool := in_has TCP_ACK i && (ackno i =? snd_lbb pcb).

(** SEG.ACK acknowledges something not yet sent. *)
Definition acks_unsent (i : input) (pcb : tcp_pcb) : bool :=
  (0 <? u32 (ackno i - snd_max pcb)) && (u32 (ackno i - snd_max pcb) <? 2 ^ 31).

(** The peer's FIN is to be processed: the ACK bit is on and acknowledges nothing
    unsent, the segment has no gap before it, so that RCV.NXT reaches the FIN, and
    the FIN lies in the window. *)
Definition takes_fin (i : input) (pcb : tcp_pcb) : bool :=
  in_has TCP_FIN i && in_has TCP_ACK i && negb (acks_unsent i pcb) && acceptable i pcb &&
  (u32 (rcv_nxt pcb - seqno i) <? tcplen i) && (u32 (seqno i + tcplen i - 1 - rcv_nxt pcb) <? rcv_wnd pcb).

(** The next state (sections 3.2, 3.3 and 3.9, SEGMENT ARRIVES), for a segment
    without RST: the sequence number is checked first, then the SYN, the
    acknowledgement and the FIN. *)
Definition rfc793_next (i : input) (pcb : tcp_pcb) : tcp_state :=
  match state pcb with
  | CLOSED => CLOSED
  | LISTEN => LISTEN
  | SYN_SENT =>
      if in_has TCP_SYN i then
        if in_has TCP_ACK i then
          if acks_new i pcb then if in_has TCP_FIN i then CLOSE_WAIT else ESTABLISHED else SYN_SENT
        else SYN_RCVD
      else SYN_SENT
  | s =>
      if negb (acceptable i pcb) then s else
      if in_has TCP_SYN i then CLOSED else
      match s with
      | SYN_RCVD => if acks_new i pcb then if takes_fin i pcb then CLOSE_WAIT else ESTABLISHED else SYN_RCVD
      | ESTABLISHED => if takes_fin i pcb then CLOSE_WAIT else ESTABLISHED
      | FIN_WAIT_1 =>
          if takes_fin i pcb then if acks_fin i pcb then TIME_WAIT else CLOSING
          else if acks_fin i pcb then FIN_WAIT_2 else FIN_WAIT_1
      | FIN_WAIT_2 => if takes_fin i pcb then TIME_WAIT else FIN_WAIT_2
      | CLOSING => if acks_fin i pcb then TIME_WAIT else CLOSING
      | LAST_ACK => if acks_fin i pcb then CLOSED else LAST_ACK
      | _ => s
      end
  end.

(** Where the code departs from it. *)
Inductive diverges (i : input) (pcb : tcp_pcb) : Prop :=
| simultaneous_open : state pcb = SYN_SENT -> in_has TCP_SYN i = true -> in_has TCP_ACK i = false -> diverges i pcb
| fin_while_opening : acks_new i pcb = true ->
    state pcb = SYN_SENT /\ in_has TCP_SYN i = true /\ in_has TCP_FIN i = true \/
    state pcb = SYN_RCVD /\ takes_fin i pcb = true -> diverges i pcb
| fin_not_next : state pcb = ESTABLISHED \/ state pcb = FIN_WAIT_1 \/ state pcb = FIN_WAIT_2 ->
    in_has TCP_FIN i = true -> takes_fin i pcb = false -> diverges i pcb
| syn_again : state pcb <> SYN_SENT -> acceptable i pcb = true -> in_has TCP_SYN i = true -> diverges i pcb
| ack_not_expected : state pcb = SYN_RCVD \/ state pcb = FIN_WAIT_1 \/ state pcb = CLOSING \/ state pcb = LAST_ACK ->
    in_has TCP_ACK i = true -> acceptable i pcb = false -> diverges i pcb
| fin_not_out : state pcb = FIN_WAIT_1 \/ state pcb = CLOSING \/ state pcb = LAST_ACK ->
    in_has TCP_ACK i = true -> ~ all_out i pcb -> diverges i pcb.

(** A connection that is being opened: its SYN, with the number [lastack], is all
    that has been sent. *)
Definition opening (pcb : tcp_pcb) : Prop :=
  (state pcb = SYN_SENT -> exists s q, unacked pcb = s :: q /\ ntohl (th_seqno (tcphdr s)) = lastack pcb) /\
  (state pcb = SYN_SENT \/ state pcb = SYN_RCVD -> snd_nxt pcb = u32 (lastack pcb + 1)).

Lemma all_out_dec i pcb : all_out i pcb \/ ~ all_out i pcb.
Proof. unfold all_out. match goal with |- ?P \/ _ => destruct (decide P); auto end. Qed.

Lemma acks_new_opening i pcb : snd_nxt pcb = u32 (lastack pcb + 1) -> fits 32 (ackno i) ->
  acks_new i pcb = in_has TCP_ACK i && (ackno i =? u32 (lastack pcb + 1)).
Proof.
  intros E F. unfold acks_new. rewrite E. destruct (in_has TCP_ACK i); [|reflexivity]. cbn [andb].
  rewrite (wrap_sub_l 32). replace (lastack pcb + 1 - lastack pcb) with 1 by lia. change (u32 1) with 1.
  unfold fits, wrap in *. pow2.
  destruct (Z.ltb_spec 0 ((ackno i - lastack pcb) mod 4294967296)), (Z.leb_spec ((ackno i - lastack pcb) mod 4294967296) 1),
    (Z.eqb_spec (ackno i) ((lastack pcb + 1) mod 4294967296)); cbn [andb]; try reflexivity; exfalso; zmod_lia.
Qed.

(** [SYN_RCVD] tests the number with comparisons of sequence numbers. *)
Lemma between_one a l : fits 32 a -> TCP_SEQ_BETWEEN a (u32 (l + 1)) (u32 (l + 1)) = (a =? u32 (l + 1)).
Proof.
  intros F. unfold TCP_SEQ_BETWEEN, TCP_SEQ_GEQ, TCP_SEQ_LEQ, swrap, wrap, fits in *. change (32 - 1) with 31. pow2.
  set (x := (l + 1) mod 4294967296). assert (X : 0 <= x < 4294967296) by (apply Z.mod_pos_bound; lia). clearbody x.
  assert (M : a = x \/ 0 < (a - x) mod 4294967296 < 4294967296) by (destruct (Z.eq_dec a x); [now left | right; zmod_lia]).
  destruct (Z.eqb_spec a x) as [->|N]; [rewrite Z.sub_diag; reflexivity|]. destruct M as [|M]; [easy|].
  destruct (Z.ltb_spec ((a - x) mod 4294967296) 2147483648); apply andb_false_iff; [right | left]; apply Z.leb_gt; lia.
Qed.

Lemma after_receive_result i pcb k r : after_receive ticks copy_ok i pcb k = Done r -> input_wf i -> cwnd_ok pcb ->
  exists i' p', r = k i' p' /\ tcp_receive ticks copy_ok i pcb = Some (i', p') /\ state p' = state pcb /\ same_in i' i.
Proof.
  intros E Hi Hc. unfold after_receive in E. destruct (tcp_receive_total ticks copy_ok i pcb Hi Hc) as (i' & p' & R & S & I).
  rewrite R in E. injection E as <-. exists i', p'. now split_and!.
Qed.

Lemma acks_all_out i i' pcb p' : same_in i' i -> snd_nxt p' = snd_lbb pcb -> acks_all i' p' = acks_fin i pcb.
Proof. intros I E. unfold acks_all, acks_fin. rewrite (in_has_same _ _ _ I), E. now destruct I as (_ & -> & _). Qed.

(** What the code does once the connection is open; [acked] is its own test that
    the FIN is acknowledged. *)
Definition open_next (i : input) (acked : bool) (s : tcp_state) : tcp_state :=
  match s with
  | ESTABLISHED => if in_has TCP_FIN i then CLOSE_WAIT else s
  | FIN_WAIT_1 => if in_has TCP_FIN i then if acked then TIME_WAIT else CLOSING else if acked then FIN_WAIT_2 else s
  | FIN_WAIT_2 => if in_has TCP_FIN i then TIME_WAIT else s
  | CLOSING => if acked then TIME_WAIT else s
  | LAST_ACK => if acked then CLOSED else s
  | _ => s
  end.

Lemma process_open_next i pcb r : process i pcb = Done r -> in_has TCP_RST i = false -> input_wf i -> cwnd_ok pcb ->
  state pcb <> SYN_SENT -> state pcb <> SYN_RCVD -> exists acked, state (pr_pcb r) = open_next i acked (state pcb) /\
    (in_has TCP_ACK i = false -> acked = false) /\ (all_out i pcb -> acked = acks_fin i pcb).
Proof using K.
  intros E R Hi Hc N1 N2. unfold tcp_process in E. rewrite R in E.
  set (q := pcb <| tmr := ticks |> <| keep_cnt := 0 |>) in E. change (state q) with (state pcb) in E.
  assert (Same : state pcb <> ESTABLISHED -> state pcb <> FIN_WAIT_1 -> state pcb <> FIN_WAIT_2 -> state pcb <> CLOSING ->
    state pcb <> LAST_ACK -> r = stay i q -> exists acked, state (pr_pcb r) = open_next i acked (state pcb) /\
    (in_has TCP_ACK i = false -> acked = false) /\ (all_out i pcb -> acked = acks_fin i pcb)).
  { intros ? ? ? ? ? ->. exists (acks_fin i pcb). split_and!; [|unfold acks_fin; now intros -> | trivial]. change (state pcb = open_next i (acks_fin i pcb) (state pcb)). destruct (state pcb); trivial; congruence. }
  destruct (state pcb) eqn:St; try easy; try (apply Same; congruence); clear Same;
    apply after_receive_result in E as (i' & p' & -> & Er & Sp & I); trivial; rewrite ?(in_has_same _ _ _ I);
    change (state q) with (state pcb) in Sp; rewrite St in Sp; exists (acks_all i' p');
    (split; [|split; [unfold acks_all; rewrite (in_has_same _ _ _ I); now intros -> |
      intros Ao; apply tcp_receive_out in Er; [now apply acks_all_out | exact Ao]]]); cbn [open_next];
    destruct (in_has TCP_FIN i), (acks_all i' p'); trivial.
Qed.

(** The states in which the connection is open, or has been closed. *)
Lemma open_state i pcb r : process i pcb = Done r -> in_has TCP_RST i = false -> input_wf i -> cwnd_ok pcb ->
  state pcb <> SYN_SENT -> state pcb <> SYN_RCVD -> diverges i pcb \/ state (pr_pcb r) = rfc793_next i pcb.
Proof using K.
  intros E R Hi Hc N1 N2. destruct (process_open_next i pcb r E R Hi Hc N1 N2) as (acked & -> & A0 & A1). clear E.
  destruct (acceptable i pcb) eqn:Acc; [destruct (in_has TCP_SYN i) eqn:Syn; [left; now apply syn_again|]|].
  all: assert (T : in_has TCP_FIN i = false -> takes_fin i pcb = false) by (unfold takes_fin; now intros ->).
  all: assert (U : acceptable i pcb = false -> takes_fin i pcb = false) by (unfold takes_fin; intros ->; now rewrite !andb_false_r).
  all: assert (V : in_has TCP_ACK i = false -> acks_fin i pcb = false) by (unfold acks_fin; now intros ->).
  all: unfold rfc793_next; rewrite Acc, ?Syn; cbn [negb]; destruct (in_has TCP_FIN i) eqn:Fin;
    [destruct (takes_fin i pcb) eqn:Tf | rewrite ?(T eq_refl)]; try (discriminate (U Acc)); clear T U.
  all: destruct (in_has TCP_ACK i) eqn:Ack; [destruct (all_out_dec i pcb) as [Ao|Ao]; [rewrite A1 by exact Ao; clear A1|] |
    rewrite (A0 eq_refl), ?(V eq_refl); clear A0 A1].
  all: destruct (state pcb) eqn:St; try easy; cbn [open_next]; rewrite ?Fin; try (right; reflexivity); left.
  all: try (apply fin_not_next; auto; fail); try (apply fin_not_out; auto; fail); try (apply ack_not_expected; auto; fail).
Qed.

(** The states in which it is being opened. *)
Lemma syn_sent_state i pcb r : process i pcb = Done r -> in_has TCP_RST i = false ->
  opening pcb -> fits 32 (ackno i) -> state pcb = SYN_SENT -> diverges i pcb \/ state (pr_pcb r) = rfc793_next i pcb.
Proof using K.
  intros E R [O1 O2] Fa St. destruct (O1 St) as (s & rest & U & Sq). specialize (O2 (or_introl St)).
  pose proof (acks_new_opening i pcb O2 Fa) as An. unfold tcp_process in E. rewrite R in E. unfold rfc793_next.
  set (q := pcb <| tmr := ticks |> <| keep_cnt := 0 |>) in E. change (state q) with (state pcb) in E. rewrite St in E |- *.
  unfold process_syn_sent in E. change (unacked q) with (unacked pcb) in E.
  destruct (in_has TCP_SYN i) eqn:Syn, (in_has TCP_ACK i) eqn:Ack; try (injection E as <-; right; exact St).
  2:{ left. now apply simultaneous_open. }
  rewrite U, Sq in E. cbn [andb] in An. destruct (acks_new i pcb) eqn:N; rewrite <- An in E; [|injection E as <-; right; exact St].
  destruct (in_has TCP_FIN i) eqn:Fin; [left; apply fin_while_opening; auto|]. cbv zeta in E.
  destruct (tcp_parseopt fuel i _) as [p'| |] eqn:P; try discriminate. injection E as <-. apply parseopt_state in P.
  right. change (state (ack_in (on_connected p')) = ESTABLISHED). rewrite ack_in_state, connected_state, P. reflexivity.
Qed.

Lemma syn_rcvd_state i pcb r : process i pcb = Done r -> in_has TCP_RST i = false -> input_wf i -> cwnd_ok pcb ->
  opening pcb -> fits 32 (ackno i) -> state pcb = SYN_RCVD -> diverges i pcb \/ state (pr_pcb r) = rfc793_next i pcb.
Proof using K.
  intros E R Hi Hc [_ O2] Fa St. specialize (O2 (or_intror St)).
  pose proof (acks_new_opening i pcb O2 Fa) as An. unfold tcp_process in E. rewrite R in E. unfold rfc793_next.
  set (q := pcb <| tmr := ticks |> <| keep_cnt := 0 |>) in E. change (state q) with (state pcb) in E. rewrite St in E |- *.
  unfold process_syn_rcvd in E. rewrite R in E. change (lastack q) with (lastack pcb) in E.
  change (snd_nxt q) with (snd_nxt pcb) in E. rewrite O2, between_one in E by exact Fa.
  destruct (acceptable i pcb) eqn:Acc; [destruct (in_has TCP_SYN i) eqn:Syn; [left; apply syn_again; congruence|]|]; cbn [negb].
  2:{ destruct (in_has TCP_ACK i) eqn:Ack; cbn [andb negb] in E; [left; apply ack_not_expected; auto | injection E as <-; right; exact St]. }
  destruct (in_has TCP_ACK i) eqn:Ack; cbn [andb negb] in *; [|injection E as <-; right; rewrite An; exact St].
  destruct (acks_new i pcb) eqn:N; rewrite <- An in E; [|injection E as <-; right; exact St].
  destruct (takes_fin i pcb) eqn:Tf; [left; apply fin_while_opening; auto|].
  set (w := q <| state := ESTABLISHED |>) in E. assert (Cw : cwnd_ok w) by exact Hc.
  pose proof (accept_state w) as As. pose proof (accept_cwnd w Cw) as Ac. destruct (on_accept w) as [err v]. cbn [snd] in As, Ac.
  right. destruct (err =? ERR_OK); [|injection E as <-; exact As].
  apply after_receive_result in E as (i' & p' & -> & _ & Sp & _); trivial. exact (eq_trans Sp As).
Qed.

(** A number between the next expected one and the end of the window. *)
Lemma between_window s n w : fits 16 w -> TCP_SEQ_BETWEEN s n (u32 (n + w)) = true <-> u32 (s - n) <= w.
Proof.
  intros F. unfold TCP_SEQ_BETWEEN, TCP_SEQ_GEQ, TCP_SEQ_LEQ, swrap, fits in *. rewrite wrap_sub_r.
  replace (s - (n + w)) with (s - n - w) by lia. generalize (s - n). intros a. change (32 - 1) with 31. unfold wrap.
  rewrite <- (Zminus_mod_idemp_l a w). pow2. pose proof (Z.mod_pos_bound a 4294967296 ltac:(lia)) as B.
  revert B. generalize (a mod 4294967296). intros b B. rewrite andb_true_iff, !Z.leb_le.
  destruct (Z_le_gt_dec w b) as [L|L].
  - rewrite (Z.mod_small (b - w)) by lia. destruct (Z.ltb_spec b 2147483648), (Z.ltb_spec (b - w) 2147483648); lia.
  - replace ((b - w) mod 4294967296) with (b - w + 4294967296) by zmod_lia.
    destruct (Z.ltb_spec b 2147483648), (Z.ltb_spec (b - w + 4294967296) 2147483648); lia.
Qed.

Lemma process_rst_result i pcb : fits 16 (rcv_wnd pcb) -> recv_flags i = 0 ->
  state (pr_pcb (process_rst i pcb)) = state pcb /\
  (recv_flags (pr_in (process_rst i pcb)) = TF_RESET <->
   if decide (state pcb = SYN_SENT) then ackno i = snd_nxt pcb else u32 (seqno i - rcv_nxt pcb) <= rcv_wnd pcb).
Proof.
  intros Fw Fl. pose proof (between_window (seqno i) (rcv_nxt pcb) (rcv_wnd pcb) Fw) as W. unfold process_rst.
  set (acc := match state pcb with SYN_SENT => _ | _ => _ end).
  assert (Ac : acc = true <->
    if decide (state pcb = SYN_SENT) then ackno i = snd_nxt pcb else u32 (seqno i - rcv_nxt pcb) <= rcv_wnd pcb).
  { subst acc. case_decide as D; [rewrite D; apply Z.eqb_eq | destruct (state pcb); exact W || now destruct D]. }
  rewrite <- Ac. destruct acc; cbn; [now split|]. rewrite Fl. now split.
Qed.

(** C10: the state machine of RFC 793.  For a segment that [tcp_input] may hand on
    and a congestion window that is not 0 (and, while opening, a SYN that is all
    that was sent, and options that can be read), [tcp_process] returns.  Without
    RST, the state after it is the one that the RFC prescribes for the numbers of
    the segment and of the connection ([rfc793_next]), except in the six cases of
    [diverges], of which [divergences_are_real] shows that none is void: a SYN
    without ACK in SYN-SENT; a FIN while the connection is being opened; a FIN that
    the RFC does not process yet; a SYN in the window of an open connection; an
    acknowledgement in a segment outside the window; and, while our FIN is to be
    acknowledged, a queue that is not all sent or a third duplicate
    acknowledgement.  Even then it changes only along an arrow of the diagram.  The
    block moves to the list of the connections in TIME-WAIT exactly when it enters
    that state, with its queues empty; a block that becomes CLOSED is reported as
    such.  A RST changes no state; it is reported exactly when its number lies in
    the window, the right edge included (in SYN-SENT, when it acknowledges what
    was sent). *)
Theorem tcp_process_rfc793 i pcb : input_wf i -> fits 32 (ackno i) -> cwnd_ok pcb -> opening pcb ->
  (state pcb = SYN_SENT -> exists m, parse_opts fuel (opts i) (Z.shiftl (TCPH_HDRLEN (in_hdr i) - 5) 2) 0 = Done m) ->
  exists r, process i pcb = Done r /\ reports i pcb r /\
    (in_has TCP_RST i = false -> state (pr_pcb r) = rfc793_next i pcb \/
       diverges i pcb /\ arrow i (snd_nxt (pr_pcb r)) (state pcb) (state (pr_pcb r))) /\
    (in_has TCP_RST i = true -> fits 16 (rcv_wnd pcb) -> recv_flags i = 0 -> state (pr_pcb r) = state pcb /\
       (recv_flags (pr_in r) = TF_RESET <->
        if decide (state pcb = SYN_SENT) then ackno i = snd_nxt pcb else u32 (seqno i - rcv_nxt pcb) <= rcv_wnd pcb)).
Proof using K.
  intros Hi Fa Hc Ho Hp. destruct (process_follows i pcb Hi Hc) as (r & E & F).
  { intros St. split; [|auto]. destruct Ho as [Ho _]. destruct (Ho St) as (s & q & -> & _). discriminate. }
  exists r. split; [exact E|]. split; [destruct F; now constructor|]. split.
  - intros R. apply fo_diagram in F. cut (diverges i pcb \/ state (pr_pcb r) = rfc793_next i pcb); [intuition|].
    destruct (decide (state pcb = SYN_SENT)) as [S1|N1]; [now apply syn_sent_state|].
    destruct (decide (state pcb = SYN_RCVD)) as [S2|N2]; [now apply syn_rcvd_state | now apply open_state].
  - intros R. unfold tcp_process in E. rewrite R in E. injection E as <-. apply process_rst_result.
Qed.

End Fsm.

(** ** A connection that closes at the same time as its peer *)

Lemma quiet_app_keeps_state : AppKeepsState quiet_app.
Proof. now constructor. Qed.

Definition demo_conn (s : tcp_state) : tcp_pcb :=
  (new_pcb 6510 0) <| state := s |> <| snd_nxt := 6512 |> <| snd_max := 6512 |> <| snd_lbb := 6512 |> <| lastack := 6511 |>
    <| rcv_nxt := 901 |> <| cwnd := 1460 |>.

(** FIN and ACK for 6512. *)
Definition demo_fin : input :=
  let h := mkTcpHdr 80 4097 901 6512 (htons 20497) 1000 0 0 in
  mkInput (Some [[]]) 0 h [] 901 6512 (TCP_FIN + TCP_ACK) 1 0 None.

(** A simultaneous close: our FIN is acknowledged by the peer's. *)
Lemma tcp_process_rfc793_witness : exists r,
  tcp_process (A := quiet_app) 7 true true 41 1 2 demo_fin (demo_conn FIN_WAIT_1) = Done r /\
  rfc793_next demo_fin (demo_conn FIN_WAIT_1) = TIME_WAIT /\ state (pr_pcb r) = TIME_WAIT /\ pr_fate r = ToTimeWait.
Proof.
  destruct (tcp_process_rfc793 (A := quiet_app) (K := quiet_app_keeps_state) 7 true true 41 1 2 demo_fin (demo_conn FIN_WAIT_1))
    as (r & E & F & S & _).
  - constructor; [exists [[]]; split_and!; easy | easy].
  - easy.
  - now split.
  - split; [discriminate | intros [|]; discriminate].
  - discriminate.
  - assert (N : rfc793_next demo_fin (demo_conn FIN_WAIT_1) = TIME_WAIT) by (vm_compute; reflexivity).
    assert (St : state (pr_pcb r) = TIME_WAIT).
    { rewrite <- N. destruct (S eq_refl) as [D|[D _]]; [exact D | exfalso]. destruct D as [D|_ [[D _]|[D _]]|_ _ D|_ _ D|_ _ D|_ _ D].
      - discriminate D.
      - discriminate D.
      - discriminate D.
      - vm_compute in D. discriminate D.
      - vm_compute in D. discriminate D.
      - vm_compute in D. discriminate D.
      - apply D. split; [vm_compute; reflexivity|]. split; [vm_compute; reflexivity | intros _; left; vm_compute; reflexivity]. }
    exists r. split_and!; trivial. apply (re_list _ _ _ F). split; [discriminate | exact St].
Defined.

(** Every case of [diverges] has a segment that the code treats otherwise than the
    RFC: the state of the code, and the one prescribed. *)
Definition demo_seg (flags sq ack len : Z) : input :=
  let h := mkTcpHdr 80 4097 sq ack (htons (20480 + flags)) 1000 0 0 in
  mkInput (Some [repeat 0 (Z.to_nat len)]) 0 h [] sq ack flags
    (len + if Z.land flags (TCP_SYN + TCP_FIN) =? 0 then 0 else 1) 0 None.

Definition demo_states (i : input) (pcb : tcp_pcb) : option (tcp_state * tcp_state) :=
  match tcp_process (A := quiet_app) 7 true true 41 1 2 i pcb with
  | Done r => Some (state (pr_pcb r), rfc793_next i pcb)
  | _ => None
  end.

Definition demo_syn (s : tcp_state) : tcp_pcb :=
  (new_pcb 6510 0) <| state := s |> <| snd_nxt := 6511 |> <| snd_max := 6511 |> <| snd_lbb := 6511 |> <| lastack := 6510 |>
    <| rcv_nxt := 901 |> <| cwnd := 1460 |> <| unacked := [mkSeg [] 0 (mkTcpHdr 4097 80 (htonl 6510) 0 (htons 20482) 0 0 0)] |>.

Example divergences_are_real :
  demo_states (demo_seg TCP_SYN 900 0 0) (demo_syn SYN_SENT) = Some (SYN_SENT, SYN_RCVD) /\
  demo_states (demo_seg (TCP_FIN + TCP_ACK) 901 6511 0) (demo_syn SYN_RCVD) = Some (ESTABLISHED, CLOSE_WAIT) /\
  demo_states (demo_seg (TCP_FIN + TCP_ACK) 1901 6512 0) (demo_conn ESTABLISHED) = Some (CLOSE_WAIT, ESTABLISHED) /\
  demo_states (demo_seg (TCP_SYN + TCP_ACK) 901 6512 0) (demo_conn ESTABLISHED) = Some (ESTABLISHED, CLOSED) /\
  demo_states (demo_seg TCP_ACK 100901 6512 0) (demo_conn LAST_ACK) = Some (CLOSED, LAST_ACK) /\
  demo_states (demo_seg TCP_ACK 901 6512 0) ((demo_conn LAST_ACK) <| snd_lbb := 6612 |>) = Some (CLOSED, LAST_ACK).
Proof. vm_compute. split_and!; reflexivity. Qed.
