(* ===== verification/TcpStream.v ===== *)
(** * TcpStream: what the receiver of TCP delivers

    The bytes [tcp_receive] ([TcpIn]) hands to the application are the bytes the
    peer sent, in order, wherever the peer cuts its stream into segments, in
    whatever order these come, however often each comes, and whichever are lost or
    not kept for want of memory ([tcp_stream_in_order]); up to the first segment
    that replaces a shorter one on the queue and covers the start of the one
    behind it.  What then happens is [tcp_recut_loses_data]. *)
From Stdlib Require Import ZArith Lia List Bool.
From stdpp Require Import base list.
From coqutil Require Import Datatypes.RecordSetters.
From S2P Require Import Prelude Inet Tcp TcpOut TcpPcb TcpIn TcpFsm.
Import ListNotations.
#[local] Open Scope Z_scope.

(** ** Acknowledgements do not touch the receiver *)

Definition same_rx (a b : tcp_pcb) : Prop :=
  rcv_nxt a = rcv_nxt b /\ rcv_wnd a = rcv_wnd b /\ ooseq a = ooseq b.

Lemma same_rx_refl a : same_rx a a.
Proof. now split. Qed.

Lemma same_rx_trans a b c : same_rx a b -> same_rx b c -> same_rx a c.
Proof. unfold same_rx. intuition congruence. Qed.

(** Go through the updates of a function, the conditions and the [let]s, one
    after the other; what a called function does is in the database [rx]. *)
Create HintDb rx.
Ltac rx :=
  lazymatch goal with
  | |- same_rx (let x := ?v in @?b x) ?q =>
      let R := fresh "R" in let y := fresh "y" in
      assert (R : same_rx v q) by rx;
      change (same_rx (b v) q); revert R; generalize v; intros y R; cbv beta; rx
  | |- same_rx (if ?c then _ else _) _ => destruct c; rx
  | |- same_rx (match ?c with _ => _ end) _ => destruct c; rx
  | |- same_rx (apply_update _ ?r) ?q =>
      apply (same_rx_trans _ r q); [split_and!; reflexivity | rx]
  | |- same_rx ?x ?x => apply same_rx_refl
  | H : same_rx ?x ?q |- same_rx ?x ?q => exact H
  | |- same_rx _ _ => eapply same_rx_trans; [solve [eauto with rx] | rx]
  end.

Lemma set_flags_rx f pcb : same_rx (set_flags f pcb) pcb.
Proof. split_and!; reflexivity. Qed.

Lemma clear_flags_rx f pcb : same_rx (clear_flags f pcb) pcb.
Proof. split_and!; reflexivity. Qed.
#[export] Hint Resolve set_flags_rx clear_flags_rx : rx.

Lemma ack_now_in_rx pcb : same_rx (ack_now_in pcb) pcb.
Proof. apply set_flags_rx. Qed.

Lemma ack_in_rx pcb : same_rx (ack_in pcb) pcb.
Proof. unfold ack_in, tcp_ack. destruct (has_flag _ pcb); split_and!; reflexivity. Qed.

Lemma update_window_rx i pcb : same_rx (update_window i pcb) pcb.
Proof. unfold update_window. rx. Qed.

Lemma inflate_cwnd_rx pcb : same_rx (inflate_cwnd pcb) pcb.
Proof. unfold inflate_cwnd. rx. Qed.

Lemma tcp_rexmit_rx pcb : same_rx (fst (tcp_rexmit 0 (fun _ => None) true true pcb)) pcb.
Proof. unfold tcp_rexmit. destruct (unacked pcb); split_and!; reflexivity. Qed.
#[export] Hint Resolve ack_now_in_rx ack_in_rx update_window_rx inflate_cwnd_rx tcp_rexmit_rx : rx.

Lemma dup_ack_rx e pcb : same_rx (dup_ack e pcb) pcb.
Proof. unfold dup_ack. rx. Qed.

Lemma grow_cwnd_rx pcb pcb' : grow_cwnd pcb = Some pcb' -> same_rx pcb' pcb.
Proof.
  unfold grow_cwnd. destruct (_ <=? _); [|intros [= <-]; rx].
  destruct (_ <? _); [intros [= <-]; rx|]. destruct (_ =? 0); [discriminate|]. intros [= <-]. rx.
Qed.

Lemma new_ack_vars_rx ack pcb : same_rx (new_ack_vars ack pcb) pcb.
Proof. unfold new_ack_vars. rx. Qed.

Lemma new_ack_rx ack pcb pcb' : new_ack ack pcb = Some pcb' -> same_rx pcb' pcb.
Proof.
  unfold new_ack. pose proof (new_ack_vars_rx ack pcb) as R. revert R.
  generalize (new_ack_vars ack pcb). intros y R.
  destruct (grow_cwnd y) as [z|] eqn:E; [|discriminate]. apply grow_cwnd_rx in E.
  destruct (drop_acked _ _ _). intros [= <-].
  apply (same_rx_trans _ z); [split_and!; reflexivity | now apply (same_rx_trans _ y)].
Qed.

Lemma update_rtt_rx t ack pcb : same_rx (update_rtt t ack pcb) pcb.
Proof. unfold update_rtt. destruct (_ && _); split_and!; reflexivity. Qed.

Lemma receive_ack_rx t i pcb pcb' : receive_ack t i pcb = Some pcb' -> same_rx pcb' pcb.
Proof.
  unfold receive_ack. pose proof (update_window_rx i pcb) as W. revert W.
  generalize (update_window i pcb). intros w W.
  destruct (if lastack w =? ackno i then _ else _) as [r|] eqn:E; [|discriminate].
  assert (R : same_rx r pcb).
  { destruct (_ =? _); [injection E as <-; now apply (same_rx_trans _ w); [apply dup_ack_rx|]|].
    destruct (TCP_SEQ_BETWEEN _ _ _); [|now injection E as <-].
    apply new_ack_rx in E. now apply (same_rx_trans _ w). }
  clear E. destruct (drop_unsent _ _ _ _ _) as [[q n] nxt]. intros [= <-].
  eapply same_rx_trans; [apply update_rtt_rx|].
  apply (same_rx_trans _ r); [split_and!; reflexivity | exact R].
Qed.

(** ** A connection with nothing in flight *)

Record quiet (pcb : tcp_pcb) : Prop := {
  q_unacked : unacked pcb = []; q_infr : has_flag TF_INFR pcb = false; q_cwnd : 0 < cwnd pcb
}.

(** Changes the property does not see. *)
Definition same_tx (a b : tcp_pcb) : Prop :=
  unacked a = unacked b /\ cwnd a = cwnd b /\ has_flag TF_INFR a = has_flag TF_INFR b.

Lemma same_tx_refl a : same_tx a a.
Proof. now split. Qed.

Lemma same_tx_trans a b c : same_tx a b -> same_tx b c -> same_tx a c.
Proof. unfold same_tx. intuition congruence. Qed.

Lemma quiet_tx a b : same_tx a b -> quiet b -> quiet a.
Proof. intros (E1 & E2 & E3) []. constructor; congruence. Qed.

Lemma set_flags_tx f pcb : Z.land f TF_INFR = 0 -> same_tx (set_flags f pcb) pcb.
Proof. intros H. split_and!; [reflexivity | reflexivity | now apply has_set_flags]. Qed.

Lemma clear_flags_tx f pcb : Z.land f TF_INFR = 0 -> same_tx (clear_flags f pcb) pcb.
Proof. intros H. split_and!; [reflexivity | reflexivity | now apply has_clear_flags]. Qed.

Lemma ack_now_in_tx pcb : same_tx (ack_now_in pcb) pcb.
Proof. now apply set_flags_tx. Qed.

Lemma ack_in_tx pcb : same_tx (ack_in pcb) pcb.
Proof.
  unfold ack_in, tcp_ack. destruct (has_flag _ pcb); [|now apply set_flags_tx].
  change (same_tx (set_flags TF_ACK_NOW (clear_flags TF_ACK_DELAY pcb)) pcb).
  eapply same_tx_trans; [now apply set_flags_tx | now apply clear_flags_tx].
Qed.

Lemma quiet_dup_ack e pcb : quiet pcb -> quiet (dup_ack e pcb).
Proof.
  intros [Q1 Q2 Q3]. unfold dup_ack. destruct (_ =? _); [|now constructor].
  cbv zeta. match goal with |- context [?a && negb (match unacked ?r with _ => _ end)] => change (unacked r) with (unacked pcb) end.
  rewrite Q1, andb_false_r. now constructor.
Qed.

Lemma quiet_grow pcb : quiet pcb -> exists pcb', grow_cwnd pcb = Some pcb' /\ quiet pcb'.
Proof.
  intros Q. destruct (Q) as [Q1 Q2 Q3]. unfold grow_cwnd. destruct (_ <=? _); [|now exists pcb].
  destruct (_ <? _).
  - eexists; split; [reflexivity|]. unfold inflate_cwnd. destruct (Z.ltb_spec (cwnd pcb) (u16 (cwnd pcb + mss pcb))); [|exact Q].
    constructor; trivial. upd. lia.
  - replace (cwnd pcb =? 0) with false by (symmetry; apply Z.eqb_neq; lia). eexists; split; [reflexivity|].
    match goal with |- context [if ?c <? ?n then _ else _] => destruct (Z.ltb_spec c n) end; [|exact Q].
    constructor; trivial. upd. lia.
Qed.

Lemma quiet_new_ack ack pcb : quiet pcb -> exists pcb', new_ack ack pcb = Some pcb' /\ quiet pcb'.
Proof.
  intros [Q1 Q2 Q3]. assert (Q : quiet (new_ack_vars ack pcb)).
  { unfold new_ack_vars. rewrite Q2. now constructor. }
  unfold new_ack. destruct (quiet_grow _ Q) as (pcb' & -> & [R1 R2 R3]). rewrite R1. cbn [drop_acked].
  eexists; split; [reflexivity|]. now constructor.
Qed.

Lemma quiet_receive_ack t i pcb : quiet pcb -> exists pcb', receive_ack t i pcb = Some pcb' /\ quiet pcb'.
Proof.
  intros Q. unfold receive_ack. assert (W : quiet (update_window i pcb)).
  { destruct Q. unfold update_window. destruct (_ || _); now constructor. }
  revert W. generalize (update_window i pcb). intros w W. cbv zeta.
  assert (R : exists r, (if lastack w =? ackno i then Some (dup_ack (u32 (snd_wnd pcb + snd_wl1 pcb)) w)
     else if TCP_SEQ_BETWEEN (ackno i) (u32 (lastack w + 1)) (snd_max w) then new_ack (ackno i) w else Some w) = Some r /\ quiet r).
  { destruct (_ =? _); [eexists; split; [reflexivity | now apply quiet_dup_ack]|].
    destruct (TCP_SEQ_BETWEEN _ _ _); [now apply quiet_new_ack | now exists w]. }
  destruct R as (r & -> & [R1 R2 R3]). destruct (drop_unsent _ _ _ _ _) as [[q n] nxt].
  eexists; split; [reflexivity|]. unfold update_rtt. destruct (_ && _); now constructor.
Qed.

Lemma dequeue_ooseq_tx q : forall i pcb, same_tx (snd (dequeue_ooseq q i pcb)) pcb.
Proof.
  induction q as [|s q IH]; intros i pcb; cbn [dequeue_ooseq]; [split_and!; reflexivity|].
  destruct (_ =? _); [|split_and!; reflexivity]. eapply same_tx_trans; [apply IH | split_and!; reflexivity].
Qed.

Lemma receive_data_tx ok i pcb i' pcb' : receive_data ok i pcb = Some (i', pcb') -> same_tx pcb' pcb.
Proof.
  unfold receive_data. pose proof (ack_now_in_tx pcb) as N. destruct (0 <? _).
  2:{ destruct (in_window _ _); intros [= <- <-]; [apply same_tx_refl | exact N]. }
  destruct (in_p i) as [q|]; [|discriminate]. destruct (receive_trim i q pcb) as [[[i1 q1] p1]|] eqn:E; [|discriminate].
  assert (T : same_tx p1 pcb).
  { unfold receive_trim in E. destruct (TCP_SEQ_BETWEEN _ _ _).
    - destruct (trim_front _ q); [injection E as <- <- <-; apply same_tx_refl | discriminate].
    - destruct (TCP_SEQ_LT _ _); injection E as <- <- <-; [exact N | apply same_tx_refl]. }
  clear E. intros E. injection E as E. destruct (in_window _ _).
  2:{ injection E as <- <-. eapply same_tx_trans; [apply ack_now_in_tx | exact T]. }
  destruct (_ =? _).
  - unfold receive_inseq in E. destruct (trim_overlap _ _ _) as [q2 n]. cbv zeta in E.
    match type of E with context [dequeue_ooseq ?l ?ii ?pp] => pose proof (dequeue_ooseq_tx l ii pp) as D;
      destruct (dequeue_ooseq l ii pp) as [i2 p2] end.
    injection E as <- <-. eapply same_tx_trans; [apply ack_in_tx|]. eapply same_tx_trans; [exact D|].
    eapply same_tx_trans; [|exact T]. split_and!; reflexivity.
  - injection E as <- <-. unfold receive_ooseq. eapply same_tx_trans; [|exact T].
    eapply same_tx_trans; [|apply ack_now_in_tx]. destruct (ooseq _); [destruct ok|]; split_and!; reflexivity.
Qed.

(** ** Streams and their segments *)

Definition slice (S : list Z) (o l : Z) : list Z := take (Z.to_nat l) (drop (Z.to_nat o) S).

Lemma slice_length S o l : 0 <= o -> 0 <= l -> o + l <= Z.of_nat (length S) ->
  Z.of_nat (length (slice S o l)) = l.
Proof. intros. unfold slice. rewrite length_take, length_drop. lia. Qed.

Lemma slice_app S o a b : 0 <= o -> 0 <= a -> 0 <= b -> slice S o a ++ slice S (o + a) b = slice S o (a + b).
Proof.
  intros Ho Ha Hb. unfold slice. replace (Z.to_nat (o + a)) with (Z.to_nat o + Z.to_nat a)%nat by lia.
  rewrite <- drop_drop. replace (Z.to_nat (a + b)) with (Z.to_nat a + Z.to_nat b)%nat by lia.
  apply take_take_drop.
Qed.

Lemma slice_nil S o : slice S o 0 = [].
Proof. reflexivity. Qed.

Lemma slice_take S o l k : 0 <= k <= l -> take (Z.to_nat k) (slice S o l) = slice S o k.
Proof. intros H. unfold slice. rewrite take_take. f_equal. lia. Qed.

Lemma slice_drop S o l k : 0 <= o -> 0 <= k <= l -> drop (Z.to_nat k) (slice S o l) = slice S (o + k) (l - k).
Proof.
  intros Ho H. unfold slice. rewrite drop_take_drop || rewrite <- take_drop_commute || idtac.
  replace (Z.to_nat l) with (Z.to_nat k + Z.to_nat (l - k))%nat by lia. rewrite <- take_drop_commute, drop_drop.
  do 2 f_equal. lia.
Qed.

(** The differences of sequence numbers that are lengths. *)
Lemma seq_len w x a b : 0 <= w <= 32 -> 0 <= a - b < 2 ^ w -> wrap w (u32 (x + a) - u32 (x + b)) = a - b.
Proof.
  intros Hw H. unfold wrap.
  assert (D : (2 ^ w | 2 ^ 32)) by (exists (2 ^ (32 - w)); rewrite <- Z.pow_add_r by lia; f_equal; lia).
  assert (P : 0 < 2 ^ w) by (apply Z.pow_pos_nonneg; lia).
  rewrite <- (Z.mod_small (a - b) (2 ^ w)) by exact H.
  rewrite Zminus_mod, !Z.mod_mod_divide, <- Zminus_mod by exact D. f_equal. lia.
Qed.

(** Trimming is taking and dropping bytes. *)
Lemma shrink_chain_take q : forall n, 0 <= n -> concat (shrink_chain n q) = take (Z.to_nat n) (concat q).
Proof.
  induction q as [|s q IH]; intros n Hn; cbn [shrink_chain concat]; [now rewrite take_nil|].
  destruct (Z.leb_spec n (Z.of_nat (length s))).
  - cbn [concat]. rewrite app_nil_r, take_app_le by lia. reflexivity.
  - cbn [concat]. rewrite IH by lia. rewrite take_app_ge by lia. do 2 f_equal. lia.
Qed.

Lemma realloc_take n q : 0 <= n -> concat (pbuf_realloc n q) = take (Z.to_nat n) (concat q).
Proof.
  intros Hn. unfold pbuf_realloc, tot_len. destruct (Z.leb_spec (Z.of_nat (length (concat q))) n).
  - rewrite take_ge by lia. reflexivity.
  - now apply shrink_chain_take.
Qed.

Lemma trim_front_drop q : forall off, 0 < off <= tot_len q ->
  exists q', trim_front off q = Some q' /\ concat q' = drop (Z.to_nat off) (concat q).
Proof.
  induction q as [|s q IH]; intros off; unfold tot_len; cbn [concat]; [cbn; lia|].
  rewrite length_app. intros H. cbn [trim_front]. destruct (Z.ltb_spec (Z.of_nat (length s)) off).
  - destruct (IH (off - Z.of_nat (length s)) ltac:(unfold tot_len; lia)) as (q' & -> & E).
    eexists; split; [reflexivity|]. cbn [concat app]. rewrite E, drop_app_ge by lia. f_equal. lia.
  - eexists; split; [reflexivity|]. cbn [concat]. now rewrite drop_app_le by lia.
Qed.

Section Stream.
(** The peer's initial sequence number and stream. *)
Context (isn : Z) (S : list Z).

(** A piece of the stream, by its offset and length, and the offset behind it. *)
Definition piece (f : Z * Z) : Prop := 0 <= fst f /\ 0 < snd f <= 65535 /\ fst f + snd f <= Z.of_nat (length S).
Definition past (f : Z * Z) : Z := fst f + snd f.

(** A received segment that holds [f]; it has no SYN and no FIN. *)
Definition holds (f : Z * Z) (s : tcp_seg) : Prop :=
  rx_seqno s = u32 (isn + fst f) /\ len s = snd f /\ concat (p s) = slice S (fst f) (snd f) /\
  syn_fin (TCPH_FLAGS (tcphdr s)) = 0 /\ Z.land (TCPH_FLAGS (tcphdr s)) TCP_FIN = 0.

(** Pieces in order, without overlap, from offset [m] on. *)
Fixpoint ordered (m : Z) (qs : list (Z * Z)) : Prop :=
  match qs with
  | [] => True
  | f :: qs => m <= fst f /\ piece f /\ ordered (past f) qs
  end.

(** Everything up to [n] has been delivered; [ooseq] holds [qs], all behind a gap. *)
Record receiving (n : Z) (qs : list (Z * Z)) (pcb : tcp_pcb) : Prop := {
  rx_next : rcv_nxt pcb = u32 (isn + n);
  rx_range : 0 <= n <= Z.of_nat (length S);
  rx_wnd : fits 16 (rcv_wnd pcb);
  rx_queue : Forall2 holds qs (ooseq pcb);
  rx_order : ordered (n + 1) qs;
  rx_near : Forall (fun f => fst f < n + 65536) qs
}.

(** The part of [f] before [u]. *)
Definition cut_at (u : Z) (f : Z * Z) : Z * Z := (fst f, Z.min (snd f) (u - fst f)).

(** [f] into its place: it loses what the next one has, and the one before loses
    what [f] has; of two that start together the longer one stays, untrimmed. *)
Fixpoint insert_frag (f : Z * Z) (qs : list (Z * Z)) : list (Z * Z) :=
  match qs with
  | [] => [f]
  | g :: qs' =>
      if fst f =? fst g then (if snd g <? snd f then f else g) :: qs'
      else if fst f <? fst g then cut_at (fst g) f :: qs
      else cut_at (fst f) g :: insert_frag f qs'
  end.

(** [f] replaces a piece on the queue and covers the start of the next one. *)
Fixpoint overruns (f : Z * Z) (qs : list (Z * Z)) : bool :=
  match qs with
  | [] => false
  | g :: qs' =>
      if fst f =? fst g then (snd g <? snd f) && match qs' with [] => false | h :: _ => fst h <? past f end
      else overruns f qs'
  end.

Lemma cut_at_id u f : past f <= u -> cut_at u f = f.
Proof. unfold past, cut_at. intros H. destruct f as [o l]. cbn in *. f_equal. lia. Qed.

Lemma cut_at_piece u f : fst f < u -> piece f -> piece (cut_at u f) /\ past (cut_at u f) = Z.min (past f) u.
Proof. unfold piece, past, cut_at. cbn. lia. Qed.

Lemma ordered_weaken m m' qs : m' <= m -> ordered m qs -> ordered m' qs.
Proof. destruct qs as [|f qs]; cbn; [auto | intuition lia]. Qed.

Lemma ordered_from m m' qs : match qs with [] => True | g :: _ => m' <= fst g end -> ordered m qs -> ordered m' qs.
Proof. destruct qs as [|f qs]; cbn; tauto. Qed.

Lemma ordered_elem m qs h : ordered m qs -> h ∈ qs -> m <= fst h /\ piece h.
Proof.
  revert m. induction qs as [|g qs IH]; intros m O Hh; [now apply elem_of_nil in Hh|].
  destruct O as (Hg & Pg & O). apply elem_of_cons in Hh as [->|Hh]; [now split|].
  destruct (IH _ O Hh). unfold past, piece in *. split; [lia | assumption].
Qed.

Lemma insert_frag_ordered f qs : piece f -> overruns f qs = false -> forall m, m <= fst f -> ordered m qs ->
  ordered m (insert_frag f qs).
Proof.
  intros Pf. induction qs as [|g qs IH]; intros Ov m Hm O; cbn [insert_frag overruns] in *; [now split|].
  destruct O as (Hg & Pg & O). destruct (Z.eqb_spec (fst f) (fst g)) as [E|E].
  - destruct (Z.ltb_spec (snd g) (snd f)); cbn [andb] in Ov; [|now split]. split; [exact Hm|]. split; [exact Pf|].
    apply (ordered_from (past g)); [|exact O]. destruct qs as [|h qs]; [exact I | now apply Z.ltb_ge].
  - destruct (Z.ltb_spec (fst f) (fst g)) as [L|L].
    + destruct (cut_at_piece (fst g) f L Pf) as [P1 P2]. split; [exact Hm|]. split; [exact P1|]. split; [rewrite P2; lia | now split].
    + destruct (cut_at_piece (fst f) g ltac:(lia) Pg) as [P1 P2]. split; [exact Hg|]. split; [exact P1|].
      apply (IH Ov); [rewrite P2; lia|]. apply (ordered_weaken (past g)); [rewrite P2; lia | exact O].
Qed.

Lemma insert_frag_near f n qs : fst f < n -> Forall (fun g => fst g < n) qs ->
  Forall (fun g => fst g < n) (insert_frag f qs).
Proof. intros Hf. induction 1 as [|g qs Hg Hqs IH]; cbn; [auto|]. repeat case_match; auto. Qed.

Lemma holds_tot f s : piece f -> holds f s -> tot_len (p s) = snd f.
Proof. intros (? & ? & ?) (_ & _ & E & _). unfold tot_len. rewrite E. apply slice_length; lia. Qed.

(** Distances on the queue stay far below 2^31. *)
Definition near (f g : Z * Z) : Prop := - 2 ^ 30 < fst f - fst g < 2 ^ 30.

(** Trimming a segment at the start of another one. *)
Lemma holds_cut g s u : piece g -> holds g s -> fst g < u -> u - fst g < 2 ^ 30 ->
  holds (cut_at u g) (if TCP_SEQ_GT (u32 (rx_seqno s + len s)) (u32 (isn + u)) then trim_end (u32 (isn + u)) s else s).
Proof.
  intros (G1 & G2 & G3) H Hu Hn. pose proof H as (H1 & H2 & H3 & H4 & H5). rewrite H1, H2, seq_add, seq_gt by lia.
  destruct (Z.ltb_spec u (fst g + snd g)) as [L|L]; [|rewrite cut_at_id by (unfold past; lia); exact H].
  unfold trim_end. rewrite H1, (seq_len 16) by (pow2; lia). unfold cut_at. rewrite Z.min_r by lia.
  split_and!; trivial. cbn. rewrite realloc_take, H3, slice_take by lia. reflexivity.
Qed.

(** The place that [ooseq_insert] finds; [gs] is the piece of [prev]. *)
Lemma ooseq_insert_holds (ok : bool) f ins : piece f -> holds f ins -> forall q (qs : list (Z * Z)) (prev : option tcp_seg) (gs : list (Z * Z)),
  Forall2 holds qs q -> qs <> [] -> (forall h : Z * Z, h ∈ gs ++ qs -> near f h) -> ordered 0 (gs ++ qs) ->
  match prev with Some s => exists g, gs = [g] /\ holds g s /\ fst g < fst f | None => gs = [] end ->
  Forall2 holds (if ok then insert_frag f (gs ++ qs) else gs ++ qs) (ooseq_insert ok prev ins q).
Proof.
  intros Pf Hi. destruct Pf as (F1 & F2 & F3). assert (Pf : piece f) by now split. pose proof Hi as (I1 & I2 & I3 & I4).
  induction q as [|next q IH]; intros qs prev gs Q Hne Hnear Hord Hprev; inversion Q as [|h ? qs' ? Hh Hq]; subst; [easy|].
  assert (Hgs : (gs = [] /\ prev = None) \/ exists g (s : tcp_seg), gs = [g] /\ prev = Some s /\ holds g s /\ fst g < fst f /\ piece g /\ past g <= fst h /\ near f g).
  { destruct prev as [s|]; [right | now left]. destruct Hprev as (g & -> & Hg & L). destruct Hord as (_ & Pg & O & _).
    exists g, s. split_and!; trivial. apply Hnear, elem_of_cons. now left. }
  clear Hprev. assert (Oh : ordered 0 (h :: qs')).
  { destruct Hgs as [[-> _]|(g & s & -> & _ & _ & _ & (? & ? & _) & _)]; [exact Hord|]. destruct Hord as (_ & _ & O).
    apply (ordered_weaken (past g)); [unfold past; lia | exact O]. }
  pose proof Oh as (Hh0 & Ph & Oq). pose proof Ph as (B1 & B2 & B3).
  assert (Nh : near f h) by (apply Hnear, elem_of_app; right; apply elem_of_cons; now left). unfold near in Nh.
  pose proof Hh as (N1 & N2 & _).
  (* the rest of the queue behind [prev] *)
  assert (Back : forall qs1 q1, Forall2 holds qs1 q1 ->
    Forall2 holds (gs ++ qs1) (match prev with Some s => [s] | None => [] end ++ q1)).
  { intros qs1 q1 F. destruct Hgs as [[-> ->]|(g & s & -> & -> & Hg & _)]; [exact F | now constructor]. }
  assert (Ins : fst h <= fst f -> insert_frag f (gs ++ h :: qs') = gs ++ insert_frag f (h :: qs')).
  { intros L. destruct Hgs as [[-> _]|(g & s & -> & _ & _ & Lg & _ & Pa & _)]; [reflexivity|]. cbn [app].
    change (insert_frag f (g :: h :: qs')) with (if fst f =? fst g then (if snd g <? snd f then f else g) :: h :: qs'
      else if fst f <? fst g then cut_at (fst g) f :: g :: h :: qs' else cut_at (fst f) g :: insert_frag f (h :: qs')).
    replace (fst f =? fst g) with false by (symmetry; apply Z.eqb_neq; lia).
    replace (fst f <? fst g) with false by (symmetry; apply Z.ltb_ge; lia). now rewrite cut_at_id by lia. }
  cbn [ooseq_insert]. rewrite I1, N1, seq_eqb by lia. destruct (Z.eqb_spec (fst f) (fst h)) as [E|E].
  { rewrite I2, N2. destruct ok; [|rewrite andb_false_r; apply Back; auto]. rewrite andb_true_r, Ins by lia. cbn [insert_frag].
    rewrite (proj2 (Z.eqb_eq _ _) E). destruct (snd h <? snd f); apply Back; auto. }
  set (here := match prev with None => _ | Some s => _ end).
  assert (Here : here = (fst f <? fst h)).
  { unfold here. destruct Hgs as [[-> ->]|(g & s & -> & -> & (G1 & _) & Lg & [? _] & Pa & Ng)]; [apply seq_lt; lia|].
    unfold near in Ng. rewrite G1, seq_add, seq_sub, seq_between by lia.
    destruct (Z.leb_spec (fst g + 1) (fst f)), (Z.leb_spec (fst f) (fst h - 1)), (Z.ltb_spec (fst f) (fst h)); lia || reflexivity. }
  rewrite Here. clear here Here. destruct (Z.ltb_spec (fst f) (fst h)) as [L|L].
  - destruct ok; [|apply Back; auto].
    pose proof (holds_cut f ins (fst h) Pf Hi L ltac:(lia)) as Hc. rewrite I1 in Hc.
    assert (Rest : insert_frag f (h :: qs') = cut_at (fst h) f :: h :: qs').
    { cbn [insert_frag]. rewrite (proj2 (Z.eqb_neq _ _) E). now rewrite (proj2 (Z.ltb_lt _ _) L). }
    destruct Hgs as [[-> ->]|(g & s & -> & -> & Hg & Lg & Pg & Pa & Ng)]; cbn [app].
    + rewrite Rest. constructor; [exact Hc | exact Q].
    + cbn [insert_frag]. replace (fst f =? fst g) with false by (symmetry; apply Z.eqb_neq; lia).
      replace (fst f <? fst g) with false by (symmetry; apply Z.ltb_ge; lia). cbn [insert_frag] in Rest. rewrite Rest.
      constructor; [|now constructor]. apply holds_cut; trivial. unfold near in Ng. lia.
  - rewrite Ins by lia. assert (Step : insert_frag f (h :: qs') = cut_at (fst f) h :: insert_frag f qs').
    { cbn [insert_frag]. rewrite (proj2 (Z.eqb_neq _ _) E). now rewrite (proj2 (Z.ltb_ge _ _) L). }
    destruct q as [|next2 q2].
    + inversion Hq; subst. rewrite seq_gt by lia. replace (fst h <? fst f) with true by (symmetry; apply Z.ltb_lt; lia).
      destruct ok; cbn [andb]; [|apply Back; auto]. rewrite Step. cbn [insert_frag]. apply Back.
      constructor; [|constructor; [exact Hi | constructor]]. pose proof (holds_cut h next (fst f) Ph Hh ltac:(lia) ltac:(lia)) as Hc.
      now rewrite N1 in Hc.
    + pose proof (IH qs' (Some next) [h] Hq) as R. cbn [app] in R.
      assert (R' : Forall2 holds (if ok then insert_frag f (h :: qs') else h :: qs') (ooseq_insert ok (Some next) ins (next2 :: q2))).
      { apply R; [intros ->; inversion Hq | | exact Oh | exists h; split_and!; trivial; lia].
        intros k Hk. apply Hnear, elem_of_app. now right. }
      destruct ok; apply Back; auto.
Qed.

(** ** Delivery *)

(** The bytes handed to the application. *)
Definition got (i : input) : list Z := match recv_data i with Some d => concat d | None => [] end.

Lemma shrink_wnd_fits n w : 0 <= n -> fits 16 w -> fits 16 (shrink_wnd n w).
Proof. unfold shrink_wnd, fits. intros Hn Hw. case_if; lia. Qed.

Lemma near_later n n' qs : n <= n' -> Forall (fun f : Z * Z => fst f < n + 65536) qs ->
  Forall (fun f : Z * Z => fst f < n' + 65536) qs.
Proof. intros H F. eapply Forall_impl; [exact F|]. cbn. intros; lia. Qed.

(** One turn of the loop that empties the queue. *)
Lemma dequeue_step f s q i pcb n : piece f -> holds f s -> fst f = n -> rcv_nxt pcb = u32 (isn + n) ->
  exists i' pcb', dequeue_ooseq (s :: q) i pcb = dequeue_ooseq q i' pcb' /\ rcv_nxt pcb' = u32 (isn + past f) /\
    rcv_wnd pcb' = shrink_wnd (snd f) (rcv_wnd pcb) /\ got i' = got i ++ slice S n (snd f).
Proof.
  intros Pf Hs E Hr. destruct (Pf) as (B1 & B2 & B3). pose proof (holds_tot f s Pf Hs) as Ht.
  destruct Hs as (S1 & S2 & S3 & S4 & S5). cbn [dequeue_ooseq]. rewrite S1, Hr, E, Z.eqb_refl.
  unfold TCP_TCPLEN. rewrite S4, S2, Z.add_0_r, S5, seq_add, Ht. cbn [Z.eqb].
  replace (0 <? snd f) with true by (symmetry; apply Z.ltb_lt; lia). eexists _, _. split; [reflexivity|]. upd.
  split; [unfold past; now rewrite E|]. split; [reflexivity|]. unfold got. upd.
  destruct (recv_data i); [rewrite concat_app|]; now rewrite S3, E.
Qed.

Lemma dequeue_stop f s q i pcb n : holds f s -> rcv_nxt pcb = u32 (isn + n) -> fst f <> n -> - 2 ^ 30 < fst f - n < 2 ^ 30 ->
  dequeue_ooseq (s :: q) i pcb = (i, pcb <| ooseq := s :: q |>).
Proof.
  intros (S1 & _) Hr N H. cbn [dequeue_ooseq]. rewrite S1, Hr, seq_eqb by lia. now rewrite (proj2 (Z.eqb_neq _ _) N).
Qed.

Lemma dequeue_ok q : forall qs i pcb n, rcv_nxt pcb = u32 (isn + n) -> 0 <= n <= Z.of_nat (length S) ->
  fits 16 (rcv_wnd pcb) -> Forall2 holds qs q -> ordered n qs -> Forall (fun f => fst f < n + 65536) qs ->
  exists n' qs', n <= n' /\ receiving n' qs' (snd (dequeue_ooseq q i pcb)) /\
    got (fst (dequeue_ooseq q i pcb)) = got i ++ slice S n (n' - n).
Proof.
  induction q as [|s q IH]; intros qs i pcb n Hr Hn Hw Q O Near; inversion Q as [|f ? qs' ? Hs Hq]; subst.
  - exists n, []. split; [lia|]. cbn [dequeue_ooseq fst snd]. split.
    + constructor; trivial; upd; trivial; constructor.
    + now rewrite Z.sub_diag, slice_nil, app_nil_r.
  - destruct O as (Hf & Pf & O). pose proof Pf as (B1 & B2 & B3). pose proof Near as Near'.
    apply Forall_cons in Near' as [Nf Near']. destruct (Z.eq_dec (fst f) n) as [E|E].
    + destruct (dequeue_step f s q i pcb n Pf Hs E Hr) as (i1 & p1 & -> & R1 & W1 & G1).
      destruct (IH qs' i1 p1 (past f)) as (n' & qs2 & Hn' & R & G); trivial; unfold past in *; try lia.
      * rewrite W1. apply shrink_wnd_fits; [lia | exact Hw].
      * eapply near_later; [|exact Near']. lia.
      * exists n', qs2. split; [lia|]. split; [exact R|]. rewrite G, G1, <- app_assoc, <- E, slice_app by lia.
        do 2 f_equal. lia.
    + rewrite (dequeue_stop f s q i pcb n) by (trivial; lia). cbn [fst snd]. exists n, (f :: qs'). split; [lia|]. split.
      * constructor; trivial; upd; trivial. split; [lia | now split].
      * now rewrite Z.sub_diag, slice_nil, app_nil_r.
Qed.

Lemma receiving_rx n qs a b : same_rx a b -> receiving n qs b -> receiving n qs a.
Proof. intros (E1 & E2 & E3) []. constructor; trivial; congruence. Qed.

(** The segment being processed holds [f], in the chain [q]. *)
Record carries (f : Z * Z) (i : input) (q : list (list Z)) : Prop := {
  ca_data : concat q = slice S (fst f) (snd f);
  ca_seq : seqno i = u32 (isn + fst f);
  ca_hdr : th_seqno (in_hdr i) = seqno i;
  ca_len : in_len i = snd f;
  ca_flags : syn_fin (TCPH_FLAGS (in_hdr i)) = 0 /\ Z.land (TCPH_FLAGS (in_hdr i)) TCP_FIN = 0;
  ca_none : recv_data i = None
}.

(** The segment [f] has come. *)
Definition arrives (f : Z * Z) (i : input) : Prop := tcplen i = snd f /\ exists q, in_p i = Some q /\ carries f i q.

(** The end of the segment is cut at the queue; the piece and the rest of the queue. *)
Lemma trim_overlap_ok f i q s oo h : piece f -> carries f i q -> holds h s -> fst f < fst h -> fst h - fst f < 2 ^ 30 ->
  exists q', trim_overlap i q (s :: oo) = (q', snd (cut_at (fst h) f)) /\
    concat q' = slice S (fst f) (snd (cut_at (fst h) f)).
Proof.
  intros (B1 & B2 & B3) C (Hs & _) L Hn. unfold trim_overlap, cut_at. rewrite Hs, (ca_seq f i q C), (ca_len f i q C), seq_add, seq_leq by lia.
  destruct (Z.leb_spec (fst h) (fst f + snd f)).
  - cbv zeta. rewrite (seq_len 16) by (pow2; lia). cbn [snd]. rewrite Z.min_r by lia. eexists; split; [reflexivity|].
    rewrite realloc_take, (ca_data f i q C), slice_take by lia. reflexivity.
  - cbn [snd]. rewrite Z.min_l by lia. eexists; split; [reflexivity | apply C].
Qed.

(** What [receive_inseq] does up to the queue; [l] is the length that it takes the
    segment to have, [m] the one it has. *)
Lemma receive_inseq_start f l m i q q' pcb : carries f i q -> trim_overlap i q (ooseq pcb) = (q', l) ->
  concat q' = slice S (fst f) m -> 0 <= fst f -> 0 < l <= 65535 -> 0 < m -> fst f + m <= Z.of_nat (length S) ->
  rcv_nxt pcb = u32 (isn + fst f) ->
  exists i1 p1, receive_inseq i q pcb = (let '(i2, p2) := dequeue_ooseq (ooseq pcb) i1 p1 in (i2, ack_in p2)) /\
    rcv_nxt p1 = u32 (isn + (fst f + l)) /\ rcv_wnd p1 = shrink_wnd l (rcv_wnd pcb) /\ got i1 = slice S (fst f) m.
Proof.
  intros C Et Eq B1 B2 Hm B3 Hr. destruct (ca_flags f i q C) as [Fl1 Fl2]. unfold receive_inseq. rewrite Et. cbv beta iota zeta.
  assert (Ht : tot_len q' = m) by (unfold tot_len; rewrite Eq; apply slice_length; lia).
  rewrite Fl1, Z.add_0_r, Ht, wrap_small by (unfold fits; pow2; lia).
  replace (0 <? m) with true by (symmetry; apply Z.ltb_lt; lia). cbv iota. upd. rewrite Fl2. cbn [Z.eqb].
  eexists _, _. split; [reflexivity|]. upd. rewrite Hr, seq_add. split_and!; trivial.
Qed.

Lemma receive_inseq_ok n qs f i q pcb : receiving n qs pcb -> piece f -> fst f = n -> carries f i q ->
  exists n' qs', n < n' /\ ((forall h, h ∈ qs -> past f <= fst h) -> past f <= n') /\
    receiving n' qs' (snd (receive_inseq i q pcb)) /\ got (fst (receive_inseq i q pcb)) = slice S n (n' - n).
Proof.
  intros R Pf E C. pose proof Pf as (B1 & B2 & B3). destruct R as [R1 R2 R3 R4 R5 R6].
  assert (T : exists q' l, trim_overlap i q (ooseq pcb) = (q', l) /\ concat q' = slice S n l /\ 0 < l <= snd f /\
    ordered (n + l) qs /\ ((forall h, h ∈ qs -> past f <= fst h) -> l = snd f)).
  { destruct (ooseq pcb) as [|s oo] eqn:Eo; inversion R4 as [|h ? qs' ? Hs Hq]; subst.
    - exists q, (snd f). unfold trim_overlap. rewrite (ca_len f i q C). split_and!; trivial; try lia. apply C.
    - pose proof R5 as (Hh & Ph & O). apply Forall_cons in R6 as [Nh _].
      destruct (trim_overlap_ok f i q s oo h Pf C Hs ltac:(lia) ltac:(lia)) as (q' & -> & Eq').
      exists q', (snd (cut_at (fst h) f)). unfold cut_at in *. cbn [snd] in *. split_and!; trivial; try lia.
      + apply (ordered_from (fst f + 1)); [cbn; lia | exact R5].
      + intros H. specialize (H h ltac:(apply elem_of_cons; now left)). unfold past in H. lia. }
  destruct T as (q' & l & Et & Eq & Hl & O & Whole). subst n.
  destruct (receive_inseq_start f l l i q q' pcb C Et Eq ltac:(lia) ltac:(lia) ltac:(lia) ltac:(lia) R1) as (i1 & p1 & -> & Q1 & Q2 & Q3).
  destruct (dequeue_ok (ooseq pcb) qs i1 p1 (fst f + l)) as (n' & qs' & Hn' & R & G); trivial; try lia.
  - rewrite Q2. apply shrink_wnd_fits; [lia | exact R3].
  - eapply near_later; [|exact R6]. lia.
  - exists n', qs'. split; [lia|]. split; [intros H; specialize (Whole H); unfold past; lia|].
    destruct (dequeue_ooseq _ i1 p1) as [i2 p2]. cbn [fst snd] in *.
    split; [eapply receiving_rx; [apply ack_in_rx | exact R]|]. rewrite G, Q3, slice_app by lia. f_equal. lia.
Qed.

Lemma in_window_iff n pcb o : rcv_nxt pcb = u32 (isn + n) -> fits 16 (rcv_wnd pcb) -> - 2 ^ 30 < o - n < 2 ^ 30 ->
  in_window (u32 (isn + o)) pcb = (n <=? o) && (o <=? n + rcv_wnd pcb - 1).
Proof.
  intros R W Ho. unfold fits in W. pow2. unfold in_window. rewrite R.
  replace (u32 (isn + n) + rcv_wnd pcb - 1) with (u32 (isn + n) + (rcv_wnd pcb - 1)) by lia.
  rewrite seq_add, seq_between by lia. do 2 f_equal. lia.
Qed.

(** The queue after a segment behind a gap. *)
Lemma receive_ooseq_queue (ok : bool) n qs f i q pcb : receiving n qs pcb -> piece f -> n < fst f < n + 65536 -> carries f i q ->
  Forall2 holds (if ok then insert_frag f qs else qs) (ooseq (receive_ooseq ok i q pcb)).
Proof.
  intros R Pf Hf C. destruct R as [R1 R2 R3 R4 R5 R6].
  assert (Hins : holds f (mkSeg q (in_len i) (in_hdr i))).
  { destruct (ca_flags f i q C). unfold holds, rx_seqno. cbn. rewrite (ca_hdr f i q C). split_and!; trivial; apply C. }
  unfold receive_ooseq. change (ooseq (ack_now_in pcb)) with (ooseq pcb).
  destruct (ooseq pcb) as [|s oo] eqn:Eo.
  - inversion R4; subst qs. destruct ok; [constructor; [exact Hins | constructor]|].
    change (Forall2 holds [] (ooseq pcb)). rewrite Eo. constructor.
  - apply (ooseq_insert_holds ok f _ Pf Hins (s :: oo) qs None []); trivial.
    + intros ->. inversion R4.
    + intros h Hh. cbn [app] in Hh. unfold near. rewrite Forall_forall in R6. specialize (R6 h Hh).
      destruct (ordered_elem _ _ h R5 Hh). pow2. lia.
    + eapply ordered_weaken; [|exact R5]. lia.
Qed.

Lemma receive_ooseq_rest ok i q pcb :
  rcv_nxt (receive_ooseq ok i q pcb) = rcv_nxt pcb /\ rcv_wnd (receive_ooseq ok i q pcb) = rcv_wnd pcb.
Proof. unfold receive_ooseq. destruct (ooseq _); [destruct ok|]; now split. Qed.

Lemma receive_ooseq_ok ok n qs f i q pcb : receiving n qs pcb -> piece f -> n < fst f < n + 65536 -> carries f i q ->
  ok && overruns f qs = false -> exists qs', receiving n qs' (receive_ooseq ok i q pcb).
Proof.
  intros R Pf Hf C Ov. pose proof (receive_ooseq_queue ok n qs f i q pcb R Pf Hf C) as Q.
  destruct (receive_ooseq_rest ok i q pcb) as [E1 E2]. destruct R as [R1 R2 R3 R4 R5 R6].
  exists (if ok then insert_frag f qs else qs). constructor; trivial; rewrite ?E1, ?E2; trivial.
  - destruct ok; [|exact R5]. apply insert_frag_ordered; trivial. lia.
  - destruct ok; [|exact R6]. apply insert_frag_near; trivial. lia.
Qed.

(** The front of the segment is cut at what has been received. *)
Lemma receive_trim_front n f i q pcb : rcv_nxt pcb = u32 (isn + n) -> piece f -> arrives f i -> in_p i = Some q ->
  fst f < n < past f ->
  exists i' q', receive_trim i q pcb = Some (i', q', pcb) /\ carries (n, past f - n) i' q'.
Proof.
  unfold past. intros R (B1 & B2 & B3) (Tl & q0 & Eq & C) Ep Hn. rewrite Ep in Eq. injection Eq as <-.
  unfold receive_trim. rewrite (ca_seq f i q C), R, Tl.
  replace (u32 (isn + fst f) + snd f - 1) with (u32 (isn + fst f) + (snd f - 1)) by lia.
  rewrite !seq_add, seq_between by (pow2; lia).
  replace ((fst f + 1 <=? n) && (n <=? fst f + (snd f - 1))) with true
    by (symmetry; apply andb_true_iff; split; apply Z.leb_le; lia).
  cbv zeta. rewrite seq_diff by (pow2; lia). pose proof (ca_data f i q C) as D.
  assert (Ht : tot_len q = snd f) by (unfold tot_len; rewrite D; apply slice_length; lia).
  destruct (trim_front_drop q (n - fst f) ltac:(lia)) as (q' & -> & Eq'). eexists _, _. split; [reflexivity|].
  constructor; cbn [fst snd]; upd; trivial; try apply C.
  - rewrite Eq', D, slice_drop by lia. f_equal; lia.
  - rewrite (ca_len f i q C), (seq_len 32) by (pow2; lia). rewrite wrap_small; [lia|]. unfold fits. pow2. lia.
Qed.

(** The four places where a segment can lie. *)
Section Places.
Context (ok : bool) (n : Z) (f : Z * Z) (i : input) (q : list (list Z)) (pcb : tcp_pcb).
Hypothesis (Nx : rcv_nxt pcb = u32 (isn + n)) (W : fits 16 (rcv_wnd pcb)) (Pf : piece f) (Near : - 2 ^ 30 < fst f - n < 2 ^ 30).
Hypothesis (Tl : tcplen i = snd f) (Ep : in_p i = Some q) (C : carries f i q).

Lemma no_trim : n <= fst f \/ past f <= n ->
  receive_trim i q pcb = Some (i, q, if fst f <? n then ack_now_in pcb else pcb).
Proof using All.
  intros H. destruct Pf as (B1 & B2 & B3). unfold past in H. unfold receive_trim. rewrite (ca_seq f i q C), Nx, Tl.
  replace (u32 (isn + fst f) + snd f - 1) with (u32 (isn + fst f) + (snd f - 1)) by lia.
  rewrite !seq_add, seq_between by (pow2; lia).
  replace ((fst f + 1 <=? n) && (n <=? fst f + (snd f - 1))) with false
    by (symmetry; apply andb_false_iff; destruct (Z.leb_spec (fst f + 1) n), (Z.leb_spec n (fst f + (snd f - 1))); auto; lia).
  now rewrite seq_lt by (pow2; lia).
Qed.

Lemma receive_data_old : past f <= n -> exists p', receive_data ok i pcb = Some (i, p') /\ same_rx p' pcb.
Proof using All.
  intros H. pose proof Pf as (B1 & B2 & B3). unfold receive_data. rewrite Tl, Ep, no_trim by auto. unfold past in H.
  replace (0 <? snd f) with true by (symmetry; apply Z.ltb_lt; lia).
  replace (fst f <? n) with true by (symmetry; apply Z.ltb_lt; lia).
  rewrite (ca_seq f i q C), (in_window_iff n) by trivial. replace (n <=? fst f) with false by (symmetry; apply Z.leb_gt; lia).
  eexists. split; [reflexivity|]. eapply same_rx_trans; apply ack_now_in_rx.
Qed.

Lemma receive_data_shut : n <= fst f -> n + rcv_wnd pcb <= fst f -> receive_data ok i pcb = Some (i, ack_now_in pcb).
Proof using All.
  intros H H2. pose proof Pf as (B1 & B2 & B3). unfold receive_data. rewrite Tl, Ep, no_trim by auto.
  replace (0 <? snd f) with true by (symmetry; apply Z.ltb_lt; lia).
  replace (fst f <? n) with false by (symmetry; apply Z.ltb_ge; lia).
  rewrite (ca_seq f i q C), (in_window_iff n) by trivial.
  replace (fst f <=? n + rcv_wnd pcb - 1) with false by (symmetry; apply Z.leb_gt; lia). now rewrite andb_false_r.
Qed.

Lemma receive_data_open : n <= fst f < n + rcv_wnd pcb ->
  receive_data ok i pcb = Some (if n =? fst f then receive_inseq i q pcb else (i, receive_ooseq ok i q pcb)).
Proof using All.
  intros H. pose proof Pf as (B1 & B2 & B3). unfold receive_data. rewrite Tl, Ep, no_trim by lia.
  replace (0 <? snd f) with true by (symmetry; apply Z.ltb_lt; lia).
  replace (fst f <? n) with false by (symmetry; apply Z.ltb_ge; lia).
  rewrite (ca_seq f i q C), (in_window_iff n) by trivial.
  replace (n <=? fst f) with true by (symmetry; apply Z.leb_le; lia).
  replace (fst f <=? n + rcv_wnd pcb - 1) with true by (symmetry; apply Z.leb_le; lia). cbn [andb].
  now rewrite Nx, seq_eqb by lia.
Qed.

Lemma receive_data_front : fst f < n < past f -> exists i' q', carries (n, past f - n) i' q' /\
  receive_data ok i pcb = Some (if 0 <? rcv_wnd pcb then receive_inseq i' q' pcb else (i', ack_now_in pcb)).
Proof using All.
  intros H. destruct (receive_trim_front n f i q pcb Nx Pf (conj Tl (ex_intro _ q (conj Ep C))) Ep H) as (i1 & q1 & E & C1).
  exists i1, q1. split; [exact C1|]. pose proof Pf as (B1 & B2 & B3). unfold receive_data. rewrite Tl, Ep, E.
  replace (0 <? snd f) with true by (symmetry; apply Z.ltb_lt; lia).
  rewrite (ca_seq _ _ _ C1), Nx, Z.eqb_refl. cbn [fst]. rewrite (in_window_iff n) by (trivial; lia). rewrite Z.leb_refl. cbn [andb].
  replace (n <=? n + rcv_wnd pcb - 1) with (0 <? rcv_wnd pcb); [reflexivity|].
  destruct (Z.ltb_spec 0 (rcv_wnd pcb)), (Z.leb_spec n (n + rcv_wnd pcb - 1)); lia || reflexivity.
Qed.

End Places.

(** One segment of the stream. *)
Lemma receive_data_step ok n qs f i pcb : receiving n qs pcb -> piece f -> - 2 ^ 30 < fst f - n < 2 ^ 30 -> arrives f i ->
  ok && overruns f qs = false ->
  exists i' pcb' n' qs', receive_data ok i pcb = Some (i', pcb') /\ receiving n' qs' pcb' /\ n <= n' /\
    got i' = slice S n (n' - n) /\
    (fst f <= n < past f -> 0 < rcv_wnd pcb -> n < n' /\ ((forall h, h ∈ qs -> past f <= fst h) -> past f <= n')).
Proof.
  intros R Pf Near (Tl & q & Ep & C) Ov. pose proof Pf as (B1 & B2 & B3). pose proof (rx_wnd _ _ _ R) as W.
  pose proof (rx_next _ _ _ R) as Nx. pose proof (rx_range _ _ _ R) as Hn. assert (W' := W). unfold fits in W'. pow2.
  assert (Stays : forall j p' g, carries g j q \/ recv_data j = None -> same_rx p' pcb -> (fst f <= n < past f -> rcv_wnd pcb <= 0) ->
    exists i' pcb' n' qs', Some (j, p') = Some (i', pcb') /\ receiving n' qs' pcb' /\ n <= n' /\ got i' = slice S n (n' - n) /\
    (fst f <= n < past f -> 0 < rcv_wnd pcb -> n < n' /\ ((forall h, h ∈ qs -> past f <= fst h) -> past f <= n'))).
  { intros j p' g Cj Rx Sh. exists j, p', n, qs. split_and!; trivial; try lia; [now apply (receiving_rx n qs _ pcb)|].
    unfold got. rewrite Z.sub_diag, slice_nil. destruct Cj as [Cj|Cj]; [now rewrite (ca_none _ _ _ Cj) | now rewrite Cj]. }
  destruct (Z.lt_ge_cases (fst f) n) as [L|L]; [destruct (Z.lt_ge_cases n (past f)) as [L2|L2]|].
  - destruct (receive_data_front ok n f i q pcb Nx W Pf Near Tl Ep C (conj L L2)) as (i1 & q1 & C1 & ->).
    assert (P1 : piece (n, past f - n)) by (unfold piece, past in *; cbn; lia).
    assert (Ep1 : past (n, past f - n) = past f) by (unfold past; cbn; lia).
    destruct (Z.ltb_spec 0 (rcv_wnd pcb)) as [In|Out].
    + destruct (receive_inseq_ok n qs _ i1 q1 pcb R P1 eq_refl C1) as (n' & qs' & Hn' & Wh & R' & G). rewrite Ep1 in Wh.
      destruct (receive_inseq i1 q1 pcb) as [i' pcb']. exists i', pcb', n', qs'. cbn [fst snd] in *. split_and!; auto; lia.
    + apply (Stays _ _ f); [right; apply C1 | apply ack_now_in_rx | lia].
  - destruct (receive_data_old ok n f i q pcb Nx W Pf Near Tl Ep C L2) as (p' & -> & Rx). apply (Stays _ _ f); auto. lia.
  - destruct (Z.lt_ge_cases (fst f) (n + rcv_wnd pcb)) as [In|Out].
    + rewrite (receive_data_open ok n f i q pcb Nx W Pf Near Tl Ep C) by lia. destruct (Z.eqb_spec n (fst f)) as [E|E].
      * destruct (receive_inseq_ok n qs f i q pcb R Pf (eq_sym E) C) as (n' & qs' & Hn' & Wh & R' & G).
        destruct (receive_inseq i q pcb) as [i' pcb']. exists i', pcb', n', qs'. cbn [fst snd] in *. split_and!; auto; lia.
      * destruct (receive_ooseq_ok ok n qs f i q pcb R Pf ltac:(lia) C Ov) as (qs' & R').
        exists i, (receive_ooseq ok i q pcb), n, qs'. split_and!; trivial; try (intros; lia).
        unfold got. now rewrite (ca_none _ _ _ C), Z.sub_diag, slice_nil.
    + rewrite (receive_data_shut ok n f i q pcb Nx W Pf Near Tl Ep C) by lia. apply (Stays _ _ f); [auto | apply ack_now_in_rx | lia].
Qed.

End Stream.

(** ** Runs *)

(** What happens to a connection: a segment comes, or the application or a timer
    does something in between. *)
Inductive rx_event :=
| Segment (ticks : Z) (copy_ok : bool) (i : input)
| Meanwhile (f : tcp_pcb -> tcp_pcb).

(** The bytes handed over, and the connection at the end. *)
Fixpoint rx_run (es : list rx_event) (pcb : tcp_pcb) : option (list Z * tcp_pcb) :=
  match es with
  | [] => Some ([], pcb)
  | Segment t ok i :: es =>
      match tcp_receive t ok i pcb with
      | None => None
      | Some (i', pcb') =>
          match rx_run es pcb' with
          | None => None
          | Some (d, pcb') => Some (got i' ++ d, pcb')
          end
      end
  | Meanwhile f :: es => rx_run es (f pcb)
  end.

Lemma rx_run_app es es' pcb : rx_run (es ++ es') pcb =
  match rx_run es pcb with
  | None => None
  | Some (d, pcb') => match rx_run es' pcb' with None => None | Some (d', p) => Some (d ++ d', p) end
  end.
Proof.
  revert pcb. induction es as [|[t ok i|f] es IH]; intros pcb; cbn [app rx_run].
  - now destruct (rx_run es' pcb) as [[]|].
  - destruct (tcp_receive t ok i pcb) as [[i' p1]|]; [|reflexivity]. rewrite IH.
    destruct (rx_run es p1) as [[d p2]|]; [|reflexivity].
    destruct (rx_run es' p2) as [[d' p3]|]; [|reflexivity]. now rewrite app_assoc.
  - apply IH.
Qed.

(** What is done in between leaves the receive queue alone; it may open or close
    the window, send, and change everything else. *)
Definition harmless (f : tcp_pcb -> tcp_pcb) : Prop := forall pcb,
  rcv_nxt (f pcb) = rcv_nxt pcb /\ ooseq (f pcb) = ooseq pcb /\ (fits 16 (rcv_wnd pcb) -> fits 16 (rcv_wnd (f pcb))).

(** [tcp_recved] opens the window. *)
Lemma open_window_harmless n : harmless (fun pcb => pcb <| rcv_wnd ::= open_window n |>).
Proof.
  intros pcb. upd. split_and!; try reflexivity.
  intros _. unfold open_window. destruct (_ <? _); [split; reflexivity || easy|].
  unfold wrap, fits. apply Z.mod_pos_bound. reflexivity.
Qed.

Section Runs.
Context (isn : Z) (S : list Z).

Definition event_ok (e : rx_event) : Prop :=
  match e with
  | Segment _ _ i => exists f, piece S f /\ arrives isn S f i
  | Meanwhile f => harmless f
  end.

Hypothesis (Short : Z.of_nat (length S) < 2 ^ 30).

Lemma rx_ack t i pcb : cwnd_ok pcb ->
  exists w, (if in_has TCP_ACK i then receive_ack t i pcb else Some pcb) = Some w /\ same_rx w pcb.
Proof.
  intros Q. destruct (in_has TCP_ACK i); [|exists pcb; split; [reflexivity | apply same_rx_refl]].
  destruct (receive_ack_total t i pcb Q) as (w & E). exists w. split; [exact E | now apply receive_ack_rx in E].
Qed.

Lemma rx_step t ok i f n qs pcb : cwnd_ok pcb -> receiving isn S n qs pcb -> piece S f -> arrives isn S f i ->
  ok && overruns f qs = false ->
  exists i' pcb' n' qs', tcp_receive t ok i pcb = Some (i', pcb') /\
    receiving isn S n' qs' pcb' /\ n <= n' /\ got i' = slice S n (n' - n) /\
    (fst f <= n < past f -> 0 < rcv_wnd pcb -> n < n' /\ ((forall h, h ∈ qs -> past f <= fst h) -> past f <= n')).
Proof using Short.
  intros Q R Pf A Ov. unfold tcp_receive. destruct (rx_ack t i pcb Q) as (w & -> & Rw).
  pose proof (receiving_rx isn S n qs w pcb Rw R) as R'. pose proof (rx_range _ _ _ _ _ R) as Hn. pose proof Pf as (? & ? & ?).
  destruct (receive_data_step isn S ok n qs f i w R' Pf ltac:(lia) A Ov) as (i' & pcb' & n' & qs' & E & R2 & Hn' & G & P).
  exists i', pcb', n', qs'. destruct Rw as (_ & Ew & _). rewrite Ew in P. now split_and!.
Qed.

Lemma rx_meanwhile f n qs pcb : harmless f -> receiving isn S n qs pcb -> receiving isn S n qs (f pcb).
Proof. intros H []. destruct (H pcb) as (E1 & E2 & E3). constructor; trivial; try congruence. auto. Qed.

(** All is well up to the end, or up to the segment [e]. *)
Inductive rx_cases (n : Z) (es : list rx_event) (pcb : tcp_pcb) : Prop :=
| rx_all n' qs pcb' : n <= n' -> rx_run es pcb = Some (slice S n (n' - n), pcb') -> receiving isn S n' qs pcb' -> rx_cases n es pcb
| rx_until pre t ok i post f n' qs pcb' : n <= n' -> es = pre ++ Segment t ok i :: post ->
    rx_run pre pcb = Some (slice S n (n' - n), pcb') -> receiving isn S n' qs pcb' -> piece S f -> arrives isn S f i ->
    (ok = true /\ overruns f qs = true) \/ ~ cwnd_ok pcb' -> rx_cases n es pcb.

Lemma cwnd_ok_dec pcb : cwnd_ok pcb \/ ~ cwnd_ok pcb.
Proof. unfold cwnd_ok. match goal with |- ?P \/ _ => destruct (decide P); auto end. Qed.

Lemma rx_run_from es : Forall event_ok es -> forall n qs pcb, receiving isn S n qs pcb -> rx_cases n es pcb.
Proof using Short.
  induction 1 as [|e es He Hes IH]; intros n qs pcb R.
  - apply (rx_all n _ _ n qs pcb); trivial; [lia|]. now rewrite Z.sub_diag, slice_nil.
  - pose proof (rx_range _ _ _ _ _ R) as Rn. destruct e as [t ok i|f]; cbn [event_ok] in He.
    + destruct He as (f & Hf & A).
      assert (Bad : (ok = true /\ overruns f qs = true) \/ ~ cwnd_ok pcb -> rx_cases n (Segment t ok i :: es) pcb).
      { intros B. apply (rx_until n _ _ [] t ok i es f n qs pcb); trivial; [lia|]. now rewrite Z.sub_diag, slice_nil. }
      destruct (cwnd_ok_dec pcb) as [Q|Q]; [|auto].
      destruct (ok && overruns f qs) eqn:Ov; [apply andb_prop in Ov; auto|].
      destruct (rx_step t ok i f n qs pcb Q R Hf A Ov) as (i' & p1 & n1 & qs1 & E1 & R1 & L1 & G1 & _).
      assert (Glue : forall n2, n1 <= n2 -> got i' ++ slice S n1 (n2 - n1) = slice S n (n2 - n)).
      { intros n2 L2. rewrite G1. replace n1 with (n + (n1 - n)) at 2 by lia. rewrite slice_app by lia. f_equal. lia. }
      destruct (IH n1 qs1 p1 R1) as [n2 qs2 p2 L2 E2 R2|pre t2 ok2 i2 post f2 n2 qs2 p2 L2 -> E2 R2 P2 A2 B2].
      * apply (rx_all n _ _ n2 qs2 p2); trivial; [lia|]. cbn [rx_run]. rewrite E1, E2. now rewrite Glue.
      * apply (rx_until n _ _ (Segment t ok i :: pre) t2 ok2 i2 post f2 n2 qs2 p2); trivial; [lia|].
        cbn [rx_run]. rewrite E1, E2. now rewrite Glue.
    + destruct (IH n qs (f pcb) (rx_meanwhile f n qs pcb He R)) as [n2 qs2 p2 L2 E2 R2|pre t2 ok2 i2 post f2 n2 qs2 p2 L2 -> E2 R2 P2 A2 B2].
      * now apply (rx_all n _ _ n2 qs2 p2).
      * now apply (rx_until n _ _ (Meanwhile f :: pre) t2 ok2 i2 post f2 n2 qs2 p2).
Qed.

(** C1: the receiver delivers the peer's stream in order.  Segments of a stream of
    less than 2^30 bytes (without SYN and FIN) come to a connection, cut anywhere and
    overlapping in any way, in any order, any number of times or not at all, with
    whatever is done to the window and the sending half in between, and with
    allocations that fail.  Then either nothing faults, the bytes handed to the
    application are the first [n] bytes of the stream, the connection waits for
    byte [n] with the pieces that came after it queued in order and apart, and when
    then a segment with byte [n] comes, the window being open and the congestion
    window not 0, more bytes are delivered: all of it unless a queued piece starts
    within it.  Or all this holds up to the first segment that meets one of the two
    conditions in which the code fails: it replaces a queued segment with which
    it starts and covers the start of the next ([overruns], see
    [tcp_recut_loses_data]), or the congestion window is 0 ([cwnd_ok], see
    [zero_window_divides_by_zero]). *)
Theorem tcp_stream_in_order es pcb : receiving isn S 0 [] pcb -> Forall event_ok es ->
  (exists n qs pcb', rx_run es pcb = Some (slice S 0 n, pcb') /\ receiving isn S n qs pcb' /\
    forall t ok i f, piece S f -> arrives isn S f i -> fst f <= n < past f -> 0 < rcv_wnd pcb' -> cwnd_ok pcb' ->
      exists n' p', n < n' /\ ((forall h, h ∈ qs -> past f <= fst h) -> past f <= n') /\
        rx_run (es ++ [Segment t ok i]) pcb = Some (slice S 0 n', p')) \/
  (exists pre t ok i post f n qs pcb', es = pre ++ Segment t ok i :: post /\
    rx_run pre pcb = Some (slice S 0 n, pcb') /\ receiving isn S n qs pcb' /\ piece S f /\ arrives isn S f i /\
    ((ok = true /\ overruns f qs = true) \/ ~ cwnd_ok pcb')).
Proof using Short.
  intros R Hes. destruct (rx_run_from es Hes 0 [] pcb R) as [n qs p1 L E R1|pre t ok i post f n qs p1 L -> E R1 P A B];
    rewrite Z.sub_0_r in E; [left | right; exists pre, t, ok, i, post, f, n, qs, p1; now split_and!].
  exists n, qs, p1. split_and!; trivial. intros t ok i f Pf A Hf W Q.
  assert (Ov : overruns f qs = false).
  { pose proof (rx_order _ _ _ _ _ R1) as O. assert (L2 : fst f < n + 1) by lia. revert O L2. clear. generalize (n + 1).
    induction qs as [|g qs IH]; intros m O L; [reflexivity|]. destruct O as (Hg & (G1 & G2 & _) & O). cbn [overruns].
    replace (fst f =? fst g) with false by (symmetry; apply Z.eqb_neq; lia). apply (IH (past g)); [exact O | unfold past; lia]. }
  destruct (rx_step t ok i f n qs p1 Q R1 Pf A) as (i2 & p2 & n2 & qs2 & E2 & _ & _ & G & Pr); [rewrite Ov; apply andb_false_r|].
  destruct (Pr Hf W) as [Lt Wh]. exists n2, p2. split; [exact Lt|]. split; [exact Wh|].
  rewrite rx_run_app, E. cbn [rx_run]. rewrite E2, G, app_nil_r.
  rewrite <- (Z.add_0_l n) at 2. rewrite slice_app by lia. do 3 f_equal. lia.
Qed.

End Runs.

(** ** A retransmission that is cut differently *)

Section Recut.
Context (isn : Z) (S : list Z).

Lemma quiet_ack t i pcb : quiet pcb ->
  exists w, (if in_has TCP_ACK i then receive_ack t i pcb else Some pcb) = Some w /\ quiet w /\ same_rx w pcb.
Proof.
  intros Q. destruct (in_has TCP_ACK i); [|exists pcb; split_and!; trivial; apply same_rx_refl].
  destruct (quiet_receive_ack t i pcb Q) as (w & E & Qw). exists w. split; [exact E|]. split; [exact Qw | now apply receive_ack_rx in E].
Qed.

(** What is known of a connection whose queue holds [qs], in any order. *)
Record waits (n w : Z) (qs : list (Z * Z)) (pcb : tcp_pcb) : Prop := {
  wa_quiet : quiet pcb; wa_next : rcv_nxt pcb = u32 (isn + n); wa_wnd : rcv_wnd pcb = w; wa_fits : fits 16 w;
  wa_queue : Forall2 (holds isn S) qs (ooseq pcb)
}.

(** The half of [tcp_receive] for the data, after that for the acknowledgement. *)
Lemma data_waits t ok i n w qs pcb : waits n w qs pcb ->
  exists v, waits n w qs v /\ tcp_receive t ok i pcb = receive_data ok i v.
Proof.
  intros [Q N W F H]. unfold tcp_receive. destruct (quiet_ack t i pcb Q) as (v & -> & Qv & E1 & E2 & E3).
  exists v. split; [|reflexivity]. constructor; congruence.
Qed.

Lemma waits_data n w qs v ok i i' p' m w' qs' : waits n w qs v -> receive_data ok i v = Some (i', p') ->
  rcv_nxt p' = u32 (isn + m) -> rcv_wnd p' = w' -> fits 16 w' -> Forall2 (holds isn S) qs' (ooseq p') -> waits m w' qs' p'.
Proof. intros [Q _ _ _ _] E. constructor; trivial. eapply quiet_tx; [eapply receive_data_tx; exact E | exact Q]. Qed.

(** The longer segment takes the place of the one on the queue. *)
Lemma recut_queued t i n a l1 l b l2 pcb : quiet pcb -> receiving isn S n [(a, l1); (b, l2)] pcb ->
  l1 < l -> a < n + rcv_wnd pcb -> piece S (a, l) -> arrives isn S (a, l) i ->
  exists i' p', tcp_receive t true i pcb = Some (i', p') /\ got i' = [] /\ waits n (rcv_wnd pcb) [(a, l); (b, l2)] p'.
Proof.
  intros Q R Hl Hw Pf (Tl & q & Ep & C). unfold tcp_receive. destruct (quiet_ack t i pcb Q) as (v & -> & Qv & Rv).
  pose proof (receiving_rx isn S n _ v pcb Rv R) as R'. destruct Rv as (_ & Ww & _). rewrite <- Ww in Hw |- *. clear Ww R.
  pose proof (rx_order _ _ _ _ _ R') as (Ha & _). pose proof (rx_near _ _ _ _ _ R') as [Na _]%Forall_cons. cbn [fst] in Ha, Na.
  pose proof (rx_wnd _ _ _ _ _ R') as Fw. pose proof (rx_next _ _ _ _ _ R') as Nv.
  assert (E : receive_data true i v = Some (i, receive_ooseq true i q v)).
  { rewrite (receive_data_open isn S true n (a, l) i q v) by (trivial; cbn; pow2; lia). cbn [fst].
    now replace (n =? a) with false by (symmetry; apply Z.eqb_neq; lia). }
  exists i, (receive_ooseq true i q v). split; [exact E|]. split; [unfold got; now rewrite (ca_none _ _ _ _ _ C)|].
  destruct (receive_ooseq_rest true i q v) as [E1 E2]. constructor; [|now rewrite E1 | exact E2 | exact Fw |].
  - eapply quiet_tx; [eapply receive_data_tx; exact E | exact Qv].
  - pose proof (receive_ooseq_queue isn S true n _ (a, l) i q v R' Pf ltac:(cbn; lia) C) as Q'. cbn [insert_frag fst snd] in Q'.
    rewrite Z.eqb_refl in Q'. now replace (l1 <? l) with true in Q' by (symmetry; apply Z.ltb_lt; lia).
Qed.

(** The gap before it is filled: the next piece on the queue starts too early. *)
Lemma recut_filled t ok i n w a l b l2 pcb : waits n w [(a, l); (b, l2)] pcb -> 0 <= n < a -> a <= n + 65535 -> a < b < a + l ->
  a + l - n < w -> piece S (a, l) -> arrives isn S (n, a - n) i ->
  exists i' p', tcp_receive t ok i pcb = Some (i', p') /\ got i' = slice S n (a + l - n) /\
    waits (a + l) (w - (a + l - n)) [(b, l2)] p'.
Proof.
  intros Wt Ha Ha2 Hb Hw Pf (Tl & q & Ep & C). destruct (data_waits t ok i _ _ _ _ Wt) as (v & Wv & ->).
  pose proof Wv as [Qv Nv Ww Fw Hq]. pose proof Pf as (A0 & A1 & A2). cbn [fst snd] in A0, A1, A2. pose proof Fw as Fw'. unfold fits in Fw'. pow2.
  assert (Pg : piece S (n, a - n)) by (unfold piece; cbn; lia).
  assert (E : receive_data ok i v = Some (receive_inseq i q v)).
  { rewrite (receive_data_open isn S ok n (n, a - n) i q v) by (trivial; cbn; rewrite ?Ww; trivial; pow2; lia). cbn [fst]. now rewrite Z.eqb_refl. }
  destruct (ooseq v) as [|s1 [|s2 [|]]] eqn:Eo; inversion Hq as [|? ? ? ? H1 Hq2]; subst; inversion Hq2 as [|? ? ? ? H2 Hq3]; subst; try (inversion Hq3; fail).
  destruct (trim_overlap_ok isn S (n, a - n) i q s1 [s2] (a, l) Pg C H1) as (q' & Et & Eq'); [cbn; lia | cbn; lia|].
  unfold cut_at in Et, Eq'. cbn [fst snd] in Et, Eq'. rewrite Z.min_id in Et, Eq'. rewrite <- Eo in Et.
  destruct (receive_inseq_start isn S (n, a - n) (a - n) (a - n) i q q' v C Et Eq') as (i1 & p1 & ER & R1 & W1 & G1); cbn [fst]; trivial; try lia.
  cbn [fst] in R1, G1. replace (n + (a - n)) with a in R1 by lia. rewrite ER, Eo in E. rewrite Eo in ER.
  destruct (dequeue_step isn S (a, l) s1 [s2] i1 p1 a Pf H1 eq_refl R1) as (i2 & p2 & D2 & R2 & W2 & G2). rewrite D2 in E.
  unfold past in R2. cbn [fst snd] in R2, W2, G2.
  rewrite (dequeue_stop isn S (b, l2) s2 [] i2 p2 (a + l)) in E by (trivial; cbn; pow2; lia).
  exists i2, (ack_in (p2 <| ooseq := [s2] |>)). split; [exact E|]. split.
  - rewrite G2, G1. replace a with (n + (a - n)) at 2 by lia. rewrite slice_app by lia. f_equal. lia.
  - destruct (ack_in_rx (p2 <| ooseq := [s2] |>)) as (X1 & X2 & X3).
    apply (waits_data n _ _ v ok i i2 _ (a + l) _ _ Wv E); rewrite ?X1, ?X2, ?X3; upd; trivial.
    + rewrite W2, W1. unfold shrink_wnd. replace (rcv_wnd v <? a - n) with false by (symmetry; apply Z.ltb_ge; lia).
      replace (rcv_wnd v - (a - n) <? l) with false by (symmetry; apply Z.ltb_ge; lia). lia.
    + unfold fits. pow2. lia.
Qed.

(** Now the next segment in sequence is taken to be almost 65536 bytes long. *)
Lemma recut_jumps t ok i c w b l2 k pcb : waits c w [(b, l2)] pcb -> 0 <= b < c -> c + k <= b + 65536 -> 0 < w ->
  piece S (c, k) -> arrives isn S (c, k) i ->
  exists i' p' w' qs, tcp_receive t ok i pcb = Some (i', p') /\ got i' = slice S c k /\ waits (b + 65536) w' qs p'.
Proof.
  intros Wt Hb Hk Hw Pf (Tl & q & Ep & C). destruct (data_waits t ok i _ _ _ _ Wt) as (v & Wv & ->).
  pose proof Wv as [Qv Nv Ww Fw Hq]. pose proof Pf as (A0 & A1 & A2). cbn [fst snd] in A0, A1, A2. pose proof Fw as Fw'. unfold fits in Fw'. pow2.
  assert (E : receive_data ok i v = Some (receive_inseq i q v)).
  { rewrite (receive_data_open isn S ok c (c, k) i q v) by (trivial; cbn; rewrite ?Ww; trivial; pow2; lia). cbn [fst]. now rewrite Z.eqb_refl. }
  destruct (ooseq v) as [|s [|]] eqn:Eo; inversion Hq as [|? ? ? ? H1 Hq2]; subst; try (inversion Hq2; fail). clear Hq2.
  set (l := b + 65536 - c).
  assert (Et : trim_overlap i q (ooseq v) = (pbuf_realloc l q, l)).
  { unfold trim_overlap. rewrite Eo. destruct H1 as (-> & _). cbn [fst]. rewrite (ca_seq _ _ _ _ _ C), (ca_len _ _ _ _ _ C), seq_add. cbn [fst snd].
    rewrite seq_leq by (pow2; lia). replace (b <=? c + k) with true by (symmetry; apply Z.leb_le; lia). cbv zeta.
    replace (u16 (u32 (isn + b) - u32 (isn + c))) with l; [reflexivity|].
    assert (D : (u32 (isn + b) - u32 (isn + c)) mod 2 ^ 32 = (b - c) mod 2 ^ 32).
    { unfold wrap. rewrite Zminus_mod_idemp_l, Zminus_mod_idemp_r. f_equal. lia. }
    revert D. unfold wrap at 3, l. generalize (u32 (isn + b) - u32 (isn + c)). intros y D. pow2. zmod_lia. }
  assert (Eq' : concat (pbuf_realloc l q) = slice S c k).
  { rewrite realloc_take, (ca_data _ _ _ _ _ C) by lia. cbn [fst snd]. rewrite take_ge; [reflexivity|].
    pose proof (slice_length S c k ltac:(lia) ltac:(lia) ltac:(lia)). lia. }
  destruct (receive_inseq_start isn S (c, k) l k i q _ v C Et Eq') as (i1 & p1 & ER & R1 & W1 & G1); cbn [fst]; trivial; try lia.
  cbn [fst] in R1, G1. replace (c + l) with (b + 65536) in R1 by lia. rewrite ER, Eo in E.
  rewrite (dequeue_stop isn S (b, l2) s [] i1 p1 (b + 65536)) in E by (trivial; cbn; pow2; lia).
  exists i1, (ack_in (p1 <| ooseq := [s] |>)), (rcv_wnd p1), [(b, l2)]. split; [exact E|]. split; [exact G1|].
  destruct (ack_in_rx (p1 <| ooseq := [s] |>)) as (X1 & X2 & X3).
  apply (waits_data c _ _ v ok i i1 _ (b + 65536) _ _ Wv E); rewrite ?X1, ?X2, ?X3; upd; trivial.
  rewrite W1. apply shrink_wnd_fits; [lia | exact Fw].
Qed.

(** And what follows it is taken for old. *)
Lemma recut_dropped t ok i n w qs f pcb : waits n w qs pcb -> - 2 ^ 30 < fst f - n -> past f <= n -> piece S f -> arrives isn S f i ->
  exists i' p', tcp_receive t ok i pcb = Some (i', p') /\ got i' = [] /\ rcv_nxt p' = u32 (isn + n).
Proof.
  intros Wt Hn Hp Pf (Tl & q & Ep & C). destruct (data_waits t ok i _ _ _ _ Wt) as (v & [Qv Nv Ww Fw Hq] & ->).
  pose proof Pf as (A0 & A1 & A2). assert (Hp' := Hp). unfold past in Hp'.
  destruct (receive_data_old isn S ok n f i q v Nv) as (p' & E & E1 & _); trivial; [now rewrite Ww | pow2; lia|].
  exists i, p'. split; [exact E|]. split; [unfold got; now rewrite (ca_none _ _ _ _ _ C) | congruence].
Qed.

(** C35: a retransmission that is cut differently makes the receiver skip data.  Two
    pieces wait on the queue behind a gap; the first comes again as a longer
    segment that reaches beyond the start of the second, and replaces it
    untrimmed; then the gap is filled.  Now the second piece stays on the queue,
    behind what has been delivered; the next segment in sequence is "trimmed" to
    the 16-bit distance back to it, and its bytes are delivered, but [rcv_nxt]
    moves to the second piece's start plus 65536.  All bytes up to there are
    acknowledged and dropped as old when they come: here the [m] bytes that
    follow. *)
Theorem tcp_recut_loses_data n a l1 b l2 l k m pcb t1 t2 t3 t4 ok2 ok3 ok4 i1 i2 i3 i4 :
  Z.of_nat (length S) < 2 ^ 30 -> quiet pcb -> receiving isn S n [(a, l1); (b, l2)] pcb ->
  l1 < l -> b < a + l -> a + l - n < rcv_wnd pcb -> a + l + k + m <= b + 65536 ->
  piece S (a, l) -> piece S (a + l, k) -> piece S (a + l + k, m) ->
  arrives isn S (a, l) i1 -> arrives isn S (n, a - n) i2 -> arrives isn S (a + l, k) i3 -> arrives isn S (a + l + k, m) i4 ->
  exists pcb', rx_run [Segment t1 true i1; Segment t2 ok2 i2; Segment t3 ok3 i3; Segment t4 ok4 i4] pcb
      = Some (slice S n (a + l + k - n), pcb') /\ rcv_nxt pcb' = u32 (isn + (b + 65536)).
Proof.
  intros Short Q R Hl Hb Hw Hm P1 P3 P4 A1 A2 A3 A4.
  pose proof (rx_order _ _ _ _ _ R) as (Ha & (_ & L1 & _) & Hb2 & _). unfold past in Hb2. cbn [fst snd] in *.
  pose proof (rx_near _ _ _ _ _ R) as [Na _]%Forall_cons. pose proof (rx_wnd _ _ _ _ _ R) as Fw. pose proof (rx_range _ _ _ _ _ R) as Rn.
  unfold fits in Fw. cbn [fst] in Na. pose proof P1 as (? & ? & ?). pose proof P3 as (? & ? & ?). pose proof P4 as (? & ? & ?). cbn [fst snd] in *. pow2.
  destruct (recut_queued t1 i1 n a l1 l b l2 pcb Q R Hl ltac:(lia) P1 A1) as (j1 & p1 & E1 & G1 & W1).
  destruct (recut_filled t2 ok2 i2 n _ a l b l2 p1 W1 ltac:(lia) ltac:(lia) ltac:(lia) Hw P1 A2) as (j2 & p2 & E2 & G2 & W2).
  destruct (recut_jumps t3 ok3 i3 _ _ b l2 k p2 W2 ltac:(lia) ltac:(lia) ltac:(lia) P3 A3) as (j3 & p3 & w3 & qs3 & E3 & G3 & W3).
  destruct (recut_dropped t4 ok4 i4 _ _ _ (a + l + k, m) p3 W3 ltac:(cbn; pow2; lia) ltac:(unfold past; cbn; lia) P4 A4) as (j4 & p4 & E4 & G4 & N4).
  exists p4. split; [|exact N4]. cbn [rx_run]. rewrite E1, E2, E3, E4, G1, G2, G3, G4, !app_nil_r. cbn [app].
  replace (a + l) with (n + (a + l - n)) at 2 by lia. rewrite slice_app by lia. do 3 f_equal. lia.
Qed.

End Recut.

(** ** Concrete runs *)

(** The last segment comes first; a retransmission overlaps two others. *)
Definition demo_S : list Z := [10; 11; 12; 13; 14; 15; 16; 17; 18; 19].

Definition demo_input (o l : Z) : input :=
  let h := mkTcpHdr 80 4097 (u32 (4294967293 + o)) 0 (htons 20496) 1000 0 0 in
  mkInput (Some [slice demo_S o l]) l h [] (th_seqno h) 0 TCP_ACK l 0 None.

Definition demo_events : list rx_event :=
  [Segment 0 true (demo_input 5 1); Segment 0 true (demo_input 2 3); Segment 0 false (demo_input 7 3);
   Segment 0 true (demo_input 3 3); Meanwhile (fun pcb => pcb <| rcv_wnd ::= open_window 100 |>);
   Segment 0 true (demo_input 0 3); Segment 1 true (demo_input 0 2); Segment 1 true (demo_input 4 3)].

Definition demo_pcb : tcp_pcb :=
  (new_pcb 6510 0) <| state := ESTABLISHED |> <| rcv_nxt := 4294967293 |>.

Lemma demo_arrives o l : piece demo_S (o, l) -> arrives 4294967293 demo_S (o, l) (demo_input o l).
Proof. intros H. split; [reflexivity|]. eexists. split; [reflexivity|]. constructor; try reflexivity; [apply app_nil_r | now split]. Qed.

Lemma demo_event ok t o l : piece demo_S (o, l) -> event_ok 4294967293 demo_S (Segment t ok (demo_input o l)).
Proof. intros H. exists (o, l). split; [exact H | now apply demo_arrives]. Qed.

Ltac demo_piece := unfold piece; cbn; lia.

Lemma tcp_stream_in_order_witness :
  option_map fst (rx_run demo_events demo_pcb) = Some (slice demo_S 0 7) /\
  ((exists n qs pcb', rx_run demo_events demo_pcb = Some (slice demo_S 0 n, pcb') /\ receiving 4294967293 demo_S n qs pcb') \/
   (exists pre t ok i post f n qs pcb', demo_events = pre ++ Segment t ok i :: post /\
     rx_run pre demo_pcb = Some (slice demo_S 0 n, pcb') /\ receiving 4294967293 demo_S n qs pcb' /\
     ((ok = true /\ overruns f qs = true) \/ ~ cwnd_ok pcb'))).
Proof.
  split; [vm_compute; reflexivity|].
  destruct (tcp_stream_in_order 4294967293 demo_S ltac:(reflexivity) demo_events demo_pcb)
    as [(n & qs & pcb' & E & R & _)|(pre & t & ok & i & post & f & n & qs & pcb' & E1 & E2 & R & _ & _ & B)].
  - constructor; [reflexivity | cbn; lia | split; reflexivity || easy | constructor | exact I | constructor].
  - unfold demo_events. rewrite !Forall_cons. split_and!; try apply open_window_harmless; try constructor;
      apply demo_event; demo_piece.
  - left. exists n, qs, pcb'. now split.
  - right. exists pre, t, ok, i, post, f, n, qs, pcb'. now split_and!.
Defined.

(** Two pieces of one byte wait, at 2 and at 3; 2 comes again with both bytes and
    one more. *)
Lemma tcp_recut_loses_data_witness : exists pcb1 pcb',
  rx_run [Segment 0 true (demo_input 3 1); Segment 0 true (demo_input 2 1)] demo_pcb = Some ([], pcb1) /\
  rx_run [Segment 0 true (demo_input 2 3); Segment 0 true (demo_input 0 2); Segment 0 true (demo_input 5 2);
          Segment 0 true (demo_input 7 3)] pcb1 = Some ([10; 11; 12; 13; 14; 15; 16], pcb') /\
  rcv_nxt pcb' = u32 (4294967293 + 65539).
Proof.
  eexists. assert (E : rx_run [Segment 0 true (demo_input 3 1); Segment 0 true (demo_input 2 1)] demo_pcb = Some ([], _))
    by (vm_compute; reflexivity).
  match type of E with _ = Some ([], ?p) => set (pcb1 := p) in * end.
  destruct (tcp_recut_loses_data 4294967293 demo_S 0 2 1 3 1 3 2 3 pcb1 0 0 0 0 true true true
    (demo_input 2 3) (demo_input 0 2) (demo_input 5 2) (demo_input 7 3)) as (pcb' & E' & N); try (demo_piece || (apply demo_arrives; demo_piece)).
  - constructor; reflexivity.
  - constructor; [vm_compute; reflexivity | cbn; lia | vm_compute; split; [discriminate | reflexivity] | |
      cbn; unfold past, piece; cbn; lia | constructor; [|constructor; [|constructor]]; reflexivity].
    constructor; [|constructor; [|constructor]]; unfold holds; split_and!; vm_compute; reflexivity.
  - exists pcb'. split; [exact E|]. split; [exact E' | exact N].
Defined.
