(* ===== verification/TcpLists.v ===== *)
(** * TcpLists: the lists of control blocks

    [include/lwip/tcp.h] states four "axioms about the above lists": every block
    that is not CLOSED is in one of the lists, and in one only; those in
    [tcp_listen_pcbs] are in LISTEN, those in [tcp_tw_pcbs] in TIME-WAIT.  Here
    they are an invariant, [lists_ok], that the calls of the application, the
    timers and the arrival of segments keep; and none of these faults, which
    includes that no freed block is used, until a call meets one of the states that
    [TcpCalls.trouble] names, in which the code is not safe. *)
From Stdlib Require Import ZArith Lia List Bool.
From stdpp Require Import base gmap list.
From coqutil Require Import Datatypes.RecordSetters.
From S2P Require Import IpFrag Prelude Inet IpAddr Tcp TcpOut TcpPcb TcpIn TcpInput TcpFsm.
Import ListNotations.
#[local] Open Scope Z_scope.
#[local] Open Scope sm_scope.

(** ** The invariant *)

(** What a state says about the lists. *)
Inductive kind := KClosed | KListen | KActive | KWait.

Definition kind_of (p : tcp_pcb) : kind :=
  match state p with CLOSED => KClosed | LISTEN => KListen | TIME_WAIT => KWait | _ => KActive end.

Record lists_ok (g : tcp_globals) : Prop := {
  lo_active x : x ∈ tcp_active_pcbs g <-> exists p, pcbs g !! x = Some p /\ kind_of p = KActive;
  lo_tw x : x ∈ tcp_tw_pcbs g <-> exists p, pcbs g !! x = Some p /\ kind_of p = KWait;
  lo_listen x : x ∈ tcp_listen_pcbs g <-> is_Some (lpcbs g !! x);
  lo_no_listen x p : pcbs g !! x = Some p -> kind_of p <> KListen;
  lo_nodup : NoDup (tcp_active_pcbs g) /\ NoDup (tcp_tw_pcbs g) /\ NoDup (tcp_listen_pcbs g);
  lo_fresh x : is_Some (pcbs g !! x) \/ is_Some (lpcbs g !! x) -> (x < mallocs g)%nat
}.

(** ** Code that works on one control block *)

(** The block at [x] is now [p']; no list has changed, and nothing been allocated. *)
Record touched (x : nat) (p' : tcp_pcb) (g g' : tcp_globals) : Prop := {
  to_pcbs : pcbs g' = <[x := p']> (pcbs g);
  to_lpcbs : lpcbs g' = lpcbs g;
  to_active : tcp_active_pcbs g' = tcp_active_pcbs g;
  to_tw : tcp_tw_pcbs g' = tcp_tw_pcbs g;
  to_listen : tcp_listen_pcbs g' = tcp_listen_pcbs g;
  to_mallocs : mallocs g' = mallocs g;
  to_ticks : tcp_ticks g' = tcp_ticks g
}.

Lemma touched_refl x p g : pcbs g !! x = Some p -> touched x p g g.
Proof. intros H. constructor; trivial. now rewrite insert_id. Qed.

Lemma touched_trans x p1 p2 g g1 g2 : touched x p1 g g1 -> touched x p2 g1 g2 -> touched x p2 g g2.
Proof.
  intros [A1 A2 A3 A4 A5 A6 A7] [B1 B2 B3 B4 B5 B6 B7]. constructor; try congruence.
  rewrite B1, A1. apply insert_insert_eq.
Qed.

(** [m], run when the block at [x] satisfies [P], returns a value and a block
    that satisfy [Q], and does nothing else to the lists. *)
Definition local {T} (x : nat) (P : tcp_pcb -> Prop) (m : TM T) (Q : T -> tcp_pcb -> Prop) : Prop :=
  forall g p, pcbs g !! x = Some p -> P p ->
  exists a g' p', m g = Some (a, g') /\ touched x p' g g' /\ Q a p'.

Lemma touched_lookup x p g g' : touched x p g g' -> pcbs g' !! x = Some p.
Proof. intros T. rewrite (to_pcbs _ _ _ _ T). apply lookup_insert_eq. Qed.

Lemma local_bind {T U} x P (m : TM T) Q (k : T -> TM U) R :
  local x P m Q -> (forall a, local x (Q a) (k a) R) -> local x P (sm_bind m k) R.
Proof.
  intros Hm Hk g p Hx Hp. destruct (Hm g p Hx Hp) as (a & g1 & p1 & E & T1 & H1).
  destruct (Hk a g1 p1 (touched_lookup _ _ _ _ T1) H1) as (b & g2 & p2 & E2 & T2 & H2).
  exists b, g2, p2. split; [unfold sm_bind; now rewrite E|]. split; [eapply touched_trans; eassumption | exact H2].
Qed.

Lemma local_ret {T} x P (a : T) (Q : T -> tcp_pcb -> Prop) : (forall p, P p -> Q a p) -> local x P (sm_ret a) Q.
Proof. intros H g p Hx Hp. exists a, g, p. split; [reflexivity|]. split; [now apply touched_refl | auto]. Qed.

Lemma local_get x P : local x P (get x) (fun p q => q = p /\ P p).
Proof.
  intros g p Hx Hp. exists p, g, p. unfold get. rewrite Hx. split; [reflexivity|]. split; [now apply touched_refl | auto].
Qed.

Lemma local_sm_get {T} x P (k : tcp_globals -> TM T) Q :
  (forall g, local x P (k g) Q) -> local x P (sm_bind sm_get k) Q.
Proof. intros H g p Hx Hp. exact (H g g p Hx Hp). Qed.

Lemma local_put x P q (Q : unit -> tcp_pcb -> Prop) : (forall p, P p -> Q tt q) -> local x P (put x q) Q.
Proof.
  intros H g p Hx Hp. eexists tt, _, q. split; [reflexivity|]. split; [now constructor | eauto].
Qed.

Lemma local_send x P ps : local x P (send ps) (fun _ => P).
Proof.
  intros g p Hx Hp. eexists tt, _, p. split; [reflexivity|]. split; [|exact Hp].
  constructor; try reflexivity. symmetry. now apply insert_id.
Qed.

Lemma local_tell x P y e : local x P (tell y e) (fun _ => P).
Proof.
  intros g p Hx Hp. eexists tt, _, p. split; [reflexivity|]. split; [|exact Hp].
  constructor; try reflexivity. symmetry. now apply insert_id.
Qed.

Lemma local_change x P f (Q : unit -> tcp_pcb -> Prop) : (forall p, P p -> Q tt (f p)) -> local x P (change x f) Q.
Proof.
  intros H. apply (local_bind _ _ _ _ _ _ (local_get x P)). intros a. apply local_put. intros p [-> Hp]. auto.
Qed.

Lemma local_weaken {T} x (P P' : tcp_pcb -> Prop) (m : TM T) (Q Q' : T -> tcp_pcb -> Prop) :
  local x P' m Q' -> (forall p, P p -> P' p) -> (forall a p, Q' a p -> Q a p) -> local x P m Q.
Proof.
  intros H HP HQ g p Hx Hp. destruct (H g p Hx (HP p Hp)) as (a & g' & p' & E & T1 & Hq). eauto 10.
Qed.

(** [m] leaves the kind of the block alone. *)
Definition keeps {T} (x : nat) (m : TM T) : Prop :=
  forall s, local x (fun p => kind_of p = s) m (fun _ p => kind_of p = s).

Create HintDb keeps.

Lemma keeps_bind {T U} x (m : TM T) (k : T -> TM U) : keeps x m -> (forall a, keeps x (k a)) -> keeps x (sm_bind m k).
Proof. intros Hm Hk s. eapply local_bind; [apply Hm | intros a; apply Hk]. Qed.

Lemma keeps_get {T} x (k : tcp_pcb -> TM T) :
  (forall q s, local x (fun p => p = q /\ kind_of p = s) (k q) (fun _ p => kind_of p = s)) -> keeps x (sm_bind (get x) k).
Proof.
  intros H s. eapply local_bind; [apply local_get|]. intros q. eapply local_weaken; [apply (H q s) | | auto].
  intros p [-> E]. now split.
Qed.

Lemma keeps_get_only {T} x (k : tcp_pcb -> TM T) : (forall q, keeps x (k q)) -> keeps x (sm_bind (get x) k).
Proof. intros H. apply keeps_get. intros q s. eapply local_weaken; [apply (H q s) | tauto | auto]. Qed.

Lemma keeps_ret {T} x (a : T) : keeps x (sm_ret a).
Proof. intros s. now apply local_ret. Qed.

Lemma keeps_send x ps : keeps x (send ps).
Proof. intros s. apply local_send. Qed.

Lemma keeps_change x f : (forall p, kind_of (f p) = kind_of p) -> keeps x (change x f).
Proof. intros H s. apply local_change. intros p <-. apply H. Qed.

Lemma keeps_sm_get {T} x (k : tcp_globals -> TM T) : (forall g, keeps x (k g)) -> keeps x (sm_bind sm_get k).
Proof. intros H s. apply local_sm_get. intros g. apply H. Qed.

#[export] Hint Resolve keeps_ret keeps_send : keeps.

(** Go through a piece of code that leaves the kind alone. *)
Ltac keeps :=
  lazymatch goal with
  | |- keeps _ (sm_bind sm_get _) => apply keeps_sm_get; intros; keeps
  | |- keeps ?x (sm_bind (get ?x) _) => apply keeps_get_only; intros; keeps
  | |- keeps _ (sm_bind _ _) => apply keeps_bind; [keeps | intros; keeps]
  | |- keeps _ (change _ _) => apply keeps_change; intros; (reflexivity || auto with keeps)
  | |- keeps _ (if ?c then _ else _) => destruct c; keeps
  | |- keeps _ (match ?c with _ => _ end) => destruct c; keeps
  | |- keeps _ _ => solve [eauto with keeps]
  end.

(** ** Parts of [TcpOut] and [TcpPcb] *)

Lemma kind_state p q : state p = state q -> kind_of p = kind_of q.
Proof. unfold kind_of. now intros ->. Qed.

(** What neither output nor retransmission changes. *)
Definition fixed (p : tcp_pcb) : tcp_state * Z * Z * Z := (state p, so_options p, keepalive p, tmr p).

Lemma kind_fixed p q : fixed p = fixed q -> kind_of p = kind_of q.
Proof. intros [= E _ _ _]. now apply kind_state. Qed.

Section Output.
Context (t : Z) (r : Z -> option Z).

Lemma output_segment_fixed s p : fixed (snd (fst (tcp_output_segment t r s p))) = fixed p.
Proof.
  unfold tcp_output_segment. destruct (local_ip p =? 0); [destruct (r (remote_ip p)); [|reflexivity]|];
    cbv zeta; (destruct (rttest _ =? 0); reflexivity).
Qed.

Lemma output_step_fixed s rest p : fixed (fst (output_step t r s rest p)) = fixed p.
Proof.
  unfold output_step. set (q := p <| unsent := rest |>). assert (E : fixed q = fixed p) by reflexivity.
  destruct (match state q with SYN_SENT => _ | _ => _ end) as [s1 p1] eqn:Q.
  assert (E1 : fixed p1 = fixed p).
  { clear E. destruct (state q); injection Q as _ <-; reflexivity. }
  pose proof (output_segment_fixed s1 p1) as O. destruct (tcp_output_segment t r s1 p1) as [[s2 p2] o].
  cbn [fst snd] in *. cbv zeta. transitivity (fixed p2); [|congruence].
  destruct (TCP_SEQ_LT _ _), (0 <? TCP_TCPLEN s2); reflexivity.
Qed.

Lemma output_loop_fixed q w : forall p, fixed (fst (output_loop t r q w p)) = fixed p.
Proof.
  induction q as [|s q IH]; intros p; cbn [output_loop]; [reflexivity|].
  destruct (fits_window _ _ _); [|reflexivity]. pose proof (output_step_fixed s q p) as O.
  destruct (output_step t r s q p) as [p1 o]. specialize (IH p1). destruct (output_loop t r q w p1) as [p2 o2].
  cbn [fst] in *. congruence.
Qed.

Lemma tcp_output_fixed i ok p : fixed (snd (fst (tcp_output t r i ok p))) = fixed p.
Proof.
  unfold tcp_output. destruct i; [reflexivity|]. destruct (_ && _); [destruct ok; reflexivity|].
  pose proof (output_loop_fixed (unsent p) (Z.min (snd_wnd p) (cwnd p)) p) as O.
  destruct (output_loop _ _ _ _ _) as [p1 o]. exact O.
Qed.

Lemma tcp_rexmit_rto_fixed i ok p : fixed (fst (tcp_rexmit_rto t r i ok p)) = fixed p.
Proof.
  unfold tcp_rexmit_rto. destruct (unacked p) as [|s u]; [reflexivity|]. cbv zeta.
  match goal with |- context [tcp_output t r i ok ?q] => pose proof (tcp_output_fixed i ok q) as O;
    destruct (tcp_output t r i ok q) as [[e p1] o] end.
  exact O.
Qed.

End Output.

Lemma tcp_enqueue_state ok p arg fl c o : state (snd (tcp_enqueue ok p arg fl c o)) = state p.
Proof.
  unfold tcp_enqueue. destruct (_ <? _); [reflexivity|]. destruct (_ <=? _); [reflexivity|].
  destruct (enq_loop _ _ _ _ _ _ _ _ _ _ _ _) as [[[q n] l]|]; reflexivity.
Qed.

Lemma tcp_write_state ok p arg c : state (snd (tcp_write ok p arg c)) = state p.
Proof.
  unfold tcp_write. destruct (state p) eqn:E; try exact E; (destruct (0 <? _); [|exact E]);
    now rewrite tcp_enqueue_state.
Qed.

Lemma purge_state p : state (tcp_pcb_purge p) = state p.
Proof. unfold tcp_pcb_purge. destruct (state p) eqn:E; exact E. Qed.

Section Keeps.
Context {V : Env}.

Lemma keeps_output x : keeps x (tcp_output_at x).
Proof.
  intros s g p Hx Hp. unfold tcp_output_at. rewrite Hx.
  pose proof (tcp_output_fixed (tcp_ticks g) ip_route (bool_decide (tcp_input_pcb g = Some x)) pbuf_ok p) as O.
  destruct (tcp_output _ _ _ _ p) as [[e p1] o]. eexists e, _, p1. split; [reflexivity|].
  split; [now constructor|]. rewrite <- Hp. now apply kind_fixed.
Qed.
#[local] Hint Resolve keeps_output : keeps.

Lemma keeps_ack_now x : keeps x (tcp_ack_now_at x).
Proof. unfold tcp_ack_now_at. keeps. Qed.
#[local] Hint Resolve keeps_ack_now : keeps.

Lemma keeps_ack x : keeps x (tcp_ack_at x).
Proof. unfold tcp_ack_at. keeps. Qed.
#[local] Hint Resolve keeps_ack : keeps.

Lemma keeps_recved x n : keeps x (tcp_recved x n).
Proof. unfold tcp_recved. keeps. Qed.

Lemma keeps_enqueue x arg fl c o : keeps x (tcp_enqueue_at x arg fl c o).
Proof.
  apply keeps_get. intros q s. pose proof (tcp_enqueue_state seg_ok q arg fl c o) as E.
  destruct (tcp_enqueue seg_ok q arg fl c o) as [e q1]. apply (local_bind x _ _ (fun _ p => kind_of p = s));
    [apply local_put | intros []; apply keeps_ret]. intros p [-> Hp]. rewrite <- Hp. now apply kind_state.
Qed.
#[local] Hint Resolve keeps_enqueue : keeps.

Lemma keeps_write x arg c : keeps x (tcp_write_at x arg c).
Proof.
  apply keeps_get. intros q s. pose proof (tcp_write_state seg_ok q arg c) as E.
  destruct (tcp_write seg_ok q arg c) as [e q1]. apply (local_bind x _ _ (fun _ p => kind_of p = s));
    [apply local_put | intros []; apply keeps_ret]. intros p [-> Hp]. rewrite <- Hp. now apply kind_state.
Qed.

Lemma rexmit_rto_local x s : local x (fun p => fixed p = s) (tcp_rexmit_rto_at x) (fun _ p => fixed p = s).
Proof.
  intros g p Hx Hp. unfold tcp_rexmit_rto_at. rewrite Hx.
  pose proof (tcp_rexmit_rto_fixed (tcp_ticks g) ip_route (bool_decide (tcp_input_pcb g = Some x)) pbuf_ok p) as O.
  destruct (tcp_rexmit_rto _ _ _ _ p) as [p1 o]. eexists tt, _, p1. split; [reflexivity|].
  split; [now constructor | rewrite <- Hp; exact O].
Qed.

(** [tcp_pcb_remove] but for the list makes the block CLOSED. *)
Lemma remove_rest_local x k : local x (fun p => kind_of p = k) (tcp_pcb_remove_rest x) (fun _ p => state p = CLOSED).
Proof.
  unfold tcp_pcb_remove_rest. eapply (local_bind x _ _ (fun _ p => kind_of p = k)).
  { apply local_change. intros p <-. apply kind_state, purge_state. }
  intros []. eapply (local_bind x _ _ (fun _ p => kind_of p = k)); [apply (local_weaken x _ (fun p => kind_of p = k) _ _ _ (local_get x _)); [auto | intros ? ? [-> H]; exact H]|].
  intros q. eapply (local_bind x _ _ (fun _ p => kind_of p = k)); [|intros []; now apply local_change].
  revert k. change (keeps x (match state q with TIME_WAIT | LISTEN => sm_ret tt
    | _ => if has_flag TF_ACK_DELAY q then change x (set_flags TF_ACK_NOW) ;; tcp_output_at x ;; sm_ret tt else sm_ret tt end)).
  keeps.
Qed.

End Keeps.
#[export] Hint Resolve keeps_output keeps_ack_now keeps_ack keeps_recved keeps_enqueue keeps_write : keeps.

(** ** Code that moves one control block between the lists *)

Lemma TCP_RMV_elem x l : NoDup l -> forall y, y ∈ TCP_RMV x l <-> y ≠ x /\ y ∈ l.
Proof.
  induction 1 as [|z l Hz Hl IH]; intros y; cbn [TCP_RMV]; [set_solver|].
  destruct (decide (z = x)) as [->|N].
  - rewrite elem_of_cons. split; [|tauto]. intros H. split; [|auto]. now intros ->.
  - rewrite !elem_of_cons, IH. split; [|tauto]. intros [->|[? ?]]; auto.
Qed.

Lemma TCP_RMV_nodup x l : NoDup l -> NoDup (TCP_RMV x l).
Proof.
  induction 1 as [|z l Hz Hl IH]; cbn [TCP_RMV]; [constructor|].
  destruct (decide (z = x)); [exact Hl|]. constructor; [|exact IH]. rewrite TCP_RMV_elem by exact Hl. tauto.
Qed.

(** The membership a block of kind [k] must have, when only [x] changes. *)
Definition elems_change (x : nat) (k : kind) (o : option tcp_pcb) (l l' : list nat) : Prop :=
  forall y, y ∈ l' <-> (y ≠ x /\ y ∈ l) \/ (y = x /\ exists p, o = Some p /\ kind_of p = k).

Lemma lists_ok_change g g' x o : lists_ok g ->
  pcbs g' = partial_alter (fun _ => o) x (pcbs g) -> lpcbs g' = lpcbs g ->
  tcp_listen_pcbs g' = tcp_listen_pcbs g -> (mallocs g <= mallocs g')%nat ->
  (is_Some o -> (x < mallocs g')%nat) -> (forall p, o = Some p -> kind_of p <> KListen) ->
  NoDup (tcp_active_pcbs g') -> NoDup (tcp_tw_pcbs g') ->
  elems_change x KActive o (tcp_active_pcbs g) (tcp_active_pcbs g') ->
  elems_change x KWait o (tcp_tw_pcbs g) (tcp_tw_pcbs g') -> lists_ok g'.
Proof.
  intros [L1 L2 L3 L4 (L5 & L6 & L7) L8] Ep El Eli Em Hf Hk N1 N2 C1 C2.
  assert (Lx : pcbs g' !! x = o) by (rewrite Ep; apply lookup_partial_alter_eq).
  assert (Ly : forall y, y ≠ x -> pcbs g' !! y = pcbs g !! y)
    by (intros y Hy; rewrite Ep; now apply lookup_partial_alter_ne).
  constructor.
  - intros y. rewrite (C1 y). destruct (decide (y = x)) as [->|N].
    + rewrite Lx. naive_solver.
    + rewrite L1, (Ly y N). naive_solver.
  - intros y. rewrite (C2 y). destruct (decide (y = x)) as [->|N].
    + rewrite Lx. naive_solver.
    + rewrite L2, (Ly y N). naive_solver.
  - intros y. rewrite Eli, El. apply L3.
  - intros y p. destruct (decide (y = x)) as [->|N]; [rewrite Lx; apply Hk|]. rewrite (Ly y N). apply L4.
  - rewrite Eli. auto.
  - intros y H. rewrite El in H. destruct (decide (y = x)) as [->|N].
    + rewrite Lx in H. destruct H as [H|H]; [auto|]. pose proof (L8 x (or_intror H)). lia.
    + rewrite (Ly y N) in H. specialize (L8 y H). lia.
Qed.

(** The block at [x] keeps its kind. *)
Lemma elems_same x k p p' l (H : x ∈ l <-> kind_of p = k) : kind_of p' = kind_of p -> elems_change x k (Some p') l l.
Proof.
  intros E y. destruct (decide (y = x)) as [->|N]; [|naive_solver]. rewrite H, <- E. naive_solver.
Qed.

(** What [lists_ok] says of a block in use. *)
Lemma in_active g x p : lists_ok g -> pcbs g !! x = Some p -> x ∈ tcp_active_pcbs g <-> kind_of p = KActive.
Proof. intros L H. rewrite (lo_active _ L), H. naive_solver. Qed.

Lemma in_tw g x p : lists_ok g -> pcbs g !! x = Some p -> x ∈ tcp_tw_pcbs g <-> kind_of p = KWait.
Proof. intros L H. rewrite (lo_tw _ L), H. naive_solver. Qed.

Lemma lists_ok_touched g g' x p p' : lists_ok g -> pcbs g !! x = Some p -> kind_of p' = kind_of p ->
  touched x p' g g' -> lists_ok g'.
Proof.
  intros L Hx Hk [T1 T2 T3 T4 T5 T6 _]. destruct (lo_nodup _ L) as (N1 & N2 & _).
  apply (lists_ok_change g g' x (Some p') L); rewrite ?T3, ?T4, ?T6; trivial.
  - intros _. apply (lo_fresh _ L). left. now rewrite Hx.
  - intros q [= <-]. rewrite Hk. now apply (lo_no_listen _ L x).
  - apply (elems_same x _ p); [now apply in_active | exact Hk].
  - apply (elems_same x _ p); [now apply in_tw | exact Hk].
Qed.

(** Nothing but the block at [x] changes, and no new ones come. *)
Record others (x : nat) (g g' : tcp_globals) : Prop := {
  ot_pcbs y : y ≠ x -> pcbs g' !! y = pcbs g !! y;
  ot_lpcbs : lpcbs g' = lpcbs g;
  ot_mallocs : mallocs g' = mallocs g;
  ot_ticks : tcp_ticks g' = tcp_ticks g
}.

Lemma others_trans x g g1 g2 : others x g g1 -> others x g1 g2 -> others x g g2.
Proof.
  intros [A1 A2 A3 A4] [B1 B2 B3 B4]. constructor; try congruence. intros y N. now rewrite B1, A1.
Qed.

Lemma others_refl x g : others x g g.
Proof. now constructor. Qed.

Lemma touched_others x p g g' : touched x p g g' -> others x g g'.
Proof. intros [T1 T2 T3 T4 T5 T6 T7]. constructor; trivial. intros y N. rewrite T1. now apply lookup_insert_ne. Qed.

(** [m], run on good lists when the block at [x] satisfies [P], does not fault
    and leaves good lists, with no other block changed. *)
Definition op {T} (x : nat) (P : tcp_pcb -> Prop) (m : TM T) (Q : T -> option tcp_pcb -> Prop) : Prop :=
  forall g p, lists_ok g -> pcbs g !! x = Some p -> P p ->
  exists a g', m g = Some (a, g') /\ lists_ok g' /\ others x g g' /\ Q a (pcbs g' !! x).

(** The block is still there, and satisfies [P]. *)
Definition stays (P : tcp_pcb -> Prop) (o : option tcp_pcb) : Prop := exists p, o = Some p /\ P p.

Lemma op_bind {T U} x P (m : TM T) Q (k : T -> TM U) R :
  op x P m (fun a => stays (Q a)) -> (forall a, op x (Q a) (k a) R) -> op x P (sm_bind m k) R.
Proof.
  intros Hm Hk g p L Hx Hp. destruct (Hm g p L Hx Hp) as (a & g1 & E & L1 & O1 & p1 & Hx1 & H1).
  destruct (Hk a g1 p1 L1 Hx1 H1) as (b & g2 & E2 & L2 & O2 & H2).
  exists b, g2. split; [unfold sm_bind; now rewrite E|]. split; [exact L2|]. split; [eapply others_trans; eassumption | exact H2].
Qed.

Lemma op_ret {T} x P (a : T) (Q : T -> option tcp_pcb -> Prop) : (forall p, P p -> Q a (Some p)) -> op x P (sm_ret a) Q.
Proof.
  intros H g p L Hx Hp. exists a, g. split; [reflexivity|]. split; [exact L|]. split; [apply others_refl|].
  rewrite Hx. auto.
Qed.

Lemma op_get {T} x P (k : tcp_pcb -> TM T) Q :
  (forall p, P p -> op x (fun q => q = p /\ P q) (k p) Q) -> op x P (sm_bind (get x) k) Q.
Proof. intros H g p L Hx Hp. unfold sm_bind, get. rewrite Hx. now apply (H p Hp g p). Qed.

Lemma op_sm_get {T} x P (k : tcp_globals -> TM T) Q :
  (forall g, op x P (k g) Q) -> op x P (sm_bind sm_get k) Q.
Proof. intros H g p L Hx Hp. exact (H g g p L Hx Hp). Qed.

(** Code that leaves the lists alone, and the kind [k] of the block. *)
Lemma op_local {T} k x P (m : TM T) Q : local x P m Q -> (forall p, P p -> kind_of p = k) ->
  (forall a p, Q a p -> kind_of p = k) -> op x P m (fun a => stays (Q a)).
Proof.
  intros H HP HQ g p L Hx Hp. destruct (H g p Hx Hp) as (a & g' & p' & E & T1 & Hq).
  exists a, g'. split; [exact E|]. split; [|split; [eapply touched_others; exact T1|]].
  - apply (lists_ok_touched g g' x p p' L Hx); [|exact T1]. rewrite (HP p Hp). eauto.
  - exists p'. split; [eapply touched_lookup; exact T1 | exact Hq].
Qed.

Lemma op_keeps {T} x k (m : TM T) : keeps x m ->
  op x (fun p => kind_of p = k) m (fun _ => stays (fun p => kind_of p = k)).
Proof. intros H. apply (op_local k); [apply H | auto | auto]. Qed.

Lemma op_weaken {T} x (P P' : tcp_pcb -> Prop) (m : TM T) (Q Q' : T -> option tcp_pcb -> Prop) :
  op x P' m Q' -> (forall p, P p -> P' p) -> (forall a o, Q' a o -> Q a o) -> op x P m Q.
Proof.
  intros H HP HQ g p L Hx Hp. destruct (H g p L Hx (HP p Hp)) as (a & g' & E & L' & O & Hq). eauto 10.
Qed.

(** Code that keeps the kind, then more. *)
Lemma op_keeps_bind {T U} x k (m : TM T) (c : T -> TM U) R : keeps x m ->
  (forall a, op x (fun p => kind_of p = k) (c a) R) -> op x (fun p => kind_of p = k) (sm_bind m c) R.
Proof. intros H Hc. eapply op_bind; [now apply (op_keeps x k m) | exact Hc]. Qed.

Section Moves.
Context {V : Env}.

(** A list shrinks by [x], which is CLOSED from then on. *)
Lemma elems_removed x k o l : NoDup l -> (forall p, o = Some p -> kind_of p <> k) ->
  elems_change x k o l (TCP_RMV x l).
Proof.
  intros N H y. rewrite TCP_RMV_elem by exact N. split; [tauto|]. intros [?|(-> & p & E & K)]; [assumption|].
  now apply H in E.
Qed.

Lemma elems_kept x k o l : x ∉ l -> (forall p, o = Some p -> kind_of p <> k) -> elems_change x k o l l.
Proof.
  intros N H y. split; [|intros [?|(-> & p & E & K)]; [tauto | now apply H in E]].
  intros Hy. left. split; [now intros -> | exact Hy].
Qed.

(** After [TCP_RMV] from one list, the rest of [tcp_pcb_remove]. *)
Lemma remove_rest_ok g g1 x p p1 : lists_ok g -> pcbs g !! x = Some p -> pcbs g1 = <[x := p1]> (pcbs g) -> lpcbs g1 = lpcbs g ->
  tcp_listen_pcbs g1 = tcp_listen_pcbs g -> mallocs g1 = mallocs g -> tcp_ticks g1 = tcp_ticks g ->
  NoDup (tcp_active_pcbs g1) -> NoDup (tcp_tw_pcbs g1) ->
  (forall o, (forall q, o = Some q -> kind_of q = KClosed) ->
     elems_change x KActive o (tcp_active_pcbs g) (tcp_active_pcbs g1) /\
     elems_change x KWait o (tcp_tw_pcbs g) (tcp_tw_pcbs g1)) ->
  exists g', tcp_pcb_remove_rest x g1 = Some (tt, g') /\ lists_ok g' /\ others x g g' /\
    stays (fun q => kind_of q = KClosed) (pcbs g' !! x).
Proof.
  intros L Hx E1 E2 E3 E4 E5 N1 N2 C. assert (Hx1 : pcbs g1 !! x = Some p1) by (rewrite E1; apply lookup_insert_eq).
  destruct (remove_rest_local x (kind_of p1) g1 p1 Hx1 eq_refl) as ([] & g' & p' & E & [T1 T2 T3 T4 T5 T6 T7] & S).
  assert (K : kind_of p' = KClosed) by (unfold kind_of; now rewrite S).
  destruct (C (Some p')) as [C1 C2]; [now intros ? [= <-]|].
  exists g'. split; [exact E|]. split; [|split].
  - apply (lists_ok_change g g' x (Some p') L); rewrite ?T3, ?T4, ?T6; trivial; try congruence.
    + rewrite T1, E1, insert_insert_eq. reflexivity.
    + rewrite E4. lia.
    + intros _. rewrite E4. apply (lo_fresh _ L). left. rewrite Hx. eauto.
  - constructor; try congruence. intros y N. now rewrite T1, E1, !lookup_insert_ne.
  - exists p'. split; [rewrite T1; apply lookup_insert_eq | exact K].
Qed.

Lemma closed_kind o k : k <> KClosed -> (forall q, o = Some q -> kind_of q = KClosed) ->
  forall q : tcp_pcb, o = Some q -> kind_of q <> k.
Proof. intros N H q E. rewrite (H q E). congruence. Qed.

Lemma remove_active_op x : op x (fun p => kind_of p = KActive \/ kind_of p = KClosed) (tcp_pcb_remove_active x)
  (fun _ => stays (fun q => kind_of q = KClosed)).
Proof.
  intros g p L Hx Hp. destruct (lo_nodup _ L) as (N1 & N2 & _).
  destruct (remove_rest_ok g (g <| tcp_active_pcbs ::= TCP_RMV x |>) x p p L Hx) as (g' & E & L' & O & S); try reflexivity; [symmetry; now apply insert_id|..].
  - now apply TCP_RMV_nodup.
  - exact N2.
  - intros o Ho. split; [apply elems_removed | apply elems_kept]; trivial; try (now apply closed_kind).
    change (x ∉ tcp_tw_pcbs g). rewrite (in_tw g x p L Hx). destruct Hp; congruence.
  - exists tt, g'. now split_and!.
Qed.

Lemma remove_tw_op x : op x (fun p => kind_of p = KWait) (tcp_pcb_remove_tw x)
  (fun _ => stays (fun q => kind_of q = KClosed)).
Proof.
  intros g p L Hx Hp. destruct (lo_nodup _ L) as (N1 & N2 & _).
  destruct (remove_rest_ok g (g <| tcp_tw_pcbs ::= TCP_RMV x |>) x p p L Hx) as (g' & E & L' & O & S); try reflexivity; [symmetry; now apply insert_id|..].
  - exact N1.
  - now apply TCP_RMV_nodup.
  - intros o Ho. split; [apply elems_kept | apply elems_removed]; trivial; try (now apply closed_kind).
    change (x ∉ tcp_active_pcbs g). rewrite (in_active g x p L Hx), Hp. congruence.
  - exists tt, g'. now split_and!.
Qed.

(** Freeing a CLOSED block. *)
Lemma memp_free_op x : op x (fun p => kind_of p = KClosed) (memp_free x) (fun _ o => o = None).
Proof.
  intros g p L Hx Hp. unfold memp_free. rewrite Hx. eexists tt, _. split; [reflexivity|].
  destruct (lo_nodup _ L) as (N1 & N2 & _). split; [|split].
  - apply (lists_ok_change g _ x None L); trivial; try easy; try reflexivity.
    + now intros [].
    + apply elems_kept; [|easy]. change (x ∉ tcp_active_pcbs g). rewrite (in_active g x p L Hx), Hp. easy.
    + apply elems_kept; [|easy]. change (x ∉ tcp_tw_pcbs g). rewrite (in_tw g x p L Hx), Hp. easy.
  - constructor; try reflexivity. intros y N. now apply lookup_delete_ne.
  - apply lookup_delete_eq.
Qed.

(** Code that touches no block at all. *)
Definition silent {T} (m : TM T) : Prop := forall g, exists a g', m g = Some (a, g') /\ pcbs g' = pcbs g /\
  lpcbs g' = lpcbs g /\ tcp_active_pcbs g' = tcp_active_pcbs g /\ tcp_tw_pcbs g' = tcp_tw_pcbs g /\
  tcp_listen_pcbs g' = tcp_listen_pcbs g /\ mallocs g' = mallocs g /\ tcp_ticks g' = tcp_ticks g.

Lemma silent_ret {T} (a : T) : silent (sm_ret a).
Proof. intros g. exists a, g. now split_and!. Qed.

Lemma silent_tell_send x e ps : silent (tell x e ;; send ps).
Proof. intros g. eexists tt, _. split; [reflexivity | now split_and!]. Qed.

(** It may follow code after which the block is gone. *)
Lemma op_then_silent {T U} x P (m : TM T) (k : T -> TM U) : op x P m (fun _ o => o = None) ->
  (forall a, silent (k a)) -> op x P (sm_bind m k) (fun _ o => o = None).
Proof.
  intros Hm Hk g p L Hx Hp. destruct (Hm g p L Hx Hp) as (a & g1 & E & [L1 L2 L3 L4 L5 L6] & O & D).
  destruct (Hk a g1) as (b & g2 & E' & E1 & E2 & E3 & E4 & E5 & E6 & E7).
  exists b, g2. split; [unfold sm_bind; now rewrite E|]. rewrite E1. split; [|split; [|exact D]].
  - constructor; rewrite ?E1, ?E2, ?E3, ?E4, ?E5, ?E6; auto.
  - destruct O as [O1 O2 O3 O4]. constructor; [rewrite E1; exact O1 | congruence..].
Qed.

Lemma op_pre {T} x (P P' : tcp_pcb -> Prop) (m : TM T) Q : op x P' m Q -> (forall p, P p -> P' p) -> op x P m Q.
Proof. intros H HP. eapply op_weaken; [exact H | exact HP | auto]. Qed.

(** Freeing a CLOSED block, then telling the application and sending something. *)
Lemma free_and_tell_op x e ps : op x (fun p => kind_of p = KClosed) (memp_free x ;; tell x e ;; send ps) (fun _ o => o = None).
Proof. apply op_then_silent; [apply memp_free_op | intros ?; apply silent_tell_send]. Qed.

Lemma free_and_ret_op x e : op x (fun p => kind_of p = KClosed) (memp_free x ;; sm_ret (e : Z)) (fun _ o => o = None).
Proof. apply op_then_silent; [apply memp_free_op | intros ?; apply silent_ret]. Qed.

(** [tcp_abort] frees the block. *)
Lemma abort_op x : op x (fun _ => True) (tcp_abort x) (fun _ o => o = None).
Proof.
  apply op_get. intros p _.
  assert (Act : kind_of p = KActive \/ kind_of p = KClosed -> op x (fun q => q = p /\ True)
    (tcp_pcb_remove_active x ;; memp_free x ;; tell x ERR_ABRT ;;
     send (tcp_rst pbuf_ok (snd_nxt p) (rcv_nxt p) (local_ip p) (remote_ip p) (local_port p) (remote_port p)))
    (fun _ o => o = None)).
  { intros K. eapply op_bind; [|intros ?; apply free_and_tell_op].
    eapply op_pre; [apply remove_active_op |]. intros q [Eq _]. now rewrite Eq. }
  unfold kind_of in Act. destruct (state p) eqn:S; auto.
  - intros g q L Hx [Eq _]. subst q. exfalso. apply (lo_no_listen _ L x p Hx). unfold kind_of. now rewrite S.
  - eapply op_bind; [|intros ?; apply memp_free_op].
    eapply op_pre; [apply remove_tw_op|]. intros q [Eq _]. rewrite Eq. unfold kind_of. now rewrite S.
Qed.

(** Where a block of kind [KActive] goes on in another state on the same list. *)
Lemma kind_active s : s <> CLOSED -> s <> LISTEN -> s <> TIME_WAIT -> forall p, state p = s -> kind_of p = KActive.
Proof. intros. unfold kind_of. destruct (state p); congruence. Qed.

Lemma close_with_fin_op x s : s <> CLOSED -> s <> LISTEN -> s <> TIME_WAIT ->
  op x (fun p => kind_of p = KActive) (close_with_fin x s) (fun _ => stays (fun p => kind_of p = KActive)).
Proof.
  intros N1 N2 N3. unfold close_with_fin. apply op_keeps_bind; [auto with keeps|]. intros e.
  destruct (e =? ERR_OK); [|apply op_ret; unfold stays; eauto].
  eapply (op_bind x _ _ (fun _ p => kind_of p = KActive)); [|intros ?; apply op_keeps; auto with keeps].
  apply (op_local KActive); trivial. apply local_change. intros p _. now apply (kind_active s).
Qed.

Lemma op_any {T} x P (m : TM T) Q : op x P m Q -> op x P m (fun _ _ => True).
Proof. intros H. eapply op_weaken; [exact H | auto | auto]. Qed.

(** [tcp_close] on a block that is not listening. *)
Lemma close_op x : op x (fun _ => True) (tcp_close (Pcb x)) (fun _ _ => True).
Proof.
  apply op_get. intros p _.
  assert (Pre : forall k, kind_of p = k -> forall (m : TM Z) R, op x (fun p => kind_of p = k) m R ->
    op x (fun q => q = p /\ True) m (fun _ _ => True)).
  { intros k K m R H. eapply op_any, op_pre; [exact H|]. intros q [Eq _]. now rewrite Eq. }
  unfold kind_of at 1 in Pre. destruct (state p) eqn:S; try (apply op_ret; trivial).
  - eapply Pre; [reflexivity | apply free_and_ret_op].
  - eapply Pre; [reflexivity|]. eapply op_bind; [|intros ?; apply free_and_ret_op].
    eapply op_pre; [apply remove_active_op | intros ? ?; now left].
  - eapply Pre; [reflexivity | apply close_with_fin_op; easy].
  - eapply Pre; [reflexivity | apply close_with_fin_op; easy].
  - eapply Pre; [reflexivity | apply close_with_fin_op; easy].
Qed.

(** Closing a listening block. *)
Lemma close_listen_ok g l : lists_ok g -> is_Some (lpcbs g !! l) ->
  exists g', tcp_close (Lpcb l) g = Some (ERR_OK, g') /\ lists_ok g'.
Proof.
  intros [L1 L2 L3 L4 (L5 & L6 & L7) L8] [b Hb]. unfold tcp_close, sm_bind, sm_modify, memp_free_listen.
  change (lpcbs (g <| tcp_listen_pcbs ::= TCP_RMV l |>)) with (lpcbs g). rewrite Hb.
  eexists; split; [reflexivity|]. constructor; trivial.
  - intros x. change (x ∈ TCP_RMV l (tcp_listen_pcbs g) <-> is_Some (delete l (lpcbs g) !! x)).
    rewrite TCP_RMV_elem, lookup_delete_is_Some, L3 by exact L7. split; intros [? ?]; auto.
  - split_and!; trivial. now apply TCP_RMV_nodup.
  - intros x H. apply L8. destruct H as [H|H]; [now left|]. right.
    change (is_Some (delete l (lpcbs g) !! x)) in H. now apply lookup_delete_is_Some in H.
Qed.

(** ** New blocks *)

(** A CLOSED block is put on [tcp_active_pcbs], in a state for it. *)
Lemma register_op x f : (forall p, kind_of p = KClosed -> kind_of (f p) = KActive) ->
  op x (fun p => kind_of p = KClosed)
    (change x f ;; sm_modify (fun g => g <| tcp_active_pcbs ::= cons x |>))
    (fun _ => stays (fun p => kind_of p = KActive)).
Proof.
  intros Hf g p L Hx Hp. unfold change, sm_bind, get, put, sm_modify. rewrite Hx.
  eexists tt, _. split; [reflexivity|]. destruct (lo_nodup _ L) as (N1 & N2 & _).
  assert (Nx : x ∉ tcp_active_pcbs g) by (rewrite (in_active g x p L Hx), Hp; easy). split; [|split].
  - apply (lists_ok_change g _ x (Some (f p)) L); trivial; try reflexivity.
    + intros _. apply (lo_fresh _ L). left. now rewrite Hx.
    + intros q [= <-]. now rewrite Hf.
    + constructor; assumption.
    + intros y. change (y ∈ x :: tcp_active_pcbs g <-> y ≠ x /\ y ∈ tcp_active_pcbs g \/
        y = x /\ exists q, Some (f p) = Some q /\ kind_of q = KActive). rewrite elem_of_cons. split.
      * intros [->|Hy]; [right; eauto | left]. split; [now intros -> | exact Hy].
      * intros [[_ ?]|[? _]]; auto.
    + apply elems_kept; [|intros q [= <-]; now rewrite Hf].
      change (x ∉ tcp_tw_pcbs g). rewrite (in_tw g x p L Hx), Hp. easy.
  - constructor; try reflexivity. intros y N. now apply lookup_insert_ne.
  - exists (f p). split; [apply lookup_insert_eq | auto].
Qed.

Lemma get_all_some g l : (forall x, x ∈ l -> is_Some (pcbs g !! x)) ->
  exists r, get_all l g = Some (r, g) /\ map fst r = l.
Proof.
  induction l as [|x l IH]; intros H; [now exists []|].
  destruct (H x ltac:(apply elem_of_cons; auto)) as [p Hp].
  destruct IH as (r & E & M); [intros y Hy; apply H, elem_of_cons; auto|].
  exists ((x, p) :: r). split; [|cbn; now rewrite M]. cbn [get_all]. unfold sm_bind, get. now rewrite Hp, E.
Qed.

Lemma abort_found_ok g o : lists_ok g -> (forall x, o = Some x -> is_Some (pcbs g !! x)) ->
  exists g', abort_found o g = Some (tt, g') /\ lists_ok g' /\ lpcbs g' = lpcbs g.
Proof.
  intros L H. destruct o as [x|]; [|now exists g]. destruct (H x eq_refl) as [p Hp].
  destruct (abort_op x g p L Hp I) as ([] & g' & E & L' & O & _). exists g'.
  split_and!; trivial. apply O.
Qed.

(** What the loops find is on the list. *)
Lemma kill_prio_found t pr (l : list nat) r : forall best : option nat * Z * Z,
  (forall x, fst (fst best) = Some x -> x ∈ l) -> (forall x, x ∈ map fst r -> x ∈ l) ->
  forall x, fst (fst (fold_left (kill_prio_step t pr) r best)) = Some x -> x ∈ l.
Proof.
  induction r as [|[y q] r IH]; intros best Hb Hr; [exact Hb|].
  cbn [fold_left]. apply IH; [|intros x Hx; apply Hr; apply elem_of_cons; auto].
  destruct best as [[o i] m]. unfold kill_prio_step. destruct (_ && _); [|exact Hb].
  intros x [= <-]. apply Hr, elem_of_cons. auto.
Qed.

Lemma kill_timewait_found t (l : list nat) r : forall best : option nat * Z,
  (forall x, fst best = Some x -> x ∈ l) -> (forall x, x ∈ map fst r -> x ∈ l) ->
  forall x, fst (fold_left (kill_timewait_step t) r best) = Some x -> x ∈ l.
Proof.
  induction r as [|[y q] r IH]; intros best Hb Hr; [exact Hb|].
  cbn [fold_left]. apply IH; [|intros x Hx; apply Hr; apply elem_of_cons; auto].
  destruct best as [o i]. unfold kill_timewait_step. destruct (_ <=? _); [|exact Hb].
  intros x [= <-]. apply Hr, elem_of_cons. auto.
Qed.

Lemma live_active g x : lists_ok g -> x ∈ tcp_active_pcbs g -> is_Some (pcbs g !! x).
Proof. intros L H. apply (lo_active _ L) in H as (p & -> & _). eauto. Qed.

Lemma live_tw g x : lists_ok g -> x ∈ tcp_tw_pcbs g -> is_Some (pcbs g !! x).
Proof. intros L H. apply (lo_tw _ L) in H as (p & -> & _). eauto. Qed.

Lemma kill_prio_ok pr g : lists_ok g -> exists g', tcp_kill_prio pr g = Some (tt, g') /\ lists_ok g' /\ lpcbs g' = lpcbs g.
Proof.
  intros L. destruct (get_all_some g (tcp_active_pcbs g)) as (r & E & M); [intros; now apply live_active|].
  unfold tcp_kill_prio, sm_bind, sm_get. rewrite E. apply abort_found_ok; [exact L|].
  intros x Hx. apply live_active; [exact L|]. eapply kill_prio_found; [| |exact Hx]; [easy | now rewrite M].
Qed.

Lemma kill_timewait_ok g : lists_ok g -> exists g', tcp_kill_timewait g = Some (tt, g') /\ lists_ok g' /\ lpcbs g' = lpcbs g.
Proof.
  intros L. destruct (get_all_some g (tcp_tw_pcbs g)) as (r & E & M); [intros; now apply live_tw|].
  unfold tcp_kill_timewait, sm_bind, sm_get. rewrite E. apply abort_found_ok; [exact L|].
  intros x Hx. apply live_tw; [exact L|]. eapply kill_timewait_found; [| |exact Hx]; [easy | now rewrite M].
Qed.

(** A block allocated but not used yet. *)
Definition reserved (x : nat) (g : tcp_globals) : Prop := pcbs g !! x = None /\ (x < mallocs g)%nat.

Lemma malloc_ok' g : lists_ok g -> exists r g', memp_malloc g = Some (r, g') /\ lists_ok g' /\ lpcbs g' = lpcbs g /\
  (forall x, r = Some x -> reserved x g' /\ lpcbs g' !! x = None /\ pcbs g' = pcbs g /\ tcp_listen_pcbs g' = tcp_listen_pcbs g).
Proof.
  intros [L1 L2 L3 L4 L5 L6]. unfold memp_malloc. eexists _, _. split; [reflexivity|]. split; [|split; [reflexivity|]].
  - constructor; trivial. intros x H. specialize (L6 x H). change (x < S (mallocs g))%nat. lia.
  - intros x Hx. destruct (malloc_ok (mallocs g)); [|discriminate]. injection Hx as <-.
    assert (N : forall T (o : option T), (is_Some o -> (mallocs g < mallocs g)%nat) -> o = None).
    { intros T [a|] H; [|reflexivity]. specialize (H ltac:(eauto)). lia. }
    split; [split; [apply N; intros; apply L6; now left | change (mallocs g < S (mallocs g))%nat; lia]|].
    split; [apply N; intros; apply L6; now right | now split].
Qed.

(** [tcp_alloc] gives a CLOSED block, or none. *)
Lemma alloc_lists_ok pr g : lists_ok g -> exists r g', tcp_alloc pr g = Some (r, g') /\ lists_ok g' /\
  lpcbs g' = lpcbs g /\ (forall x, r = Some x -> stays (fun p => kind_of p = KClosed) (pcbs g' !! x)).
Proof.
  intros L. unfold tcp_alloc.
  assert (M : exists r g', alloc_block pr g = Some (r, g') /\ lists_ok g' /\ lpcbs g' = lpcbs g /\
    (forall x, r = Some x -> reserved x g')).
  { unfold alloc_block. destruct (malloc_ok' g L) as (r & g1 & E1 & L1 & P1 & R1). unfold sm_bind at 1. rewrite E1.
    destruct r as [x|]; [exists (Some x), g1; split_and!; trivial; intros; now apply R1|].
    destruct (kill_timewait_ok g1 L1) as (g2 & E2 & L2 & P2). unfold sm_bind at 1. rewrite E2.
    destruct (malloc_ok' g2 L2) as (r & g3 & E3 & L3 & P3 & R3). unfold sm_bind at 1. rewrite E3.
    destruct r as [x|]; [exists (Some x), g3; split_and!; trivial; [congruence | intros; now apply R3]|].
    destruct (kill_prio_ok pr g3 L3) as (g4 & E4 & L4 & P4). unfold sm_bind at 1. rewrite E4.
    destruct (malloc_ok' g4 L4) as (r & g5 & E5 & L5 & P5 & R5). exists r, g5.
    split_and!; trivial; [congruence | intros; now apply R5]. }
  destruct M as (r & g1 & E1 & L1 & P1 & R1).
  unfold sm_bind at 1. rewrite E1. destruct r as [x|]; [|exists None, g1; now split_and!].
  destruct (R1 x eq_refl) as [Rx Rm]. rewrite <- P1. exists (Some x).
  unfold tcp_next_iss, sm_bind, sm_get, put, sm_ret. eexists; split; [reflexivity|].
  destruct (lo_nodup _ L1) as (N1 & N2 & _).
  match goal with |- lists_ok ?h /\ _ => set (g' := h) end.
  assert (Lx : pcbs g' !! x = Some (new_pcb (u32 (iss g1 + tcp_ticks g1)) (tcp_ticks g1))) by apply lookup_insert_eq.
  split; [|split; [reflexivity|]].
  2:{ intros y [= <-]. rewrite Lx. eexists; split; reflexivity. }
  apply (lists_ok_change g1 g' x (Some (new_pcb (u32 (iss g1 + tcp_ticks g1)) (tcp_ticks g1))) L1); trivial; try reflexivity.
  - now intros p [= <-].
  - apply elems_kept; [|now intros p [= <-]]. change (x ∉ tcp_active_pcbs g1). rewrite (lo_active _ L1), Rx. naive_solver.
  - apply elems_kept; [|now intros p [= <-]]. change (x ∉ tcp_tw_pcbs g1). rewrite (lo_tw _ L1), Rx. naive_solver.
Qed.

(** [tcp_listen] turns a CLOSED block into a listening one. *)
Lemma listen_lists_ok x g p : lists_ok g -> pcbs g !! x = Some p -> kind_of p = KClosed ->
  exists r g', tcp_listen (Pcb x) g = Some (r, g') /\ lists_ok g'.
Proof.
  intros L Hx Hp. unfold tcp_listen, sm_bind, get. rewrite Hx.
  destruct (malloc_ok' g L) as (r & g1 & -> & L1 & P1 & R1). destruct r as [l|]; [|now exists None, g1].
  destruct (R1 l eq_refl) as ((Rl & Rm) & Rl2 & Ep & Eli).
  assert (Hx1 : pcbs g1 !! x = Some p) by now rewrite Ep.
  destruct (memp_free_op x g1 p L1 Hx1 Hp) as ([] & g2 & -> & L2 & O & D).
  eexists _, _. split; [reflexivity|]. destruct (L2) as [M1 M2 M3 M4 (M5 & M6 & M7) M8].
  constructor; trivial.
  - intros y. change (y ∈ l :: tcp_listen_pcbs g2 <->
      is_Some (<[l := mkListen (local_ip p) (Z.lor (so_options p) SOF_ACCEPTCONN) (tos p) (ttl p) garbage (local_port p)]> (lpcbs g2) !! y)).
    rewrite elem_of_cons, lookup_insert_is_Some, M3. destruct (decide (l = y)); naive_solver.
  - split_and!; trivial. constructor; [|exact M7]. rewrite M3, (ot_lpcbs _ _ _ O), Rl2. now intros [].
  - intros y H. change (mallocs _) with (mallocs g2). destruct (decide (l = y)) as [<-|N].
    + rewrite (ot_mallocs _ _ _ O). exact Rm.
    + apply M8. destruct H as [H|H]; [now left|]. right. 
      change (is_Some (<[l := mkListen (local_ip p) (Z.lor (so_options p) SOF_ACCEPTCONN) (tos p) (ttl p) garbage (local_port p)]> (lpcbs g2) !! y)) in H.
      now rewrite lookup_insert_ne in H.
Qed.

End Moves.
