(* ===== verification/TcpCalls.v ===== *)
(** * TcpCalls: runs of the TCP stack

    The calls of the application ([tcp_new] to [tcp_abort]), the two timers and
    the arrival of packets, in any order from [tcp_init] on: none faults, and the
    lists of control blocks stay as [tcp.h] says ([TcpLists]), up to the first
    call that meets one of the states in which the code is not safe ([trouble]). *)
From Stdlib Require Import ZArith Lia List Bool.
From stdpp Require Import base gmap list.
From coqutil Require Import Datatypes.RecordSetters.
From S2P Require Import IpFrag Prelude Inet IpAddr Tcp TcpOut TcpPcb TcpIn TcpInput TcpFsm TcpLists.
Import ListNotations.
#[local] Open Scope Z_scope.
#[local] Open Scope sm_scope.

(** ** Local ports *)

Definition in_port_range (p : Z) : Prop := TCP_LOCAL_PORT_RANGE_START <= p <= TCP_LOCAL_PORT_RANGE_END.

Definition port_range : Z := TCP_LOCAL_PORT_RANGE_END - TCP_LOCAL_PORT_RANGE_START + 1.

(** The [k]-th port tried. *)
Definition nth_port (p : Z) (k : nat) : Z :=
  TCP_LOCAL_PORT_RANGE_START + (p - TCP_LOCAL_PORT_RANGE_START + Z.of_nat k) mod port_range.

Lemma next_port_nth p k : in_port_range p -> next_port (nth_port p k) = nth_port p (S k).
Proof.
  unfold in_port_range, next_port, nth_port, port_range, TCP_LOCAL_PORT_RANGE_START, TCP_LOCAL_PORT_RANGE_END.
  intros H. change (32767 - 4096 + 1) with 28672. pose proof (Z.mod_pos_bound (p - 4096 + Z.of_nat k) 28672 ltac:(lia)).
  rewrite !wrap_small by (unfold fits; pow2; lia).
  destruct (Z.ltb_spec 32767 (4096 + (p - 4096 + Z.of_nat k) mod 28672 + 1)); zmod_lia.
Qed.

Lemma nth_port_0 p : in_port_range p -> nth_port p 0 = p.
Proof.
  unfold in_port_range, nth_port, port_range, TCP_LOCAL_PORT_RANGE_START, TCP_LOCAL_PORT_RANGE_END.
  intros H. rewrite Z.mod_small; lia.
Qed.

Lemma nth_port_range p k : in_port_range (nth_port p k).
Proof.
  unfold in_port_range, nth_port, port_range, TCP_LOCAL_PORT_RANGE_START, TCP_LOCAL_PORT_RANGE_END.
  pose proof (Z.mod_pos_bound (p - 4096 + Z.of_nat k) (32767 - 4096 + 1) ltac:(lia)). lia.
Qed.

(** Every port is tried before one comes again. *)
Lemma nth_port_inj p j k : (j < k < j + Z.to_nat port_range)%nat -> nth_port p j <> nth_port p k.
Proof.
  unfold nth_port. set (r := port_range). change (Z.to_nat r) with (Z.to_nat 28672). intros H E.
  assert (M : (p - TCP_LOCAL_PORT_RANGE_START + Z.of_nat j) mod 28672 =
              (p - TCP_LOCAL_PORT_RANGE_START + Z.of_nat k) mod 28672) by (change 28672 with r; lia).
  revert M. generalize (p - TCP_LOCAL_PORT_RANGE_START). intros a M. zmod_lia.
Qed.

(** The loop ends with the first free port, or all the ports it tried are used. *)
Lemma new_port_loop_spec used p : in_port_range p -> forall fuel k,
  (exists j, (k < j <= k + fuel)%nat /\ new_port_loop fuel used (nth_port p k) = Done (nth_port p j) /\
     nth_port p j ∉ used) \/
  (forall j, (k < j <= k + fuel)%nat -> nth_port p j ∈ used).
Proof.
  intros Hp. induction fuel as [|fuel IH]; intros k; [right; intros; lia|].
  cbn [new_port_loop]. rewrite next_port_nth by exact Hp.
  destruct (existsb (Z.eqb (nth_port p (S k))) used) eqn:E.
  - apply existsb_exists in E as (q & Hq & <-%Z.eqb_eq). apply list_elem_of_In in Hq.
    destruct (IH (S k)) as [(j & Hj & Hd & Hu)|H]; [left; exists j; split; [lia | now split] |].
    right. intros j Hj. destruct (Nat.eq_dec j (S k)) as [->|N]; [exact Hq | apply H; lia].
  - left. exists (S k). split; [lia|]. split; [reflexivity|]. intros H%list_elem_of_In.
    rewrite <- not_true_iff_false, existsb_exists in E. apply E. exists (nth_port p (S k)).
    split; [exact H | apply Z.eqb_refl].
Qed.

(** With fewer ports used than there are, there is a free one. *)
Lemma new_port_loop_done used p : in_port_range p -> Z.of_nat (length used) < port_range ->
  exists q, new_port_loop (S (length used)) used p = Done q /\ in_port_range q /\ q ∉ used.
Proof.
  intros Hp Hu. destruct (new_port_loop_spec used p Hp (S (length used)) 0) as [(j & Hj & E & N)|H].
  - rewrite nth_port_0 in E by exact Hp. exists (nth_port p j). split_and!; trivial; apply nth_port_range.
  - exfalso. set (l := map (nth_port p) (seq 1 (S (length used)))).
    assert (D : List.NoDup l).
    { apply NoDup_ListNoDup, NoDup_fmap_2_strong; [|apply NoDup_seq]. intros a b [Ha1 Ha2]%elem_of_seq [Hb1 Hb2]%elem_of_seq E.
      change port_range with 28672 in Hu.
      destruct (Nat.lt_trichotomy a b) as [L|[L|L]]; [|exact L|];
        exfalso; [apply (nth_port_inj p a b) | apply (nth_port_inj p b a)]; trivial; try congruence;
        change port_range with 28672; lia. }
    pose proof (NoDup_incl_length D (l' := used)) as L. unfold l in L. rewrite length_map, length_seq in L.
    specialize (L ltac:(intros q (j & <- & Hj%in_seq)%in_map_iff; apply list_elem_of_In, H; lia)). lia.
Qed.

(** A field of every block on a list. *)
Lemma fields_some {T} (m : gmap nat T) (f : T -> Z) l : (forall x, x ∈ l -> is_Some (m !! x)) ->
  exists r, mapM (fun x => option_map f (m !! x)) l = Some r /\ length r = length l /\
    forall x b, x ∈ l -> m !! x = Some b -> f b ∈ r.
Proof.
  induction l as [|y l IH]; intros H; [exists []; split_and!; try easy; set_solver|].
  destruct IH as (r & E & L & I); [intros; apply H, elem_of_cons; auto|].
  destruct (H y ltac:(apply elem_of_cons; auto)) as [b Hb]. exists (f b :: r).
  cbn. rewrite Hb. cbn. rewrite E. split; [reflexivity|]. split; [cbn; congruence|].
  intros x b' Hx Hb'. apply elem_of_cons in Hx as [->|Hx]; apply elem_of_cons; [left; congruence | right; eauto].
Qed.

Lemma blocks_some {T} (m : gmap nat T) l : (forall x, x ∈ l -> is_Some (m !! x)) ->
  exists r, mapM (fun x => m !! x) l = Some r.
Proof.
  intros H. induction l as [|y l IH]; [now exists []|].
  destruct IH as (r & E); [intros; apply H, elem_of_cons; auto|].
  destruct (H y ltac:(apply elem_of_cons; auto)) as [b Hb]. exists (b :: r). cbn. rewrite Hb. cbn. now rewrite E.
Qed.

(** There are fewer blocks than ports. *)
Record ports_ok (g : tcp_globals) : Prop := {
  po_port : in_port_range (port g);
  po_few : Z.of_nat (length (tcp_active_pcbs g) + length (tcp_tw_pcbs g) + length (tcp_listen_pcbs g)) < port_range
}.

(** The port of a block on one of the lists. *)
Definition port_of (g : tcp_globals) (q : Z) : Prop :=
  (exists x p, (x ∈ tcp_active_pcbs g \/ x ∈ tcp_tw_pcbs g) /\ pcbs g !! x = Some p /\ local_port p = q) \/
  (exists x l, x ∈ tcp_listen_pcbs g /\ lpcbs g !! x = Some l /\ l_local_port l = q).

Lemma live_listen g x : lists_ok g -> x ∈ tcp_listen_pcbs g -> is_Some (lpcbs g !! x).
Proof. intros L. apply (lo_listen _ L). Qed.

Lemma new_port_spec g : lists_ok g -> ports_ok g ->
  exists q, tcp_new_port g = Some (q, g <| port := q |>) /\ in_port_range q /\ ~ port_of g q.
Proof.
  intros L [P F].
  destruct (fields_some (pcbs g) local_port (tcp_active_pcbs g)) as (a & Ea & La & Ia); [intros; now apply live_active|].
  destruct (fields_some (pcbs g) local_port (tcp_tw_pcbs g)) as (t & Et & Lt & It); [intros; now apply live_tw|].
  destruct (fields_some (lpcbs g) l_local_port (tcp_listen_pcbs g)) as (l & El & Ll & Il); [intros; now apply live_listen|].
  unfold tcp_new_port, used_ports. rewrite Ea, Et, El.
  destruct (new_port_loop_done (a ++ t ++ l) (port g) P) as (q & -> & R & N); [rewrite !length_app; lia|].
  exists q. split; [reflexivity|]. split; [exact R|]. rewrite !elem_of_app in N.
  intros [(x & p & [Hx|Hx] & Hp & <-)|(x & b & Hx & Hb & <-)]; apply N; eauto.
Qed.

Lemma init_lists_ok : lists_ok tcp_init.
Proof.
  assert (N : forall T (m : gmap nat T) x, m = ∅ -> ~ is_Some (m !! x)) by (intros T m x -> H; now rewrite lookup_empty in H; destruct H).
  constructor; trivial.
  - intros x. split; [intros H; now apply elem_of_nil in H | intros (p & H & _); discriminate].
  - intros x. split; [intros H; now apply elem_of_nil in H | intros (p & H & _); discriminate].
  - intros x. split; [intros H; now apply elem_of_nil in H | intros H; now apply N in H].
  - discriminate.
  - split_and!; constructor.
  - intros x [H|H]; now apply N in H.
Qed.

(** C30: [tcp_new_port] finds a free port.  While there are fewer control blocks
    than ports, it returns a port of the range that no block on any list has, and
    remembers it; its [goto] loop is run at most once for every block.  When every
    port of the range is used, the loop does not end. *)
Theorem tcp_new_port_free g : lists_ok g -> ports_ok g ->
  (exists q, tcp_new_port g = Some (q, g <| port := q |>) /\ in_port_range q /\ ~ port_of g q) /\
  (forall used fuel, (forall q, in_port_range q -> q ∈ used) -> new_port_loop fuel used (port g) = OutOfFuel).
Proof.
  intros L P. split; [now apply new_port_spec|]. intros used fuel All.
  assert (H : forall fuel k, new_port_loop fuel used (nth_port (port g) k) = OutOfFuel).
  { clear fuel. induction fuel as [|fuel IH]; intros k; [reflexivity|]. cbn [new_port_loop].
    rewrite next_port_nth by apply P. replace (existsb _ used) with true; [apply IH|]. symmetry. apply existsb_exists.
    exists (nth_port (port g) (S k)). split; [apply list_elem_of_In, All, nth_port_range | apply Z.eqb_refl]. }
  rewrite <- (nth_port_0 (port g)) by apply P. apply H.
Qed.

Lemma tcp_new_port_free_witness : exists q, tcp_new_port (tcp_init <| port := 32767 |>) =
  Some (q, tcp_init <| port := q |>) /\ q = 4096.
Proof.
  assert (L : lists_ok (tcp_init <| port := 32767 |>)) by (destruct init_lists_ok; now constructor).
  destruct (tcp_new_port_free (tcp_init <| port := 32767 |>) L) as [(q & E & _) _]; [split; [split; discriminate | reflexivity]|].
  exists q. split; [exact E|]. vm_compute in E. injection E as <-. reflexivity.
Defined.

(** ** The application's calls *)

Lemma op_assoc {T U W} x P (m : TM T) (n : T -> TM U) (k : U -> TM W) Q :
  op x P (sm_bind (sm_bind m n) k) Q -> op x P (sm_bind m (fun a => sm_bind (n a) k)) Q.
Proof.
  intros H g p L Hx Hp. destruct (H g p L Hx Hp) as (a & g' & E & R). exists a, g'. split; [|exact R].
  rewrite <- E. unfold sm_bind. now destruct (m g) as [[]|].
Qed.

(** Code that touches no block, then more. *)
Lemma op_silent_bind {T U} x P (m : TM T) (k : T -> TM U) Q : silent m -> (forall a, op x P (k a) Q) -> op x P (sm_bind m k) Q.
Proof.
  intros Hm Hk g p L Hx Hp. destruct (Hm g) as (a & g1 & E & E1 & E2 & E3 & E4 & E5 & E6 & E7).
  assert (T1 : touched x p g g1) by (constructor; trivial; rewrite E1; symmetry; now apply insert_id).
  destruct (Hk a g1 p) as (b & g2 & E' & L' & O & H); trivial; [now apply (lists_ok_touched g g1 x p p) | now rewrite E1|].
  exists b, g2. split; [unfold sm_bind; now rewrite E|]. split; [exact L'|]. split; [|exact H].
  eapply others_trans; [eapply touched_others; exact T1 | exact O].
Qed.

Section Application.
Context {V : Env}.

Lemma silent_next_iss : silent tcp_next_iss.
Proof. intros g. eexists _, _. split; [reflexivity | now split_and!]. Qed.

Lemma bind_ok x ip q g p : lists_ok g -> pcbs g !! x = Some p -> (q = 0 -> ports_ok g) ->
  exists r g', tcp_bind x ip q g = Some (r, g') /\ lists_ok g'.
Proof.
  intros L Hx Hq. unfold tcp_bind.
  assert (P : exists q' g1, (if q =? 0 then tcp_new_port else sm_ret q) g = Some (q', g1) /\ touched x p g g1).
  { destruct (Z.eqb_spec q 0) as [E|N].
    - destruct (new_port_spec g L (Hq E)) as (q' & E' & _). eexists _, _. split; [exact E'|].
      constructor; trivial. symmetry. now apply insert_id.
    - exists q, g. split; [reflexivity | now apply touched_refl]. }
  destruct P as (q' & g1 & E & T). unfold sm_bind at 1. rewrite E. unfold sm_bind at 1, sm_get.
  pose proof (lists_ok_touched g g1 x p p L Hx eq_refl T) as L1. pose proof (touched_lookup _ _ _ _ T) as Hx1.
  destruct (blocks_some (lpcbs g1) (tcp_listen_pcbs g1)) as (ls & ->); [intros; now apply live_listen|].
  destruct (blocks_some (pcbs g1) (tcp_active_pcbs g1)) as (acts & ->); [intros; now apply live_active|].
  destruct (_ || _); [now exists ERR_USE, g1|].
  assert (K : keeps x (change x (bound_pcb ip q') ;; sm_ret ERR_OK)).
  { keeps. apply kind_state. unfold bound_pcb. destruct ip as [a|]; [destruct (a =? 0)|]; reflexivity. }
  destruct (op_keeps x _ _ K g1 p L1 Hx1 eq_refl) as (r & g2 & -> & L2 & _). eauto.
Qed.

(** [tcp_connect] after the choice of the local port. *)
Lemma open_op x ip rport : op x (fun p => kind_of p = KClosed)
  (n <- tcp_next_iss ;;
   change x (connecting ip rport n) ;;
   sm_modify (fun g => g <| tcp_active_pcbs ::= cons x |>) ;;
   err <- tcp_enqueue_at x [] TCP_SYN false (Some (mss_option TCP_MSS)) ;;
   (if err =? ERR_OK then tcp_output_at x ;; sm_ret tt else sm_ret tt) ;;
   sm_ret err) (fun _ => stays (fun p => kind_of p = KActive)).
Proof.
  apply op_silent_bind; [apply silent_next_iss|]. intros n. apply op_assoc.
  eapply op_bind; [now apply register_op|]. intros []. apply op_keeps. keeps.
Qed.

Lemma connect_ok x ip rport g p : lists_ok g -> pcbs g !! x = Some p -> kind_of p = KClosed -> ports_ok g ->
  exists r g', tcp_connect x ip rport g = Some (r, g') /\ lists_ok g'.
Proof.
  intros L Hx K P. destruct ip as [ip|]; [|now exists ERR_VAL, g]. unfold tcp_connect.
  set (f := fun p => p <| remote_ip := ip |> <| remote_port := rport |>).
  set (g1 := g <| pcbs ::= insert x (f p) |>).
  assert (E1 : change x f g = Some (tt, g1)) by (unfold change, sm_bind, get; now rewrite Hx).
  assert (T1 : touched x (f p) g g1) by now constructor.
  unfold sm_bind at 1. rewrite E1. pose proof (touched_lookup _ _ _ _ T1) as Hx1. unfold sm_bind at 1, get. rewrite Hx1.
  assert (L1 : lists_ok g1) by now apply (lists_ok_touched g g1 x p (f p)).
  assert (C : exists g2 p2, (if local_port (f p) =? 0
      then q <- tcp_new_port ;; change x (fun p => p <| local_port := q |>) else sm_ret tt) g1 = Some (tt, g2) /\
      touched x p2 g1 g2 /\ kind_of p2 = KClosed).
  { destruct (_ =? 0); [|exists g1, (f p); split_and!; trivial; now apply touched_refl].
    destruct (new_port_spec g1 L1) as (q & E & _); [destruct P; now constructor|].
    unfold sm_bind at 1. rewrite E. unfold change, sm_bind, get, put.
    change (pcbs (g1 <| port := q |>)) with (pcbs g1). rewrite Hx1.
    eexists _, _. split; [reflexivity|]. split; [now constructor | exact K]. }
  destruct C as (g2 & p2 & E2 & T2 & K2). unfold sm_bind at 1. rewrite E2.
  destruct (open_op x ip rport g2 p2) as (r & g3 & E3 & L3 & _); trivial; [|eapply touched_lookup; exact T2 | eauto].
  apply (lists_ok_touched g1 g2 x (f p) p2); trivial. rewrite K2. symmetry. exact K.
Qed.

End Application.

(** ** Blocks that are taken off their list and freed at once *)

Lemma drop_active_ok g g' x p : lists_ok g -> pcbs g !! x = Some p -> kind_of p = KActive ->
  pcbs g' = delete x (pcbs g) -> lpcbs g' = lpcbs g -> tcp_active_pcbs g' = TCP_RMV x (tcp_active_pcbs g) ->
  tcp_tw_pcbs g' = tcp_tw_pcbs g -> tcp_listen_pcbs g' = tcp_listen_pcbs g -> mallocs g' = mallocs g -> lists_ok g'.
Proof.
  intros L Hx K E1 E2 E3 E4 E5 E6. destruct (lo_nodup _ L) as (N1 & N2 & _).
  apply (lists_ok_change g g' x None L); rewrite ?E3, ?E4, ?E6; trivial; try easy.
  - now intros [].
  - now apply TCP_RMV_nodup.
  - now apply elems_removed.
  - apply elems_kept; [|easy]. rewrite (in_tw g x p L Hx), K. easy.
Qed.

Lemma drop_tw_ok g g' x p : lists_ok g -> pcbs g !! x = Some p -> kind_of p = KWait ->
  pcbs g' = delete x (pcbs g) -> lpcbs g' = lpcbs g -> tcp_active_pcbs g' = tcp_active_pcbs g ->
  tcp_tw_pcbs g' = TCP_RMV x (tcp_tw_pcbs g) -> tcp_listen_pcbs g' = tcp_listen_pcbs g -> mallocs g' = mallocs g -> lists_ok g'.
Proof.
  intros L Hx K E1 E2 E3 E4 E5 E6. destruct (lo_nodup _ L) as (N1 & N2 & _).
  apply (lists_ok_change g g' x None L); rewrite ?E3, ?E4, ?E6; trivial; try easy.
  - now intros [].
  - now apply TCP_RMV_nodup.
  - apply elems_kept; [|easy]. rewrite (in_active g x p L Hx), K. easy.
  - now apply elems_removed.
Qed.

(** ** The timers *)

(** The callbacks change neither the list their connection belongs on. *)
Class AppKeepsKind (A : App) : Prop := {
  sent_kind n p e p' ps : on_sent n p = Some (e, p', ps) -> kind_of p' = kind_of p;
  recv_kind d p e p' ps : on_recv d p = Some (e, p', ps) -> kind_of p' = kind_of p;
  poll_kind p e p' ps : on_poll p = Some (e, p', ps) -> kind_of p' = kind_of p
}.

(** The connection has [SOF_KEEPALIVE], and at the time [t] it has been idle for so
    long that it is given up. *)
Definition idle_over (t : Z) (p : tcp_pcb) : bool :=
  negb (Z.land (so_options p) SOF_KEEPALIVE =? 0) &&
  (bool_decide (state p = ESTABLISHED) || bool_decide (state p = CLOSE_WAIT)) &&
  (u32 (keepalive p + TCP_MAXIDLE) / TCP_SLOW_INTERVAL <? idle t p).

(** Something is in flight, and its time is over at the next tick. *)
Definition retransmits (p : tcp_pcb) : bool :=
  negb (match unacked p with [] => true | _ => false end) && (rto p <=? u16 (rtime p + 1)).

(** What [tcp_slowtmr] needs of a connection when the time becomes [t]: the index
    of [tcp_backoff] is in range if it is used, and the connection is not given up
    by the keepalive timer. *)
Definition slow_ok (t : Z) (p : tcp_pcb) : Prop :=
  (retransmits p = true -> 0 <= nrtx p <= 12) /\ idle_over t p = false.

Section Timers.
Context {V : Env} {A : App} {K : AppKeepsKind A}.

(** An active block that is not given up. *)
Definition awake (t : Z) (p : tcp_pcb) : Prop := kind_of p = KActive /\ idle_over t p = false.

Lemma awake_fixed t p q : fixed p = fixed q -> awake t q -> awake t p.
Proof.
  intros E [H1 H2]. split; [rewrite (kind_fixed p q E); exact H1|]. injection E as E1 E2 E3 E4.
  unfold idle_over, idle in *. now rewrite E1, E2, E3, E4.
Qed.

Lemma back_off_some p : 0 <= nrtx p <= 12 -> exists q, back_off p = Some q /\ fixed q = fixed p.
Proof.
  intros H. unfold back_off.
  assert (B : exists b, tcp_backoff !! Z.to_nat (nrtx p) = Some b).
  { apply lookup_lt_is_Some. change (length tcp_backoff) with 13%nat. lia. }
  destruct B as (b & ->).
  assert (C : exists w, (match state p with SYN_SENT => Some p
     | _ => Some (p <| rto := u16 (Z.shiftl (Z.shiftr (sa p) 3 + sv p) b) |>) end) = Some w /\ fixed w = fixed p).
  { destruct (state p) eqn:E; eexists; split; try reflexivity; unfold fixed; now rewrite <- E. }
  destruct C as (w & -> & E). cbv zeta. eexists; split; [reflexivity|]. rewrite <- E.
  destruct (_ <? _); reflexivity.
Qed.

Lemma slow_retransmit_local t x : local x (fun p => kind_of p = KActive /\ slow_ok t p) (slow_retransmit x) (fun _ => awake t).
Proof.
  unfold slow_retransmit.
  eapply (local_bind x _ _ (fun _ p => awake t p /\ (negb (match unacked p with [] => true | _ => false end) && (rto p <=? rtime p) = true ->
    0 <= nrtx p <= 12))).
  { apply local_change. intros p (Hk & Hr & Hi). split; [now split|]. intros H. exact (Hr H). }
  intros []. eapply local_bind; [apply local_get|]. intros q. cbn beta.
  destruct (_ && _) eqn:C.
  - destruct (back_off q) as [q'|] eqn:B.
    + eapply (local_bind x _ _ (fun _ p => fixed p = fixed q /\ awake t q)).
      { apply local_put. intros p [-> [Hk Hn]]. destruct (back_off_some q (Hn eq_refl)) as (q1 & E1 & F1).
        rewrite E1 in B. injection B as <-. now split. }
      intros [] g p Hx (F & Hk).
      destruct (rexmit_rto_local x (fixed q) g p Hx F) as (a & g' & p' & E & T & F').
      exists a, g', p'. split; [exact E|]. split; [exact T|]. exact (awake_fixed t p' q F' Hk).
    + intros g p Hx [-> [Hk Hn]]. destruct (back_off_some q (Hn eq_refl)) as (q1 & E1 & _). congruence.
  - apply local_ret. now intros p [-> [Ho _]].
Qed.

Lemma keeps_ooseq x : keeps x (slow_ooseq x).
Proof. unfold slow_ooseq. keeps. Qed.

Lemma keeps_callback {T} x (r : tcp_pcb -> option (Z * tcp_pcb * list packet)) (e : Z) (k : Z -> TM T) :
  (forall p e p' ps, r p = Some (e, p', ps) -> kind_of p' = kind_of p) -> (forall a, keeps x (k a)) ->
  keeps x (pcb <- get x ;; err <- (match r pcb with
            | Some (err, pcb, ps) => put x pcb ;; send ps ;; sm_ret err
            | None => sm_ret e
            end) ;; k err).
Proof.
  intros Hr Hk. apply keeps_get. intros q s. eapply (local_bind x _ _ (fun _ p => kind_of p = s)); [|intros a; apply Hk].
  destruct (r q) as [[[e' q'] ps]|] eqn:R; [|apply local_ret; tauto]. apply Hr in R.
  eapply (local_bind x _ _ (fun _ p => kind_of p = s)); [apply local_put; intros p [-> <-]; exact R|].
  intros []. revert s. change (keeps x (send ps ;; sm_ret e')). keeps.
Qed.

Lemma keeps_poll x err : keeps x (slow_poll x err).
Proof using K.
  unfold slow_poll. apply keeps_bind; [keeps|]. intros []. apply keeps_get_only. intros p.
  destruct (_ <=? _); [|keeps]. apply keeps_bind; [keeps|]. intros [].
  apply (keeps_callback x on_poll); [exact poll_kind|]. intros e. keeps.
Qed.
#[local] Hint Resolve keeps_poll keeps_ooseq : keeps.

(** [tcp_slowtmr] removes a block. *)
Lemma slow_remove_op x (err : Z) : op x (fun p => kind_of p = KActive)
  (change x tcp_pcb_purge ;; sm_modify (fun g => g <| tcp_active_pcbs ::= TCP_RMV x |>) ;; tell x ERR_ABRT ;; memp_free x ;; sm_ret err)
  (fun _ _ => True).
Proof.
  intros g p L Hx Hp. unfold change, sm_bind, get, put, sm_modify, tell, memp_free. rewrite Hx.
  match goal with |- context [pcbs ?h !! x] =>
    change (pcbs h !! x) with (<[x := tcp_pcb_purge p]> (pcbs g) !! x); rewrite lookup_insert_eq end.
  eexists err, _. split; [reflexivity|]. split; [|split; [|exact I]].
  - apply (drop_active_ok g _ x p); trivial; try reflexivity. apply delete_insert_eq.
  - constructor; try reflexivity. intros y N.
    change (delete x (<[x := tcp_pcb_purge p]> (pcbs g)) !! y = pcbs g !! y).
    now rewrite delete_insert_eq, lookup_delete_ne.
Qed.

(** An operation that starts at the time [t]. *)
Definition op_at {T} (t : Z) (x : nat) (P : tcp_pcb -> Prop) (m : TM T) (Q : T -> option tcp_pcb -> Prop) : Prop :=
  forall g p, tcp_ticks g = t -> lists_ok g -> pcbs g !! x = Some p -> P p ->
  exists a g', m g = Some (a, g') /\ lists_ok g' /\ others x g g' /\ Q a (pcbs g' !! x).

Lemma op_op_at {T} t x P (m : TM T) Q : op x P m Q -> op_at t x P m Q.
Proof. intros H g p _. apply H. Qed.

Lemma op_at_bind {T U} t x P (m : TM T) Q (k : T -> TM U) R :
  op_at t x P m (fun a => stays (Q a)) -> (forall a, op_at t x (Q a) (k a) R) -> op_at t x P (sm_bind m k) R.
Proof.
  intros Hm Hk g p Ht L Hx Hp. destruct (Hm g p Ht L Hx Hp) as (a & g1 & E & L1 & O1 & p1 & Hx1 & H1).
  destruct (Hk a g1 p1 (eq_trans (ot_ticks _ _ _ O1) Ht) L1 Hx1 H1) as (b & g2 & E2 & L2 & O2 & H2).
  exists b, g2. split; [unfold sm_bind; now rewrite E|]. split; [exact L2|]. split; [eapply others_trans; eassumption | exact H2].
Qed.

Lemma op_at_get {T} t x P (k : tcp_pcb -> TM T) Q :
  (forall p, P p -> op_at t x (fun q => q = p /\ P q) (k p) Q) -> op_at t x P (sm_bind (get x) k) Q.
Proof. intros H g p Ht L Hx Hp. unfold sm_bind, get. rewrite Hx. now apply (H p Hp g p). Qed.

Lemma op_at_sm_get {T} t x P (k : tcp_globals -> TM T) Q :
  (forall g, tcp_ticks g = t -> op_at t x P (k g) Q) -> op_at t x P (sm_bind sm_get k) Q.
Proof. intros H g p Ht L Hx Hp. exact (H g Ht g p Ht L Hx Hp). Qed.

Lemma slow_keepalive_op t x : op_at t x (awake t) (slow_keepalive x) (fun _ => stays (fun p => kind_of p = KActive)).
Proof.
  unfold slow_keepalive. apply op_at_get. intros q [Hk Hi]. apply op_at_sm_get. intros g0 Ht. unfold idle_over in Hi. rewrite <- Ht in Hi.
  apply op_op_at, (op_weaken x _ (fun p => kind_of p = KActive) _ _ (fun _ => stays (fun p => kind_of p = KActive)));
    [|now intros p [_ [H _]] | trivial].
  apply (op_keeps x KActive). match goal with |- context [if ?c then _ else _] => destruct c end; [|keeps].
  cbn [andb] in Hi. rewrite Hi. keeps.
Qed.

Lemma slowtmr_active_op t x err : op_at t x (fun p => kind_of p = KActive /\ slow_ok t p) (slowtmr_active x err) (fun _ _ => True).
Proof using K.
  unfold slowtmr_active. apply op_at_get. intros p0 _. cbv zeta.
  eapply (op_at_bind t x _ _ (fun _ => awake t)).
  { apply op_op_at, (op_local KActive); [|intros p H; apply H | intros _ p H; apply H].
    apply (local_weaken x _ (fun p => kind_of p = KActive /\ slow_ok t p) _ _ (fun _ => awake t)); [|tauto | trivial].
    destruct (gave_up p0); [apply local_ret; intros p (H1 & _ & H2); now split | apply slow_retransmit_local]. }
  intros []. apply op_at_sm_get. intros g1 _. apply op_at_get. intros p1 A1.
  eapply (op_at_bind t x _ _ (fun _ p => kind_of p = KActive)).
  { intros g p Ht L Hx [-> Ap]. exact (slow_keepalive_op t x g p1 Ht L Hx Ap). }
  intros []. apply op_op_at.
  apply op_keeps_bind; [auto with keeps|]. intros []. apply op_sm_get. intros g2. apply op_get. intros p2 _.
  eapply (op_pre x _ (fun p => kind_of p = KActive)); [|tauto].
  destruct (_ || _); [apply slow_remove_op | eapply op_any, op_keeps; auto with keeps].
Qed.

Lemma slowtmr_tw_op x : op x (fun p => kind_of p = KWait) (slowtmr_tw x) (fun _ _ => True).
Proof.
  intros g p L Hx Hp. unfold slowtmr_tw, sm_bind at 1, get at 1. rewrite Hx. unfold sm_bind at 1, sm_get.
  destruct (_ <? _); [|exists tt, g; split_and!; trivial; apply others_refl].
  unfold change, sm_bind, get, put, sm_modify, memp_free. rewrite Hx.
  match goal with |- context [pcbs ?h !! x] =>
    change (pcbs h !! x) with (<[x := tcp_pcb_purge p]> (pcbs g) !! x); rewrite lookup_insert_eq end.
  eexists tt, _. split; [reflexivity|]. split; [|split; [|exact I]].
  - apply (drop_tw_ok g _ x p); trivial; try reflexivity. apply delete_insert_eq.
  - constructor; try reflexivity. intros y N.
    change (delete x (<[x := tcp_pcb_purge p]> (pcbs g)) !! y = pcbs g !! y).
    now rewrite delete_insert_eq, lookup_delete_ne.
Qed.

(** A loop over blocks, each of which satisfies [P] until its turn. *)
Lemma loop_ok {T} (P : tcp_pcb -> Prop) (f : nat -> T -> TM T) (loop : list nat -> T -> TM T)
  (Hn : forall t, loop [] t = sm_ret t) (Hc : forall x l t, loop (x :: l) t = sm_bind (f x t) (loop l)) :
  forall time, (forall x t, op_at time x P (f x t) (fun _ _ => True)) ->
  forall l, NoDup l -> forall t g, tcp_ticks g = time -> lists_ok g ->
  (forall x, x ∈ l -> exists p, pcbs g !! x = Some p /\ P p) ->
  exists t' g', loop l t g = Some (t', g') /\ lists_ok g' /\
    (forall y, y ∉ l -> pcbs g' !! y = pcbs g !! y) /\ lpcbs g' = lpcbs g.
Proof.
  intros time Hf l. induction l as [|x l IH]; intros D t g Ht L Hl.
  { exists t, g. now rewrite Hn. }
  apply NoDup_cons in D as [Nx D]. destruct (Hl x ltac:(apply elem_of_cons; auto)) as (p & Hx & Hp).
  destruct (Hf x t g p Ht L Hx Hp) as (t1 & g1 & E & L1 & O & _).
  destruct (IH D t1 g1 (eq_trans (ot_ticks _ _ _ O) Ht) L1) as (t2 & g2 & E2 & L2 & S & S').
  { intros y Hy. rewrite (ot_pcbs _ _ _ O) by (intros ->; contradiction). apply Hl, elem_of_cons. auto. }
  exists t2, g2. rewrite Hc. unfold sm_bind. rewrite E. split; [exact E2|]. split; [exact L2|]. split.
  - intros y Hy. rewrite S by (intros H; apply Hy, elem_of_cons; auto). apply (ot_pcbs _ _ _ O).
    intros ->. apply Hy, elem_of_cons. auto.
  - rewrite S'. apply O.
Qed.

Lemma for_each_ok P f l g : (forall x, op x P (f x) (fun _ _ => True)) -> NoDup l -> lists_ok g ->
  (forall x, x ∈ l -> exists p, pcbs g !! x = Some p /\ P p) -> exists g', for_each f l g = Some (tt, g') /\ lists_ok g'.
Proof.
  intros Hf D L Hl.
  destruct (loop_ok P (fun x _ => f x) (fun l _ => for_each f l)) with (time := tcp_ticks g) (l := l) (t := tt) (g := g)
    as ([] & g' & E & L' & _); eauto using op_op_at; now intros [].
Qed.

Lemma slowtmr_ok g : lists_ok g -> (forall x p, x ∈ tcp_active_pcbs g -> pcbs g !! x = Some p -> slow_ok (u32 (tcp_ticks g + 1)) p) ->
  exists g', tcp_slowtmr g = Some (tt, g') /\ lists_ok g'.
Proof using K.
  intros L H. unfold tcp_slowtmr, sm_bind at 1, sm_modify. unfold sm_bind at 1, sm_get.
  set (g1 := g <| tcp_ticks := u32 (tcp_ticks g + 1) |>).
  assert (L1 : lists_ok g1) by (destruct L; now constructor).
  destruct (lo_nodup _ L1) as (N1 & N2 & _).
  destruct (loop_ok (fun p => kind_of p = KActive /\ slow_ok (tcp_ticks g1) p) slowtmr_active slowtmr_actives
    (fun _ => eq_refl) (fun _ _ _ => eq_refl) _ (slowtmr_active_op _) _ N1 ERR_OK g1 eq_refl L1) as (e & g2 & E & L2 & _).
  { intros x Hx. pose proof Hx as Hx'. apply (lo_active _ L1) in Hx' as (p & Hp & Hk).
    exists p. split; [exact Hp|]. split; [exact Hk | eapply H; [exact Hx | exact Hp]]. }
  unfold sm_bind at 1. rewrite E. unfold sm_bind, sm_get. destruct (lo_nodup _ L2) as (_ & N3 & _).
  apply (for_each_ok (fun p => kind_of p = KWait)); trivial; [apply slowtmr_tw_op|].
  intros x Hx. now apply (lo_tw _ L2).
Qed.

Lemma fasttmr_ok g : lists_ok g -> exists g', tcp_fasttmr g = Some (tt, g') /\ lists_ok g'.
Proof.
  intros L. unfold tcp_fasttmr, sm_bind, sm_get. destruct (lo_nodup _ L) as (N & _).
  apply (for_each_ok (fun p => kind_of p = KActive)); trivial.
  - intros x. eapply op_any, op_keeps. unfold fasttmr_active. keeps.
  - intros x Hx. now apply (lo_active _ L).
Qed.

End Timers.

(** ** The arrival of a packet *)

(** Moving a block to the front of its list. *)
Lemma front_elem x l : x ∈ l -> NoDup l -> NoDup (x :: TCP_RMV x l) /\ forall y, y ∈ x :: TCP_RMV x l <-> y ∈ l.
Proof.
  intros Hx N. split.
  - constructor; [|now apply TCP_RMV_nodup]. rewrite TCP_RMV_elem by exact N. tauto.
  - intros y. rewrite elem_of_cons, TCP_RMV_elem by exact N. destruct (decide (y = x)) as [->|]; tauto.
Qed.

Lemma front_active_ok g x : lists_ok g -> x ∈ tcp_active_pcbs g -> lists_ok (g <| tcp_active_pcbs ::= fun l => x :: TCP_RMV x l |>).
Proof.
  intros [L1 L2 L3 L4 (L5 & L6 & L7) L8] Hx. destruct (front_elem x _ Hx L5) as [N M].
  constructor; trivial; [|now split_and!]. intros y. rewrite <- L1. apply M.
Qed.

Lemma front_listen_ok g x : lists_ok g -> x ∈ tcp_listen_pcbs g -> lists_ok (g <| tcp_listen_pcbs ::= fun l => x :: TCP_RMV x l |>).
Proof.
  intros [L1 L2 L3 L4 (L5 & L6 & L7) L8] Hx. destruct (front_elem x _ Hx L7) as [N M].
  constructor; trivial; [|now split_and!]. intros y. rewrite <- L3. apply M.
Qed.

(** The search goes through. *)
Lemma find_block_some {T} (m : gmap nat T) t l : (forall x, x ∈ l -> is_Some (m !! x)) ->
  exists o, find_block m t l = Some o /\ forall x, o = Some x -> x ∈ l /\ exists b, m !! x = Some b /\ t b = true.
Proof.
  induction l as [|y l IH]; intros H; [now exists None|].
  destruct (H y ltac:(apply elem_of_cons; auto)) as [b Hb]. cbn [find_block]. rewrite Hb.
  destruct (t b) eqn:E.
  - exists (Some y). split; [reflexivity|]. intros x [= <-]. split; [apply elem_of_cons; auto | eauto].
  - destruct IH as (o & Eo & Ho); [intros; apply H, elem_of_cons; auto|]. exists o. split; [exact Eo|].
    intros x Hx. destruct (Ho x Hx) as [H1 H2]. split; [apply elem_of_cons; auto | exact H2].
Qed.

(** The options can be read: the code has a loop that need not end. *)
Definition opts_ok (i : input) : Prop :=
  exists m, parse_opts opt_fuel (opts i) (Z.shiftl (TCPH_HDRLEN (in_hdr i) - 5) 2) 0 = Done m.

(** What the state machine needs of a connection. *)
Definition conn_ok (p : tcp_pcb) : Prop := cwnd_ok p /\ (state p = SYN_SENT -> unacked p <> []).

Section Input.
Context {V : Env} {A : App} {K : AppKeepsKind A} {KS : AppKeepsState A}.

Lemma keeps_parseopt x i : opts_ok i -> keeps x (tcp_parseopt_at x i).
Proof.
  intros [m Hm]. apply keeps_get. intros q s. unfold tcp_parseopt. rewrite Hm.
  destruct (5 <? _); [destruct m as [n|]|]; apply local_put; intros p [-> <-]; reflexivity.
Qed.

Lemma listen_input_ok l i src dest g : lists_ok g -> opts_ok i ->
  exists g', tcp_listen_input l i src dest g = Some (tt, g') /\ lists_ok g'.
Proof.
  intros L Ho. unfold tcp_listen_input. destruct (in_has TCP_ACK i).
  { eexists. split; [reflexivity|]. destruct L. now constructor. }
  destruct (in_has TCP_SYN i); [|now exists g].
  destruct (alloc_lists_ok (l_prio l) g L) as (r & g1 & E & L1 & _ & R). unfold sm_bind at 1. rewrite E.
  destruct r as [x|]; [|now exists g1]. destruct (R x eq_refl) as (p & Hx & Hp).
  assert (O : op x (fun p => kind_of p = KClosed)
    (change x (syn_rcvd_pcb l i src dest) ;;
     sm_modify (fun g => g <| tcp_active_pcbs ::= cons x |>) ;;
     tcp_parseopt_at x i ;;
     pcb <- get x ;;
     tcp_enqueue_at x [] (Z.lor TCP_SYN TCP_ACK) false (Some (mss_option (mss pcb))) ;;
     tcp_output_at x ;;
     sm_ret tt) (fun _ => stays (fun p => kind_of p = KActive))).
  { apply op_assoc. eapply op_bind; [now apply register_op|]. intros []. apply op_keeps.
    apply keeps_bind; [now apply keeps_parseopt | intros []; keeps]. }
  destruct (O g1 p L1 Hx Hp) as ([] & g2 & E2 & L2 & _). eauto.
Qed.

Lemma timewait_input_ok x i g p : lists_ok g -> pcbs g !! x = Some p ->
  exists g', tcp_timewait_input x i g = Some (tt, g') /\ lists_ok g'.
Proof.
  intros L Hx. assert (O : keeps x (tcp_timewait_input x i)).
  { unfold tcp_timewait_input. keeps. destruct (TCP_SEQ_GT _ _); reflexivity. }
  destruct (op_keeps x _ _ O g p L Hx eq_refl) as ([] & g' & E & L' & _). eauto.
Qed.

Lemma keeps_call_back x r e : (forall p e p' ps, r p = Some (e, p', ps) -> kind_of p' = kind_of p) -> keeps x (call_back x r e).
Proof.
  intros Hr. apply keeps_get. intros q s. destruct (r q) as [[[e' q'] ps]|] eqn:R; [|apply local_ret; tauto].
  apply Hr in R. eapply (local_bind x _ _ (fun _ p => kind_of p = s)); [apply local_put; intros p [-> <-]; exact R|].
  intros []. revert s. change (keeps x (send ps ;; sm_ret e')). keeps.
Qed.

Lemma keeps_notify x i : keeps x (notify x i).
Proof using K.
  assert (S : forall n e, keeps x (call_back x (on_sent n) e)) by (intros n e; apply keeps_call_back, sent_kind).
  assert (R : forall d e, keeps x (call_back x (on_recv d) e)) by (intros d e; apply keeps_call_back, recv_kind).
  unfold notify. keeps.
Qed.

(** The code after [tcp_process]. *)
Definition conn_rest (x : nat) (r : processed) : TM unit :=
  if pr_err r =? ERR_ABRT then sm_ret tt
  else if negb (Z.land (recv_flags (pr_in r)) TF_RESET =? 0) then
    tell x ERR_RST ;; tcp_pcb_remove_active x ;; memp_free x
  else if negb (Z.land (recv_flags (pr_in r)) TF_CLOSED =? 0) then
    tcp_pcb_remove_active x ;; memp_free x
  else notify x (pr_in r).

Lemma silent_tell x e : silent (tell x e).
Proof. intros g. eexists tt, _. split; [reflexivity | now split_and!]. Qed.

Lemma free_active_op x : op x (fun p => kind_of p = KActive) (tcp_pcb_remove_active x ;; memp_free x) (fun _ _ => True).
Proof.
  eapply op_bind; [|intros ?; eapply op_any, memp_free_op].
  eapply op_pre; [apply remove_active_op | intros p H; now left].
Qed.

Lemma conn_rest_op x r : op x (fun p => kind_of p = KActive) (conn_rest x r) (fun _ _ => True).
Proof using K.
  unfold conn_rest. destruct (_ =? ERR_ABRT); [now apply op_ret|].
  destruct (negb _); [apply op_silent_bind; [apply silent_tell | intros; apply free_active_op]|].
  destruct (negb _); [apply free_active_op | eapply op_any, op_keeps, keeps_notify].
Qed.

(** [x] becomes CLOSED while it is on its list, then is removed. *)
Lemma closed_rest_ok g g1 x p p' r : lists_ok g -> pcbs g !! x = Some p -> kind_of p = KActive -> kind_of p' = KClosed ->
  touched x p' g g1 -> pr_err r <> ERR_ABRT -> recv_flags (pr_in r) = TF_CLOSED ->
  exists g', conn_rest x r g1 = Some (tt, g') /\ lists_ok g'.
Proof.
  intros L Hx Hk Hk' [T1 T2 T3 T4 T5 T6 T7] He Hf. unfold conn_rest. rewrite Hf, (proj2 (Z.eqb_neq _ _) He).
  change (exists g', (tcp_pcb_remove_active x ;; memp_free x) g1 = Some (tt, g') /\ lists_ok g').
  destruct (lo_nodup _ L) as (N1 & N2 & _).
  destruct (remove_rest_ok g (g1 <| tcp_active_pcbs ::= TCP_RMV x |>) x p p' L Hx) as (g2 & E & L2 & O & q & Hq & Kq); trivial.
  - change (NoDup (TCP_RMV x (tcp_active_pcbs g1))). rewrite T3. now apply TCP_RMV_nodup.
  - change (NoDup (tcp_tw_pcbs g1)). now rewrite T4.
  - intros o Ho. change (elems_change x KActive o (tcp_active_pcbs g) (TCP_RMV x (tcp_active_pcbs g1)) /\
      elems_change x KWait o (tcp_tw_pcbs g) (tcp_tw_pcbs g1)). rewrite T3, T4.
    split; [apply elems_removed | apply elems_kept]; trivial; try (now apply closed_kind).
    rewrite (in_tw g x p L Hx), Hk. easy.
  - destruct (memp_free_op x g2 q L2 Hq Kq) as ([] & g3 & E3 & L3 & _).
    exists g3. split; [|exact L3]. unfold sm_bind, tcp_pcb_remove_active, sm_bind, sm_modify.
    now rewrite E.
Qed.

(** [x] moves to the connections in TIME-WAIT. *)
Lemma wait_ok g g' x p p' : lists_ok g -> pcbs g !! x = Some p -> kind_of p = KActive -> kind_of p' = KWait ->
  pcbs g' = <[x := p']> (pcbs g) -> lpcbs g' = lpcbs g -> tcp_active_pcbs g' = TCP_RMV x (tcp_active_pcbs g) ->
  tcp_tw_pcbs g' = x :: tcp_tw_pcbs g -> tcp_listen_pcbs g' = tcp_listen_pcbs g -> mallocs g' = mallocs g -> lists_ok g'.
Proof.
  intros L Hx Hk Hk' E1 E2 E3 E4 E5 E6. destruct (lo_nodup _ L) as (N1 & N2 & _).
  assert (Nx : x ∉ tcp_tw_pcbs g) by (rewrite (in_tw g x p L Hx), Hk; easy).
  apply (lists_ok_change g g' x (Some p') L); rewrite ?E3, ?E4, ?E6; trivial.
  - intros _. apply (lo_fresh _ L). left. now rewrite Hx.
  - intros q [= <-]. now rewrite Hk'.
  - now apply TCP_RMV_nodup.
  - now constructor.
  - apply elems_removed; [exact N1|]. intros q [= <-]. now rewrite Hk'.
  - intros y. rewrite elem_of_cons. split.
    + intros [->|Hy]; [right; eauto | left]. split; [now intros -> | exact Hy].
    + intros [[_ ?]|[? _]]; auto.
Qed.

(** The states the diagram leads to from an active one. *)
Lemma rfc793_kind i nxt p p' : arrow i nxt (state p) (state p') -> kind_of p = KActive -> state p' <> TIME_WAIT ->
  kind_of p' = KActive \/ state p' = CLOSED.
Proof.
  intros H. unfold kind_of. inversion H; subst; destruct (state p), (state p'); try discriminate; auto; congruence.
Qed.


(** From the result of [tcp_process] to the end. *)
Lemma conn_end_ok g x p i r : lists_ok g -> pcbs g !! x = Some p -> kind_of p = KActive -> recv_flags i = 0 -> follows i p r ->
  exists g', (sm_modify (fun g => g <| tcp_input_pcb := Some x |>) ;; put x (pr_pcb r) ;; settle x (pr_fate r) ;;
    send (pr_out r) ;; sm_modify (fun g => g <| tcp_input_pcb := None |>) ;; conn_rest x r) g = Some (tt, g') /\ lists_ok g'.
Proof using K.
  intros L Hx Hk Hi [F1 F2 F3 F4 F5 F6]. assert (Nw : state p <> TIME_WAIT) by (intros E; unfold kind_of in Hk; now rewrite E in Hk).
  assert (Nc : state p <> CLOSED) by (intros E; unfold kind_of in Hk; now rewrite E in Hk).
  unfold sm_modify, put, send, sm_bind. destruct (pr_fate r) eqn:Fate; cbn [settle]; unfold sm_ret, sm_modify, sm_bind, tell, memp_free.
  - assert (Hs : state (pr_pcb r) <> TIME_WAIT) by (intros E; now assert (Stay = ToTimeWait) by tauto).
    match goal with |- exists g', conn_rest x r ?h = _ /\ _ => set (g1 := h) end.
    assert (T : touched x (pr_pcb r) g g1) by now constructor.
    destruct (rfc793_kind i _ p (pr_pcb r) F1 Hk Hs) as [Ka|Kc].
    + pose proof (lists_ok_touched g g1 x p (pr_pcb r) L Hx ltac:(congruence) T) as L1.
      destruct (conn_rest_op x r g1 (pr_pcb r) L1 (touched_lookup _ _ _ _ T) Ka) as ([] & g2 & E & L2 & _). eauto.
    + apply (closed_rest_ok g g1 x p (pr_pcb r)); trivial; [unfold kind_of; now rewrite Kc | now rewrite F6 | now apply F4].
  - match goal with |- exists g', conn_rest x r ?h = _ /\ _ => set (g1 := h) end.
    assert (Kw : kind_of (pr_pcb r) = KWait) by (unfold kind_of; now rewrite (proj2 (proj1 F2 eq_refl))).
    assert (L1 : lists_ok g1) by now apply (wait_ok g g1 x p (pr_pcb r)).
    assert (Hx1 : pcbs g1 !! x = Some (pr_pcb r)) by apply lookup_insert_eq.
    assert (Nr : conn_rest x r = notify x (pr_in r)).
    { unfold conn_rest. rewrite (proj2 (Z.eqb_neq _ _)) by (rewrite F6; easy).
      destruct F5 as [E|E]; trivial; rewrite E, ?Hi; reflexivity. }
    rewrite Nr. destruct (op_keeps x KWait _ (keeps_notify x (pr_in r)) g1 _ L1 Hx1 Kw) as ([] & g2 & E & L2 & _). eauto.
  - match goal with |- context [pcbs ?h !! x] =>
      change (pcbs h !! x) with (<[x := pr_pcb r]> (pcbs g) !! x); rewrite lookup_insert_eq end.
    unfold conn_rest. rewrite (proj2 (Z.eqb_eq _ _) (proj2 F6 eq_refl)). eexists; split; [reflexivity|].
    apply (drop_active_ok g _ x p); trivial; try reflexivity. apply delete_insert_eq.
Qed.

Lemma input_conn_ok x i src dest g p : lists_ok g -> pcbs g !! x = Some p -> kind_of p = KActive ->
  input_wf i -> opts_ok i -> recv_flags i = 0 -> conn_ok p ->
  exists g', tcp_input_conn x i src dest g = Some (tt, g') /\ lists_ok g'.
Proof using K KS.
  intros L Hx Hk Wf Ho Hi [Hc Hs]. unfold tcp_input_conn. unfold sm_bind at 1, get. rewrite Hx. unfold sm_bind at 1, sm_get.
  destruct (process_follows (tcp_ticks g) (seg_ok 0) pbuf_ok opt_fuel src dest i p Wf Hc) as (r & -> & F); [auto|].
  now apply (conn_end_ok g x p i r).
Qed.

(** The connections are in order. *)
Definition conns_ok (g : tcp_globals) : Prop := forall x p, x ∈ tcp_active_pcbs g -> pcbs g !! x = Some p -> conn_ok p.

Lemma demux_ok i src dest g : lists_ok g -> conns_ok g -> input_wf i -> opts_ok i -> recv_flags i = 0 ->
  exists g', demux i src dest g = Some (tt, g') /\ lists_ok g'.
Proof using K KS.
  intros L C Wf Ho Hi. unfold demux.
  destruct (find_block_some (pcbs g) (conn_matches i src dest) (tcp_active_pcbs g)) as ([x|] & -> & Hf);
    [intros; now apply live_active| |].
  { destruct (Hf x eq_refl) as (Ha & p & Hx & _).
    apply (input_conn_ok x i src dest _ p); trivial; [now apply front_active_ok | now apply (in_active g x) | eapply C; eassumption]. }
  destruct (find_block_some (pcbs g) (conn_matches i src dest) (tcp_tw_pcbs g)) as ([x|] & -> & Hw);
    [intros; now apply live_tw| |].
  { destruct (Hw x eq_refl) as (_ & p & Hx & _). now apply (timewait_input_ok x i g p). }
  destruct (find_block_some (lpcbs g) (listen_matches i dest) (tcp_listen_pcbs g)) as ([x|] & -> & Hl);
    [intros; now apply live_listen| |].
  { destruct (Hl x eq_refl) as (Ha & l & -> & _). apply listen_input_ok; [now apply front_listen_ok | exact Ho]. }
  destruct (in_has TCP_RST i); [now exists g|]. eexists; split; [reflexivity|]. destruct L. now constructor.
Qed.

(** A packet whose headers lie in its first pbuf, and whose options can be read. *)
Definition tcp_part (p : list (list Z)) : option (list (list Z)) :=
  match hdr_at (hd [] p) with Some iphdr => hide_header (IPH_HL iphdr * 4) p | None => None end.

Definition packet_ok (p : list (list Z)) : Prop :=
  exists q, tcp_part p = Some q /\ (TCP_HLEN <= tot_len q -> exists i, set_input q = Some i /\ opts_ok i).

Lemma set_input_wf q i : set_input q = Some i -> input_wf i /\ recv_flags i = 0.
Proof.
  unfold set_input. destruct (tcp_hdr_at _) as [h|]; [|discriminate]. destruct q as [|s q]; [discriminate|].
  destruct (hide_header _ _) as [d|] eqn:E; [|discriminate]. intros [= <-]. split; [|reflexivity]. constructor.
  - exists d. split; [reflexivity|]. split.
    + unfold hide_header in E. destruct (_ <=? _); [|discriminate]. now injection E as <-.
    + change (u16 (tot_len d + syn_fin (TCPH_FLAGS (hdr_to_host h))) <= tot_len d + 1).
      unfold wrap, syn_fin, tot_len. pow2. pose proof (Z.mod_le (Z.of_nat (length (concat d)) +
        (if (Z.land (TCPH_FLAGS (hdr_to_host h)) TCP_FIN =? 0) && (Z.land (TCPH_FLAGS (hdr_to_host h)) TCP_SYN =? 0) then 0 else 1)) 65536).
      destruct (_ && _); lia.
  - change (0 <= u16 (tot_len d + syn_fin (TCPH_FLAGS (hdr_to_host h))) <= 65535).
    pose proof (wrap_range 16 (tot_len d + syn_fin (TCPH_FLAGS (hdr_to_host h))) ltac:(lia)). pow2. lia.
Qed.

Lemma input_ok inp p g : lists_ok g -> conns_ok g -> packet_ok p ->
  exists g', tcp_input inp p g = Some (tt, g') /\ lists_ok g'.
Proof using K KS.
  intros L C (q & E & H). unfold tcp_part in E. unfold tcp_input. destruct (hdr_at (hd [] p)) as [iphdr|]; [|discriminate]. rewrite E.
  destruct (Z.ltb_spec (tot_len q) TCP_HLEN) as [S|S]; [now exists g|].
  destruct (_ || _); [now exists g|]. destruct (negb _); [now exists g|].
  destruct (H S) as (i & Es & Ho). rewrite Es. apply set_input_wf in Es as [Wf Hi]. now apply demux_ok.
Qed.

End Input.

(** ** Runs *)

Inductive call :=
| CNew
| CBind (x : nat) (ip : option Z) (q : Z)
| CListen (x : nat)
| CConnect (x : nat) (ip : option Z) (q : Z)
| CWrite (x : nat) (data : list Z) (copy : bool)
| CRecved (x : nat) (n : Z)
| CSetprio (x : nat) (n : Z)
| CPoll (x : nat) (n : Z)
| CClose (x : tcp_ptr)
| CAbort (x : nat)
| CFasttmr
| CSlowtmr
| CInput (inp : netif) (p : list (list Z)).

Section Runs.
Context {V : Env} {A : App} {K : AppKeepsKind A} {KS : AppKeepsState A}.

Definition exec (c : call) : TM unit :=
  match c with
  | CNew => tcp_new ;; sm_ret tt
  | CBind x ip q => tcp_bind x ip q ;; sm_ret tt
  | CListen x => tcp_listen (Pcb x) ;; sm_ret tt
  | CConnect x ip q => tcp_connect x ip q ;; sm_ret tt
  | CWrite x d copy => tcp_write_at x d copy ;; sm_ret tt
  | CRecved x n => tcp_recved x n
  | CSetprio x n => tcp_setprio x n
  | CPoll x n => tcp_poll x n
  | CClose x => tcp_close x ;; sm_ret tt
  | CAbort x => tcp_abort x
  | CFasttmr => tcp_fasttmr
  | CSlowtmr => tcp_slowtmr
  | CInput inp p => tcp_input inp p
  end.

Definition in_use_block (g : tcp_globals) (x : nat) : Prop := is_Some (pcbs g !! x).
Definition closed_block (g : tcp_globals) (x : nat) : Prop := exists p, pcbs g !! x = Some p /\ state p = CLOSED.

(** What the caller has to see to: it names blocks that are in use, opens and
    listens on closed ones, and gives packets whose IP header lies in the first
    pbuf, as [ip_input] does. *)
Definition proper (g : tcp_globals) (c : call) : Prop :=
  match c with
  | CNew | CFasttmr | CSlowtmr => True
  | CListen x | CConnect x _ _ => closed_block g x
  | CBind x _ _ | CWrite x _ _ | CRecved x _ | CSetprio x _ | CPoll x _ | CAbort x => in_use_block g x
  | CClose (Pcb x) => in_use_block g x
  | CClose (Lpcb x) => is_Some (lpcbs g !! x)
  | CInput _ p => is_Some (tcp_part p)
  end.

(** Where the code is not safe: there is no port left to find; the timer comes to
    a connection that the keepalive timer gives up, or that retransmits after more
    than 12 retransmissions; a packet
    comes while a connection has a congestion window of 0 (or is to have, at the
    end of a fast recovery), or waits for the SYN's acknowledgement with no SYN in
    flight; the packet's TCP header is longer than its first pbuf; its options
    cannot be read. *)
Inductive trouble (g : tcp_globals) : call -> Prop :=
| no_port_to_bind x ip : ~ ports_ok g -> trouble g (CBind x ip 0)
| no_port_to_connect x ip q : ~ ports_ok g -> trouble g (CConnect x ip q)
| timer_trouble x p : x ∈ tcp_active_pcbs g -> pcbs g !! x = Some p -> ~ slow_ok (u32 (tcp_ticks g + 1)) p -> trouble g CSlowtmr
| conn_trouble x p inp pk : x ∈ tcp_active_pcbs g -> pcbs g !! x = Some p -> ~ conn_ok p -> trouble g (CInput inp pk)
| header_trouble inp pk q : tcp_part pk = Some q -> TCP_HLEN <= tot_len q -> set_input q = None -> trouble g (CInput inp pk)
| option_trouble inp pk q i : tcp_part pk = Some q -> set_input q = Some i -> ~ opts_ok i -> trouble g (CInput inp pk).

(** The conditions under which a call is shown to be safe. *)
Definition allowed (g : tcp_globals) (c : call) : Prop :=
  proper g c /\
  match c with
  | CBind _ _ q => q = 0 -> ports_ok g
  | CConnect _ _ _ => ports_ok g
  | CSlowtmr => forall x p, x ∈ tcp_active_pcbs g -> pcbs g !! x = Some p -> slow_ok (u32 (tcp_ticks g + 1)) p
  | CInput _ p => packet_ok p /\ conns_ok g
  | _ => True
  end.

Lemma all_or_one {T} (m : gmap nat T) (P : T -> Prop) (l : list nat) : (forall b, P b \/ ~ P b) ->
  (forall x b, x ∈ l -> m !! x = Some b -> P b) \/ exists x b, x ∈ l /\ m !! x = Some b /\ ~ P b.
Proof.
  intros D. induction l as [|y l [IH|(x & b & Hx & R)]]; [left; intros x b H; now apply elem_of_nil in H | |].
  - destruct (m !! y) as [b|] eqn:E; [|left; intros x b [->|H]%elem_of_cons; [congruence | eauto]].
    destruct (D b) as [Hb|Hb]; [left | right; exists y, b; split_and!; trivial; apply elem_of_cons; auto].
    intros x b' [->|H]%elem_of_cons; [congruence | eauto].
  - right. exists x, b. split; [apply elem_of_cons; auto | exact R].
Qed.

Lemma ports_ok_dec g : ports_ok g \/ ~ ports_ok g.
Proof.
  destruct (decide (in_port_range (port g) /\ Z.of_nat (length (tcp_active_pcbs g) + length (tcp_tw_pcbs g) +
    length (tcp_listen_pcbs g)) < port_range)) as [[]|N]; [left; now constructor | right; intros []; tauto].
Qed.

Lemma slow_ok_dec t p : slow_ok t p \/ ~ slow_ok t p.
Proof. unfold slow_ok. match goal with |- ?P \/ _ => destruct (decide P); auto end. Qed.

Lemma conn_ok_dec p : conn_ok p \/ ~ conn_ok p.
Proof. unfold conn_ok, cwnd_ok. match goal with |- ?P \/ _ => destruct (decide P); auto end. Qed.

Lemma opts_ok_dec i : opts_ok i \/ ~ opts_ok i.
Proof. unfold opts_ok. destruct (parse_opts _ _ _ _); [left; eauto | right; now intros [] | right; now intros []]. Qed.

(** A proper call is safe, or comes at the wrong moment. *)
Lemma proper_cases g c : proper g c -> allowed g c \/ trouble g c.
Proof.
  intros Pr. destruct c as [|x ip q|x|x ip q|x d copy|x n|x n|x n|x|x| | |inp pk]; try (left; split; [exact Pr | exact I]).
  - destruct (ports_ok_dec g) as [Po|No]; [left; split; [exact Pr | auto]|].
    destruct (Z.eq_dec q 0) as [->|N]; [right; now constructor | left; split; [exact Pr | easy]].
  - destruct (ports_ok_dec g) as [Po|No]; [left; now split | right; now constructor].
  - destruct (all_or_one (pcbs g) (slow_ok (u32 (tcp_ticks g + 1))) (tcp_active_pcbs g) (slow_ok_dec _)) as [H|(x & p & H1 & H2 & H3)];
      [left; now split | right; now apply (timer_trouble g x p)].
  - destruct (all_or_one (pcbs g) conn_ok (tcp_active_pcbs g) conn_ok_dec) as [H|(x & p & H1 & H2 & H3)];
      [|right; now apply (conn_trouble g x p)].
    destruct Pr as [q Eq]. destruct (Z_le_dec TCP_HLEN (tot_len q)) as [L|L].
    2:{ left. split; [now exists q|]. split; [exists q; split; [exact Eq | easy] | exact H]. }
    destruct (set_input q) as [i|] eqn:Ei; [|right; now apply (header_trouble g _ _ q)].
    destruct (opts_ok_dec i) as [O|O]; [left | right; now apply (option_trouble g _ _ q i)].
    split; [now exists q|]. split; [exists q; split; [exact Eq | eauto] | exact H].
Qed.

Lemma then_ret {T} (m : TM T) g : (exists a g', m g = Some (a, g') /\ lists_ok g') ->
  exists g', (m ;; sm_ret tt) g = Some (tt, g') /\ lists_ok g'.
Proof. intros (a & g' & E & L). exists g'. split; [unfold sm_bind; now rewrite E | exact L]. Qed.

Lemma keeps_ok {T} x (m : TM T) g : keeps x m -> lists_ok g -> in_use_block g x ->
  exists a g', m g = Some (a, g') /\ lists_ok g'.
Proof.
  intros H L [p Hx]. destruct (op_keeps x _ m H g p L Hx eq_refl) as (a & g' & E & L' & _). eauto.
Qed.

Lemma any_ok {T} x (m : TM T) Q g : op x (fun _ => True) m Q -> lists_ok g -> in_use_block g x ->
  exists a g', m g = Some (a, g') /\ lists_ok g'.
Proof. intros H L [p Hx]. destruct (H g p L Hx I) as (a & g' & E & L' & _). eauto. Qed.

Lemma unit_ok (m : TM unit) g : (exists a g', m g = Some (a, g') /\ lists_ok g') -> exists g', m g = Some (tt, g') /\ lists_ok g'.
Proof. intros ([] & g' & H). eauto. Qed.

Lemma closed_kind_of p : state p = CLOSED -> kind_of p = KClosed.
Proof. unfold kind_of. now intros ->. Qed.

(** One call. *)
Lemma exec_ok g c : lists_ok g -> allowed g c -> exists g', exec c g = Some (tt, g') /\ lists_ok g'.
Proof using K KS.
  intros L [H0 H1]. revert H0 H1. destruct c as [|x ip q|x|x ip q|x d copy|x n|x n|x n|[x|x]|x| | |inp p]; cbn [proper exec].
  - intros _ _. apply then_ret. destruct (alloc_lists_ok TCP_PRIO_NORMAL g L) as (r & g' & E & L' & _). eauto.
  - intros [p Hx] P. apply then_ret. now apply (bind_ok x ip q g p).
  - intros (p & Hx & S) _. apply then_ret. apply (listen_lists_ok x g p); trivial. now apply closed_kind_of.
  - intros (p & Hx & S) P. apply then_ret. apply (connect_ok x ip q g p); trivial. now apply closed_kind_of.
  - intros H _. apply then_ret, (keeps_ok x); auto with keeps.
  - intros H _. apply unit_ok, (keeps_ok x); auto with keeps.
  - intros H _. apply unit_ok, (keeps_ok x); trivial. now apply keeps_change.
  - intros H _. apply unit_ok, (keeps_ok x); trivial. now apply keeps_change.
  - intros H _. apply then_ret. eapply any_ok; [apply close_op | exact L | exact H].
  - intros H _. destruct (close_listen_ok g x L H) as (g' & E & L'). apply then_ret. eauto.
  - intros H _. apply unit_ok. eapply any_ok; [apply abort_op | exact L | exact H].
  - intros _ _. now apply fasttmr_ok.
  - intros _ H. now apply slowtmr_ok.
  - intros _ [H1 H2]. now apply input_ok.
Qed.

Fixpoint run (cs : list call) (g : tcp_globals) : option tcp_globals :=
  match cs with
  | [] => Some g
  | c :: cs => match exec c g with Some (_, g') => run cs g' | None => None end
  end.

(** A run, call by call. *)
Lemma run_step c cs g : lists_ok g -> allowed g c ->
  (forall g1, exec c g = Some (tt, g1) -> lists_ok g1 -> exists g', run cs g1 = Some g' /\ lists_ok g') ->
  exists g', run (c :: cs) g = Some g' /\ lists_ok g'.
Proof using K KS. intros L Al H. destruct (exec_ok g c L Al) as (g1 & E & L1). cbn [run]. rewrite E. now apply H. Qed.

(** Every call is a proper one when its turn comes. *)
Fixpoint proper_run (cs : list call) (g : tcp_globals) : Prop :=
  match cs with
  | [] => True
  | c :: cs => proper g c /\ forall g', exec c g = Some (tt, g') -> proper_run cs g'
  end.

Lemma run_cases cs : forall g, lists_ok g -> proper_run cs g ->
  (exists g', run cs g = Some g' /\ lists_ok g') \/
  (exists pre c post g', cs = pre ++ c :: post /\ run pre g = Some g' /\ lists_ok g' /\ trouble g' c).
Proof using K KS.
  induction cs as [|c cs IH]; intros g L H; [left; now exists g|]. destruct H as [H1 H2].
  destruct (proper_cases g c H1) as [Al|Tr]; [|right; now exists [], c, cs, g].
  destruct (exec_ok g c L Al) as (g1 & E & L1). cbn [run]. rewrite E.
  destruct (IH g1 L1 (H2 g1 E)) as [?|(pre & d & post & g' & -> & R & ?)]; [now left | right].
  exists (c :: pre), d, post, g'. split; [reflexivity|]. cbn [run]. now rewrite E.
Qed.

(** C4: the "axioms about the lists" of [tcp.h] hold at every moment.  From
    [tcp_init] on, the application makes calls on blocks in use, timers expire and
    packets arrive, in any order: either nothing faults in the whole run (no freed
    control block is used, in particular), and every control block is on exactly
    the list its state says, once, and a block that is not in use is on no list; or
    it is so up to a moment in which one of the six kinds of [trouble] is met, and
    the call that meets it is the next.  (The troubles are real: see
    [tcp_slowtmr_faults], [zero_window_divides_by_zero], [tcp_parseopt_options],
    [tcp_new_port_free].) *)
Theorem tcp_lists_invariant cs : proper_run cs tcp_init ->
  (exists g, run cs tcp_init = Some g /\ lists_ok g) \/
  (exists pre c post g, cs = pre ++ c :: post /\ run pre tcp_init = Some g /\ lists_ok g /\ trouble g c).
Proof using K KS. apply run_cases, init_lists_ok. Qed.

End Runs.

(** ** A concrete run

    A server listens on port 80, gets a SYN, opens a connection of its own, and
    aborts everything after the timers. *)

Definition demo_syn : packet :=
  let h := bare_hdr 5000 80 77 0 TCP_SYN 1000 in
  mkPacket (tcp_set_chksum h [] 33554442 16777226) [] 33554442 16777226 255 0.

(** That packet behind an IP header. *)
Definition demo_frame (pk : packet) : list (list Z) :=
  [hdr_bytes (mkHdr (htons (256 * 69)) (htons 40) 0 0 (htons (256 * 255 + 6)) 0 (pk_src pk) (pk_dest pk)) ++
   tcp_hdr_bytes (pk_hdr pk) ++ concat (pk_data pk)].

Definition demo_netif : netif := mkNetif 16777226 255 2.

Definition demo_calls : list call :=
  [CNew; CBind 0 None 80; CListen 0; CInput demo_netif (demo_frame demo_syn); CNew; CConnect 3 (Some 33554442) 80;
   CSlowtmr; CFasttmr; CWrite 3 [1; 2; 3] true; CClose (Lpcb 1); CAbort 2; CClose (Pcb 3)].

Lemma quiet_app_keeps_kind : AppKeepsKind quiet_app.
Proof. now constructor. Qed.

(** One call of a concrete run. *)
Ltac run_call :=
  split; [|let g := fresh "g" in let E := fresh "E" in
    intros g E; vm_compute in E; injection E as <-].

Lemma tcp_lists_invariant_witness :
  option_map (fun g => length (out g)) (run (V := plain_env) (A := quiet_app) demo_calls tcp_init) = Some 3%nat /\
  ((exists g, run (V := plain_env) (A := quiet_app) demo_calls tcp_init = Some g /\ lists_ok g) \/
   (exists pre c post g, demo_calls = pre ++ c :: post /\ run (V := plain_env) (A := quiet_app) pre tcp_init = Some g /\
      lists_ok g /\ trouble g c)).
Proof.
  split; [vm_compute; reflexivity|].
  apply (tcp_lists_invariant (V := plain_env) (A := quiet_app) (K := quiet_app_keeps_kind) (KS := quiet_app_keeps_state) demo_calls).
  run_call; [exact I|]. run_call; [eexists; reflexivity|].
  run_call; [eexists; split; reflexivity|]. run_call; [eexists; reflexivity|].
  run_call; [exact I|]. run_call; [eexists; split; reflexivity|].
  run_call; [exact I|]. run_call; [exact I|]. run_call; [eexists; reflexivity|]. run_call; [eexists; reflexivity|].
  run_call; [eexists; reflexivity|]. run_call; [eexists; reflexivity | exact I].
Defined.
