(* ===== verification/TcpDefects.v ===== *)
(** * TcpDefects: where TCP does not do what it means to

    The conditions under which [TcpCalls] proves the stack free of faults are
    needed: what happens without them.  And a connection in LAST-ACK ends before
    its last data have been sent. *)
From Stdlib Require Import ZArith Lia List Bool.
From stdpp Require Import base gmap list.
From coqutil Require Import Datatypes.RecordSetters.
From S2P Require Import IpFrag Prelude Inet IpAddr Tcp TcpOut TcpPcb TcpIn TcpInput TcpFsm TcpLists TcpCalls.
Import ListNotations.
#[local] Open Scope Z_scope.
#[local] Open Scope sm_scope.

(** ** LAST-ACK *)

(** A duplicate acknowledgement when nothing is in flight. *)
Lemma receive_ack_nothing t i c s q : unacked c = [] -> unsent c = s :: q -> lastack c = ackno i ->
  TCP_SEQ_BETWEEN (ackno i) (seg_end s) (snd_max c) = false ->
  exists c', receive_ack t i c = Some c' /\ unsent c' = s :: q /\ unacked c' = [] /\ snd_nxt c' = snd_nxt c /\ state c' = state c.
Proof.
  intros U0 U1 L B. unfold receive_ack. cbv zeta.
  assert (D : exists w, update_window i c = w /\ unacked w = [] /\ unsent w = s :: q /\ lastack w = ackno i /\
    snd_max w = snd_max c /\ snd_nxt w = snd_nxt c /\ state w = state c).
  { eexists; split; [reflexivity|]. unfold update_window. destruct (_ || _); now split_and!. }
  destruct D as (w & -> & A1 & A2 & A3 & A4 & A5 & A6). rewrite A3, Z.eqb_refl.
  assert (D : forall e, exists v, dup_ack e w = v /\ unacked v = [] /\ unsent v = s :: q /\ snd_max v = snd_max c /\
    snd_nxt v = snd_nxt c /\ state v = state c).
  { intros e. eexists; split; [reflexivity|]. unfold dup_ack. destruct (_ =? e); [|now split_and!].
    match goal with |- context [unacked ?x] => change (unacked x) with (unacked w) end. rewrite A1. cbn [negb].
    rewrite andb_false_r. now split_and!. }
  destruct (D (u32 (snd_wnd c + snd_wl1 c))) as (v & -> & C1 & C2 & C3 & C4 & C5).
  rewrite C2, C3. cbn [drop_unsent]. rewrite B. eexists; split; [reflexivity|].
  unfold update_rtt. destruct (_ && _); now split_and!.
Qed.

Section LastAck.
Context {A : App} (ticks : Z) (copy_ok rst_ok : bool) (fuel : nat) (src dest : Z).

(** C26: a connection in LAST-ACK may end before its last data are sent.  When the
    segments with the last data and the FIN are still unsent (the peer's window
    was closed, say), the next empty acknowledgement of what was sent before them
    is taken for that of the FIN, because [snd_nxt] is compared: the connection
    becomes CLOSED, and [tcp_input] will free it, with the data still queued. *)
Theorem tcp_last_ack_drops_data i c s q : state c = LAST_ACK -> in_has TCP_RST i = false -> in_has TCP_ACK i = true ->
  tcplen i = 0 -> unacked c = [] -> unsent c = s :: q -> ackno i = snd_nxt c -> lastack c = snd_nxt c ->
  TCP_SEQ_BETWEEN (snd_nxt c) (seg_end s) (snd_max c) = false ->
  exists r, tcp_process ticks copy_ok rst_ok fuel src dest i c = Done r /\
    state (pr_pcb r) = CLOSED /\ recv_flags (pr_in r) = TF_CLOSED /\ unsent (pr_pcb r) = s :: q /\ pr_out r = [].
Proof.
  intros St R Ack L U0 U1 An La B. unfold tcp_process. rewrite R.
  set (c0 := c <| tmr := ticks |> <| keep_cnt := 0 |>). change (state c0) with (state c). rewrite St.
  unfold after_receive, tcp_receive. rewrite Ack.
  destruct (receive_ack_nothing ticks i c0 s q U0 U1) as (c1 & E & E1 & E2 & E3 & E4); [exact (eq_trans La (eq_sym An)) | rewrite An; exact B |].
  rewrite E. unfold receive_data. rewrite L. change (0 <? 0) with false. cbv iota.
  assert (D : exists v, (if in_window (seqno i) c1 then c1 else ack_now_in c1) = v /\ unsent v = s :: q /\ snd_nxt v = snd_nxt c).
  { eexists; split; [reflexivity|]. destruct (in_window _ _); now split. }
  destruct D as (v & -> & V1 & V2). unfold acks_all. rewrite Ack, An, V2, Z.eqb_refl. cbn [andb].
  eexists; split; [reflexivity|]. now split_and!.
Qed.

End LastAck.

(** 500 bytes and a FIN wait behind a closed window. *)
Definition demo_last : tcp_pcb :=
  (demo_conn LAST_ACK) <| lastack := 6512 |> <| snd_wnd := 0 |>
    <| unsent := [mkSeg [replicate 500 7] 500 (mkTcpHdr 80 4097 (htonl 6512) 0 (htons 20497) 0 0 0)] |>.

Definition demo_ack : input :=
  let h := mkTcpHdr 80 4097 901 6512 (htons 20496) 1000 0 0 in
  mkInput (Some [[]]) 0 h [] 901 6512 TCP_ACK 0 0 None.

Lemma tcp_last_ack_drops_data_witness : exists r,
  tcp_process (A := quiet_app) 7 true true 41 1 2 demo_ack demo_last = Done r /\ state (pr_pcb r) = CLOSED /\
  recv_flags (pr_in r) = TF_CLOSED /\ unsent (pr_pcb r) = unsent demo_last /\ pr_out r = [].
Proof. now apply (tcp_last_ack_drops_data (A := quiet_app) 7 true true 41 1 2 demo_ack demo_last). Defined.

(** 100 bytes and a FIN are in flight, and the peer has acknowledged nothing of
    them, twice. *)
Definition demo_dups : tcp_pcb :=
  (demo_conn LAST_ACK) <| lastack := 6512 |> <| snd_nxt := 6613 |> <| snd_max := 6613 |> <| snd_lbb := 6613 |> <| dupacks := 2 |>
    <| snd_wnd := 1000 |> <| snd_wl1 := 5512 |>
    <| unacked := [mkSeg [replicate 100 7] 100 (mkTcpHdr 80 4097 (htonl 6512) 0 (htons 20497) 0 0 0)] |>.

(** The third duplicate acknowledgement puts the segment back on [unsent], and
    [snd_nxt] back to its number, which is the one acknowledged: the code takes
    that for the acknowledgement of the FIN. *)
Example third_dup_ack_closes : demo_states demo_ack demo_dups = Some (CLOSED, LAST_ACK).
Proof. vm_compute. reflexivity. Qed.

(** ** The timer *)

Section Timer.
Context {V : Env} {A : App}.

(** A connection on which nothing is in flight is not retransmitted. *)
Lemma slow_retransmit_idle x g p : pcbs g !! x = Some p -> unacked p = [] ->
  slow_retransmit x g = Some (tt, g <| pcbs ::= insert x (p <| rtime := u16 (rtime p + 1) |>) |>).
Proof.
  intros Hx U. unfold slow_retransmit, change, sm_bind, get, put. rewrite Hx.
  change (pcbs (g <| pcbs ::= insert x (p <| rtime := u16 (rtime p + 1) |>) |>))
    with (<[x := p <| rtime := u16 (rtime p + 1) |>]> (pcbs g)). rewrite lookup_insert_eq.
  change (unacked (p <| rtime := u16 (rtime p + 1) |>)) with (unacked p). now rewrite U.
Qed.

Definition keepalive_over (g : tcp_globals) (p : tcp_pcb) : Prop :=
  u32 (keepalive p + TCP_MAXIDLE) / TCP_SLOW_INTERVAL < idle (tcp_ticks g) p.

(** C27: what [tcp_slowtmr] needs ([slow_ok]).  When a connection with
    [SOF_KEEPALIVE] has been idle for so long that it is given up, [tcp_abort]
    frees it and the function goes on using it; and when [nrtx] has gone past 12,
    which it does when a fast retransmission follows the twelfth timeout, the
    index of [tcp_backoff] is outside the array. *)
Theorem tcp_slowtmr_faults x g p err : lists_ok g -> pcbs g !! x = Some p ->
  (state p = ESTABLISHED -> unacked p = [] -> nrtx p < TCP_MAXRTX -> Z.land (so_options p) SOF_KEEPALIVE <> 0 ->
     keepalive_over g p -> slowtmr_active x err g = None) /\
  (state p = ESTABLISHED -> unacked p <> [] -> 12 < nrtx p -> rto p <= u16 (rtime p + 1) -> slowtmr_active x err g = None).
Proof.
  intros L Hx. split; intros St U.
  - intros N O Kp. unfold slowtmr_active. unfold sm_bind at 1, get at 1. rewrite Hx. cbv zeta.
    assert (G : gave_up p = false).
    { unfold gave_up. rewrite St. change (bool_decide (ESTABLISHED = SYN_SENT)) with false. cbn [andb orb]. apply Z.eqb_neq. lia. }
    rewrite G. unfold sm_bind at 1. rewrite (slow_retransmit_idle x g p Hx U).
    set (p1 := p <| rtime := u16 (rtime p + 1) |>). set (g1 := g <| pcbs ::= insert x p1 |>).
    assert (Hx1 : pcbs g1 !! x = Some p1) by apply lookup_insert_eq.
    assert (T1 : touched x p1 g g1) by now constructor.
    assert (L1 : lists_ok g1) by now apply (lists_ok_touched g g1 x p p1).
    unfold sm_bind at 1, sm_get at 1. unfold sm_bind at 1, get at 1. rewrite Hx1.
    destruct (abort_op x g1 p1 L1 Hx1 I) as ([] & g2 & E2 & _ & _ & D).
    assert (Ek : slow_keepalive x g1 = Some (tt, g2)).
    { unfold slow_keepalive. unfold sm_bind at 1, get at 1. rewrite Hx1. unfold sm_bind at 1, sm_get at 1.
      change (so_options p1) with (so_options p). change (state p1) with (state p). rewrite St, (proj2 (Z.eqb_neq _ _) O).
      change (negb false && (bool_decide (ESTABLISHED = ESTABLISHED) || bool_decide (ESTABLISHED = CLOSE_WAIT))) with true.
      cbv iota. change (keepalive p1) with (keepalive p). change (idle (tcp_ticks g1) p1) with (idle (tcp_ticks g) p).
      now rewrite (proj2 (Z.ltb_lt _ _) Kp). }
    unfold sm_bind at 1. rewrite Ek. unfold sm_bind at 1, slow_ooseq, sm_bind at 1, get. now rewrite D.
  - intros N T. unfold slowtmr_active. unfold sm_bind at 1, get at 1. rewrite Hx. cbv zeta.
    assert (G : gave_up p = false).
    { unfold gave_up. rewrite St. change (bool_decide (ESTABLISHED = SYN_SENT)) with false. cbn [andb orb]. apply Z.eqb_neq.
      unfold TCP_MAXRTX. lia. }
    rewrite G. unfold sm_bind at 1, slow_retransmit, sm_bind at 1, change, sm_bind at 1, get at 1. rewrite Hx.
    unfold put at 1. set (p1 := p <| rtime := u16 (rtime p + 1) |>).
    unfold sm_bind at 1, get at 1. change (pcbs (g <| pcbs ::= insert x p1 |>)) with (<[x := p1]> (pcbs g)).
    rewrite lookup_insert_eq. change (unacked p1) with (unacked p). change (rto p1) with (rto p). change (rtime p1) with (u16 (rtime p + 1)).
    rewrite (proj2 (Z.leb_le _ _) T). destruct (unacked p) as [|s0 q0]; [easy|]. cbn [negb andb].
    unfold back_off. change (state p1) with (state p). rewrite St. change (nrtx p1) with (nrtx p).
    rewrite lookup_ge_None_2; [reflexivity|]. change (length tcp_backoff) with 13%nat. lia.
Qed.

End Timer.

Definition demo_keepalive : tcp_pcb := (demo_conn ESTABLISHED) <| so_options := SOF_KEEPALIVE |>.

Definition demo_idle : tcp_globals :=
  tcp_init <| pcbs := {[ 0%nat := demo_keepalive ]} |> <| tcp_active_pcbs := [0%nat] |> <| mallocs := 1%nat |>
    <| tcp_ticks := 20000 |>.

Lemma demo_block x p : pcbs demo_idle !! x = Some p <-> x = 0%nat /\ p = demo_keepalive.
Proof.
  change (pcbs demo_idle) with ({[ 0%nat := demo_keepalive ]} : gmap nat tcp_pcb). rewrite lookup_singleton_Some. naive_solver.
Qed.

Lemma demo_idle_ok : lists_ok demo_idle.
Proof.
  constructor.
  - intros x. change (tcp_active_pcbs demo_idle) with [0%nat]. rewrite list_elem_of_singleton. split.
    + intros ->. exists demo_keepalive. split; [now apply demo_block | reflexivity].
    + intros (p & H & _). now apply demo_block in H.
  - intros x. split; [intros H; now apply elem_of_nil in H|]. intros (p & H & K). apply demo_block in H as [_ ->]. discriminate K.
  - intros x. split; [intros H; now apply elem_of_nil in H | intros [b H]; discriminate].
  - intros x p H. apply demo_block in H as [_ ->]. discriminate.
  - split_and!; [constructor; [set_solver | constructor] | constructor | constructor].
  - intros x [[p H]|[p H]]; [|discriminate]. apply demo_block in H as [-> _]. apply Nat.lt_0_1.
Qed.

Lemma tcp_slowtmr_faults_witness : slowtmr_active (V := plain_env) (A := quiet_app) 0 0 demo_idle = None.
Proof.
  destruct (tcp_slowtmr_faults (V := plain_env) (A := quiet_app) 0 demo_idle demo_keepalive 0 demo_idle_ok) as [T _];
    [apply demo_block; split; reflexivity|]. apply T; [reflexivity | reflexivity | reflexivity | discriminate | vm_compute; reflexivity].
Defined.

(** ** A window of 0 *)

(** In the fast recovery of a peer that had closed its window, [ssthresh] is 0;
    the acknowledgement that ends the recovery sets [cwnd] to it, and divides by
    it. *)
Theorem zero_window_divides_by_zero t i c : has_flag TF_INFR c = true -> ssthresh c = 0 -> state c = ESTABLISHED ->
  lastack c <> ackno i -> TCP_SEQ_BETWEEN (ackno i) (u32 (lastack c + 1)) (snd_max c) = true -> receive_ack t i c = None.
Proof.
  intros F S St N B. unfold receive_ack. cbv zeta.
  assert (D : exists w, update_window i c = w /\ lastack w = lastack c /\ snd_max w = snd_max c /\ has_flag TF_INFR w = true /\
    ssthresh w = 0 /\ state w = ESTABLISHED).
  { eexists; split; [reflexivity|]. unfold update_window. destruct (_ || _); now split_and!. }
  destruct D as (w & -> & -> & -> & F' & S' & St'). rewrite (proj2 (Z.eqb_neq _ _) N), B.
  assert (G : grow_cwnd (new_ack_vars (ackno i) w) = None).
  { assert (Z0 : forall v, state v = ESTABLISHED -> cwnd v = 0 -> ssthresh v = 0 -> grow_cwnd v = None).
    { intros v E1 E2 E3. unfold grow_cwnd. now rewrite E1, E2, E3. }
    unfold new_ack_vars. rewrite F'. apply Z0; [exact St' | exact S' | exact S']. }
  unfold new_ack. now rewrite G.
Qed.
