(* ===== verification/Netif.v ===== *)
(** * Netif: the network interfaces

    [nsc-0.5.3/lwip-HEAD/src/core/netif.c], and [ip_route] of [core/ipv4/ip.c].

    The [struct netif]s belong to the callers: [netifs] holds them by address,
    and their contents before [netif_add] is whatever the caller left there.
    [netif_list] is the list of addresses.  [netif_set_ipaddr] reaches into TCP,
    so that its state is a pair.  The driver's [init] is a parameter; the pointers
    [input], [output], [state] are not in the model, [ip_input] being the only
    [input] there is. *)
From Stdlib Require Import ZArith Lia List Bool.
From stdpp Require Import base gmap list.
From coqutil Require Import Datatypes.RecordSetters.
From S2P Require Import Prelude Inet IpAddr Tcp TcpOut TcpPcb TcpIn TcpInput TcpFsm TcpLists TcpCalls.
Import ListNotations.
#[local] Open Scope Z_scope.
#[local] Open Scope sm_scope.

Definition NETIF_FLAG_UP : Z := 1.

(** [struct netif]; [if_net] has the fields that addresses are compared with. *)
Record net_if := mkIf {
  if_net : netif; if_gw : Z; if_mtu : Z; if_name : Z * Z; if_num : Z
}.

Definition if_addr (i : net_if) : Z := netif_addr (if_net i).

Record net_state := mkNet {
  netifs : gmap nat net_if;
  netif_list : list nat;
  netif_default : option nat;
  netifnum : Z                      (* static variable of [netif_add] *)
}.

(** The assignments to the fields of [if_net]. *)
Definition set_if_addr (a : Z) (i : net_if) : net_if :=
  i <| if_net := mkNetif a (netmask (if_net i)) (netif_flags (if_net i)) |>.
Definition set_if_mask (m : Z) (i : net_if) : net_if :=
  i <| if_net := mkNetif (if_addr i) m (netif_flags (if_net i)) |>.
Definition set_if_flags (f : Z -> Z) (i : net_if) : net_if :=
  i <| if_net := mkNetif (if_addr i) (netmask (if_net i)) (u8 (f (netif_flags (if_net i)))) |>.

(** ** Routing *)

(** [struct netif *ip_route(struct ip_addr *dest)]; the outer [None]: the list
    goes through an interface that is not there. *)
Definition ip_route (n : net_state) (dest : Z) : option (option nat) :=
  match find_block (netifs n) (fun i => ip_addr_netcmp dest (if_addr i) (netmask (if_net i))) (netif_list n) with
  | Some None => Some (netif_default n)
  | r => r
  end.

(** The address TCP takes from the interface that [ip_route] finds. *)
Definition route_addr (n : net_state) (dest : Z) : option Z :=
  match ip_route n dest with
  | Some (Some x) => if_addr <$> netifs n !! x
  | _ => None
  end.

(** The environment of TCP with that routing; memory is the one of [V]. *)
Definition net_env (V : Env) (n : net_state) : Env := {|
  TcpPcb.ip_route := route_addr n;
  malloc_ok := @malloc_ok V; seg_ok := @seg_ok V; pbuf_ok := @pbuf_ok V; garbage := @garbage V
|}.

(** ** The calls that concern interfaces alone *)

Abbreviation NM := (SM (net_state * tcp_globals)).

Definition get_if (x : nat) : NM net_if := fun st =>
  match netifs (fst st) !! x with Some i => Some (i, st) | None => None end.
Definition put_if (x : nat) (i : net_if) : NM unit := fun '(n, g) =>
  Some (tt, (n <| netifs ::= insert x i |>, g)).
Definition change_if (x : nat) (f : net_if -> net_if) : NM unit := i <- get_if x ;; put_if x (f i).
Definition change_net (f : net_state -> net_state) : NM unit := fun '(n, g) => Some (tt, (f n, g)).

Definition netif_init : NM unit :=
  change_net (fun n => n <| netif_list := [] |> <| netif_default := None |>).

Definition netif_set_gw (x : nat) (gw : Z) : NM unit := change_if x (fun i => i <| if_gw := gw |>).
Definition netif_set_netmask (x : nat) (m : Z) : NM unit := change_if x (set_if_mask m).
Definition netif_set_default (x : option nat) : NM unit := change_net (fun n => n <| netif_default := x |>).
Definition netif_set_up (x : nat) : NM unit := change_if x (set_if_flags (fun f => Z.lor f NETIF_FLAG_UP)).
Definition netif_set_down (x : nat) : NM unit :=
  change_if x (set_if_flags (fun f => Z.land f (Z.lnot NETIF_FLAG_UP))).

Definition netif_is_up (i : net_if) : bool := negb (Z.land (netif_flags (if_net i)) NETIF_FLAG_UP =? 0).

(** Take [x] off a list; [None]: it is not on it. *)
Fixpoint unlink (x : nat) (l : list nat) : option (list nat) :=
  match l with
  | [] => None
  | y :: l => if decide (y = x) then Some l else cons y <$> unlink x l
  end.

Definition netif_remove (x : option nat) : NM unit :=
  match x with
  | None => sm_ret tt
  | Some x =>
      change_net (fun n =>
        match unlink x (netif_list n) with
        | None => n
        | Some l =>
            let n := n <| netif_list := l |> in
            if decide (netif_default n = Some x) then n <| netif_default := None |> else n
        end)
  end.

(** [struct netif *netif_find(char *name)]; a string is the list of its
    characters before the NUL.  The inner [None] is the null pointer, the outer
    one a read behind the string. *)
Definition netif_find (name : option (list Z)) (n : net_state) : option (option nat) :=
  match name with
  | None => Some None
  | Some (a :: b :: r) =>
      let num := u8 (hd 0 r - 48) in
      find_block (netifs n)
        (fun i => (num =? if_num i) && (a =? fst (if_name i)) && (b =? snd (if_name i))) (netif_list n)
  | Some _ => None
  end.

(** ** Addresses, and the connections bound to them *)

Section Addresses.
Context {V : Env}.

(** A piece of TCP that runs while the interfaces are those of the moment. *)
Definition in_tcp {T} (m : Env -> TM T) : NM T := fun '(n, g) =>
  match m (net_env V n) g with Some (a, g) => Some (a, (n, g)) | None => None end.

(** The loop over [tcp_active_pcbs]: [next] is read before [tcp_abort], which
    takes no other block off the list. *)
Definition abort_bound (old : Z) (x : nat) : NM unit :=
  pcb <- in_tcp (fun _ => get x) ;;
  if local_ip pcb =? old then in_tcp (fun V => tcp_abort (V := V) x) else sm_ret tt.

Fixpoint abort_all_bound (old : Z) (l : list nat) : NM unit :=
  match l with
  | [] => sm_ret tt
  | x :: l => abort_bound old x ;; abort_all_bound old l
  end.

(** The loop over the listening blocks. *)
Definition rebind_listen (old ipaddr : Z) (x : nat) : TM unit :=
  l <- get_listen x ;;
  sm_modify (fun g => if l_local_ip l =? old then g <| lpcbs ::= insert x (l <| l_local_ip := ipaddr |>) |> else g).

Definition netif_set_ipaddr (x : nat) (ipaddr : Z) : NM unit :=
  i <- get_if x ;;
  (if ipaddr =? if_addr i then sm_ret tt
   else
     g <- in_tcp (fun _ => sm_get) ;;
     abort_all_bound (if_addr i) (tcp_active_pcbs g) ;;
     g <- in_tcp (fun _ => sm_get) ;;
     in_tcp (fun _ => for_each (rebind_listen (if_addr i) ipaddr) (tcp_listen_pcbs g))) ;;
  change_if x (set_if_addr ipaddr).

Definition netif_set_addr (x : nat) (ipaddr mask gw : Z) : NM unit :=
  netif_set_ipaddr x ipaddr ;; netif_set_netmask x mask ;; netif_set_gw x gw.

(** [netif_add]; [init] is the driver's function.  An interface that is on the
    list already would close the list to a circle: a fault. *)
Definition netif_add (x : nat) (ipaddr mask gw : Z) (init : net_if -> Z * net_if) : NM (option nat) :=
  change_net (fun n => n <| netifs ::= alter (fun i => i <| if_num := u8 (netifnum n) |>) x |>
                         <| netifnum ::= Z.succ |>) ;;
  netif_set_addr x ipaddr mask gw ;;
  i <- get_if x ;;
  let '(err, i) := init i in
  put_if x i ;;
  if negb (err =? ERR_OK) then sm_ret None
  else fun '(n, g) =>
    if decide (x ∈ netif_list n) then None
    else Some (Some x, (n <| netif_list ::= cons x |>, g)).

End Addresses.

(** ** A changed address *)

(** What becomes of a listening block. *)
Definition rebound (old ipaddr : Z) (l : tcp_pcb_listen) : tcp_pcb_listen :=
  if l_local_ip l =? old then l <| l_local_ip := ipaddr |> else l.

(** What becomes of a block in use. *)
Definition unless_bound (old : Z) (p : tcp_pcb) : option tcp_pcb :=
  if local_ip p =? old then None else Some p.

Section Change.
Context {V : Env}.

Lemma abort_bound_ok old x n g p : lists_ok g -> pcbs g !! x = Some p ->
  exists g', abort_bound old x (n, g) = Some (tt, (n, g')) /\ lists_ok g' /\ others x g g' /\
    pcbs g' !! x = unless_bound old p.
Proof.
  intros L Hx. unfold abort_bound, sm_bind, in_tcp, get, unless_bound. rewrite Hx.
  destruct (local_ip p =? old).
  - destruct (abort_op (V := net_env V n) x g p L Hx I) as ([] & g' & E & L' & O & H). rewrite E. eauto 10.
  - exists g. split; [reflexivity|]. split; [exact L|]. split; [apply others_refl | exact Hx].
Qed.

Lemma abort_all_ok old l : forall n g, NoDup l -> lists_ok g -> (forall x, x ∈ l -> is_Some (pcbs g !! x)) ->
  exists g', abort_all_bound old l (n, g) = Some (tt, (n, g')) /\ lists_ok g' /\ lpcbs g' = lpcbs g /\
    forall y, pcbs g' !! y = if decide (y ∈ l) then pcbs g !! y ≫= unless_bound old else pcbs g !! y.
Proof.
  induction l as [|x l IH]; intros n g D L Hl.
  { exists g. split; [reflexivity|]. split; [exact L|]. split; [reflexivity|]. intros y.
    rewrite decide_False; [reflexivity | apply not_elem_of_nil]. }
  apply NoDup_cons in D as [Nx D]. destruct (Hl x ltac:(apply elem_of_cons; auto)) as [p Hx].
  destruct (abort_bound_ok old x n g p L Hx) as (g1 & E1 & L1 & O & H1).
  destruct (IH n g1 D L1) as (g2 & E2 & L2 & Ll & H2).
  { intros y Hy. rewrite (ot_pcbs _ _ _ O) by (intros ->; contradiction). apply Hl, elem_of_cons. auto. }
  exists g2. cbn [abort_all_bound]. rewrite (sm_bind_some _ _ _ _ _ E1). split; [exact E2|]. split; [exact L2|].
  split; [rewrite Ll; apply O|]. intros y. rewrite H2. destruct (decide (y = x)) as [->|N].
  - rewrite decide_False by exact Nx. rewrite decide_True by (apply elem_of_cons; auto). now rewrite H1, Hx.
  - rewrite (ot_pcbs _ _ _ O y N). destruct (decide (y ∈ l)) as [Hy|Hy].
    + now rewrite decide_True by (apply elem_of_cons; auto).
    + rewrite decide_False; [reflexivity|]. rewrite elem_of_cons. tauto.
Qed.

Lemma lpcbs_id g f : f (lpcbs g) = lpcbs g -> g <| lpcbs ::= f |> = g.
Proof. intros E. destruct g. exact (f_equal (fun m => mkGlobals _ m _ _ _ _ _ _ _ _ _ _ _) E). Qed.

Lemma rebind_one old a x g b : lpcbs g !! x = Some b ->
  rebind_listen old a x g = Some (tt, g <| lpcbs ::= insert x (rebound old a b) |>).
Proof.
  intros Hx. unfold rebind_listen, sm_bind, get_listen, sm_modify, rebound. rewrite Hx.
  destruct (l_local_ip b =? old); [reflexivity|]. f_equal. f_equal. symmetry. now apply lpcbs_id, insert_id.
Qed.

Lemma rebind_ok old a l : forall g, NoDup l -> (forall x, x ∈ l -> is_Some (lpcbs g !! x)) ->
  exists m, for_each (rebind_listen old a) l g = Some (tt, g <| lpcbs := m |>) /\
    forall y, m !! y = if decide (y ∈ l) then rebound old a <$> lpcbs g !! y else lpcbs g !! y.
Proof.
  induction l as [|x l IH]; intros g D Hl.
  { exists (lpcbs g). split; [now destruct g|]. intros y. rewrite decide_False; [reflexivity | apply not_elem_of_nil]. }
  apply NoDup_cons in D as [Nx D]. destruct (Hl x ltac:(apply elem_of_cons; auto)) as [b Hx].
  destruct (IH (g <| lpcbs ::= insert x (rebound old a b) |>) D) as (m & E & Hm).
  { intros y Hy. destruct (decide (y = x)) as [->|N]; [contradiction|].
    destruct (Hl y ltac:(apply elem_of_cons; auto)) as [c Hc]. exists c.
    change (<[x := rebound old a b]> (lpcbs g) !! y = Some c). now rewrite lookup_insert_ne. }
  exists m. cbn [for_each]. rewrite (sm_bind_some _ _ _ _ _ (rebind_one old a x g b Hx)). split; [exact E|].
  intros y. rewrite Hm. change (lpcbs (g <| lpcbs ::= _ |>)) with (<[x := rebound old a b]> (lpcbs g)).
  destruct (decide (y = x)) as [->|N].
  - rewrite decide_False by exact Nx. rewrite decide_True by (apply elem_of_cons; auto). now rewrite lookup_insert_eq, Hx.
  - rewrite lookup_insert_ne by congruence. destruct (decide (y ∈ l)) as [Hy|Hy].
    + now rewrite decide_True by (apply elem_of_cons; auto).
    + rewrite decide_False; [reflexivity|]. rewrite elem_of_cons. tauto.
Qed.

(** Other contents of the listening blocks. *)
Lemma lists_ok_lpcbs g m : lists_ok g -> (forall y, is_Some (m !! y) <-> is_Some (lpcbs g !! y)) ->
  lists_ok (g <| lpcbs := m |>).
Proof.
  intros [L1 L2 L3 L4 L5 L6] H. constructor; trivial.
  - intros x. cbn. now rewrite L3, H.
  - intros x. cbn. rewrite H. apply L6.
Qed.

End Change.

Section SetAddress.
Context {V : Env}.

Lemma change_if_ok x f n g i : netifs n !! x = Some i ->
  change_if x f (n, g) = Some (tt, (n <| netifs ::= insert x (f i) |>, g)).
Proof. intros Hx. unfold change_if, sm_bind, get_if, put_if. cbn [fst]. now rewrite Hx. Qed.

(** What a change of address does to TCP: the connections of the old address are
    gone, its listeners are at the new one, all else is as it was. *)
Lemma set_ipaddr_ok x a n g i : lists_ok g -> netifs n !! x = Some i -> a <> if_addr i ->
  exists g', netif_set_ipaddr x a (n, g) = Some (tt, (n <| netifs ::= insert x (set_if_addr a i) |>, g')) /\
    lists_ok g' /\ lpcbs g' = rebound (if_addr i) a <$> lpcbs g /\
    forall y, pcbs g' !! y =
      if decide (y ∈ tcp_active_pcbs g) then pcbs g !! y ≫= unless_bound (if_addr i) else pcbs g !! y.
Proof.
  intros L Hx Ha. destruct (lo_nodup _ L) as (D & _ & _).
  destruct (abort_all_ok (if_addr i) (tcp_active_pcbs g) n g D L) as (g1 & E1 & L1 & Ll & H1).
  { intros y. now apply live_active. }
  destruct (lo_nodup _ L1) as (_ & _ & D1).
  destruct (rebind_ok (if_addr i) a (tcp_listen_pcbs g1) g1 D1) as (m & E2 & Hm).
  { intros y. apply (lo_listen _ L1). }
  assert (Em : m = rebound (if_addr i) a <$> lpcbs g).
  { apply map_eq. intros y. rewrite Hm, lookup_fmap, <- Ll.
    destruct (decide (y ∈ tcp_listen_pcbs g1)) as [H|H]; [reflexivity|].
    rewrite (lo_listen _ L1) in H. now destruct (lpcbs g1 !! y); [destruct H|]. }
  exists (g1 <| lpcbs := m |>). split; [|split; [|split; [exact Em | exact H1]]].
  - unfold netif_set_ipaddr, sm_bind at 1, get_if. cbn [fst]. rewrite Hx.
    rewrite (proj2 (Z.eqb_neq a (if_addr i)) Ha). unfold sm_bind at 1 2, in_tcp at 1, sm_get.
    rewrite (sm_bind_some _ _ _ _ _ E1). unfold sm_bind at 1, in_tcp at 1. unfold in_tcp. rewrite E2.
    unfold change_if, sm_bind, get_if, put_if. cbn [fst]. now rewrite Hx.
  - apply lists_ok_lpcbs; [exact L1|]. intros y. rewrite Em, lookup_fmap, Ll. now rewrite fmap_is_Some.
Qed.

Lemma set_ipaddr_same x n g i : netifs n !! x = Some i ->
  netif_set_ipaddr x (if_addr i) (n, g) = Some (tt, (n <| netifs ::= insert x i |>, g)).
Proof.
  intros Hx. unfold netif_set_ipaddr, sm_bind, get_if, change_if, sm_bind, get_if, put_if. cbn [fst].
  rewrite Hx, Z.eqb_refl. unfold sm_ret. cbn [fst]. rewrite Hx. now destruct i as [[]].
Qed.

End SetAddress.

Section Theorems.
Context {V : Env}.

(** C39: [netif_set_ipaddr]: nothing but the address of the interface changes
    when it is the address the interface has.  Otherwise the connections bound
    to the old address, and only they, are aborted; the listeners bound to it
    are at the new address; all other control blocks, TIME-WAIT included, are
    as they were, and the lists stay well-formed. *)
Theorem netif_set_ipaddr_moves x a n g i : lists_ok g -> netifs n !! x = Some i ->
  exists g', netif_set_ipaddr x a (n, g) = Some (tt, (n <| netifs ::= insert x (set_if_addr a i) |>, g')) /\
    lists_ok g' /\ (a = if_addr i -> g' = g) /\
    (a <> if_addr i ->
      (forall y p, pcbs g' !! y = Some p -> kind_of p = KActive -> local_ip p <> if_addr i) /\
      (forall y p, pcbs g !! y = Some p -> kind_of p <> KActive \/ local_ip p <> if_addr i -> pcbs g' !! y = Some p) /\
      lpcbs g' = rebound (if_addr i) a <$> lpcbs g).
Proof.
  intros L Hx. destruct (Z.eq_dec a (if_addr i)) as [->|N].
  - exists g. rewrite (set_ipaddr_same _ _ _ _ Hx). split; [now destruct i as [[]]|]. split; [exact L|]. now split.
  - destruct (set_ipaddr_ok x a n g i L Hx N) as (g' & E & L' & Ll & H). exists g'. split; [exact E|].
    split; [exact L'|]. split; [contradiction|]. intros _. split; [|split; [|exact Ll]].
    + intros y p Hy K. rewrite H in Hy. destruct (decide (y ∈ tcp_active_pcbs g)) as [Hi|Hi].
      * destruct (pcbs g !! y) as [q|]; [|discriminate]. cbn in Hy. unfold unless_bound in Hy.
        destruct (local_ip q =? if_addr i) eqn:E1; [discriminate|]. injection Hy as <-. now apply Z.eqb_neq.
      * destruct Hi. now apply (in_active _ _ _ L Hy).
    + intros y p Hy Hk. rewrite H, Hy. destruct (decide (y ∈ tcp_active_pcbs g)) as [Hi|Hi]; [|reflexivity].
      apply (in_active _ _ _ L Hy) in Hi. destruct Hk as [Hk|Hk]; [contradiction|].
      cbn. unfold unless_bound. now rewrite (proj2 (Z.eqb_neq _ _) Hk).
Qed.

(** A call of [netif_add] whose driver succeeds. *)
Lemma netif_add_ok x a mask gw init n g i : lists_ok g -> netifs n !! x = Some i -> x ∉ netif_list n ->
  (forall i, fst (init i) = ERR_OK) -> a <> if_addr i ->
  exists n' g', netif_add x a mask gw init (n, g) = Some (Some x, (n', g')) /\
    netif_list n' = x :: netif_list n /\ lists_ok g' /\ lpcbs g' = rebound (if_addr i) a <$> lpcbs g.
Proof.
  intros L Hx Hn Hi Ha. set (j := i <| if_num := u8 (netifnum n) |>).
  set (n1 := n <| netifs ::= alter (fun i => i <| if_num := u8 (netifnum n) |>) x |> <| netifnum ::= Z.succ |>).
  assert (H1 : netifs n1 !! x = Some j).
  { change (alter (fun i => i <| if_num := u8 (netifnum n) |>) x (netifs n) !! x = Some j). now rewrite lookup_alter_eq, Hx. }
  destruct (set_ipaddr_ok x a n1 g j L H1 Ha) as (g' & E & L' & Ll & _).
  set (n2 := n1 <| netifs ::= insert x (set_if_addr a j) |>).
  pose proof (change_if_ok x (set_if_mask mask) n2 g' _ (lookup_insert_eq _ _ _)) as E2.
  set (n3 := n2 <| netifs ::= insert x (set_if_mask mask (set_if_addr a j)) |>) in E2.
  pose proof (change_if_ok x (fun i => i <| if_gw := gw |>) n3 g' _ (lookup_insert_eq _ _ _)) as E3. cbv beta in E3.
  set (k := set_if_mask mask (set_if_addr a j) <| if_gw := gw |>) in E3.
  set (n4 := n3 <| netifs ::= insert x k |>) in E3.
  assert (H4 : netifs n4 !! x = Some k) by apply lookup_insert_eq.
  assert (Es : netif_set_addr x a mask gw (n1, g) = Some (tt, (n4, g'))).
  { unfold netif_set_addr. rewrite (sm_bind_some _ _ _ _ _ E). unfold netif_set_netmask, netif_set_gw.
    now rewrite (sm_bind_some _ _ _ _ _ E2). }
  unfold netif_add. unfold sm_bind at 1, change_net. fold n1. rewrite (sm_bind_some _ _ _ _ _ Es).
  unfold sm_bind, get_if. cbn [fst]. rewrite H4. specialize (Hi k). destruct (init k) as [err k']. cbn in Hi. subst err.
  unfold put_if. cbv beta iota. rewrite Z.eqb_refl. cbn [negb].
  match goal with |- context [decide ?P] => destruct (decide P) as [D|_]; [destruct (Hn D)|] end.
  eexists _, g'. split; [reflexivity|]. split; [reflexivity|]. split; [exact L' | exact Ll].
Qed.

(** [netif_add] of an interface whose structure is zero, while a listener
    on any address is there, takes that listener to the new interface's address:
    before, it took the connections to every address, afterwards to none but
    this one.  ([netif_set_ipaddr] takes the zero of the unconfigured interface
    and [IP_ADDR_ANY] for the same address.) *)
Theorem netif_add_narrows_listeners x a mask gw init n g i y l : lists_ok g ->
  netifs n !! x = Some i -> x ∉ netif_list n -> if_addr i = 0 -> a <> 0 -> (forall i, fst (init i) = ERR_OK) ->
  lpcbs g !! y = Some l -> l_local_ip l = 0 ->
  (forall seg dest, listen_matches seg dest l = (l_local_port l =? th_dest (in_hdr seg))) /\
  exists n' g' l', netif_add x a mask gw init (n, g) = Some (Some x, (n', g')) /\ lpcbs g' !! y = Some l' /\
    forall seg dest, listen_matches seg dest l' = (dest =? a) && (l_local_port l =? th_dest (in_hdr seg)).
Proof.
  intros L Hx Hn Hz Ha Hi Hy Hl. split.
  { intros seg dest. unfold listen_matches, ip_addr_isany. now rewrite Hl. }
  destruct (netif_add_ok x a mask gw init n g i L Hx Hn Hi) as (n' & g' & E & _ & _ & Ll); [now rewrite Hz|].
  exists n', g', (rebound 0 a l). split; [exact E|]. split; [now rewrite Ll, lookup_fmap, Hy, Hz|].
  intros seg dest. unfold listen_matches, ip_addr_isany, rebound. rewrite Hl. cbn [Z.eqb].
  change (l_local_ip (l <| l_local_ip := a |>)) with a. change (l_local_port (l <| l_local_ip := a |>)) with (l_local_port l).
  rewrite (proj2 (Z.eqb_neq a 0) Ha), Z.eqb_sym. reflexivity.
Qed.

End Theorems.

(** ** Concrete runs *)

Definition demo_if (a : Z) : net_if := mkIf (mkNetif a 255 3) 0 1500 (115, 97) 0.

Definition demo_net : net_state := mkNet {[ 0%nat := demo_if 16777226; 1%nat := demo_if 0 ]} [0%nat] None 1.

(** A listener on port 80 and a connection, made by TCP's own calls. *)
Definition demo_tcp : option tcp_globals :=
  run (V := net_env plain_env demo_net) (A := quiet_app)
    [CNew; CBind 0 None 80; CListen 0; CInput demo_netif (demo_frame demo_syn)] tcp_init.

Ltac demo_step allowed :=
  apply (run_step (V := net_env plain_env demo_net) (A := quiet_app) (K := quiet_app_keeps_kind)
    (KS := quiet_app_keeps_state)); [assumption | allowed |];
  let g := fresh "g" in let E := fresh "E" in let L := fresh "L" in intros g E L; vm_compute in E; injection E as <-.

Lemma demo_tcp_ok : exists g, demo_tcp = Some g /\ lists_ok g.
Proof.
  pose proof init_lists_ok. unfold demo_tcp.
  demo_step ltac:(split; exact I). demo_step ltac:(split; [eexists; split; reflexivity | discriminate]).
  demo_step ltac:(split; [eexists; split; reflexivity | exact I]).
  demo_step ltac:(split; [eexists; reflexivity | split;
    [eexists; split; [reflexivity|]; intros _; eexists; split; [reflexivity | now exists None]
    |intros x p Hx; now apply elem_of_nil in Hx]]).
  eexists. split; [reflexivity | assumption].
Qed.

Lemma netif_set_ipaddr_moves_witness : exists g g', demo_tcp = Some g /\ tcp_active_pcbs g = [2%nat] /\
  netif_set_ipaddr (V := plain_env) 0 33554442 (demo_net, g) =
    Some (tt, (demo_net <| netifs ::= insert 0%nat (set_if_addr 33554442 (demo_if 16777226)) |>, g')) /\
  lists_ok g' /\ tcp_active_pcbs g' = [].
Proof.
  destruct demo_tcp_ok as (g & E & L).
  destruct (netif_set_ipaddr_moves (V := plain_env) 0 33554442 demo_net g (demo_if 16777226) L eq_refl)
    as (g' & E' & L' & _ & H).
  destruct H as (Hb & _); [discriminate|]. exists g, g'. split; [exact E|].
  assert (A : tcp_active_pcbs g = [2%nat]) by (vm_compute in E; injection E as <-; reflexivity).
  split; [exact A|]. split; [exact E'|]. split; [exact L'|].
  apply (f_equal (fun r => match r with Some (_, (_, g)) => tcp_active_pcbs g | None => [9%nat] end)) in E'.
  rewrite <- E'. vm_compute in E. injection E as <-. reflexivity.
Defined.

Lemma netif_add_narrows_listeners_witness : exists g n' g' l', demo_tcp = Some g /\
  netif_add (V := plain_env) 1 84215306 255 0 (fun i => (0, i)) (demo_net, g) = Some (Some 1%nat, (n', g')) /\
  lpcbs g' !! 1%nat = Some l' /\ forall seg, listen_matches seg 16777226 l' = false.
Proof.
  destruct demo_tcp_ok as (g & E & L).
  assert (Hl : exists l, lpcbs g !! 1%nat = Some l /\ l_local_ip l = 0)
    by (vm_compute in E; injection E as <-; eexists; split; reflexivity).
  destruct Hl as (l & Hl & Hz).
  destruct (netif_add_narrows_listeners (V := plain_env) 1 84215306 255 0 (fun i => (0, i)) demo_net g (demo_if 0) 1 l
    L eq_refl) as (_ & n' & g' & l' & E' & Hl' & M).
  - change (1%nat ∉ [0%nat]). rewrite list_elem_of_singleton. discriminate.
  - reflexivity.
  - discriminate.
  - reflexivity.
  - exact Hl.
  - exact Hz.
  - exists g, n', g', l'. split; [exact E|]. split; [exact E'|]. split; [exact Hl'|]. intros seg. now rewrite M.
Defined.
