(* ===== verification/IpOut.v ===== *)
(** * IpOut: the state of the stack, and the sending half of the IP layer

    [ip_output] and [ip_output_if] of [nsc-0.5.3/lwip-HEAD/src/core/ipv4/ip.c].

    A packet on its way through IP is the chain of its payloads and, for the first
    pbuf, the memory in front of the payload, where headers go and come from
    ([pk]); the reference counts of its pbufs are the matter of [Pbuf].  What
    [netif->output] is given is recorded in [wire].  An access outside a pbuf or
    to an interface that is not there is a fault ([None]); so is an [ip_frag]
    that does not end. *)
From Stdlib Require Import ZArith Lia List Bool.
From stdpp Require Import base gmap list.
From coqutil Require Import Datatypes.RecordSetters.
From S2P Require Import IpFrag Prelude Inet IpAddr Tcp TcpOut TcpPcb Netif.
Import ListNotations.
#[local] Open Scope Z_scope.
#[local] Open Scope sm_scope.

Definition ERR_RTE : Z := -9.
Definition IP_DF : Z := 16384.
Definition IP_PROTO_ICMP : Z := 1.
Definition IP_PROTO_UDP : Z := 17.
Definition IP_PROTO_UDPLITE : Z := 170.

(** ** Packets *)

(** The first pbuf is of a kind that can grow ([PBUF_RAM], [PBUF_POOL]) unless
    it is [fixed] ([PBUF_ROM], [PBUF_REF]). *)
Record pk := mkPk { fixed : bool; before : list Z; chain : list (list Z) }.

(** [p->tot_len] *)
Definition pk_len (p : pk) : Z := u16 (tot_len (chain p)).

(** [pbuf_header(p, inc)]: whether it failed, and the packet.  Hiding more than
    the first pbuf has is not refused by the code, and is a fault here. *)
Definition pk_header (inc : Z) (p : pk) : option (bool * pk) :=
  match chain p with
  | [] => None
  | s :: q =>
      if inc =? 0 then Some (false, p)
      else if inc <? 0 then
        let n := Z.to_nat (- inc) in
        if - inc <=? Z.of_nat (length s)
        then Some (false, mkPk (fixed p) (before p ++ take n s) (drop n s :: q)) else None
      else if fixed p || (Z.of_nat (length (before p)) <? inc) then Some (true, p)
      else
        let n := (length (before p) - Z.to_nat inc)%nat in
        Some (false, mkPk false (take n (before p)) ((drop n (before p) ++ s) :: q))
  end.

(** Write a header over the first bytes of the packet. *)
Definition put_hdr (h : ip_hdr) (p : pk) : pk :=
  match chain p with
  | s :: q => mkPk (fixed p) (before p) ((hdr_bytes h ++ drop (Z.to_nat IP_HLEN) s) :: q)
  | [] => p
  end.

(** ** Header fields *)

Definition IPH_V (h : ip_hdr) : Z := Z.shiftr (ntohs (v_hl_tos h)) 12.
Definition IPH_TTL (h : ip_hdr) : Z := Z.shiftr (ntohs (ttl_proto h)) 8.
Definition IPH_PROTO (h : ip_hdr) : Z := Z.land (ntohs (ttl_proto h)) 255.

Definition IPH_VHLTOS_SET (v hl tos : Z) (h : ip_hdr) : ip_hdr :=
  mkHdr (htons (u16 (Z.lor (Z.lor (Z.shiftl v 12) (Z.shiftl hl 8)) tos)))
    (hlen h) (id h) (offset h) (ttl_proto h) (chksum h) (src h) (dest h).
Definition IPH_ID_SET (v : Z) (h : ip_hdr) : ip_hdr :=
  mkHdr (v_hl_tos h) (hlen h) v (offset h) (ttl_proto h) (chksum h) (src h) (dest h).
Definition set_ttl_proto (v : Z) (h : ip_hdr) : ip_hdr :=
  mkHdr (v_hl_tos h) (hlen h) (id h) (offset h) v (chksum h) (src h) (dest h).
Definition IPH_TTL_SET (ttl : Z) (h : ip_hdr) : ip_hdr :=
  set_ttl_proto (htons (u16 (Z.lor (IPH_PROTO h) (Z.shiftl ttl 8)))) h.
Definition IPH_PROTO_SET (proto : Z) (h : ip_hdr) : ip_hdr :=
  set_ttl_proto (htons (u16 (Z.lor proto (Z.shiftl (IPH_TTL h) 8)))) h.
Definition set_dest (a : Z) (h : ip_hdr) : ip_hdr :=
  mkHdr (v_hl_tos h) (hlen h) (id h) (offset h) (ttl_proto h) (chksum h) (src h) a.
Definition set_src (a : Z) (h : ip_hdr) : ip_hdr :=
  mkHdr (v_hl_tos h) (hlen h) (id h) (offset h) (ttl_proto h) (chksum h) a (dest h).

(** ** State *)

(** [struct stats_proto]: the counters these files write. *)
Record stats_proto := mkCounters {
  c_xmit : Z; c_recv : Z; c_drop : Z; c_chkerr : Z; c_lenerr : Z; c_rterr : Z; c_proterr : Z; c_err : Z
}.

Definition inc (n : Z) : Z := u16 (n + 1).

(** The control blocks of UDP ([udp.h]) and of raw IP ([raw.h]); whether a
    callback is registered.  Of [IP_PCB], [so_options] is not read. *)
Record udp_pcb := mkUdp {
  u_local_ip : Z; u_remote_ip : Z; u_tos : Z; u_ttl : Z; u_flags : Z;
  u_local_port : Z; u_remote_port : Z; u_chksum_len : Z; u_recv : bool
}.

Record raw_pcb := mkRaw {
  r_local_ip : Z; r_remote_ip : Z; r_tos : Z; r_ttl : Z; r_protocol : Z; r_recv : bool
}.

(** A call of [netif->output]: the interface, the bytes of the packet, the
    address the link layer has to resolve. *)
Record frame := mkFrame { fr_if : nat; fr_data : list Z; fr_dest : Z }.

Record stack := mkStack {
  s_net : net_state;
  s_tcp : tcp_globals;
  udp_blocks : gmap nat udp_pcb; udp_pcbs : list nat;
  raw_blocks : gmap nat raw_pcb; raw_pcbs : list nat;
  s_reass : rstate;                 (* [ip_reass] *)
  s_buf : list Z;                   (* [buf] of [ip_frag], behind the header *)
  ip_stats : stats_proto; icmp_stats : stats_proto; udp_stats : stats_proto;
  wire : list frame;
  udp_got : list (nat * list (list Z) * Z * Z);   (* calls of [recv] of UDP *)
  raw_got : list (nat * list (list Z) * Z)        (* calls of [recv] of raw IP *)
}.

(** What is outside: what [netif->output] returns, allocations, and what the
    memory of a new pbuf holds, in front of its payload and in it. *)
Class Link := {
  link_output : nat -> list Z -> Z -> Z;
  ref_ok : bool; ram_ok : nat -> bool;
  room : nat -> list Z; fresh : nat -> list Z;
  room_length n : length (room n) = n;
  fresh_length n : length (fresh n) = n
}.

(** What is in front of the payload of a new pbuf of the layers [PBUF_LINK],
    [PBUF_IP] and [PBUF_TRANSPORT]. *)
Definition LINK_ROOM : nat := 14.
Definition IP_ROOM : nat := 34.

Abbreviation SK := (SM stack).

Definition ip_stat (f : stats_proto -> stats_proto) : SK unit := sm_modify (fun st => st <| ip_stats ::= f |>).
Definition icmp_stat (f : stats_proto -> stats_proto) : SK unit := sm_modify (fun st => st <| icmp_stats ::= f |>).
Definition udp_stat (f : stats_proto -> stats_proto) : SK unit := sm_modify (fun st => st <| udp_stats ::= f |>).

(** Reading through a [struct netif *]. *)
Definition the_if (x : nat) : SK net_if := fun st =>
  match netifs (s_net st) !! x with Some i => Some (i, st) | None => None end.

Section Output.
Context {L : Link}.

(** [return netif->output(netif, p, dest)] *)
Definition netif_output (x : nat) (data : list Z) (dest : Z) : SK Z := fun st =>
  Some (link_output x data dest, st <| wire ::= fun w => w ++ [mkFrame x data dest] |>).

(** [return ip_frag(p, netif, dest)] *)
Definition frag_output (x : nat) (mtu : Z) (p : list (list Z)) (dest : Z) : SK Z := fun st =>
  match ip_frag ref_ok ram_ok p mtu (s_buf st) (stats (s_reass st)) with
  | Done r =>
      Some (ERR_OK, st <| wire ::= fun w => w ++ map (fun F => mkFrame x F dest) (frames r) |>
                       <| s_buf := fbody r |> <| s_reass ::= with_stats (fun _ => fstats r) |>)
  | _ => None
  end.

(** The end of [ip_output_if]. *)
Definition transmit (x : nat) (p : pk) (dest : Z) : SK Z :=
  i <- the_if x ;;
  if negb (if_mtu i =? 0) && (if_mtu i <? pk_len p) then frag_output x (if_mtu i) (chain p) dest
  else
    ip_stat (fun c => c <| c_xmit ::= inc |>) ;;
    netif_output x (concat (chain p)) dest.

(** The fields of the new header, over what the memory held; [ip_id] is a local
    variable that is 0. *)
Definition fill_header (len ttl tos proto dest : Z) (src : option Z) (ifaddr : Z) (h : ip_hdr) : ip_hdr :=
  let h := IPH_PROTO_SET proto (IPH_TTL_SET ttl h) in
  let h := set_dest dest h in
  let h := IPH_VHLTOS_SET 4 (IP_HLEN / 4) tos h in
  let h := IPH_LEN_SET (htons len) h in
  let h := IPH_OFFSET_SET (htons IP_DF) h in
  let h := IPH_ID_SET (htons 0) h in
  let h := set_src (match src with
                    | Some a => if ip_addr_isany src then ifaddr else a
                    | None => ifaddr
                    end) h in
  set_chksum h.

(** [err_t ip_output_if(p, src, dest, ttl, tos, proto, netif)]; [dest = None] is
    [IP_HDRINCL], [src = None] the null pointer. *)
Definition ip_output_if (p : pk) (src dest : option Z) (ttl tos proto : Z) (x : nat) : SK Z :=
  match dest with
  | Some dest =>
      match pk_header IP_HLEN p with
      | None => sm_fail
      | Some (true, _) => ip_stat (fun c => c <| c_err ::= inc |>) ;; sm_ret ERR_BUF
      | Some (false, p) =>
          match hdr_at (hd [] (chain p)) with
          | None => sm_fail
          | Some h =>
              i <- the_if x ;;
              transmit x (put_hdr (fill_header (pk_len p) ttl tos proto dest src (if_addr i) h) p) dest
          end
      end
  | None =>
      match hdr_at (hd [] (chain p)) with
      | None => sm_fail
      | Some h => transmit x p (IpFrag.dest h)
      end
  end.

(** [err_t ip_output(p, src, dest, ttl, tos, proto)] *)
Definition ip_output (p : pk) (src : option Z) (dest ttl tos proto : Z) : SK Z := fun st =>
  match ip_route (s_net st) dest with
  | None => None
  | Some None => (ip_stat (fun c => c <| c_rterr ::= inc |>) ;; sm_ret ERR_RTE) st
  | Some (Some x) => ip_output_if p src (Some dest) ttl tos proto x st
  end.

(** ** TCP on top of it *)

(** A packet of TCP, in a pbuf with room for the headers below; what [ip_output]
    returns is not looked at. *)
Fixpoint send_all (ps : list packet) : SK unit :=
  match ps with
  | [] => sm_ret tt
  | q :: ps =>
      ip_output (mkPk false (room IP_ROOM) (seg_chain (pk_hdr q) (pk_data q))) (Some (pk_src q)) (pk_dest q)
        (pk_ttl q) (pk_tos q) IP_PROTO_TCP ;;
      send_all ps
  end.

(** A piece of TCP: it routes by the interfaces of the moment, and what it gives
    to [ip_output] goes out.  Nothing in TCP depends on what happens to a packet,
    so that the packets can go out after the piece has run. *)
Definition with_tcp {V : Env} {T} (m : Env -> TM T) : SK T := fun st =>
  match m (net_env V (s_net st)) (s_tcp st) with
  | None => None
  | Some (a, g) => (send_all (drop (length (out (s_tcp st))) (out g)) ;; sm_ret a) (st <| s_tcp := g |>)
  end.

End Output.
