(* ===== verification/Icmp.v ===== *)
(** * Icmp: echo and destination unreachable

    [nsc-0.5.3/lwip-HEAD/src/core/ipv4/icmp.c] ([IP_FORWARD] is 0: there is no
    [icmp_time_exceeded]). *)
From Stdlib Require Import ZArith Lia List Bool.
From stdpp Require Import base gmap list.
From coqutil Require Import Datatypes.RecordSetters.
From S2P Require Import IpFrag Prelude Inet IpAddr Tcp TcpOut TcpPcb Netif IpOut.
Import ListNotations.
#[local] Open Scope Z_scope.
#[local] Open Scope sm_scope.

Definition ICMP_ER : Z := 0.
Definition ICMP_DUR : Z := 3.
Definition ICMP_ECHO : Z := 8.
Definition ICMP_TTL : Z := 255.
Definition ICMP_DUR_PROTO : Z := 2.
Definition ICMP_DUR_PORT : Z := 3.

(** The macros on the field [_type_code] of a header. *)
Definition ICMPH_TYPE (tc : Z) : Z := Z.shiftr (ntohs tc) 8.
Definition ICMPH_CODE (tc : Z) : Z := Z.land (ntohs tc) 255.
Definition ICMPH_TYPE_SET (type tc : Z) : Z := htons (u16 (Z.lor (ICMPH_CODE tc) (Z.shiftl type 8))).
Definition ICMPH_CODE_SET (code tc : Z) : Z := htons (u16 (Z.lor code (Z.shiftl (ICMPH_TYPE tc) 8))).

(** The echo reply made of the first bytes of an echo request: the new type, and
    the checksum adjusted to it. *)
Definition adjust_chksum (c : Z) : Z :=
  if htons (65535 - Z.shiftl ICMP_ECHO 8) <=? c then u16 (c + (htons (Z.shiftl ICMP_ECHO 8) + 1))
  else u16 (c + htons (Z.shiftl ICMP_ECHO 8)).

Definition echo_reply (q : list Z) : option (list Z) :=
  match q with
  | t0 :: t1 :: c0 :: c1 :: q =>
      Some (bytes16 (ICMPH_TYPE_SET ICMP_ER (t0 + 256 * t1)) ++ bytes16 (adjust_chksum (c0 + 256 * c1)) ++ q)
  | _ => None
  end.

(** [iphdr->src.addr = iphdr->dest.addr; iphdr->dest.addr = tmpaddr.addr] *)
Definition swap_addrs (h : ip_hdr) : ip_hdr := set_dest (src h) (set_src (dest h) h).

Section Icmp.
Context {L : Link}.

(** The branch for an echo request: [p] is the packet with its IP header, the
    [hlen] bytes of which are hidden in [q]. *)
Definition icmp_echo (p q : pk) (h : ip_hdr) (hlen : Z) (inp : nat) : SK unit :=
  i <- the_if inp ;;
  if ip_addr_isbroadcast (dest h) (if_net i) || ip_addr_ismulticast (dest h)
  then icmp_stat (fun c => c <| c_err ::= inc |>)
  else if pk_len q <? 8 then icmp_stat (fun c => c <| c_lenerr ::= inc |>)
  else if negb (inet_chksum_pbuf (chain q) =? 0) then icmp_stat (fun c => c <| c_chkerr ::= inc |>)
  else
    let s := hd [] (chain (put_hdr (swap_addrs h) p)) in
    match echo_reply (drop (Z.to_nat hlen) s) with
    | None => sm_fail
    | Some r =>
        icmp_stat (fun c => c <| c_xmit ::= inc |>) ;;
        let p := mkPk (fixed p) (before p) ((take (Z.to_nat hlen) s ++ r) :: tl (chain p)) in
        match hdr_at (hd [] (chain p)) with
        | None => sm_fail
        | Some h => ip_output_if p (Some (src h)) None (IPH_TTL h) 0 IP_PROTO_ICMP inp ;; sm_ret tt
        end
    end.

(** [void icmp_input(struct pbuf *p, struct netif *inp)] *)
Definition icmp_input (p : pk) (inp : nat) : SK unit :=
  icmp_stat (fun c => c <| c_recv ::= inc |>) ;;
  match hdr_at (hd [] (chain p)) with
  | None => sm_fail
  | Some h =>
      let hlen := IPH_HL h * 4 in
      match pk_header (- hlen) p with
      | None => sm_fail
      | Some (failed, q) =>
          if failed || (pk_len q <? 4) then icmp_stat (fun c => c <| c_lenerr ::= inc |>)
          else match hd [] (chain q) with
          | type :: code :: _ =>
              if type =? ICMP_ECHO then icmp_echo p q h hlen inp
              else icmp_stat (fun c => c <| c_proterr ::= inc |> <| c_drop ::= inc |>)
          | _ => sm_fail
          end
      end
  end.

(** [void icmp_dest_unreach(struct pbuf *p, enum icmp_dur_type t)]: [data] are
    the bytes from [p->payload] on, in the memory of the first pbuf.  The result
    of [pbuf_alloc] is used without a test, and the field [unused] keeps what the
    memory held. *)
Definition icmp_dest_unreach {V : Env} (data : list Z) (t : Z) : SK unit :=
  if negb pbuf_ok then sm_fail
  else
    match fresh 36, memcpy (IP_HLEN + 8) data, hdr_at data with
    | t0 :: t1 :: _ :: _ :: u, Some copy, Some h =>
        let tc := ICMPH_CODE_SET t (ICMPH_TYPE_SET ICMP_DUR (t0 + 256 * t1)) in
        let idur := bytes16 tc ++ bytes16 0 ++ take 4 u ++ copy in
        let idur := bytes16 tc ++ bytes16 (inet_chksum idur) ++ take 4 u ++ copy in
        icmp_stat (fun c => c <| c_xmit ::= inc |>) ;;
        ip_output (mkPk false (room IP_ROOM) [idur]) None (src h) ICMP_TTL 0 IP_PROTO_ICMP ;; sm_ret tt
    | _, _, _ => sm_fail
    end.

End Icmp.
