(* ===== verification/Raw.v ===== *)
(** * Raw: control blocks for raw IP

    [nsc-0.5.3/lwip-HEAD/src/core/raw.c].  What a callback does with a packet is
    the class [RawApp]: whether it eats it.  [raw_got] records the calls. *)
From Stdlib Require Import ZArith Lia List Bool.
From stdpp Require Import base gmap list.
From coqutil Require Import Datatypes.RecordSetters.
From S2P Require Import IpFrag Prelude Inet IpAddr Tcp TcpOut TcpPcb Netif IpOut.
Import ListNotations.
#[local] Open Scope Z_scope.
#[local] Open Scope sm_scope.

Definition RAW_TTL : Z := 255.

Class RawApp := { raw_eats : nat -> list (list Z) -> Z -> bool }.

Definition get_raw (x : nat) : SK raw_pcb := fun st =>
  match raw_blocks st !! x with Some b => Some (b, st) | None => None end.
Definition put_raw (x : nat) (b : raw_pcb) : SK unit := sm_modify (fun st => st <| raw_blocks ::= insert x b |>).

(** [void raw_init(void)] *)
Definition raw_init : SK unit := sm_modify (fun st => st <| raw_pcbs := [] |>).

Section Raw.
Context {V : Env} {L : Link} {R : RawApp}.

(** The loop of [raw_input]: whether the packet has been eaten. *)
Fixpoint raw_loop (proto src : Z) (p : list (list Z)) (l : list nat) : SK bool :=
  match l with
  | [] => sm_ret false
  | x :: l =>
      b <- get_raw x ;;
      if (r_protocol b =? proto) && r_recv b then
        sm_modify (fun st => st <| raw_got ::= fun g => g ++ [(x, p, src)] |>) ;;
        if raw_eats x p src then sm_ret true else raw_loop proto src p l
      else raw_loop proto src p l
  end.

(** [u8_t raw_input(struct pbuf *p, struct netif *inp)] *)
Definition raw_input (p : pk) : SK bool := fun st =>
  match hdr_at (hd [] (chain p)) with
  | None => None
  | Some h => raw_loop (IPH_PROTO h) (src h) (chain p) (raw_pcbs st) st
  end.

(** [err_t raw_bind(struct raw_pcb *pcb, struct ip_addr *ipaddr)]; a null pointer
    is the address 0. *)
Definition raw_bind (x : nat) (ipaddr : option Z) : SK Z :=
  b <- get_raw x ;; put_raw x (b <| r_local_ip := default 0 ipaddr |>) ;; sm_ret ERR_OK.

Definition raw_connect (x : nat) (ipaddr : option Z) : SK Z :=
  b <- get_raw x ;; put_raw x (b <| r_remote_ip := default 0 ipaddr |>) ;; sm_ret ERR_OK.

(** [raw_recv(pcb, recv, arg)]; [set]: [recv] is not null. *)
Definition raw_recv (x : nat) (set : bool) : SK unit := b <- get_raw x ;; put_raw x (b <| r_recv := set |>).

(** [err_t raw_sendto(struct raw_pcb *pcb, struct pbuf *p, struct ip_addr *ipaddr)] *)
Definition raw_sendto (x : nat) (p : pk) (ipaddr : Z) : SK Z :=
  b <- get_raw x ;;
  match pk_header IP_HLEN p with
  | None => sm_fail
  | Some (failed, p') =>
      let q := if failed
               then if pbuf_ok then Some (mkPk false (room IP_ROOM) ([] :: chain p)) else None
               else match pk_header (- IP_HLEN) p' with Some (_, q) => Some q | None => Some p' end in
      match q with
      | None => sm_ret ERR_MEM
      | Some q => fun st =>
          match ip_route (s_net st) ipaddr with
          | None => None
          | Some None => Some (ERR_RTE, st)
          | Some (Some n) =>
              (i <- the_if n ;;
               let src_ip := if ip_addr_isany (Some (r_local_ip b)) then if_addr i else r_local_ip b in
               ip_output_if q (Some src_ip) (Some ipaddr) (r_ttl b) (r_tos b) (u8 (r_protocol b)) n) st
          end
      end
  end.

(** [err_t raw_send(struct raw_pcb *pcb, struct pbuf *p)] *)
Definition raw_send (x : nat) (p : pk) : SK Z := b <- get_raw x ;; raw_sendto x p (r_remote_ip b).

(** [void raw_remove(struct raw_pcb *pcb)] *)
Definition raw_remove (x : nat) : SK unit :=
  get_raw x ;;
  sm_modify (fun st => st <| raw_pcbs ::= fun l => default l (unlink x l) |> <| raw_blocks ::= delete x |>).

(** [struct raw_pcb *raw_new(u16_t proto)] *)
Definition raw_new (proto : Z) : SK (option nat) :=
  x <- with_tcp (fun V => memp_malloc (V := V)) ;;
  match x with
  | None => sm_ret None
  | Some x =>
      put_raw x (mkRaw 0 0 0 RAW_TTL (u16 proto) false) ;;
      sm_modify (fun st => st <| raw_pcbs ::= cons x |>) ;;
      sm_ret (Some x)
  end.

End Raw.
