(* ===== verification/Udp.v ===== *)
(** * Udp: the User Datagram Protocol

    [nsc-0.5.3/lwip-HEAD/src/core/udp.c], with [LWIP_UDP_TODO] undefined and
    [SO_REUSE] 0.  [udp_got] records what is handed to the callbacks. *)
From Stdlib Require Import ZArith Lia List Bool.
From stdpp Require Import base gmap list.
From coqutil Require Import Datatypes.RecordSetters.
From S2P Require Import IpFrag Prelude Inet IpAddr Tcp TcpOut TcpPcb TcpInput Netif IpOut Icmp.
Import ListNotations.
#[local] Open Scope Z_scope.
#[local] Open Scope sm_scope.

Definition UDP_HLEN : Z := 8.
Definition UDP_TTL : Z := 255.
Definition UDP_FLAGS_NOCHKSUM : Z := 1.
Definition UDP_FLAGS_UDPLITE : Z := 2.
Definition UDP_FLAGS_CONNECTED : Z := 4.
Definition UDP_LOCAL_PORT_RANGE_START : Z := 4096.
Definition UDP_LOCAL_PORT_RANGE_END : Z := 32767.

(** [struct udp_hdr], in network byte order. *)
Record udp_hdr := mkUdpHdr { uh_src : Z; uh_dest : Z; uh_len : Z; uh_chksum : Z }.

Definition udp_hdr_bytes (h : udp_hdr) : list Z :=
  bytes16 (uh_src h) ++ bytes16 (uh_dest h) ++ bytes16 (uh_len h) ++ bytes16 (uh_chksum h).

Definition udp_hdr_at (data : list Z) : option udp_hdr :=
  match data with
  | b0 :: b1 :: b2 :: b3 :: b4 :: b5 :: b6 :: b7 :: _ =>
      Some (mkUdpHdr (b0 + 256 * b1) (b2 + 256 * b3) (b4 + 256 * b5) (b6 + 256 * b7))
  | _ => None
  end.

Definition get_udp (x : nat) : SK udp_pcb := fun st =>
  match udp_blocks st !! x with Some b => Some (b, st) | None => None end.
Definition put_udp (x : nat) (b : udp_pcb) : SK unit := sm_modify (fun st => st <| udp_blocks ::= insert x b |>).

Definition u_has (f : Z) (b : udp_pcb) : bool := negb (Z.land (u_flags b) f =? 0).

(** ** Input *)

(** A block connected to the sender of the datagram. *)
Definition udp_matches (iph : ip_hdr) (sport dport : Z) (b : udp_pcb) : bool :=
  (u_remote_port b =? sport) && (u_local_port b =? dport) &&
  (ip_addr_isany (Some (u_remote_ip b)) || (u_remote_ip b =? src iph)) &&
  (ip_addr_isany (Some (u_local_ip b)) || (u_local_ip b =? dest iph)).

(** An unconnected block of that port. *)
Definition udp_listens (iph : ip_hdr) (dport : Z) (b : udp_pcb) : bool :=
  negb (u_has UDP_FLAGS_CONNECTED b) && (u_local_port b =? dport) &&
  (ip_addr_isany (Some (u_local_ip b)) || (u_local_ip b =? dest iph)).

Section Udp.
Context {V : Env} {L : Link}.

(** The checksum of the datagram [q], header included, is wrong. *)
Definition udp_bad_chksum (iph : ip_hdr) (h : udp_hdr) (q : list (list Z)) : bool :=
  if IPH_PROTO iph =? IP_PROTO_UDPLITE
  then negb (inet_chksum_pseudo q (src iph) (dest iph) IP_PROTO_UDPLITE (ntohs (uh_len h)) =? 0)
  else negb (uh_chksum h =? 0) && negb (inet_chksum_pseudo q (src iph) (dest iph) IP_PROTO_UDP (u16 (tot_len q)) =? 0).

(** What is done with the datagram once the block is found: [data] is the first
    pbuf from the IP header on, [q] the datagram, [p] what is behind its header. *)
Definition udp_deliver (x : option nat) (iph : ip_hdr) (h : udp_hdr) (data : list Z) (q p : list (list Z))
    (inp : nat) : SK unit :=
  i <- the_if inp ;;
  if bool_decide (x <> None) || (if_addr i =? dest iph) then
    if udp_bad_chksum iph h q then udp_stat (fun c => c <| c_chkerr ::= inc |> <| c_drop ::= inc |>)
    else match x with
    | Some x =>
        b <- get_udp x ;;
        if u_recv b
        then sm_modify (fun st => st <| udp_got ::= fun g => g ++ [(x, p, src iph, ntohs (uh_src h))] |>)
        else sm_ret tt
    | None =>
        (if ip_addr_isbroadcast (dest iph) (if_net i) || ip_addr_ismulticast (dest iph) then sm_ret tt
         else icmp_dest_unreach data ICMP_DUR_PORT) ;;
        udp_stat (fun c => c <| c_proterr ::= inc |> <| c_drop ::= inc |>)
    end
  else sm_ret tt.

(** The two searches. *)
Definition udp_find (iph : ip_hdr) (sport dport : Z) (st : stack) : option (option nat) :=
  match find_block (udp_blocks st) (udp_matches iph sport dport) (udp_pcbs st) with
  | Some None => find_block (udp_blocks st) (udp_listens iph dport) (udp_pcbs st)
  | r => r
  end.

(** [void udp_input(struct pbuf *p, struct netif *inp)] *)
Definition udp_input (p : pk) (inp : nat) : SK unit :=
  udp_stat (fun c => c <| c_recv ::= inc |>) ;;
  match hdr_at (hd [] (chain p)) with
  | None => sm_fail
  | Some iph =>
      match pk_header (- (UDP_HLEN + IPH_HL iph * 4)) p with
      | None => sm_fail
      | Some (true, _) => udp_stat (fun c => c <| c_lenerr ::= inc |> <| c_drop ::= inc |>)
      | Some (false, q) =>
          let udp := drop (Z.to_nat (IPH_HL iph * 4)) (hd [] (chain p)) in
          match udp_hdr_at udp with
          | None => sm_fail
          | Some h => fun st =>
              match udp_find iph (ntohs (uh_src h)) (ntohs (uh_dest h)) st with
              | None => None
              | Some x => udp_deliver x iph h (hd [] (chain p)) (udp :: tl (chain p)) (chain q) inp st
              end
          end
      end
  end.

(** ** Binding *)

(** The search for a port that no block on the list has. *)
Fixpoint udp_port_loop (fuel : nat) (ports : list Z) (port : Z) : outcome (option Z) :=
  match fuel with
  | O => OutOfFuel
  | S fuel =>
      if negb (Nat.eqb (length ports) 0) && (port =? UDP_LOCAL_PORT_RANGE_END) then Done None
      else if existsb (Z.eqb port) ports then udp_port_loop fuel ports (u16 (port + 1))
      else Done (Some port)
  end.

(** One turn for every port of the range. *)
Definition udp_port_fuel : nat := Z.to_nat (UDP_LOCAL_PORT_RANGE_END - UDP_LOCAL_PORT_RANGE_START + 1).

(** [local_port] of the blocks on the list. *)
Fixpoint udp_ports (blocks : gmap nat udp_pcb) (l : list nat) : option (list Z) :=
  match l with
  | [] => Some []
  | x :: l =>
      match blocks !! x, udp_ports blocks l with
      | Some b, Some r => Some (u_local_port b :: r)
      | _, _ => None
      end
  end.

Definition udp_new_port : SK (option Z) := fun st =>
  match udp_ports (udp_blocks st) (udp_pcbs st) with
  | None => None
  | Some ports =>
      match udp_port_loop udp_port_fuel ports UDP_LOCAL_PORT_RANGE_START with
      | Done r => Some (r, st)
      | _ => None
      end
  end.

(** Put the block on the list if it is not there. *)
Definition udp_list (x : nat) : SK unit :=
  sm_modify (fun st => if decide (x ∈ udp_pcbs st) then st else st <| udp_pcbs ::= cons x |>).

(** [err_t udp_bind(struct udp_pcb *pcb, struct ip_addr *ipaddr, u16_t port)] *)
Definition udp_bind (x : nat) (ipaddr : option Z) (port : Z) : SK Z :=
  b <- get_udp x ;;
  put_udp x (b <| u_local_ip := default 0 ipaddr |>) ;;
  port <- (if port =? 0 then udp_new_port else sm_ret (Some port)) ;;
  match port with
  | None => sm_ret ERR_USE
  | Some port =>
      b <- get_udp x ;;
      put_udp x (b <| u_local_port := port |>) ;;
      udp_list x ;;
      sm_ret ERR_OK
  end.

(** A block without a port gets one. *)
Definition udp_ensure_port (x : nat) : SK Z :=
  b <- get_udp x ;;
  if u_local_port b =? 0 then udp_bind x (Some (u_local_ip b)) 0 else sm_ret ERR_OK.

(** [err_t udp_connect(struct udp_pcb *pcb, struct ip_addr *ipaddr, u16_t port)] *)
Definition udp_connect (x : nat) (ipaddr : option Z) (port : Z) : SK Z :=
  err <- udp_ensure_port x ;;
  if negb (err =? ERR_OK) then sm_ret err
  else
    b <- get_udp x ;;
    put_udp x (b <| u_remote_ip := default 0 ipaddr |> <| u_remote_port := port |>
                 <| u_flags ::= fun f => Z.lor f UDP_FLAGS_CONNECTED |>) ;;
    udp_list x ;;
    sm_ret ERR_OK.

(** [void udp_disconnect(struct udp_pcb *pcb)] *)
Definition udp_disconnect (x : nat) : SK unit :=
  b <- get_udp x ;;
  put_udp x (b <| u_remote_ip := ip_addr_any |> <| u_remote_port := 0 |>
               <| u_flags ::= fun f => Z.land f (u8 (Z.lnot UDP_FLAGS_CONNECTED)) |>).

(** [udp_recv(pcb, recv, arg)]; [set]: [recv] is not null. *)
Definition udp_recv (x : nat) (set : bool) : SK unit := b <- get_udp x ;; put_udp x (b <| u_recv := set |>).

(** [void udp_init(void)] *)
Definition udp_init : SK unit := sm_modify (fun st => st <| udp_pcbs := [] |>).

(** [void udp_remove(struct udp_pcb *pcb)] *)
Definition udp_remove (x : nat) : SK unit :=
  get_udp x ;;
  sm_modify (fun st => st <| udp_pcbs ::= fun l => default l (unlink x l) |> <| udp_blocks ::= delete x |>).

(** [struct udp_pcb *udp_new(void)] *)
Definition udp_new : SK (option nat) :=
  x <- with_tcp (fun V => memp_malloc (V := V)) ;;
  match x with
  | None => sm_ret None
  | Some x => put_udp x (mkUdp 0 0 0 UDP_TTL 0 0 0 0 false) ;; sm_ret (Some x)
  end.

(** ** Output *)

(** A pbuf with the 8 bytes of the header in front of [p]; [None]: no memory. *)
Definition udp_header (p : pk) : option (option pk) :=
  match pk_header UDP_HLEN p with
  | None => None
  | Some (true, _) => Some (if pbuf_ok then Some (mkPk false (room IP_ROOM) (fresh 8 :: chain p)) else None)
  | Some (false, q) => Some (Some q)
  end.

Definition put_udp_hdr (h : udp_hdr) (p : pk) : pk :=
  match chain p with
  | s :: q => mkPk (fixed p) (before p) ((udp_hdr_bytes h ++ drop (Z.to_nat UDP_HLEN) s) :: q)
  | [] => p
  end.

(** [chksum] for the header [h], in which the field is 0: zero means "no
    checksum". *)
Definition udp_set_chksum (h : udp_hdr) (q : pk) (src dest len : Z) : udp_hdr :=
  let c := inet_chksum_pseudo (chain (put_udp_hdr h q)) src dest IP_PROTO_UDP len in
  h <| uh_chksum := if c =? 0 then 65535 else c |>.

(** The header, and the protocol in the IP header. *)
Definition udp_build (b : udp_pcb) (q : pk) (src_ip : Z) : udp_hdr * Z :=
  let h := mkUdpHdr (htons (u_local_port b)) (htons (u_remote_port b)) 0 0 in
  if u_has UDP_FLAGS_UDPLITE b then
    let h := h <| uh_len := htons (u_chksum_len b) |> in
    (udp_set_chksum h q src_ip (u_remote_ip b) (u_chksum_len b), IP_PROTO_UDPLITE)
  else
    let h := h <| uh_len := htons (pk_len q) |> in
    (if u_has UDP_FLAGS_NOCHKSUM b then h else udp_set_chksum h q src_ip (u_remote_ip b) (pk_len q), IP_PROTO_UDP).

(** [err_t udp_send(struct udp_pcb *pcb, struct pbuf *p)] *)
Definition udp_send (x : nat) (p : pk) : SK Z :=
  err <- udp_ensure_port x ;;
  if negb (err =? ERR_OK) then sm_ret err
  else
    b <- get_udp x ;;
    fun st =>
      match ip_route (s_net st) (u_remote_ip b) with
      | None => None
      | Some None => (udp_stat (fun c => c <| c_rterr ::= inc |>) ;; sm_ret ERR_RTE) st
      | Some (Some n) =>
          match udp_header p with
          | None => None
          | Some None => Some (ERR_MEM, st)
          | Some (Some q) =>
              (i <- the_if n ;;
               let src_ip := if ip_addr_isany (Some (u_local_ip b)) then if_addr i else u_local_ip b in
               let '(h, proto) := udp_build b q src_ip in
               err <- ip_output_if (put_udp_hdr h q) (Some src_ip) (Some (u_remote_ip b)) (u_ttl b) (u_tos b) proto n ;;
               udp_stat (fun c => c <| c_xmit ::= inc |>) ;;
               sm_ret err) st
          end
      end.

(** [err_t udp_sendto(pcb, p, dst_ip, dst_port)]: the peer's address is changed
    for the call. *)
Definition udp_sendto (x : nat) (p : pk) (dst_ip dst_port : Z) : SK Z :=
  b <- get_udp x ;;
  put_udp x (b <| u_remote_ip := dst_ip |> <| u_remote_port := dst_port |>) ;;
  err <- udp_send x p ;;
  c <- get_udp x ;;
  put_udp x (c <| u_remote_ip := u_remote_ip b |> <| u_remote_port := u_remote_port b |>) ;;
  sm_ret err.

End Udp.
