(* ===== verification/IpIn.v ===== *)
(** * IpIn: the receiving half of the IP layer

    [ip_input] of [nsc-0.5.3/lwip-HEAD/src/core/ipv4/ip.c], with [IP_FORWARD] 0,
    [IP_REASSEMBLY], [IP_OPTIONS] and [LWIP_RAW] 1, [LWIP_DHCP] 0.  With the
    timers, the calls of the application and this function the stack is complete:
    a run of it is a sequence of such steps. *)
From Stdlib Require Import ZArith Lia List Bool.
From stdpp Require Import base gmap list.
From coqutil Require Import Datatypes.RecordSetters.
From S2P Require Import IpFrag Prelude Inet IpAddr Tcp TcpOut TcpPcb TcpInput Netif IpOut Icmp Raw Udp.
Import ListNotations.
#[local] Open Scope Z_scope.
#[local] Open Scope sm_scope.

(** [pbuf_realloc(p, new_len)] on the payloads. *)
Fixpoint trim (n : Z) (c : list (list Z)) : list (list Z) :=
  match c with
  | [] => []
  | s :: q =>
      if Z.of_nat (length s) <? n then s :: trim (n - Z.of_nat (length s)) q else [take (Z.to_nat n) s]
  end.

Definition realloc_chain (new_len : Z) (c : list (list Z)) : list (list Z) :=
  if u16 (tot_len c) <=? new_len then c else trim new_len c.

(** The first field of a header, all that is read before its length is known to
    be there. *)
Definition first_word (s : list Z) : option ip_hdr :=
  match s with
  | b0 :: b1 :: _ => Some (mkHdr (b0 + 256 * b1) 0 0 0 0 0 0 0)
  | _ => None
  end.

(** The interface takes packets to that address. *)
Definition accepts (dest : Z) (i : net_if) : bool :=
  netif_is_up i && negb (ip_addr_isany (Some (if_addr i))) &&
  ((dest =? if_addr i) || ip_addr_isbroadcast dest (if_net i)).

Definition is_fragment (h : ip_hdr) : bool :=
  negb (Z.land (IPH_OFFSET h) (htons (Z.lor IP_OFFMASK IP_MF)) =? 0).

Section Input.
Context {V : Env} {A : App} {L : Link} {R : RawApp} {PP : PbufPool}.

(** The protocol is unknown. *)
Definition ip_unknown (p : pk) (h : ip_hdr) (inp : nat) : SK unit :=
  i <- the_if inp ;;
  (if ip_addr_isbroadcast (dest h) (if_net i) || ip_addr_ismulticast (dest h) then sm_ret tt
   else icmp_dest_unreach (hd [] (chain p)) ICMP_DUR_PROTO) ;;
  ip_stat (fun c => c <| c_proterr ::= inc |> <| c_drop ::= inc |>).

(** From "send to upper layers" on. *)
Definition ip_upper (p : pk) (inp : nat) : SK unit :=
  eaten <- raw_input p ;;
  if eaten then sm_ret tt
  else match hdr_at (hd [] (chain p)) with
  | None => sm_fail
  | Some h =>
      if (IPH_PROTO h =? IP_PROTO_UDP) || (IPH_PROTO h =? IP_PROTO_UDPLITE) then udp_input p inp
      else if IPH_PROTO h =? IP_PROTO_TCP then
        i <- the_if inp ;; with_tcp (fun V => tcp_input (V := V) (if_net i) (chain p))
      else if IPH_PROTO h =? IP_PROTO_ICMP then icmp_input p inp
      else ip_unknown p h inp
  end.

(** [p = ip_reass(p)]; the new pbufs are of the pool. *)
Definition reassemble (p : pk) : SK (option pk) := fun st =>
  match ip_reass (chain p) (s_reass st) with
  | None => None
  | Some (r, rst) =>
      Some (match r with Some c => Some (mkPk false (room LINK_ROOM) c) | None => None end, st <| s_reass := rst |>)
  end.

(** Once the header is found good: trim the packet, see whether it is for us,
    reassemble it. *)
Definition ip_accept (p : pk) (h : ip_hdr) (inp : nat) : SK unit :=
  let p := mkPk (fixed p) (before p) (realloc_chain (ntohs (IPH_LEN h)) (chain p)) in
  match hdr_at (hd [] (chain p)) with
  | None => sm_fail
  | Some h => fun st =>
      match find_block (netifs (s_net st)) (accepts (dest h)) (netif_list (s_net st)) with
      | None => None
      | Some None => Some (tt, st)
      | Some (Some _) =>
          (if is_fragment h then
             r <- reassemble p ;;
             match r with
             | None => sm_ret tt
             | Some p => ip_upper p inp
             end
           else ip_upper p inp) st
      end
  end.

(** [err_t ip_input(struct pbuf *p, struct netif *inp)]; it returns [ERR_OK]. *)
Definition ip_input (p : pk) (inp : nat) : SK unit :=
  ip_stat (fun c => c <| c_recv ::= inc |>) ;;
  let s := hd [] (chain p) in
  match first_word s with
  | None => sm_fail
  | Some w =>
      if negb (IPH_V w =? 4) then ip_stat (fun c => c <| c_err ::= inc |> <| c_drop ::= inc |>)
      else
        let iphdrlen := IPH_HL w * 4 in
        if Z.of_nat (length s) <? iphdrlen then ip_stat (fun c => c <| c_lenerr ::= inc |> <| c_drop ::= inc |>)
        else if negb (inet_chksum (take (Z.to_nat iphdrlen) s) =? 0)
        then ip_stat (fun c => c <| c_chkerr ::= inc |> <| c_drop ::= inc |>)
        else match hdr_at s with
        | None => sm_fail
        | Some h => ip_accept p h inp
        end
  end.

(** A sequence of packets. *)
Fixpoint ip_input_all (ps : list pk) (inp : nat) : SK unit :=
  match ps with
  | [] => sm_ret tt
  | p :: ps => ip_input p inp ;; ip_input_all ps inp
  end.

End Input.

(** A frame in the pbuf that NSC's glue puts it in ([PBUF_RAW], [PBUF_RAM]). *)
Definition in_pbuf (data : list Z) : pk := mkPk false [] [data].
