(* ===== verification/IpPath.v ===== *)
(** * IpPath: a packet from one stack to another

    What [ip_output_if] sends arrives, whole or in fragments and in any order,
    as it was: [IpOut], [IpFrag] and [IpIn] put together, and TCP on top. *)
From Stdlib Require Import ZArith Lia List Bool.
From stdpp Require Import base gmap list.
From coqutil Require Import Datatypes.RecordSetters.
From S2P Require Import IpFrag Prelude Inet IpAddr Tcp TcpOut TcpPcb TcpIn TcpInput TcpWire Netif IpOut Icmp Raw Udp IpIn.
Import ListNotations.
#[local] Open Scope Z_scope.
#[local] Open Scope sm_scope.

(** ** Headers *)

Lemma lor_byte hi lo : 0 <= hi -> fits 8 lo -> Z.lor lo (Z.shiftl hi 8) = 256 * hi + lo.
Proof. intros H F. rewrite shiftl_mul, lor_add_swap by (lia || exact F). pow2. lia. Qed.

Lemma land255 x : Z.land x 255 = x mod 256.
Proof. exact (land_ones_mod x 8 ltac:(lia)). Qed.

Lemma ttl_of ttl proto : fits 8 ttl -> fits 8 proto -> ntohs (htons (256 * ttl + proto)) = 256 * ttl + proto.
Proof. intros H1 H2. apply htons_htons. unfold fits in *. pow2. lia. Qed.

(** The header that [ip_output_if] makes. *)
Definition packet_hdr (len ttl tos proto src dest : Z) : ip_hdr :=
  set_chksum (mkHdr (htons (17664 + tos)) (htons len) 0 (htons IP_DF) (htons (256 * ttl + proto)) 0 src dest).

Definition src_of (src : option Z) (ifaddr : Z) : Z :=
  match src with Some a => if a =? 0 then ifaddr else a | None => ifaddr end.

Lemma fill_header_eq len ttl tos proto dest src ifaddr h : fits 8 ttl -> fits 8 tos -> fits 8 proto ->
  fill_header len ttl tos proto dest src ifaddr h = packet_hdr len ttl tos proto (src_of src ifaddr) dest.
Proof.
  intros Ft Fo Fp. unfold fill_header, IPH_TTL_SET, IPH_PROTO_SET. set (h0 := set_ttl_proto _ h).
  assert (E : IPH_TTL h0 = ttl).
  { unfold IPH_TTL, h0. cbn [set_ttl_proto ttl_proto]. unfold IPH_PROTO. rewrite land255.
    assert (Fb : fits 8 (ntohs (ttl_proto h) mod 256)) by (unfold fits; pow2; zmod_lia).
    rewrite lor_byte by (assumption || apply Ft). rewrite wrap_small by (unfold fits in *; pow2; lia).
    rewrite ttl_of by assumption. rewrite shiftr_div by lia. unfold fits in Fb. pow2. zmod_lia. }
  rewrite E, lor_byte by (assumption || apply Ft). rewrite (wrap_small 16 (256 * ttl + proto)) by (unfold fits in *; pow2; lia).
  unfold IPH_VHLTOS_SET. change (Z.lor (Z.shiftl 4 12) (Z.shiftl (IP_HLEN / 4) 8)) with (69 * 2 ^ 8).
  rewrite lor_add by (lia || exact Fo). rewrite (wrap_small 16 (69 * 2 ^ 8 + tos)) by (unfold fits in *; pow2; lia).
  unfold packet_hdr, src_of, set_chksum, ip_addr_isany. cbn. destruct src; reflexivity.
Qed.

Section PacketHeader.
Context (len ttl tos proto src dest : Z).
Hypothesis (Fl : fits 16 len) (Ft : fits 8 ttl) (Fo : fits 8 tos) (Fp : fits 8 proto) (Fs : fits 32 src) (Fd : fits 32 dest).

Abbreviation h := (packet_hdr len ttl tos proto src dest).

Lemma vht_fits : fits 16 (17664 + tos).
Proof using Fo. unfold fits in *. pow2. lia. Qed.

Lemma tp_fits : fits 16 (256 * ttl + proto).
Proof using Ft Fp. unfold fits in *. pow2. lia. Qed.

Lemma packet_hdr_wf : wf_hdr h.
Proof using Fl Ft Fo Fp Fs Fd.
  pose proof vht_fits. pose proof tp_fits. apply set_chksum_wf. unfold wf_hdr. cbn.
  split_and!; try assumption; try (now apply htons_fits); unfold fits; pow2; lia.
Qed.

Lemma packet_hdr_V : IPH_V h = 4.
Proof using Fo.
  unfold IPH_V, packet_hdr, set_chksum. cbn. unfold ntohs. rewrite htons_htons by apply vht_fits.
  rewrite shiftr_div by lia. unfold fits in Fo. pow2. zmod_lia.
Qed.

Lemma packet_hdr_HL : IPH_HL h = 5.
Proof using Fo.
  unfold IPH_HL, packet_hdr, set_chksum. cbn. unfold ntohs. rewrite htons_htons by apply vht_fits.
  rewrite shiftr_div, (Z.land_ones _ 4 ltac:(lia) : Z.land _ 15 = _) by lia. unfold fits in Fo. pow2. zmod_lia.
Qed.

Lemma packet_hdr_proto : IPH_PROTO h = proto /\ IPH_TTL h = ttl.
Proof using Ft Fp.
  unfold IPH_PROTO, IPH_TTL, packet_hdr, set_chksum. cbn. rewrite ttl_of, land255, shiftr_div by (assumption || lia).
  unfold fits in Fp. pow2. split; zmod_lia.
Qed.

Lemma packet_hdr_len : ntohs (hlen h) = len.
Proof using Fl. now apply htons_htons. Qed.

Lemma packet_hdr_offset : ntohs (offset h) = IP_DF.
Proof. reflexivity. Qed.

Lemma packet_hdr_chksum : set_chksum h = h.
Proof. reflexivity. Qed.

End PacketHeader.

(** The checksum of a header that has been filled in. *)
Lemma hdr_chksum_ok h : wf_hdr h -> set_chksum h = h -> inet_chksum (hdr_bytes h) = 0.
Proof.
  intros W E. set (h0 := IPH_CHKSUM_SET 0 h).
  set (pre := bytes16 (v_hl_tos h) ++ bytes16 (hlen h) ++ bytes16 (id h) ++ bytes16 (offset h) ++ bytes16 (ttl_proto h)).
  set (post := bytes32 (src h) ++ bytes32 (dest h)).
  assert (E0 : hdr_bytes h0 = pre ++ [0; 0] ++ post) by (unfold hdr_bytes, pre; now rewrite <- !app_assoc).
  assert (W0 : wf_hdr h0).
  { destruct W as (?&?&?&?&?&?&?&?). unfold wf_hdr. cbn. split_and!; trivial. unfold fits. pow2. lia. }
  destruct (chksum_filled pre post) as (_ & _ & Z0).
  - rewrite <- E0. now apply hdr_bytes_bytes.
  - rewrite <- E0, hdr_bytes_length. lia.
  - now exists 5%nat.
  - rewrite <- E0 in Z0. assert (Ec : chksum h = inet_chksum (hdr_bytes h0)) by (rewrite <- E; reflexivity).
    rewrite <- Ec in Z0. rewrite <- Z0. f_equal. unfold hdr_bytes, pre. rewrite <- !app_assoc.
    rewrite (bytes16_div (chksum h)) by apply W. reflexivity.
Qed.

Lemma first_word_bytes h l : wf_hdr h -> first_word (hdr_bytes h ++ l) = Some (mkHdr (v_hl_tos h) 0 0 0 0 0 0 0).
Proof.
  intros W. unfold hdr_bytes. rewrite bytes16_div by apply W. cbn [app first_word]. f_equal. f_equal. zmod_lia.
Qed.

Lemma realloc_one n F : 0 <= n <= Z.of_nat (length F) -> Z.of_nat (length F) <= 65535 ->
  realloc_chain n [F] = [take (Z.to_nat n) F].
Proof.
  intros H1 H2. unfold realloc_chain, tot_len. cbn [concat]. rewrite app_nil_r.
  rewrite wrap_small by (unfold fits; pow2; lia). destruct (Z.leb_spec (Z.of_nat (length F)) n).
  - now rewrite take_ge by lia.
  - cbn [trim]. now rewrite (proj2 (Z.ltb_ge _ _)) by lia.
Qed.

(** ** Input *)

(** An interface takes packets to that address. *)
Definition for_us (st : stack) (dest : Z) : Prop :=
  exists y, find_block (netifs (s_net st)) (accepts dest) (netif_list (s_net st)) = Some (Some y).

Definition count_recv (st : stack) : stack := st <| ip_stats ::= fun c => c <| c_recv ::= inc |> |>.

Section Arrival.
Context {V : Env} {A : App} {L : Link} {R : RawApp} {PP : PbufPool}.

(** The checks in front of [ip_accept]. *)
Lemma ip_input_checks h F p inp st : wf_hdr h -> IPH_V h = 4 -> IPH_HL h = 5 -> set_chksum h = h ->
  hd [] (chain p) = hdr_bytes h ++ F -> ip_input p inp st = ip_accept p h inp (count_recv st).
Proof.
  intros W HV HL C E. unfold ip_input. unfold sm_bind at 1, ip_stat, sm_modify. fold (count_recv st). cbv zeta. rewrite E.
  rewrite first_word_bytes by exact W.
  change (IPH_V (mkHdr (v_hl_tos h) 0 0 0 0 0 0 0)) with (IPH_V h).
  change (IPH_HL (mkHdr (v_hl_tos h) 0 0 0 0 0 0 0)) with (IPH_HL h). rewrite HV, HL. cbn [Z.eqb negb Pos.eqb].
  rewrite length_app, hdr_bytes_length. rewrite (proj2 (Z.ltb_ge _ _)) by lia.
  change (Z.to_nat (5 * 4)) with (length (hdr_bytes h)). rewrite take_app_length.
  rewrite hdr_chksum_ok by assumption. cbn [Z.eqb negb]. now rewrite hdr_at_bytes.
Qed.

(** A frame that holds the bytes its header announces, and perhaps more. *)
Lemma ip_accept_frame h F inp st n : wf_hdr h -> n = ntohs (hlen h) -> 20 <= n <= Z.of_nat (length (hdr_bytes h ++ F)) ->
  Z.of_nat (length (hdr_bytes h ++ F)) <= 65535 -> for_us st (dest h) ->
  ip_accept (in_pbuf (hdr_bytes h ++ F)) h inp st =
    (let q := mkPk false [] [take (Z.to_nat n) (hdr_bytes h ++ F)] in
     if is_fragment h then
       (r <- reassemble q ;; match r with None => sm_ret tt | Some p => ip_upper p inp end) st
     else ip_upper q inp st).
Proof.
  intros W -> H1 H2 (y & E). unfold ip_accept, in_pbuf, IPH_LEN. cbn [chain fixed before].
  rewrite realloc_one by lia. cbn [hd]. rewrite take_app_ge by (rewrite hdr_bytes_length; lia).
  rewrite hdr_at_bytes by exact W. rewrite E. now destruct (is_fragment h).
Qed.

Lemma ip_input_all_app ps qs inp st : ip_input_all (ps ++ qs) inp st = (ip_input_all ps inp ;; ip_input_all qs inp) st.
Proof.
  revert st. induction ps as [|p ps IH]; intros st; [reflexivity|].
  cbn [app ip_input_all]. unfold sm_bind at 1 3. unfold sm_bind at 1.
  destruct (ip_input p inp st) as [[[] st']|]; [|reflexivity]. apply IH.
Qed.

Lemma ip_input_one p inp st : ip_input_all [p] inp st = ip_input p inp st.
Proof. cbn [ip_input_all]. unfold sm_bind, sm_ret. now destruct (ip_input p inp st) as [[[] st']|]. Qed.

End Arrival.

(** A fragment has bits in the offset field. *)
Lemma htons_land a m : fits 16 a -> fits 16 m -> Z.land a (htons m) = htons (Z.land (htons a) m).
Proof.
  assert (B : forall x, fits 16 x -> htons x = Z.lor (Z.shiftl (x mod 256) 8) (x / 256)).
  { intros x H. rewrite htons_div by exact H. rewrite shiftl_mul by lia. unfold fits in H.
    rewrite lor_add by (lia || (pow2; zmod_lia)). pow2. reflexivity. }
  intros Ha Hm. apply Z.bits_inj'. intros i Hi.
  assert (Fl : fits 16 (Z.land (htons a) m)).
  { pose proof (htons_fits a Ha) as Fa. unfold fits in *. split; [apply Z.land_nonneg; lia|].
    destruct (Z.eq_dec (Z.land (htons a) m) 0) as [->|N]; [pow2; lia|].
    assert (0 <= Z.land (htons a) m) by (apply Z.land_nonneg; lia).
    apply Z.log2_lt_pow2; [lia|]. pose proof (Z.log2_land (htons a) m ltac:(lia) ltac:(lia)).
    destruct (Z.eq_dec m 0) as [->|]; [now rewrite Z.land_0_r in N|].
    pose proof (proj1 (Z.log2_lt_pow2 m 16 ltac:(lia)) (proj2 Hm)). lia. }
  assert (T : forall x j, fits 16 x -> 0 <= j -> Z.testbit (htons x) j =
    if j <? 8 then Z.testbit x (j + 8) else if j <? 16 then Z.testbit x (j - 8) else false).
  { intros x j H Hj. rewrite (B x H), Z.lor_spec.
    change 256 with (2 ^ 8). rewrite Z.div_pow2_bits by lia.
    assert (High : forall k, 16 <= k -> Z.testbit x k = false).
    { intros k Hk. rewrite <- (Z.mod_small x (2 ^ 16)) by exact H. apply Z.mod_pow2_bits_high. lia. }
    destruct (Z.ltb_spec j 8).
    - rewrite Z.shiftl_spec_low by lia. reflexivity.
    - rewrite Z.shiftl_spec by lia. destruct (Z.ltb_spec j 16).
      + rewrite Z.mod_pow2_bits_low, (High (j + 8)) by lia. apply orb_false_r.
      + rewrite Z.mod_pow2_bits_high, (High (j + 8)) by lia. reflexivity. }
  rewrite Z.land_spec, (T m), (T (Z.land (htons a) m)) by assumption. rewrite !Z.land_spec.
  destruct (Z.ltb_spec i 8); [|destruct (Z.ltb_spec i 16); [|apply andb_false_r]].
  - rewrite (T a) by (assumption || lia). replace (i + 8 <? 8) with false by lia. replace (i + 8 <? 16) with true by lia.
    now replace (i + 8 - 8) with i by lia.
  - rewrite (T a) by (assumption || lia). replace (i - 8 <? 8) with true by lia. now replace (i - 8 + 8) with i by lia.
Qed.

Lemma is_fragment_spec h : fits 16 (offset h) ->
  is_fragment h = negb ((Z.land (ntohs (offset h)) IP_OFFMASK =? 0) && (Z.land (ntohs (offset h)) IP_MF =? 0)).
Proof.
  intros F. unfold is_fragment, IPH_OFFSET, ntohs. f_equal.
  rewrite htons_land by (exact F || (unfold fits; pow2; split; reflexivity || discriminate)).
  rewrite Z.land_lor_distr_r. set (x := htons (offset h)). apply eq_true_iff_eq.
  rewrite andb_true_iff, !Z.eqb_eq, <- Z.lor_eq_0_iff. set (y := Z.lor _ _).
  assert (Fy : fits 16 y).
  { unfold y. rewrite <- Z.land_lor_distr_r. pose proof (htons_fits _ F) as Fx. fold x in Fx.
    change (Z.lor IP_OFFMASK IP_MF) with (2 ^ 14 - 1). rewrite land_ones_mod by lia. unfold fits. pow2. zmod_lia. }
  split; [|now intros ->]. intros H. rewrite <- (htons_htons y Fy), H. reflexivity.
Qed.

(** ** Fragments *)

(** A frame cut to the length in its header. *)
Definition trimmed (F : list Z) : list Z :=
  match hdr_at F with Some h => take (Z.to_nat (ntohs (hlen h))) F | None => F end.

Section Fragments.
Context {V : Env} {A : App} {L : Link} {R : RawApp} {PP : PbufPool}.
Context (h : ip_hdr) (D : list Z) (mtu : Z) (HV : IPH_V h = 4) (HL : IPH_HL h = 5) (Hmtu : mtu <= 65535).

Lemma same_fields_version h' : same_fields h h' -> IPH_V h' = 4 /\ IPH_HL h' = 5.
Proof using HV HL. intros (E & _). unfold IPH_V, IPH_HL in *. now rewrite <- E. Qed.

Lemma trimmed_frag f F : frame_of h D mtu f F -> is_frag h D f [trimmed F] /\ hdr_at (trimmed F) = hdr_at F.
Proof using HL.
  intros Hf. destruct (is_frag_trim h D mtu f F Hf HL) as (h' & rest & E & W & _ & _ & Hn & _ & _ & _ & Hi & Ha).
  unfold trimmed. rewrite E in *. rewrite (hdr_at_bytes h' rest W) in *. rewrite Hn. now split.
Qed.

(** A fragment of ours goes to [ip_reass]. *)
Lemma ip_input_fragment f F inp st : frame_of h D mtu f F -> 0 < snd f < Z.of_nat (length D) -> 0 <= fst f -> for_us st (dest h) ->
  ip_input (in_pbuf F) inp st =
    (r <- reassemble (mkPk false [] [trimmed F]) ;; match r with None => sm_ret tt | Some p => ip_upper p inp end)
      (count_recv st).
Proof using HV HL Hmtu.
  intros Hf Hs H0 U. destruct (is_frag_trim h D mtu f F Hf HL) as (h' & rest & E & W & C & S & Hn & Hl & Ho & Hm & _).
  destruct (same_fields_version h' S) as [HV' HL']. destruct Hf as (_ & HF & _). subst F.
  rewrite (ip_input_checks h' rest) by trivial.
  rewrite (ip_accept_frame h' rest inp _ (20 + snd f)); [|exact W|lia|lia|lia|].
  2:{ destruct S as (_ & _ & _ & _ & <-). exact U. }
  cbv zeta. rewrite is_fragment_spec by apply W. rewrite Hm.
  assert (Fr : (Z.land (ntohs (offset h')) IP_OFFMASK =? 0) && (fst f + snd f =? Z.of_nat (length D)) = false).
  { apply andb_false_iff. destruct (Z.eq_dec (fst f) 0) as [E0|N].
    - right. apply Z.eqb_neq. lia.
    - left. apply Z.eqb_neq. destruct (frag_off_range h') as [Eo _]. lia. }
  rewrite Fr. cbn [negb]. unfold trimmed. now rewrite hdr_at_bytes, Hn.
Qed.

(** The counters of IP, and the reassembly, are all that fragments change. *)
Lemma ip_input_fragments l inp : forall st rst1 k, for_us st (dest h) ->
  (forall F, F ∈ l -> exists f, frame_of h D mtu f F /\ 0 < snd f < Z.of_nat (length D) /\ 0 <= fst f) ->
  reass_all (map (fun F => [trimmed F]) l) (s_reass st) = Some (replicate k None, rst1) ->
  exists cs, ip_input_all (map in_pbuf l) inp st = Some (tt, st <| s_reass := rst1 |> <| ip_stats := cs |>).
Proof using HV HL Hmtu.
  induction l as [|F l IH]; intros st rst1 k U Hl E.
  { injection E as _ <-. exists (ip_stats st). now destruct st. }
  cbn [map reass_all] in E. destruct (ip_reass [trimmed F] (s_reass st)) as [[r rst2]|] eqn:E1; [|discriminate].
  destruct (reass_all _ rst2) as [[rs rst3]|] eqn:E2; [|discriminate]. injection E as E <-.
  destruct k as [|k]; [discriminate|]. injection E as -> ->.
  destruct (Hl F ltac:(apply elem_of_cons; auto)) as (f & Hf & Hs & H0).
  cbn [map ip_input_all]. unfold sm_bind. rewrite (ip_input_fragment f F inp st Hf Hs H0 U).
  unfold sm_bind, reassemble. cbn [chain]. change (s_reass (count_recv st)) with (s_reass st). rewrite E1.
  destruct (IH ((count_recv st) <| s_reass := rst2 |>) rst3 k) as (cs & E3).
  - exact U.
  - intros G HG. apply Hl, elem_of_cons. auto.
  - exact E2.
  - exists cs. unfold sm_ret. cbv beta iota. rewrite E3. now destruct st.
Qed.

End Fragments.

(** ** Output *)

Section Departure.
Context {L : Link}.

(** A header goes in front of the packet [p]. *)
Lemma ip_output_if_header p x i src dest ttl tos proto st : fixed p = false -> (20 <= length (before p))%nat ->
  chain p <> [] -> netifs (s_net st) !! x = Some i -> fits 8 ttl -> fits 8 tos -> fits 8 proto ->
  exists q, ip_output_if p src (Some dest) ttl tos proto x st = transmit x q dest st /\
    concat (chain q) = hdr_bytes (packet_hdr (u16 (20 + tot_len (chain p))) ttl tos proto (src_of src (if_addr i)) dest) ++
      concat (chain p) /\
    hd [] (chain q) = hdr_bytes (packet_hdr (u16 (20 + tot_len (chain p))) ttl tos proto (src_of src (if_addr i)) dest) ++
      hd [] (chain p) /\ tl (chain q) = tl (chain p).
Proof.
  intros Hf Hb Hc Hx Ft Fo Fp. destruct p as [fx b [|s r]]; [now destruct Hc|]. cbn [fixed before chain] in *. subst fx.
  unfold ip_output_if, pk_header. cbn [chain fixed before]. change (IP_HLEN =? 0) with false. change (IP_HLEN <? 0) with false.
  cbn [orb]. change IP_HLEN with 20. rewrite (proj2 (Z.ltb_ge _ _)) by lia. change (Z.to_nat 20) with 20%nat.
  set (g := drop (length b - 20) b). assert (Lg : length g = 20%nat) by (unfold g; rewrite length_drop; lia).
  cbn [hd chain]. destruct (hdr_at (g ++ s)) as [h0|] eqn:E0.
  2:{ exfalso. do 20 (destruct g as [|? g]; [discriminate|]). discriminate. }
  unfold sm_bind, the_if. rewrite Hx. rewrite fill_header_eq by assumption.
  set (c := mkPk _ _ _). assert (Ec : pk_len c = u16 (20 + tot_len (s :: r))).
  { unfold pk_len, c, tot_len. cbn [chain concat]. rewrite !length_app, Lg. f_equal. lia. }
  rewrite Ec. eexists. split; [reflexivity|]. unfold put_hdr, c. cbn [chain concat hd tl].
  change (Z.to_nat IP_HLEN) with 20%nat. rewrite drop_app_length' by (symmetry; exact Lg). now rewrite <- app_assoc.
Qed.

(** It goes out as it is ... *)
Lemma transmit_whole x i p dest st : netifs (s_net st) !! x = Some i -> tot_len (chain p) <= 65535 ->
  if_mtu i = 0 \/ tot_len (chain p) <= if_mtu i ->
  transmit x p dest st =
    Some (link_output x (concat (chain p)) dest,
      st <| ip_stats ::= fun c => c <| c_xmit ::= inc |> |> <| wire ::= fun w => w ++ [mkFrame x (concat (chain p)) dest] |>).
Proof.
  intros Hx Hl Hm. unfold transmit, the_if. unfold sm_bind at 1. rewrite Hx. unfold pk_len.
  rewrite wrap_small by (unfold fits, tot_len in *; pow2; lia).
  destruct (Z.eqb_spec (if_mtu i) 0) as [E|E]; cbn [negb andb]; [reflexivity|].
  rewrite (proj2 (Z.ltb_ge _ _)) by lia. reflexivity.
Qed.

(** ... or in fragments. *)
Lemma transmit_fragments x i p dest st r : netifs (s_net st) !! x = Some i -> tot_len (chain p) <= 65535 ->
  0 < if_mtu i < tot_len (chain p) -> ip_frag ref_ok ram_ok (chain p) (if_mtu i) (s_buf st) (stats (s_reass st)) = Done r ->
  transmit x p dest st =
    Some (ERR_OK, st <| wire ::= fun w => w ++ map (fun F => mkFrame x F dest) (frames r) |>
                     <| s_buf := fbody r |> <| s_reass ::= with_stats (fun _ => fstats r) |>).
Proof.
  intros Hx Hl Hm E. unfold transmit, the_if. unfold sm_bind at 1. rewrite Hx. unfold pk_len.
  rewrite wrap_small by (unfold fits, tot_len in *; pow2; lia).
  rewrite (proj2 (Z.eqb_neq _ _)), (proj2 (Z.ltb_lt _ _)) by lia. cbn [negb andb]. unfold frag_output. now rewrite E.
Qed.

End Departure.

(** ** End to end *)

(** The interface takes a packet of [n] bytes: whole, or in fragments that a
    reassembly buffer holds. *)
Definition carried {L : Link} (i : net_if) (st : stack) (n : Z) : Prop :=
  if_mtu i = 0 \/ n <= if_mtu i \/
  (92 <= if_mtu i <= MAX_MTU /\ n < IP_REASS_BUFSIZE + IP_HLEN /\ ref_ok = true /\ (forall k, ram_ok k = true) /\
   Z.of_nat (length (s_buf st)) = 1480).

(** The receiver is not in the middle of a reassembly, and has pbufs for [n]
    bytes. *)
Definition can_receive {PP : PbufPool} (st : stack) (n : Z) : Prop :=
  wf_reass (s_reass st) /\ reasstmr (s_reass st) = 0 /\ pool_alloc n <> None.

Record good_header (h : ip_hdr) (n ttl proto src dest : Z) : Prop := {
  gh_wf : wf_hdr h; gh_version : IPH_V h = 4; gh_words : IPH_HL h = 5; gh_len : ntohs (hlen h) = n;
  gh_ttl : IPH_TTL h = ttl; gh_proto : IPH_PROTO h = proto; gh_src : IpFrag.src h = src; gh_dest : IpFrag.dest h = dest;
  gh_chksum : set_chksum h = h; gh_whole : is_fragment h = false
}.

Lemma packet_hdr_good n ttl tos proto src dest : fits 16 n -> fits 8 ttl -> fits 8 tos -> fits 8 proto ->
  fits 32 src -> fits 32 dest -> good_header (packet_hdr n ttl tos proto src dest) n ttl proto src dest.
Proof.
  intros Fn Ft Fo Fp Fs Fd. destruct (packet_hdr_proto n ttl tos proto src dest Ft Fp) as [Ep Et].
  pose proof (packet_hdr_wf n ttl tos proto src dest Fn Ft Fo Fp Fs Fd) as W.
  constructor; try assumption; try reflexivity.
  - now apply packet_hdr_V.
  - now apply packet_hdr_HL.
  - now apply packet_hdr_len.
Qed.

Lemma whole_hdr_good h n ttl proto src dest k : good_header h n ttl proto src dest -> fits 16 k ->
  k = n -> good_header (whole_hdr h (k - IP_HLEN)) n ttl proto src dest.
Proof.
  intros [W HV HL Hn Ht Hp Hs Hd Hc Hw] Fk ->.
  assert (W' : wf_hdr (whole_hdr h (n - IP_HLEN))).
  { apply set_chksum_wf. destruct W as (?&?&?&?&?&?&?&?). unfold wf_hdr. cbn. rewrite ?Z.sub_add.
    split_and!; trivial; try (now apply htons_fits); unfold fits; pow2; lia. }
  constructor; try assumption; try reflexivity.
  unfold whole_hdr, set_chksum. cbn. rewrite Z.sub_add. now apply htons_htons.
Qed.

Section EndToEnd.
Context {L1 : Link} {V : Env} {A : App} {L2 : Link} {R : RawApp} {PP : PbufPool}.

(** A frame that holds one packet. *)
Lemma ip_input_whole h D n ttl proto src dest inp rx : good_header h n ttl proto src dest ->
  n = 20 + Z.of_nat (length D) -> n <= 65535 -> for_us rx dest ->
  ip_input (in_pbuf (hdr_bytes h ++ D)) inp rx = ip_upper (mkPk false [] [hdr_bytes h ++ D]) inp (count_recv rx).
Proof.
  intros [W HV HL Hn Ht Hp Hs Hd Hc Hw] En Hl U.
  assert (Ll : Z.of_nat (length (hdr_bytes h ++ D)) = n) by (rewrite length_app, hdr_bytes_length; lia).
  rewrite (ip_input_checks h D) by trivial. rewrite (ip_accept_frame h D inp _ n); [|exact W|now rewrite Hn|lia|lia|now rewrite Hd].
  cbv zeta. rewrite Hw, take_ge by lia. reflexivity.
Qed.

(** The frames of a packet, in any order. *)
Lemma ip_input_frames h D mtu fs fr order inp rx : IPH_V h = 4 -> IPH_HL h = 5 -> mtu <= MAX_MTU ->
  Forall2 (frame_of h D mtu) fs fr -> tiles 64 0 (Z.of_nat (length D)) fs ->
  mtu < 20 + Z.of_nat (length D) -> 0 < Z.of_nat (length D) < IP_REASS_BUFSIZE -> order ≡ₚ fr ->
  for_us rx (dest h) -> can_receive rx (Z.of_nat (length D) + IP_HLEN) ->
  exists c cs rs, ip_input_all (map in_pbuf order) inp rx =
      ip_upper (mkPk false (room LINK_ROOM) c) inp (rx <| s_reass := rs |> <| ip_stats := cs |>) /\
    reasstmr rs = 0 /\ concat c = hdr_bytes (whole_hdr h (Z.of_nat (length D))) ++ D /\
    exists p, pool_alloc (Z.of_nat (length D) + IP_HLEN) = Some p /\ map length c = map length p.
Proof.
  unfold MAX_MTU. intros HV HL Hm F T Hlong Hn P U (Wr & Ht & Hpool).
  destruct (frames_reassemble trimmed h D mtu fs fr order (s_reass rx)) as (l & G & rs1 & c & rs2 & -> & E1 & E2 & Tm & _ & K);
    try assumption.
  { intros f Fr _ Hf. now apply (trimmed_frag h D mtu HL). }
  assert (Mem : forall Fr, Fr ∈ l ++ [G] -> exists f, frame_of h D mtu f Fr /\ 0 < snd f < Z.of_nat (length D) /\ 0 <= fst f).
  { intros Fr HFr. rewrite P in HFr. apply list_elem_of_lookup in HFr as (k & Hk).
    destruct (Forall2_lookup_r _ _ _ _ _ F Hk) as (f & Hkf & Hf). exists f. split; [exact Hf|].
    destruct (tiles_bounds _ _ _ _ f T (list_elem_of_lookup_2 _ _ _ Hkf)) as (B1 & B2 & B3).
    destruct (is_frag_trim h D mtu f Fr Hf HL) as (_ & _ & _ & _ & _ & _ & _ & Hl & _).
    destruct Hf as (_ & HF & _). lia. }
  destruct (ip_input_fragments h D mtu HV HL ltac:(lia) l inp rx rs1 (length l) U) as (cs & El).
  { intros Fr HFr. apply Mem, elem_of_app. now left. }
  { exact E1. }
  destruct (Mem G ltac:(apply elem_of_app; right; now apply list_elem_of_singleton)) as (f & Hf & Hs & H0).
  eexists c, _, rs2. split; [|split; [exact Tm|]].
  2:{ split; [exact K|]. destruct (ip_reass_shape _ _ _ _ E2) as (q & Eq & Sh). exists q. split; [|exact Sh].
    rewrite <- Eq. f_equal. rewrite K, length_app, hdr_bytes_length. unfold IP_HLEN. lia. }
  rewrite map_app, ip_input_all_app. unfold sm_bind at 1. rewrite El. cbn [map]. rewrite ip_input_one.
  match goal with |- ip_input _ _ ?s = _ => rewrite (ip_input_fragment h D mtu HV HL ltac:(lia) f G inp s Hf Hs H0 U) end.
  unfold sm_bind, reassemble. cbn [chain].
  change (s_reass _) with rs1. rewrite E2. reflexivity.
Qed.

Lemma short_of_total c : tot_len c <= 65535 -> short c.
Proof.
  intros H. apply Forall_forall. intros s Hs. pose proof (piece_len s c Hs). lia.
Qed.

End EndToEnd.

(** What is sent for a packet: one frame, or the frames of [ip_frag]. *)
Definition sent_as (h : ip_hdr) (D : list Z) (mtu : Z) (fr : list (list Z)) : Prop :=
  (fr = [hdr_bytes h ++ D] /\ (mtu = 0 \/ 20 + Z.of_nat (length D) <= mtu)) \/
  (mtu < 20 + Z.of_nat (length D) /\ 92 <= mtu <= MAX_MTU /\ Z.of_nat (length D) < IP_REASS_BUFSIZE /\
   exists fs, Forall2 (frame_of h D mtu) fs fr /\ tiles 64 0 (Z.of_nat (length D)) fs).

Lemma sent_as_fits h D mtu fr : sent_as h D mtu fr -> mtu <> 0 -> Forall (fun F => Z.of_nat (length F) <= mtu) fr.
Proof.
  intros [[-> [?|H]]|(_ & _ & _ & fs & F & _)] N; [contradiction| |].
  - constructor; [rewrite length_app, hdr_bytes_length; lia | constructor].
  - clear -F. induction F as [|f Fr fs fr (_ & Lf & _)]; constructor; auto.
Qed.

(** The conditions of a call of [ip_output_if]. *)
Record can_send {L : Link} (p : pk) (x : nat) (i : net_if) (src : option Z) (dest ttl tos proto : Z) (st : stack) : Prop := {
  cs_fixed : fixed p = false;
  cs_room : (20 <= length (before p))%nat;
  cs_chain : chain p <> [];
  cs_data : 0 < tot_len (chain p) <= 65535 - 20;
  cs_if : netifs (s_net st) !! x = Some i;
  cs_ttl : fits 8 ttl; cs_tos : fits 8 tos; cs_proto : fits 8 proto;
  cs_src : fits 32 (src_of src (if_addr i)); cs_dest : fits 32 dest;
  cs_carried : carried i st (20 + tot_len (chain p))
}.

(** What is above IP, and the interfaces, are the same. *)
Definition same_apps (st st' : stack) : Prop :=
  s_net st' = s_net st /\ s_tcp st' = s_tcp st /\ udp_got st' = udp_got st /\ raw_got st' = raw_got st /\
  udp_blocks st' = udp_blocks st /\ udp_pcbs st' = udp_pcbs st.

Section Departs.
Context {L : Link}.

Lemma departs p x i src dest ttl tos proto st : can_send p x i src dest ttl tos proto st ->
  let n := 20 + tot_len (chain p) in let h := packet_hdr n ttl tos proto (src_of src (if_addr i)) dest in
  exists e st' fr, ip_output_if p src (Some dest) ttl tos proto x st = Some (e, st') /\
    wire st' = wire st ++ map (fun F => mkFrame x F dest) fr /\ same_apps st st' /\
    good_header h n ttl proto (src_of src (if_addr i)) dest /\ sent_as h (concat (chain p)) (if_mtu i) fr.
Proof.
  intros [Hf Hb Hc H0 Hx Ft Fo Fp Fs Fd Hm] n h. set (D := concat (chain p)) in *.
  assert (El : tot_len (chain p) = Z.of_nat (length D)) by reflexivity. unfold tot_len in n. fold D in n.
  destruct (ip_output_if_header p x i src dest ttl tos proto st Hf Hb Hc Hx Ft Fo Fp) as (q & -> & Eq & Eh & _).
  assert (Fn : fits 16 n) by (unfold fits; pow2; lia).
  rewrite El, (wrap_small 16) in Eq, Eh by exact Fn. fold n h in Eq, Eh.
  assert (G : good_header h n ttl proto (src_of src (if_addr i)) dest) by now apply packet_hdr_good.
  assert (Tq : tot_len (chain q) = n) by (unfold tot_len; rewrite Eq, length_app, hdr_bytes_length; fold D; lia).
  assert (Hw : (if_mtu i = 0 \/ n <= if_mtu i) \/ if_mtu i < n /\ 92 <= if_mtu i <= MAX_MTU /\ n < IP_REASS_BUFSIZE + IP_HLEN /\
    ref_ok = true /\ (forall k, ram_ok k = true) /\ Z.of_nat (length (s_buf st)) = 1480).
  { unfold carried in Hm. rewrite El in Hm. fold n in Hm. destruct (Z_lt_dec (if_mtu i) n); [tauto | lia]. }
  destruct Hw as [Hw|(M & Hm1 & Hm2 & Rf & Rm & Hbuf)].
  - rewrite (transmit_whole x i q dest st Hx) by lia. rewrite Eq. eexists _, _, [_]. split; [reflexivity|].
    split; [reflexivity|]. split; [now split_and!|]. split; [exact G|]. left. now split.
  - unfold MAX_MTU, IP_REASS_BUFSIZE, IP_HLEN in *.
    destruct (ip_frag_frames ram_ok (chain q) h D (if_mtu i) (s_buf st) (stats (s_reass st)))
      as (fs & fr & body & fst' & E & T & F); try apply G; try assumption; try reflexivity; try (unfold MAX_MTU; lia).
    + apply short_of_total. lia.
    + rewrite Eh. apply hdr_at_bytes, G.
    + rewrite <- Rf in E. rewrite (transmit_fragments x i q dest st _ Hx ltac:(lia) ltac:(lia) E).
      eexists _, _, fr. split; [reflexivity|]. split; [reflexivity|]. split; [now split_and!|]. split; [exact G|]. right.
      unfold MAX_MTU, IP_REASS_BUFSIZE. split; [lia|]. split; [lia|]. split; [lia|]. exists fs. split; [exact F|].
      apply (tiles_weaken _ _ 64) in T; [exact T|]. unfold IP_HLEN. zmod_lia.
Qed.

End Departs.

(** The first pbuf of an allocation of [n] bytes has [k] of them. *)
Definition first_holds {PP : PbufPool} (k : nat) (n : Z) : Prop :=
  forall p, pool_alloc n = Some p -> (k <= length (hd [] p))%nat.

Section Arrives.
Context {V : Env} {A : App} {L : Link} {R : RawApp} {PP : PbufPool}.

Lemma arrives h D n ttl proto src dest mtu fr order inp rx : sent_as h D mtu fr -> good_header h n ttl proto src dest ->
  n = 20 + Z.of_nat (length D) -> 0 < Z.of_nat (length D) -> n <= 65535 -> order ≡ₚ fr ->
  for_us rx dest -> can_receive rx n ->
  exists q rx', ip_input_all (map in_pbuf order) inp rx = ip_upper q inp rx' /\
    (exists cs rs, rx' = rx <| s_reass := rs |> <| ip_stats := cs |> /\ reasstmr rs = 0) /\
    (forall k, Z.of_nat k <= n -> first_holds k n -> (k <= length (hd [] (chain q)))%nat) /\
    exists h', concat (chain q) = hdr_bytes h' ++ D /\ good_header h' n ttl proto src dest.
Proof.
  intros Sn G En H0 Hn P U Hr. destruct Sn as [[-> _]|(M & Hm & Hd & fs & F & T)].
  - symmetry in P. apply Permutation_singleton_l in P as <-. exists (mkPk false [] [hdr_bytes h ++ D]), (count_recv rx).
    cbn [map]. rewrite ip_input_one. rewrite (ip_input_whole h D n ttl proto src dest) by assumption.
    split; [reflexivity|]. split; [|split].
    + destruct Hr as (_ & Ht & _). eexists _, (s_reass rx). split; [now destruct rx | exact Ht].
    + intros k Hk _. cbn [chain hd]. rewrite length_app, hdr_bytes_length. lia.
    + exists h. split; [|exact G]. cbn [chain concat]. apply app_nil_r.
  - destruct (ip_input_frames h D mtu fs fr order inp rx) as (c & cs & rs & Ei & Et & Ec & p & Ep & Sh);
      try apply G; try assumption; try lia.
    + rewrite (gh_dest _ _ _ _ _ _ G). exact U.
    + unfold IP_HLEN. now rewrite Z.add_comm, <- En.
    + eexists _, _. split; [exact Ei|]. split; [exists cs, rs; split; [reflexivity | exact Et]|]. split; [|].
      * intros k Hk Hp. cbn [chain]. rewrite En, Z.add_comm in Hp. unfold first_holds, IP_HLEN in *. specialize (Hp p Ep).
        destruct c as [|a c], p as [|b p]; try discriminate Sh; cbn [hd length] in *; [exact Hp|]. injection Sh as Sh _. lia.
      * eexists. split; [exact Ec|]. replace (Z.of_nat (length D)) with (n - IP_HLEN) by (unfold IP_HLEN; lia).
        apply (whole_hdr_good h n); [exact G | unfold fits; pow2; lia | reflexivity].
Qed.

End Arrives.

Section EndToEndTheorem.
Context {L1 : Link} {V : Env} {A : App} {L2 : Link} {R : RawApp} {PP : PbufPool}.

(** C3: A packet arrives as it was sent.  For data that fit a datagram, sent by
    [ip_output_if] on an interface that takes them (whole, or in fragments of an
    MTU from 92 to 1500 when they are less than 5760 bytes): the frames fit the
    MTU, and when they come to a stack that has an interface of that address and
    is not reassembling, in any order, then all that happens is that the protocol
    behind the header gets one packet: the data, behind a header with the
    sender's address, protocol and TTL. *)
Theorem ip_end_to_end p x i src dest ttl tos proto st : can_send (L := L1) p x i src dest ttl tos proto st ->
  let n := 20 + tot_len (chain p) in
  exists e st' fr, ip_output_if (L := L1) p src (Some dest) ttl tos proto x st = Some (e, st') /\
    wire st' = wire st ++ map (fun F => mkFrame x F dest) fr /\
    (if_mtu i <> 0 -> Forall (fun F => Z.of_nat (length F) <= if_mtu i) fr) /\
    forall order inp rx, order ≡ₚ fr -> for_us rx dest -> can_receive rx n ->
      exists q h cs rs, ip_input_all (L := L2) (map in_pbuf order) inp rx =
          ip_upper (L := L2) q inp (rx <| s_reass := rs |> <| ip_stats := cs |>) /\ reasstmr rs = 0 /\
        concat (chain q) = hdr_bytes h ++ concat (chain p) /\
        good_header h n ttl proto (src_of src (if_addr i)) dest.
Proof.
  intros C n. destruct (departs p x i src dest ttl tos proto st C) as (e & st' & fr & E & W & _ & G & S).
  exists e, st', fr. split; [exact E|]. split; [exact W|]. split; [apply (sent_as_fits _ _ _ _ S)|].
  intros order inp rx P U Hr. pose proof (cs_data _ _ _ _ _ _ _ _ _ C). unfold tot_len in *.
  destruct (arrives _ _ _ _ _ _ _ _ fr order inp rx S G eq_refl ltac:(lia) ltac:(lia) P U Hr)
    as (q & rx' & Ei & (cs & rs & -> & Et) & _ & h' & Ec & G').
  exists q, h', cs, rs. now split.
Qed.

End EndToEndTheorem.

(** ** Two stacks for concrete runs *)

Definition plain_link : Link := {|
  link_output := fun _ _ _ => ERR_OK; ref_ok := true; ram_ok := fun _ => true;
  room := fun n => replicate n 170; fresh := fun n => replicate n 170;
  room_length := fun n => length_replicate n 170; fresh_length := fun n => length_replicate n 170
|}.

Definition quiet_raw : RawApp := {| raw_eats := fun _ _ _ => false |}.

Definition no_counts : stats_proto := mkCounters 0 0 0 0 0 0 0 0.

(** One interface, up, with the mask 255.0.0.0. *)
Definition host_if (addr mtu : Z) : net_if := mkIf (mkNetif addr 255 3) 0 mtu (101, 110) 0.

Definition host (addr mtu : Z) : stack :=
  mkStack (mkNet {[0%nat := host_if addr mtu]} [0%nat] (Some 0%nat) 1) tcp_init ∅ [] ∅ [] demo_idle
    (replicate 1480 0) no_counts no_counts no_counts [] [] [].

Definition A1 : Z := 16777226.   (* 10.0.0.1 *)
Definition A2 : Z := 33554442.   (* 10.0.0.2 *)

Lemma host_for_us a mtu : a <> 0 -> for_us (host a mtu) a.
Proof.
  intros H. exists 0%nat. unfold host. cbn [s_net netifs netif_list find_block].
  rewrite lookup_singleton_eq. unfold accepts, netif_is_up, ip_addr_isany, host_if, if_addr. cbn [if_net netif_addr netif_flags].
  unfold ip_addr_any. rewrite (proj2 (Z.eqb_neq a 0)) by exact H. now rewrite Z.eqb_refl.
Qed.

Lemma host_can_receive a mtu n : 0 <= n <= 1000 -> can_receive (PP := demo_pool) (host a mtu) n.
Proof.
  intros H. split; [exact demo_idle_wf|]. split; [reflexivity|]. unfold pool_alloc, demo_pool, demo_alloc.
  rewrite (proj2 (Z.leb_le 0 n)), (proj2 (Z.leb_le n 2034)) by lia. discriminate.
Qed.

Definition demo_pk (n : nat) : pk := mkPk false (replicate 34 170) [take 50 (demo_data n); drop 50 (demo_data n)].

Lemma demo_can_send n mtu : 50 <= Z.of_nat n <= 900 -> mtu = 0 \/ 92 <= mtu <= 1500 ->
  can_send (L := plain_link) (demo_pk n) 0 (host_if A1 mtu) None A2 64 0 IP_PROTO_UDP (host A1 mtu).
Proof.
  intros Hn Hm. assert (E : tot_len (chain (demo_pk n)) = Z.of_nat n).
  { unfold tot_len, demo_pk, demo_data. cbn [chain concat]. rewrite app_nil_r, take_drop.
    now rewrite length_map, length_seq. }
  constructor; rewrite ?E; try (split; reflexivity || discriminate); try reflexivity; try lia.
  - cbn [demo_pk before]. rewrite length_replicate. lia.
  - discriminate.
  - unfold carried, MAX_MTU, IP_REASS_BUFSIZE, IP_HLEN. cbn [host_if if_mtu].
    destruct Hm as [?|?]; [now left|]. right. destruct (Z_le_dec (20 + Z.of_nat n) mtu); [now left|]. right.
    split; [lia|]. split; [lia|]. split; [reflexivity|]. split; [reflexivity|]. reflexivity.
Qed.

Lemma ip_end_to_end_witness :
  exists e st' f0 f1 f2 f3, ip_output_if (L := plain_link) (demo_pk 300) None (Some A2) 64 0 IP_PROTO_UDP 0 (host A1 100) =
      Some (e, st') /\
    wire st' = map (fun F => mkFrame 0 F A2) [f0; f1; f2; f3] /\
    exists q h rx', ip_input_all (V := plain_env) (A := quiet_app) (L := plain_link) (R := quiet_raw) (PP := demo_pool)
        (map in_pbuf [f2; f0; f3; f1]) 0 (host A2 1500) =
      ip_upper (V := plain_env) (A := quiet_app) (L := plain_link) (R := quiet_raw) q 0 rx' /\
      concat (chain q) = hdr_bytes h ++ demo_data 300 /\ good_header h 320 64 IP_PROTO_UDP A1 A2.
Proof.
  assert (W : exists x, (snd <$> ip_output_if (L := plain_link) (demo_pk 300) None (Some A2) 64 0 IP_PROTO_UDP 0 (host A1 100)) = Some x
    /\ length (wire x) = 4%nat) by (eexists; split; [vm_compute; reflexivity | reflexivity]).
  destruct (ip_end_to_end (L1 := plain_link) (V := plain_env) (A := quiet_app) (L2 := plain_link) (R := quiet_raw)
    (PP := demo_pool) (demo_pk 300) 0 (host_if A1 100) None A2 64 0 IP_PROTO_UDP (host A1 100)) as (e & st' & fr & E & Hw & _ & H).
  - apply demo_can_send; lia.
  - rewrite E in W. destruct W as (x & [= <-] & Ln). rewrite Hw in Ln. cbn [host wire app] in Ln. rewrite length_map in Ln.
    destruct fr as [|f0 [|f1 [|f2 [|f3 [|]]]]]; try discriminate Ln.
    exists e, st', f0, f1, f2, f3. split; [exact E|]. split; [exact Hw|].
    destruct (H [f2; f0; f3; f1] 0%nat (host A2 1500)) as (q & h & cs & rs & Ei & _ & Ec & G).
    + exact (Permutation_trans (perm_swap _ _ _) (perm_skip _ (Permutation_trans (perm_skip _ (perm_swap _ _ _)) (perm_swap _ _ _)))).
    + apply host_for_us. discriminate.
    + apply host_can_receive. vm_compute. split; discriminate.
    + eexists q, h, _. split; [exact Ei|]. split; [exact Ec | exact G].
Defined.
