(* ===== verification/IcmpPath.v ===== *)
(** * IcmpPath: what comes back

    The answers of the stack to a packet: the echo reply ([Icmp]), through
    [ip_input] to the frame on the wire. *)
From Stdlib Require Import ZArith Lia List Bool.
From stdpp Require Import base gmap list.
From coqutil Require Import Datatypes.RecordSetters.
From S2P Require Import IpFrag Prelude Inet IpAddr Tcp TcpOut TcpPcb TcpIn TcpInput TcpWire Netif IpOut Icmp Raw Udp IpIn IpPath.
Import ListNotations.
#[local] Open Scope Z_scope.
#[local] Open Scope sm_scope.

(** ** Above IP *)

Section Upper.
Context {V : Env} {A : App} {L : Link} {R : RawApp} {PP : PbufPool}.

(** Without control blocks for raw IP, the protocol decides. *)
Lemma ip_upper_proto h p inp st : raw_pcbs st = [] -> hdr_at (hd [] (chain p)) = Some h ->
  ip_upper p inp st =
    (if (IPH_PROTO h =? IP_PROTO_UDP) || (IPH_PROTO h =? IP_PROTO_UDPLITE) then udp_input p inp
     else if IPH_PROTO h =? IP_PROTO_TCP then
       i <- the_if inp ;; with_tcp (fun V => tcp_input (V := V) (if_net i) (chain p))
     else if IPH_PROTO h =? IP_PROTO_ICMP then icmp_input p inp
     else ip_unknown p h inp) st.
Proof.
  intros Hr Hh. unfold ip_upper, sm_bind, raw_input. rewrite Hh, Hr. reflexivity.
Qed.

End Upper.

(** ** Checksums of a message in one pbuf *)

Lemma chksum_zero l : is_bytes l -> Z.of_nat (length l) <= 65535 ->
  inet_chksum l = 0 <-> norm16 (word_sum l) = 65535.
Proof. intros B H. rewrite inet_chksum_norm by assumption. lia. Qed.

Lemma htons_zero n : fits 16 n -> htons n = 0 <-> n = 0.
Proof. intros F. rewrite htons_div by exact F. unfold fits in F. pow2. zmod_lia. Qed.

(** The swapped bytes of an odd message do not matter to the test. *)
Lemma chksum_pbuf_one l : is_bytes l -> Z.of_nat (length l) <= 65535 ->
  inet_chksum_pbuf [l] = 0 <-> inet_chksum l = 0.
Proof.
  intros B H. assert (P : payloads [l]) by (constructor; [now split | constructor]).
  pose proof (word_sum_bound l B). pose proof (norm16_range (word_sum l) ltac:(lia)).
  assert (E : inet_chksum_pbuf [l] = 65535 - norm16 (half_shift (Nat.odd (length l)) (word_sum l))).
  { unfold inet_chksum_pbuf. pose proof (pbuf_loop_sum [l] 0 false ltac:(lia) P) as E. change (norm16 0) with 0 in E.
    rewrite E, xorb_false_l, Z.add_0_l. cbn [concat sum_of_sums fold_right]. rewrite app_nil_r, Z.add_0_r.
    destruct (Nat.odd (length l)); cbn [half_shift].
    - rewrite swap_acc_norm by lia. apply complement16, norm16_range. lia.
    - now apply complement16. }
  rewrite E, inet_chksum_norm by assumption. destruct (Nat.odd (length l)); cbn [half_shift]; [|reflexivity].
  rewrite <- swap_acc_norm, swap_acc_div by (unfold fits; pow2; lia). zmod_lia.
Qed.

(** ** Echo *)

(** The addresses are in the sum whatever their order. *)
Lemma swap_addrs_chksum h : wf_hdr h -> set_chksum h = h -> inet_chksum (hdr_bytes (swap_addrs h)) = 0.
Proof.
  intros W C. pose proof (hdr_chksum_ok h W C) as E. assert (W' : wf_hdr (swap_addrs h)).
  { destruct W as (?&?&?&?&?&?&?&?). now split_and!. }
  rewrite chksum_zero in E by (now apply hdr_bytes_bytes || (rewrite hdr_bytes_length; lia)).
  apply chksum_zero; [now apply hdr_bytes_bytes | rewrite hdr_bytes_length; lia|]. rewrite <- E. f_equal.
  unfold hdr_bytes, swap_addrs, set_src, set_dest. cbn [v_hl_tos hlen id offset ttl_proto chksum src dest].
  rewrite !app_assoc. set (p := _ ++ bytes16 (chksum h)). assert (Ep : Nat.Even (length p)) by (exists 6%nat; reflexivity).
  rewrite <- !app_assoc, !(word_sum_app_even p) by exact Ep.
  rewrite !word_sum_app_even by (exists 2%nat; reflexivity). ring.
Qed.

Lemma echo_type code : fits 8 code -> bytes16 (ICMPH_TYPE_SET ICMP_ER (ICMP_ECHO + 256 * code)) = [ICMP_ER; code].
Proof.
  intros F. unfold ICMPH_TYPE_SET, ICMPH_CODE, ICMP_ECHO, ICMP_ER, ntohs. unfold fits in F. pow2.
  rewrite (htons_div (8 + 256 * code)) by (unfold fits; pow2; lia). rewrite land255. rewrite Z.shiftl_0_l, Z.lor_0_r.
  replace (((8 + 256 * code) mod 256 * 256 + (8 + 256 * code) / 256) mod 256) with code by zmod_lia.
  rewrite wrap_small by (unfold fits; pow2; lia). rewrite htons_div by (unfold fits; pow2; lia).
  rewrite bytes16_div by (unfold fits; pow2; zmod_lia). f_equal; [zmod_lia|]. f_equal. zmod_lia.
Qed.

(** The sum loses the 8 of the type; the field gains it, or wraps around. *)
Lemma adjust_chksum_eq c : fits 16 c -> fits 16 (adjust_chksum c) /\
  (c < 65527 /\ adjust_chksum c = c + 8 \/ 65527 <= c /\ adjust_chksum c = c + 8 - 65535).
Proof.
  intros F. unfold fits in F. pow2. unfold adjust_chksum. change (htons (65535 - Z.shiftl ICMP_ECHO 8)) with 65527.
  change (htons (Z.shiftl ICMP_ECHO 8)) with 8. unfold u16, wrap, fits. pow2.
  destruct (Z.leb_spec 65527 c); zmod_lia.
Qed.

Section EchoMessage.
Context (code c0 c1 : Z) (r : list Z).

Abbreviation m := (ICMP_ECHO :: code :: c0 :: c1 :: r).
Abbreviation c' := (adjust_chksum (c0 + 256 * c1)).
Abbreviation m' := (ICMP_ER :: code :: c' mod 256 :: c' / 256 :: r).

Hypothesis (B : is_bytes m) (H : Z.of_nat (length m) <= 65535) (E : inet_chksum m = 0).

Lemma field_fits : fits 16 (c0 + 256 * c1).
Proof using B.
  clear E H. inversion_clear B as [|? ? _ B1]. inversion_clear B1 as [|? ? _ B2]. inversion_clear B2 as [|? ? F0 B3].
  inversion_clear B3 as [|? ? F1 _]. unfold fits in *. pow2. lia.
Qed.

Lemma echo_reply_eq : echo_reply m = Some m'.
Proof using B.
  clear E H. pose proof field_fits as F. destruct (adjust_chksum_eq _ F) as [F' _]. cbn [echo_reply]. rewrite echo_type.
  - rewrite bytes16_div by exact F'. reflexivity.
  - inversion_clear B as [|? ? _ B1]. now inversion_clear B1.
Qed.

Lemma echo_reply_bytes : is_bytes m'.
Proof using B.
  clear E H. pose proof field_fits as F. destruct (adjust_chksum_eq _ F) as [F' _]. unfold fits in F'. pow2.
  inversion_clear B as [|? ? _ B1]. inversion_clear B1 as [|? ? Fc B2]. inversion_clear B2 as [|? ? F0 B3].
  inversion_clear B3 as [|? ? F1 B4]. repeat (constructor; [unfold ICMP_ER, fits in *; pow2; zmod_lia|]). exact B4.
Qed.

(** The checksum of the reply is right, unless the rest of the message is zero:
    then the field has become 0 and should be 65535. *)
Lemma echo_reply_chksum : inet_chksum m' = 0 <-> ~ Forall (eq 0) (code :: r).
Proof using B H E.
  pose proof echo_reply_bytes as B'. pose proof field_fits as F. destruct (adjust_chksum_eq _ F) as [F' Ec].
  rewrite chksum_zero in E by assumption. rewrite chksum_zero by assumption.
  assert (E1 : word_sum m = 8 + 256 * code + (c0 + 256 * c1) + word_sum r) by (cbn [word_sum]; unfold ICMP_ECHO; ring).
  assert (E2 : word_sum m' = 256 * code + c' + word_sum r).
  { cbn [word_sum]. pose proof (Z.div_mod c' 256 ltac:(lia)). unfold ICMP_ER. lia. }
  inversion_clear B as [|? ? _ B1]. inversion_clear B1 as [|? ? Fc B2]. inversion_clear B2 as [|? ? _ B3].
  inversion_clear B3 as [|? ? _ Br]. pose proof (word_sum_bound r Br) as Hr. unfold fits in F, F', Fc. pow2.
  assert (Z0 : 256 * code + word_sum r = 0 <-> Forall (eq 0) (code :: r)).
  { split.
    - intros Z0. constructor; [lia|]. apply word_sum_zero; [exact Br | lia].
    - intros Z0. inversion_clear Z0 as [|? ? <- Z1]. apply word_sum_zero in Z1; [lia | exact Br]. }
  rewrite <- Z0. unfold norm16 in *. destruct (Z.eqb_spec (word_sum m) 0); [discriminate|].
  destruct (Z.eqb_spec (word_sum m') 0); [lia|]. zmod_lia.
Qed.

End EchoMessage.

Lemma pk_len_one f b l : Z.of_nat (length l) <= 65535 -> pk_len (mkPk f b [l]) = Z.of_nat (length l).
Proof.
  intros H. unfold pk_len, tot_len. cbn [chain concat]. rewrite app_nil_r. apply wrap_small. unfold fits. pow2. lia.
Qed.

(** The counters of an echo that is answered, and what is sent. *)
Definition count_reply (st : stack) : stack :=
  st <| icmp_stats ::= fun c => c <| c_xmit ::= inc |> |> <| ip_stats ::= fun c => c <| c_xmit ::= inc |> |>.

Definition count_icmp (st : stack) : stack := st <| icmp_stats ::= fun c => c <| c_recv ::= inc |> |>.

Definition put_wire (fr : list frame) (st : stack) : stack := st <| wire ::= fun w => w ++ fr |>.

Section Echo.
Context {V : Env} {A : App} {L : Link} {R : RawApp} {PP : PbufPool}.

Context (h : ip_hdr) (code c0 c1 : Z) (r : list Z) (inp : nat) (i : net_if).

Abbreviation m := (ICMP_ECHO :: code :: c0 :: c1 :: r).
Abbreviation c' := (adjust_chksum (c0 + 256 * c1)).
Abbreviation m' := (ICMP_ER :: code :: c' mod 256 :: c' / 256 :: r).

Hypothesis (W : wf_hdr h) (HL : IPH_HL h = 5) (B : is_bytes m) (Hl : 8 <= Z.of_nat (length m) <= 65535 - 20)
  (C : inet_chksum m = 0) (Hm : if_mtu i = 0 \/ 20 + Z.of_nat (length m) <= if_mtu i)
  (Hb : ip_addr_isbroadcast (dest h) (if_net i) || ip_addr_ismulticast (dest h) = false).

Lemma icmp_echo_sends st : netifs (s_net st) !! inp = Some i ->
  icmp_echo (mkPk false [] [hdr_bytes h ++ m]) (mkPk false (hdr_bytes h) [m]) h 20 inp st =
    Some (tt, put_wire [mkFrame inp (hdr_bytes (swap_addrs h) ++ m') (src h)] (count_reply st)).
Proof using W B Hl C Hm Hb.
  intros Hi. assert (W' : wf_hdr (swap_addrs h)) by (destruct W as (?&?&?&?&?&?&?&?); now split_and!).
  unfold icmp_echo, the_if. unfold sm_bind at 1. rewrite Hi, Hb, pk_len_one, (proj2 (Z.ltb_ge _ 8)) by lia.
  cbn [chain]. rewrite (proj2 (chksum_pbuf_one m B ltac:(lia)) C). cbn [Z.eqb negb]. unfold put_hdr. cbn [chain hd fixed before].
  change (Z.to_nat IP_HLEN) with (length (hdr_bytes h)). rewrite drop_app_length.
  change (Z.to_nat 20) with (length (hdr_bytes (swap_addrs h))). rewrite drop_app_length, take_app_length, echo_reply_eq by exact B.
  unfold icmp_stat, sm_modify. unfold sm_bind at 1. cbn [tl chain hd]. rewrite hdr_at_bytes by exact W'.
  unfold ip_output_if. cbn [chain hd]. rewrite hdr_at_bytes by exact W'. unfold sm_bind.
  assert (Lt : tot_len [hdr_bytes (swap_addrs h) ++ m'] = 20 + Z.of_nat (length m)).
  { unfold tot_len. cbn [concat]. rewrite app_nil_r, length_app, hdr_bytes_length. cbn [length]. lia. }
  rewrite (transmit_whole _ i); [| exact Hi | cbn [chain]; lia | cbn [chain]; lia].
  cbn [chain concat]. rewrite app_nil_r. reflexivity.
Qed.

Lemma icmp_input_echo st : netifs (s_net st) !! inp = Some i ->
  icmp_input (mkPk false [] [hdr_bytes h ++ m]) inp st =
    Some (tt, put_wire [mkFrame inp (hdr_bytes (swap_addrs h) ++ m') (src h)] (count_reply (count_icmp st))).
Proof using W HL B Hl C Hm Hb.
  intros Hi. unfold icmp_input, icmp_stat, sm_modify. unfold sm_bind at 1. cbn [chain hd].
  rewrite hdr_at_bytes, HL by exact W. unfold pk_header. cbn [chain fixed before].
  change (- (5 * 4) =? 0) with false. change (- (5 * 4) <? 0) with true. cbv beta iota zeta.
  rewrite length_app, hdr_bytes_length, (proj2 (Z.leb_le _ _)) by lia.
  change (Z.to_nat (- - (5 * 4))) with (length (hdr_bytes h)). rewrite drop_app_length, take_app_length. cbn [orb hd chain].
  rewrite pk_len_one, (proj2 (Z.ltb_ge _ 4)) by lia. rewrite Z.eqb_refl. cbn [app].
  exact (icmp_echo_sends (count_icmp st) Hi).
Qed.

End Echo.

(** C8: An echo request is answered.  A frame for us with a good IP header and
    an echo request of 8 bytes or more whose checksum is right, addressed to a
    host and not to many: the stack sends one frame, back to the sender, and
    changes nothing else but counters.  The frame is the request with the
    addresses swapped (TTL and IP checksum stay, and the latter is right), type
    0, code, identifier and data as they were; its ICMP checksum is right unless
    all the message but the checksum is zero, when it is 0 and should be 65535. *)
Theorem icmp_echo_answered `{Env, App, Link, RawApp, PbufPool} h code c0 c1 r n ttl src dest inp i rx :
  let m := ICMP_ECHO :: code :: c0 :: c1 :: r in
  good_header h n ttl IP_PROTO_ICMP src dest -> n = 20 + Z.of_nat (length m) -> n <= 65535 ->
  is_bytes m -> 8 <= Z.of_nat (length m) -> inet_chksum m = 0 ->
  for_us rx dest -> raw_pcbs rx = [] -> netifs (s_net rx) !! inp = Some i -> if_mtu i = 0 \/ n <= if_mtu i ->
  ip_addr_isbroadcast dest (if_net i) || ip_addr_ismulticast dest = false ->
  exists c0' c1', let m' := ICMP_ER :: code :: c0' :: c1' :: r in
    ip_input (in_pbuf (hdr_bytes h ++ m)) inp rx =
      Some (tt, put_wire [mkFrame inp (hdr_bytes (swap_addrs h) ++ m') src] (count_reply (count_icmp (count_recv rx)))) /\
    inet_chksum (hdr_bytes (swap_addrs h)) = 0 /\ is_bytes m' /\
    (inet_chksum m' = 0 <-> ~ Forall (eq 0) (code :: r)).
Proof.
  intros m G En Hn B Hl C U Hr Hi Hm Hb. pose proof G as [W HV HL _ _ Hp Hs Hd Hc _].
  set (c' := adjust_chksum (c0 + 256 * c1)). exists (c' mod 256), (c' / 256). split; [|split_and!].
  - rewrite (ip_input_whole h m n ttl IP_PROTO_ICMP src dest) by assumption. rewrite (ip_upper_proto h).
    + rewrite Hp. cbn [Z.eqb Pos.eqb orb]. change (IP_PROTO_ICMP =? IP_PROTO_UDP) with false.
      change (IP_PROTO_ICMP =? IP_PROTO_UDPLITE) with false. change (IP_PROTO_ICMP =? IP_PROTO_TCP) with false.
      change (IP_PROTO_ICMP =? IP_PROTO_ICMP) with true. cbn [orb]. rewrite <- Hs.
      apply (icmp_input_echo h code c0 c1 r inp i W HL B); try assumption; fold m; rewrite ?Hd; trivial; lia.
    + exact Hr.
    + now apply hdr_at_bytes.
  - now apply swap_addrs_chksum.
  - now apply echo_reply_bytes.
  - apply echo_reply_chksum; try assumption. fold m. lia.
Qed.

Lemma icmp_echo_answered_witness :
  let h := packet_hdr 32 64 0 IP_PROTO_ICMP A1 A2 in
  exists c0' c1' st',
    ip_input (V := plain_env) (A := quiet_app) (L := plain_link) (R := quiet_raw) (PP := demo_pool)
      (in_pbuf (hdr_bytes h ++ [8; 0; 243; 242; 1; 2; 3; 4; 0; 0; 0; 7])) 0 (host A2 1500) = Some (tt, st') /\
    wire st' = [mkFrame 0 (hdr_bytes (swap_addrs h) ++ [0; 0; c0'; c1'; 1; 2; 3; 4; 0; 0; 0; 7]) A1] /\
    inet_chksum [0; 0; c0'; c1'; 1; 2; 3; 4; 0; 0; 0; 7] = 0.
Proof.
  intros h. destruct (icmp_echo_answered (H := plain_env) (H0 := quiet_app) (H1 := plain_link) (H2 := quiet_raw) (H3 := demo_pool)
    h 0 243 242 [1; 2; 3; 4; 0; 0; 0; 7] 32 64 A1 A2 0 (host_if A2 1500) (host A2 1500)) as (c0' & c1' & E & _ & _ & C).
  - apply packet_hdr_good; split; reflexivity || discriminate.
  - reflexivity.
  - discriminate.
  - repeat (constructor; [split; reflexivity || discriminate|]). constructor.
  - discriminate.
  - vm_compute. reflexivity.
  - apply host_for_us. discriminate.
  - reflexivity.
  - reflexivity.
  - right. discriminate.
  - reflexivity.
  - eexists c0', c1', _. split; [exact E|]. split; [reflexivity|]. apply C. intros F. inversion_clear F as [|? ? _ F1].
    inversion_clear F1 as [|? ? Z0 _]. discriminate Z0.
Defined.

(** The reply to an echo request of zeros has a wrong checksum. *)
Example echo_of_zeros : inet_chksum [8; 0; 247; 255; 0; 0; 0; 0] = 0 /\
  echo_reply [8; 0; 247; 255; 0; 0; 0; 0] = Some [0; 0; 0; 0; 0; 0; 0; 0] /\ inet_chksum [0; 0; 0; 0; 0; 0; 0; 0] = 65535.
Proof. vm_compute. split_and!; reflexivity. Qed.
