(* ===== verification/UdpPath.v ===== *)
(** * UdpPath: datagrams from one application to another

    [udp_send] ([Udp]) through [ip_output_if], the wire, [ip_input] and
    [udp_input] to the callback of the peer ([IpPath] in between); and what
    comes of a datagram that no control block wants. *)
From Stdlib Require Import ZArith Lia List Bool.
From stdpp Require Import base gmap list.
From coqutil Require Import Datatypes.RecordSetters.
From S2P Require Import IpFrag Prelude Inet IpAddr Tcp TcpOut TcpPcb TcpIn TcpInput TcpWire Netif IpOut Icmp Raw Udp IpIn IpPath IcmpPath.
Import ListNotations.
#[local] Open Scope Z_scope.
#[local] Open Scope sm_scope.

(** ** The header *)

Definition wf_udp_hdr (u : udp_hdr) : Prop :=
  fits 16 (uh_src u) /\ fits 16 (uh_dest u) /\ fits 16 (uh_len u) /\ fits 16 (uh_chksum u).

Lemma udp_hdr_bytes_length u : length (udp_hdr_bytes u) = 8%nat.
Proof. reflexivity. Qed.

Lemma udp_hdr_bytes_bytes u : wf_udp_hdr u -> is_bytes (udp_hdr_bytes u).
Proof. intros (?&?&?&?). unfold udp_hdr_bytes. repeat apply Forall_app_2; auto using bytes16_bytes. Qed.

Lemma udp_hdr_at_bytes u l : wf_udp_hdr u -> udp_hdr_at (udp_hdr_bytes u ++ l) = Some u.
Proof.
  intros (H1&H2&H3&H4). destruct u as [a b c d]. cbn [uh_src uh_dest uh_len uh_chksum] in *.
  unfold udp_hdr_bytes. cbn [uh_src uh_dest uh_len uh_chksum]. rewrite !bytes16_div by assumption.
  cbn [app udp_hdr_at]. f_equal. f_equal; zmod_lia.
Qed.

(** The front of a chain. *)
Lemma split_front (a d s : list Z) r : concat (s :: r) = a ++ d -> (length a <= length s)%nat ->
  exists s', s = a ++ s' /\ s' ++ concat r = d.
Proof.
  cbn [concat]. intros E H. exists (drop (length a) s).
  assert (Ea : take (length a) s = a).
  { rewrite <- (take_app_le s (concat r)) by exact H. rewrite E. now rewrite take_app_length. }
  split; [now rewrite <- Ea at 1; rewrite take_drop|].
  rewrite <- drop_app_le by exact H. rewrite E. now rewrite drop_app_length.
Qed.

Lemma payloads_of l : Forall is_bytes l -> tot_len l <= 65535 -> payloads l.
Proof.
  intros B H. rewrite Forall_forall in *. intros s Hs. split; [now apply B|]. pose proof (piece_len s l Hs). lia.
Qed.

(** ** The checksum *)

Section Checksum.
Context (u0 : udp_hdr) (D : list Z) (tx : list (list Z)) (src dest n : Z).
Hypothesis (W : wf_udp_hdr u0) (Z0 : uh_chksum u0 = 0) (Fs : fits 32 src) (Fd : fits 32 dest) (Fn : fits 16 n)
  (Pt : payloads tx) (Et : concat tx = udp_hdr_bytes u0 ++ D).

Abbreviation c := (inet_chksum_pseudo tx src dest IP_PROTO_UDP n).
Abbreviation u := (u0 <| uh_chksum := if c =? 0 then 65535 else c |>).

Lemma udp_sum_nonneg : 0 <= word_sum (concat tx) + pseudo_words src dest IP_PROTO_UDP n.
Proof using Fs Fd Fn Pt.
  pose proof (word_sum_bound _ (is_bytes_concat _ Pt)).
  pose proof (pseudo_words_nonneg src dest IP_PROTO_UDP n Fs Fd ltac:(now split) Fn). lia.
Qed.

Lemma udp_chksum_range : 0 <= c <= 65535.
Proof using Fs Fd Fn Pt.
  rewrite chksum_pseudo_norm by (trivial; now split). pose proof (norm16_range _ udp_sum_nonneg). lia.
Qed.

(** The header is never "without checksum". *)
Lemma udp_filled : wf_udp_hdr u /\ uh_chksum u <> 0.
Proof using W Fs Fd Fn Pt.
  pose proof udp_chksum_range. destruct W as (?&?&?&?). unfold wf_udp_hdr.
  change (uh_chksum u) with (if c =? 0 then 65535 else c). change (uh_src u) with (uh_src u0).
  change (uh_dest u) with (uh_dest u0). change (uh_len u) with (uh_len u0).
  destruct (Z.eqb_spec c 0); (split; [split_and!; trivial|lia]); unfold fits; pow2; lia.
Qed.

(** Whatever chain the receiver has the datagram in, its test succeeds. *)
Lemma udp_verifies rx : payloads rx -> concat rx = udp_hdr_bytes u ++ D ->
  inet_chksum_pseudo rx src dest IP_PROTO_UDP n = 0.
Proof using W Z0 Fs Fd Fn Pt Et.
  intros Pr Er. pose proof udp_chksum_range as Rc. pose proof udp_sum_nonneg as S0.
  rewrite (chksum_pseudo_norm rx) by (trivial; now split).
  assert (Ec : c = 65535 - norm16 (word_sum (concat tx) + pseudo_words src dest IP_PROTO_UDP n))
    by (apply chksum_pseudo_norm; trivial; now split).
  set (v := if c =? 0 then 65535 else c) in *.
  assert (Fv : fits 16 v) by (unfold v, fits; pow2; destruct (c =? 0); lia).
  assert (Ew : word_sum (concat rx) = word_sum (concat tx) + v).
  { set (pre := bytes16 (uh_src u0) ++ bytes16 (uh_dest u0) ++ bytes16 (uh_len u0)).
    assert (E1 : concat rx = pre ++ [v mod 256; v / 256] ++ D).
    { rewrite Er, <- (bytes16_div v Fv). unfold pre. now destruct u0. }
    assert (E2 : concat tx = pre ++ [0; 0] ++ D).
    { rewrite Et. unfold udp_hdr_bytes, pre. rewrite Z0. now rewrite <- !app_assoc. }
    rewrite E1, E2, (word_sum_field pre (v mod 256)) by (exists 3%nat; reflexivity). unfold fits in Fv. pow2. zmod_lia. }
  rewrite Ew. set (s := word_sum (concat tx) + _) in *.
  replace (word_sum (concat tx) + v + _) with (s + v) by (unfold s; ring).
  assert (E : norm16 (s + v) = 65535); [|lia].
  unfold v. destruct (Z.eqb_spec c 0) as [E0|_]; [|now apply norm16_complement].
  assert (N : norm16 s = 65535) by lia. rewrite <- norm16_add_l, N by lia. reflexivity.
Qed.

End Checksum.

(** ** Arrival *)

Definition count_udp (st : stack) : stack := st <| udp_stats ::= fun c => c <| c_recv ::= inc |> |>.

(** The callback of block [y] gets the packet. *)
Definition udp_call (y : nat) (p : list (list Z)) (src sport : Z) (st : stack) : stack :=
  st <| udp_got ::= fun g => g ++ [(y, p, src, sport)] |>.

Definition udp_unwanted : SK unit := udp_stat (fun c => c <| c_proterr ::= inc |> <| c_drop ::= inc |>).

Section Input.
Context {V : Env} {L : Link}.
Context (h : ip_hdr) (u : udp_hdr) (f : bool) (bf s : list Z) (r : list (list Z)) (inp : nat) (i : net_if).
Hypothesis (W : wf_hdr h) (HL : IPH_HL h = 5) (Wu : wf_udp_hdr u).

Abbreviation data := (hdr_bytes h ++ udp_hdr_bytes u ++ s).

Lemma udp_input_found st x : udp_find h (ntohs (uh_src u)) (ntohs (uh_dest u)) st = Some x ->
  udp_input (mkPk f bf (data :: r)) inp st =
    udp_deliver x h u data ((udp_hdr_bytes u ++ s) :: r) (s :: r) inp (count_udp st).
Proof using W HL Wu.
  intros E. unfold udp_input, udp_stat, sm_modify. unfold sm_bind at 1. cbn [chain hd]. rewrite hdr_at_bytes, HL by exact W.
  change (- (UDP_HLEN + 5 * 4)) with (-28). unfold pk_header. cbn [chain fixed before].
  change (-28 =? 0) with false. change (-28 <? 0) with true. cbv beta iota zeta.
  rewrite !length_app, hdr_bytes_length, udp_hdr_bytes_length, (proj2 (Z.leb_le _ _)) by lia.
  change (Z.to_nat (5 * 4)) with (length (hdr_bytes h)). rewrite drop_app_length, udp_hdr_at_bytes by exact Wu.
  fold (count_udp st). assert (E' : udp_find h (ntohs (uh_src u)) (ntohs (uh_dest u)) (count_udp st) = Some x) by exact E.
  rewrite E'. cbn [tl chain]. f_equal.
Qed.

(** A datagram with a good checksum for a block that has a callback. *)
Lemma udp_input_delivers st y b : netifs (s_net st) !! inp = Some i ->
  udp_find h (ntohs (uh_src u)) (ntohs (uh_dest u)) st = Some (Some y) -> udp_blocks st !! y = Some b -> u_recv b = true ->
  udp_bad_chksum h u ((udp_hdr_bytes u ++ s) :: r) = false ->
  udp_input (mkPk f bf (data :: r)) inp st = Some (tt, udp_call y (s :: r) (src h) (ntohs (uh_src u)) (count_udp st)).
Proof using W HL Wu.
  intros Hi Hf Hb Hc C. rewrite (udp_input_found st (Some y) Hf). unfold udp_deliver, the_if. unfold sm_bind at 1.
  change (netifs (s_net (count_udp st))) with (netifs (s_net st)). rewrite Hi, C.
  rewrite (bool_decide_eq_true_2 (Some y <> None)) by discriminate. cbn [orb]. unfold get_udp. unfold sm_bind at 1.
  change (udp_blocks (count_udp st)) with (udp_blocks st). now rewrite Hb, Hc.
Qed.

(** A datagram that no block wants, to one of our addresses. *)
Lemma udp_input_unwanted st : netifs (s_net st) !! inp = Some i ->
  udp_find h (ntohs (uh_src u)) (ntohs (uh_dest u)) st = Some None -> if_addr i = dest h ->
  ip_addr_isbroadcast (dest h) (if_net i) || ip_addr_ismulticast (dest h) = false ->
  udp_bad_chksum h u ((udp_hdr_bytes u ++ s) :: r) = false ->
  udp_input (mkPk f bf (data :: r)) inp st =
    (icmp_dest_unreach data ICMP_DUR_PORT ;;
     udp_unwanted) (count_udp st).
Proof using W HL Wu.
  intros Hi Hf Ha Hb C. rewrite (udp_input_found st None Hf). unfold udp_deliver, the_if. unfold sm_bind at 1.
  change (netifs (s_net (count_udp st))) with (netifs (s_net st)). rewrite Hi, C, Ha, Z.eqb_refl, orb_true_r. now rewrite Hb.
Qed.

End Input.

(** ** Departure *)

(** A bound block [b] at [x], without UDP-Lite, whose peer is reached through the
    interface [i] at [k], and a packet with room for the headers. *)
Record udp_can_send {L : Link} (x : nat) (b : udp_pcb) (k : nat) (i : net_if) (p : pk) (st : stack) : Prop := {
  us_block : udp_blocks st !! x = Some b;
  us_bound : u_local_port b <> 0;
  us_ports : fits 16 (u_local_port b) /\ fits 16 (u_remote_port b);
  us_lite : u_has UDP_FLAGS_UDPLITE b = false;
  us_route : Netif.ip_route (s_net st) (u_remote_ip b) = Some (Some k);
  us_if : netifs (s_net st) !! k = Some i;
  us_fixed : fixed p = false;
  us_room : (28 <= length (before p))%nat;
  us_chain : chain p <> [];
  us_bytes : Forall is_bytes (chain p);
  us_len : tot_len (chain p) <= 65535 - 28;
  us_ttl : fits 8 (u_ttl b); us_tos : fits 8 (u_tos b);
  us_src : fits 32 (u_local_ip b) /\ fits 32 (if_addr i); us_dest : fits 32 (u_remote_ip b);
  us_carried : carried i st (28 + tot_len (chain p))
}.

(** The address the datagram is sent from. *)
Definition udp_src (b : udp_pcb) (i : net_if) : Z :=
  if ip_addr_isany (Some (u_local_ip b)) then if_addr i else u_local_ip b.

(** The header of the datagram with the chain [c] behind it. *)
Definition plain_hdr (b : udp_pcb) (n : Z) : udp_hdr :=
  mkUdpHdr (htons (u_local_port b)) (htons (u_remote_port b)) (htons n) 0.

(** The datagram holds the ports and the length, and its checksum is right or 0. *)
Record datagram (u : udp_hdr) (D : list Z) (src dest sport dport : Z) : Prop := {
  dg_wf : wf_udp_hdr u; dg_src : ntohs (uh_src u) = sport; dg_dest : ntohs (uh_dest u) = dport;
  dg_len : ntohs (uh_len u) = 8 + Z.of_nat (length D);
  dg_chksum : uh_chksum u = 0 \/ forall rx, payloads rx -> concat rx = udp_hdr_bytes u ++ D ->
    inet_chksum_pseudo rx src dest IP_PROTO_UDP (8 + Z.of_nat (length D)) = 0
}.

Section Departure.
Context {V : Env} {L : Link}.

Lemma udp_header_room p : fixed p = false -> (8 <= length (before p))%nat -> chain p <> [] ->
  exists q, udp_header p = Some (Some q) /\ pk_len q = u16 (8 + tot_len (chain p)) /\
    forall u, chain (put_udp_hdr u q) = (udp_hdr_bytes u ++ hd [] (chain p)) :: tl (chain p) /\
      fixed (put_udp_hdr u q) = false /\ length (before (put_udp_hdr u q)) = (length (before p) - 8)%nat.
Proof.
  destruct p as [fx b [|s r]]; cbn [fixed before chain]; [easy|]. intros -> Hb _.
  unfold udp_header, pk_header. cbn [chain fixed before]. change (UDP_HLEN =? 0) with false. change (UDP_HLEN <? 0) with false.
  change (Z.to_nat UDP_HLEN) with 8%nat. cbn [orb]. rewrite (proj2 (Z.ltb_ge _ _)) by (unfold UDP_HLEN; lia).
  eexists. split; [reflexivity|]. assert (Lg : length (drop (length b - 8) b) = 8%nat) by (rewrite length_drop; lia). split.
  - unfold pk_len, tot_len. cbn [chain concat]. rewrite !length_app, Lg. f_equal. lia.
  - intros u. unfold put_udp_hdr. cbn [chain fixed before hd tl]. change (Z.to_nat UDP_HLEN) with 8%nat.
    rewrite drop_app_length' by (symmetry; exact Lg). rewrite length_take. split_and!; [reflexivity | reflexivity | lia].
Qed.

Lemma put_udp_concat u p q : chain (put_udp_hdr u q) = (udp_hdr_bytes u ++ hd [] (chain p)) :: tl (chain p) ->
  concat (chain (put_udp_hdr u q)) = udp_hdr_bytes u ++ concat (chain p).
Proof. intros ->. cbn [concat]. rewrite <- app_assoc. f_equal. destruct (chain p); reflexivity. Qed.

(** The header of the datagram. *)
Lemma udp_build_ok x b k i p st q : udp_can_send x b k i p st -> pk_len q = u16 (8 + tot_len (chain p)) ->
  (forall u, chain (put_udp_hdr u q) = (udp_hdr_bytes u ++ hd [] (chain p)) :: tl (chain p)) ->
  exists u, udp_build b q (udp_src b i) = (u, IP_PROTO_UDP) /\
    datagram u (concat (chain p)) (udp_src b i) (u_remote_ip b) (u_local_port b) (u_remote_port b).
Proof.
  intros [_ _ [Fp1 Fp2] Hl _ _ _ _ Hc B Hn _ _ [Fs1 Fs2] Fd _] Eq Ep. unfold udp_build. rewrite Hl, Eq.
  set (n := 8 + tot_len (chain p)). assert (En : n = 8 + Z.of_nat (length (concat (chain p)))) by reflexivity.
  assert (Fn : fits 16 n) by (unfold fits, n, tot_len in *; pow2; lia). rewrite wrap_small by exact Fn.
  change (_ <| uh_len := htons n |>) with (plain_hdr b n).
  assert (W0 : wf_udp_hdr (plain_hdr b n)) by (split_and!; cbn; try (now apply htons_fits); now split).
  assert (Fs : fits 32 (udp_src b i)) by (unfold udp_src; now case_match).
  eexists. split; [reflexivity|]. destruct (u_has UDP_FLAGS_NOCHKSUM b).
  - constructor; [exact W0 | now apply htons_htons | now apply htons_htons | now rewrite <- En; apply htons_htons | now left].
  - unfold udp_set_chksum. rewrite Ep. set (tx := _ :: _).
    assert (Et : concat tx = udp_hdr_bytes (plain_hdr b n) ++ concat (chain p)).
    { unfold tx. rewrite <- Ep. apply put_udp_concat, Ep. }
    assert (Pt : payloads tx).
    { apply payloads_of.
      - unfold tx. constructor; [apply Forall_app_2; [now apply udp_hdr_bytes_bytes|]|]; destruct (chain p); inversion B; subst; auto; constructor.
      - unfold tot_len. rewrite Et, length_app, udp_hdr_bytes_length. unfold fits in Fn. pow2. lia. }
    destruct (udp_filled (plain_hdr b n) tx (udp_src b i) (u_remote_ip b) n) as [Wu _]; trivial.
    constructor; [exact Wu | now apply htons_htons | now apply htons_htons | rewrite <- En; now apply htons_htons |]. right.
    intros rx Pr Er. rewrite <- En in *. now apply (udp_verifies (plain_hdr b n) (concat (chain p)) tx).
Qed.

End Departure.

Lemma udp_src_of b i : src_of (Some (udp_src b i)) (if_addr i) = udp_src b i.
Proof.
  unfold src_of, udp_src, ip_addr_isany, ip_addr_any. destruct (Z.eqb_spec (u_local_ip b) 0) as [E|N].
  - now destruct (Z.eqb_spec (if_addr i) 0) as [->|].
  - now rewrite (proj2 (Z.eqb_neq _ 0)).
Qed.

Section Sending.
Context {V : Env} {L : Link}.

(** What [udp_send] puts on the wire: the packet of a datagram. *)
Lemma udp_departs x b k i p st : udp_can_send x b k i p st ->
  let n := 28 + tot_len (chain p) in
  exists e st' fr u h, udp_send x p st = Some (e, st') /\
    wire st' = wire st ++ map (fun F => mkFrame k F (u_remote_ip b)) fr /\
    datagram u (concat (chain p)) (udp_src b i) (u_remote_ip b) (u_local_port b) (u_remote_port b) /\
    good_header h n (u_ttl b) IP_PROTO_UDP (udp_src b i) (u_remote_ip b) /\
    sent_as h (udp_hdr_bytes u ++ concat (chain p)) (if_mtu i) fr.
Proof.
  intros C n. pose proof C as [Hb Hp _ _ Hr Hk Hf Hroom Hc B Hn Ft Fo [Fs1 Fs2] Fd Hcar].
  destruct (udp_header_room p Hf ltac:(lia) Hc) as (q & Eq & El & Ep).
  destruct (udp_build_ok x b k i p st q C El (fun u => proj1 (Ep u))) as (u & Eu & Dg).
  destruct (Ep u) as (Ec & Efx & Ebf). pose proof (put_udp_concat u p q Ec) as Ecc.
  assert (Et : tot_len (chain (put_udp_hdr u q)) = 8 + tot_len (chain p)).
  { unfold tot_len. rewrite Ecc, length_app, udp_hdr_bytes_length. lia. }
  assert (S : can_send (put_udp_hdr u q) k i (Some (udp_src b i)) (u_remote_ip b) (u_ttl b) (u_tos b) IP_PROTO_UDP st).
  { constructor; trivial; rewrite ?Et; try (rewrite udp_src_of; unfold udp_src; now case_match).
    - lia.
    - rewrite Ec. discriminate.
    - unfold tot_len in *. lia.
    - now split.
    - now rewrite Z.add_assoc. }
  destruct (departs _ _ _ _ _ _ _ _ _ S) as (e & st' & fr & E & Hw & _ & G & Sa). rewrite udp_src_of, Et, Z.add_assoc in G.
  rewrite udp_src_of, Et, Ecc in Sa. rewrite Z.add_assoc in Sa.
  exists e, (st' <| udp_stats ::= fun c => c <| c_xmit ::= inc |> |>), fr, u,
    (packet_hdr (20 + 8 + tot_len (chain p)) (u_ttl b) (u_tos b) IP_PROTO_UDP (udp_src b i) (u_remote_ip b)).
  split; [|split_and!; [exact Hw | exact Dg | exact G | exact Sa]].
  unfold udp_send, udp_ensure_port, get_udp. unfold sm_bind at 1 2. rewrite Hb, (proj2 (Z.eqb_neq _ 0)) by exact Hp.
  unfold sm_ret at 1. cbn [Z.eqb negb]. change (ERR_OK =? ERR_OK) with true. cbn [negb]. unfold sm_bind at 1. rewrite Hb, Hr, Eq.
  unfold the_if. unfold sm_bind at 1. rewrite Hk. fold (udp_src b i). rewrite Eu. unfold sm_bind. now rewrite E.
Qed.

End Sending.

(** The receiver finds nothing wrong. *)
Lemma udp_good_chksum h u D src dest sport dport s r : datagram u D src dest sport dport ->
  IPH_PROTO h = IP_PROTO_UDP -> IpFrag.src h = src -> IpFrag.dest h = dest -> s ++ concat r = D ->
  Forall is_bytes r -> is_bytes s -> 8 + Z.of_nat (length D) <= 65535 ->
  udp_bad_chksum h u ((udp_hdr_bytes u ++ s) :: r) = false.
Proof.
  intros [W _ _ _ C] Hp <- <- E Br Bs Hl. unfold udp_bad_chksum. rewrite Hp.
  change (IP_PROTO_UDP =? IP_PROTO_UDPLITE) with false. cbv iota. destruct C as [-> | C]; [reflexivity|].
  set (q := _ :: r). assert (Eq : concat q = udp_hdr_bytes u ++ D) by (unfold q; cbn [concat]; now rewrite <- app_assoc, E).
  assert (Tq : tot_len q = 8 + Z.of_nat (length D)) by (unfold tot_len; rewrite Eq, length_app, udp_hdr_bytes_length; lia).
  assert (Pq : payloads q).
  { apply payloads_of; [|lia]. constructor; [apply Forall_app_2; [now apply udp_hdr_bytes_bytes | exact Bs] | exact Br]. }
  rewrite Tq, wrap_small by (unfold fits; pow2; lia). rewrite (C q Pq Eq). apply andb_false_r.
Qed.

Lemma is_bytes_split s r D : s ++ concat r = D -> is_bytes D -> is_bytes s /\ Forall is_bytes r.
Proof.
  intros <- B. apply Forall_app in B as [Bs Br]. split; [exact Bs|]. clear -Br. induction r as [|a r IH]; [constructor|].
  cbn [concat] in Br. apply Forall_app in Br as [? ?]. constructor; auto.
Qed.

(** A stack that has a block for the datagrams from [src], [sport] to [dest],
    [dport]: the block is at [y], with a callback. *)
Record udp_can_receive {PP : PbufPool} (rx : stack) (inp : nat) (j : net_if) (y : nat) (src dest sport dport n : Z) : Prop := {
  ur_ours : for_us rx dest;
  ur_idle : can_receive rx n;
  ur_first : first_holds 28 n;
  ur_raw : raw_pcbs rx = [];
  ur_if : netifs (s_net rx) !! inp = Some j;
  ur_find h : IpFrag.src h = src -> IpFrag.dest h = dest -> udp_find h sport dport rx = Some (Some y);
  ur_block : exists c, udp_blocks rx !! y = Some c /\ u_recv c = true
}.

(** A packet of UDP, whole or reassembled, in front of [udp_input]. *)
Lemma datagram_front q h u D : concat (chain q) = hdr_bytes h ++ udp_hdr_bytes u ++ D ->
  (28 <= length (hd [] (chain q)))%nat ->
  exists fx bf s r, q = mkPk fx bf ((hdr_bytes h ++ udp_hdr_bytes u ++ s) :: r) /\ s ++ concat r = D.
Proof.
  intros E Hf. destruct q as [fx bf [|a r]]; cbn [chain hd fixed before] in *; [cbn in Hf; lia|].
  rewrite app_assoc in E. destruct (split_front _ _ _ _ E) as (s & -> & Es).
  - rewrite length_app, hdr_bytes_length, udp_hdr_bytes_length. lia.
  - exists fx, bf, s, r. split; [now rewrite <- app_assoc | exact Es].
Qed.

Section RoundTrip.
Context {V1 : Env} {L1 : Link} {V : Env} {A : App} {L2 : Link} {R : RawApp} {PP : PbufPool}.

(** C2: A datagram arrives at the application as it was sent.  What [udp_send]
    of a bound block (not of UDP-Lite; with or without checksum) sends, whole or
    in fragments and in any order, makes one call of the callback of the peer's
    block, with the data, the sender's address and port; nothing is sent back. *)
Theorem udp_roundtrip x b k i p st : udp_can_send (L := L1) x b k i p st ->
  let n := 28 + tot_len (chain p) in
  exists e st' fr, udp_send (V := V1) (L := L1) x p st = Some (e, st') /\
    wire st' = wire st ++ map (fun F => mkFrame k F (u_remote_ip b)) fr /\
    forall order inp rx j y, order ≡ₚ fr ->
      udp_can_receive rx inp j y (udp_src b i) (u_remote_ip b) (u_local_port b) (u_remote_port b) n ->
      exists rx' q, ip_input_all (L := L2) (map in_pbuf order) inp rx = Some (tt, rx') /\ concat q = concat (chain p) /\
        udp_got rx' = udp_got rx ++ [(y, q, udp_src b i, u_local_port b)] /\ wire rx' = wire rx.
Proof.
  intros C n. destruct (udp_departs (V := V1) x b k i p st C) as (e & st' & fr & u & h & E & Hw & Dg & G & Sa).
  fold n in G. exists e, st', fr. split; [exact E|]. split; [exact Hw|].
  intros order inp rx j y P [U Hr H28 Hraw Hj Hfind (c & Hc & Hcb)]. pose proof (us_len _ _ _ _ _ _ C) as Hn.
  pose proof (us_bytes _ _ _ _ _ _ C) as B. set (D := concat (chain p)) in *.
  assert (Bd : is_bytes D) by (unfold D; now apply Forall_concat).
  assert (En : n = 20 + Z.of_nat (length (udp_hdr_bytes u ++ D))).
  { rewrite length_app, udp_hdr_bytes_length. unfold n, tot_len. fold D. lia. }
  assert (Ld : tot_len (chain p) = Z.of_nat (length D)) by reflexivity.
  destruct (arrives (L := L2) h _ n _ _ _ _ _ fr order inp rx Sa G En) as (q & rx' & Ei & (cs & rs & -> & _) & Hfirst & h' & Ec & G');
    try assumption; [rewrite length_app, udp_hdr_bytes_length; lia | lia |].
  destruct (datagram_front q h' u D Ec) as (fx & bf & s & r & -> & Es); [apply Hfirst; [lia | exact H28]|].
  destruct (is_bytes_split s r D Es Bd) as [Bs Br]. destruct G' as [W' HV' HL' Hn' Ht' Hp' Hs' Hd' _ _].
  cbn [chain fixed before] in *. rewrite Ei. rewrite (ip_upper_proto h'); [|exact Hraw|now apply hdr_at_bytes].
  rewrite Hp'. change (IP_PROTO_UDP =? IP_PROTO_UDP) with true. cbn [orb].
  pose proof Dg as [Wu Esp Edp _ _].
  rewrite (udp_input_delivers h' u fx bf s r inp j W' HL' Wu _ y c); trivial.
  - eexists _, (s :: r). split; [reflexivity|]. split; [exact Es|]. rewrite Hs', Esp. split; reflexivity.
  - rewrite Esp, Edp. now apply Hfind.
  - apply (udp_good_chksum h' u D _ _ _ _ s r Dg); trivial. lia.
Qed.

End RoundTrip.

(** A host with one control block. *)
Definition udp_host (addr mtu : Z) (y : nat) (b : udp_pcb) : stack :=
  (host addr mtu) <| udp_blocks := {[y := b]} |> <| udp_pcbs := [y] |>.

Definition client : udp_pcb := mkUdp 0 A2 0 UDP_TTL UDP_FLAGS_CONNECTED 4096 7 0 true.
Definition server : udp_pcb := mkUdp 0 0 0 UDP_TTL 0 7 0 0 true.

Lemma demo_data_bytes n : is_bytes (demo_data n).
Proof.
  unfold demo_data. apply Forall_forall. intros z Hz. apply list_elem_of_fmap in Hz as (i & -> & _).
  unfold fits. pow2. zmod_lia.
Qed.

Lemma client_can_send n mtu : 50 <= Z.of_nat n <= 900 -> mtu = 0 \/ 92 <= mtu <= 1500 ->
  udp_can_send (L := plain_link) 5 client 0 (host_if A1 mtu) (demo_pk n) (udp_host A1 mtu 5 client).
Proof.
  intros Hn Hm. assert (E : tot_len (chain (demo_pk n)) = Z.of_nat n).
  { unfold tot_len, demo_pk, demo_data. cbn [chain concat]. rewrite app_nil_r, take_drop.
    now rewrite length_map, length_seq. }
  constructor; rewrite ?E; try (split; reflexivity || discriminate); try reflexivity; try lia.
  - discriminate.
  - repeat split; discriminate.
  - cbn [demo_pk before]. rewrite length_replicate. lia.
  - discriminate.
  - pose proof (demo_data_bytes n) as B. cbn [demo_pk chain]. repeat constructor.
    + now apply Forall_take.
    + now apply Forall_drop.
  - repeat split; discriminate.
  - unfold carried, MAX_MTU, IP_REASS_BUFSIZE, IP_HLEN. cbn [host_if if_mtu].
    destruct Hm as [?|?]; [now left|]. right. destruct (Z_le_dec (28 + Z.of_nat n) mtu); [now left|]. right.
    split; [lia|]. split; [lia|]. split; [reflexivity|]. split; [reflexivity|]. reflexivity.
Qed.

Lemma server_can_receive mtu n : 28 <= n <= 1000 ->
  udp_can_receive (PP := demo_pool) (udp_host A2 mtu 9 server) 0 (host_if A2 mtu) 9 A1 A2 4096 7 n.
Proof.
  intros Hn. constructor; try reflexivity.
  - assert (N : A2 <> 0) by discriminate. exact (host_for_us A2 mtu N).
  - apply (host_can_receive A2 mtu n). lia.
  - unfold first_holds, pool_alloc, demo_pool, demo_alloc. intros p. rewrite (proj2 (Z.leb_le 0 n)), (proj2 (Z.leb_le n 2034)) by lia.
    intros [= <-]. cbn [hd andb]. rewrite length_replicate. lia.
  - exists server. split; reflexivity.
Qed.

Lemma udp_roundtrip_witness :
  exists e st' f0 f1 f2 f3, udp_send (V := plain_env) (L := plain_link) 5 (demo_pk 300) (udp_host A1 100 5 client) = Some (e, st') /\
    wire st' = map (fun F => mkFrame 0 F A2) [f0; f1; f2; f3] /\
    exists rx' q, ip_input_all (V := plain_env) (A := quiet_app) (L := plain_link) (R := quiet_raw) (PP := demo_pool)
        (map in_pbuf [f2; f0; f3; f1]) 0 (udp_host A2 1500 9 server) = Some (tt, rx') /\
      concat q = demo_data 300 /\ udp_got rx' = [(9%nat, q, A1, 4096)].
Proof.
  assert (W : exists x, (snd <$> udp_send (V := plain_env) (L := plain_link) 5 (demo_pk 300) (udp_host A1 100 5 client)) = Some x /\
    length (wire x) = 4%nat) by (eexists; split; [vm_compute; reflexivity | reflexivity]).
  destruct (udp_roundtrip (V1 := plain_env) (L1 := plain_link) (V := plain_env) (A := quiet_app) (L2 := plain_link)
    (R := quiet_raw) (PP := demo_pool) 5 client 0 (host_if A1 100) (demo_pk 300) (udp_host A1 100 5 client))
    as (e & st' & fr & E & Hw & H).
  - apply client_can_send; lia.
  - rewrite E in W. destruct W as (x & [= <-] & Ln). rewrite Hw in Ln. change (wire (udp_host A1 100 5 client)) with (@nil frame) in *.
    cbn [app] in *. rewrite length_map in Ln.
    destruct fr as [|f0 [|f1 [|f2 [|f3 [|]]]]]; try discriminate Ln.
    exists e, st', f0, f1, f2, f3. split; [exact E|]. split; [exact Hw|].
    destruct (H [f2; f0; f3; f1] 0%nat (udp_host A2 1500 9 server) (host_if A2 1500) 9%nat) as (rx' & q & Ei & Eq & Eg & _).
    + exact (Permutation_trans (perm_swap _ _ _) (perm_skip _ (Permutation_trans (perm_skip _ (perm_swap _ _ _)) (perm_swap _ _ _)))).
    + apply (server_can_receive 1500 328). lia.
    + exists rx', q. split; [exact Ei|]. split; [exact Eq | exact Eg].
Defined.
