(* ===== verification/UdpBack.v ===== *)
(** * UdpBack: datagrams that nobody wants

    What [udp_input] does with them: the ICMP message that goes back, and the
    datagrams of UDP-Lite, none of which arrives. *)
From Stdlib Require Import ZArith Lia List Bool.
From stdpp Require Import base gmap list.
From coqutil Require Import Datatypes.RecordSetters.
From S2P Require Import IpFrag Prelude Inet IpAddr Tcp TcpOut TcpPcb TcpIn TcpInput TcpWire Netif IpOut Icmp Raw Udp IpIn IpPath IcmpPath UdpPath.
Import ListNotations.
#[local] Open Scope Z_scope.
#[local] Open Scope sm_scope.

(** ** Destination unreachable *)

(** The two macros set type and code, whatever was there. *)
Lemma unreach_type x t : 0 <= t < 256 -> bytes16 (ICMPH_CODE_SET t (ICMPH_TYPE_SET ICMP_DUR x)) = [ICMP_DUR; t].
Proof.
  intros Ht. unfold ICMPH_CODE_SET, ICMPH_TYPE_SET, ICMPH_CODE, ICMPH_TYPE, ntohs. rewrite land255.
  set (k := htons x mod 256). assert (Fk : fits 8 k) by (unfold k, fits; pow2; zmod_lia). unfold ICMP_DUR.
  rewrite (lor_byte 3 k) by (trivial; lia). unfold fits in Fk. pow2. rewrite (wrap_small 16 (256 * 3 + k)) by (unfold fits; pow2; lia).
  rewrite htons_htons by (unfold fits; pow2; lia). rewrite shiftr_div by lia. pow2.
  replace ((256 * 3 + k) / 256) with 3 by zmod_lia. rewrite lor_byte by (lia || (unfold fits; pow2; lia)).
  rewrite wrap_small by (unfold fits; pow2; lia). rewrite htons_div by (unfold fits; pow2; lia).
  rewrite bytes16_div by (unfold fits; pow2; zmod_lia). f_equal; [zmod_lia|]. f_equal. zmod_lia.
Qed.

(** The message with its checksum filled in; [g] is the field [unused]. *)
Lemma unreach_chksum t g copy : 0 <= t < 256 -> is_bytes g -> is_bytes copy -> length g = 4%nat -> length copy = 28%nat ->
  let c := inet_chksum ([ICMP_DUR; t] ++ [0; 0] ++ g ++ copy) in
  fits 16 c /\ inet_chksum ([ICMP_DUR; t] ++ [c mod 256; c / 256] ++ g ++ copy) = 0.
Proof.
  intros Ht Bg Bc Lg Lc c. assert (Bm : is_bytes ([ICMP_DUR; t] ++ [0; 0] ++ g ++ copy)).
  { apply Forall_app_2; [|apply Forall_app_2; [|now apply Forall_app_2]].
    - constructor; [now split|]. constructor; [|constructor]. unfold fits. pow2. lia.
    - repeat (constructor; [now split|]). constructor. }
  assert (Lm : Z.of_nat (length ([ICMP_DUR; t] ++ [0; 0] ++ g ++ copy)) <= 65535) by (rewrite !length_app, Lg, Lc; cbn; lia).
  split; [|apply (chksum_filled [ICMP_DUR; t] (g ++ copy) Bm Lm); now exists 1%nat].
  unfold c. rewrite inet_chksum_norm by assumption. pose proof (word_sum_bound _ Bm).
  pose proof (norm16_range (word_sum ([ICMP_DUR; t] ++ [0; 0] ++ g ++ copy)) ltac:(lia)). unfold fits. pow2. lia.
Qed.

Section Unreachable.
Context {V : Env} {L : Link}.

(** What [icmp_dest_unreach] sends: 4 bytes of the message are what the memory
    held. *)
Lemma icmp_dest_unreach_sends h d t k j st : 0 <= t < 256 -> wf_hdr h -> (8 <= length d)%nat -> is_bytes d ->
  pbuf_ok = true -> is_bytes (fresh 36) -> Netif.ip_route (s_net st) (src h) = Some (Some k) ->
  netifs (s_net st) !! k = Some j -> fits 32 (if_addr j) -> if_mtu j = 0 \/ 56 <= if_mtu j ->
  exists st' h2 g c0 c1, icmp_dest_unreach (hdr_bytes h ++ d) t st = Some (tt, st') /\
    let m := [ICMP_DUR; t; c0; c1] ++ g ++ hdr_bytes h ++ take 8 d in
    wire st' = wire st ++ [mkFrame k (hdr_bytes h2 ++ m) (src h)] /\ same_apps st st' /\
    good_header h2 56 ICMP_TTL IP_PROTO_ICMP (if_addr j) (src h) /\ inet_chksum m = 0 /\ g = take 4 (drop 4 (fresh 36)).
Proof.
  intros Ht W Hd B Ok Bf Hr Hk Fa Hm. pose proof (fresh_length 36) as Lf. unfold icmp_dest_unreach. rewrite Ok. cbn [negb].
  destruct (fresh 36) as [|t0 [|t1 [|t2 [|t3 u]]]]; try discriminate Lf. cbn [length] in Lf.
  rewrite memcpy_ok by (rewrite length_app, hdr_bytes_length; unfold IP_HLEN; lia). rewrite hdr_at_bytes by exact W.
  change (Z.to_nat (IP_HLEN + 8)) with (length (hdr_bytes h) + 8)%nat. rewrite take_app_add.
  set (tc := ICMPH_CODE_SET t _). assert (Etc : bytes16 tc = [ICMP_DUR; t]) by now apply unreach_type.
  set (g := take 4 u). set (copy := hdr_bytes h ++ take 8 d). rewrite !Etc.
  change (bytes16 0) with [0; 0]. set (c := inet_chksum _).
  assert (Lg : length g = 4%nat) by (unfold g; rewrite length_take; lia).
  assert (Lc : length copy = 28%nat) by (unfold copy; rewrite length_app, hdr_bytes_length, length_take; lia).
  destruct (unreach_chksum t g copy) as [Fc C0]; trivial.
  { do 4 (apply Forall_cons in Bf as [_ Bf]). now apply Forall_take. }
  { apply Forall_app_2; [now apply hdr_bytes_bytes | now apply Forall_take]. }
  fold c in Fc, C0.
  rewrite (bytes16_div c Fc). set (m := [ICMP_DUR; t] ++ [c mod 256; c / 256] ++ g ++ copy) in *.
  assert (Lm : tot_len [m] = 36).
  { unfold tot_len. cbn [concat]. rewrite app_nil_r. unfold m. rewrite !length_app, Lg, Lc. reflexivity. }
  set (st1 := st <| icmp_stats ::= fun c => c <| c_xmit ::= inc |> |>).
  destruct (departs (mkPk false (room IP_ROOM) [m]) k j None (src h) ICMP_TTL 0 IP_PROTO_ICMP st1) as (e & st' & fr & E & Hw & En & G & Sa).
  { constructor; cbn [fixed before chain]; rewrite ?Lm, ?room_length; trivial; try lia; try (split; [discriminate | reflexivity]).
    - unfold IP_ROOM. lia.
    - discriminate.
    - apply W.
    - unfold carried. destruct Hm as [|]; [now left | right; left; lia]. }
  cbn [chain] in *. rewrite Lm in G, Sa. unfold src_of in *.
  exists st', (packet_hdr (20 + 36) ICMP_TTL 0 IP_PROTO_ICMP (if_addr j) (src h)), g, (c mod 256), (c / 256).
  split_and!; trivial.
  - unfold icmp_stat, sm_modify. unfold sm_bind at 1. fold st1. unfold sm_bind, ip_output.
    change (s_net st1) with (s_net st). now rewrite Hr, E.
  - destruct Sa as [[-> _]|(Bad & Bad2 & _)]; [|exfalso; cbn [concat] in Bad; rewrite app_nil_r in Bad].
    + rewrite Hw. cbn [map concat]. now rewrite app_nil_r.
    + unfold tot_len in Lm. cbn [concat] in Lm. rewrite app_nil_r in Lm. lia. 
Qed.

End Unreachable.

Section Port.
Context {V : Env} {A : App} {L : Link} {R : RawApp} {PP : PbufPool}.

(** C9: A datagram to a port that nobody has is answered.  A whole datagram for
    our address, its checksum right or absent, for which no control block is
    found: no callback is made, and one frame goes back to the sender, on the
    interface that leads there: an ICMP message "destination unreachable, port",
    with a right checksum and the IP header and first 8 bytes of the datagram;
    the four bytes of its field [unused] are what the memory of the pbuf held. *)
Theorem udp_port_unreachable h u D n ttl src dest sport dport inp i k j rx :
  good_header h n ttl IP_PROTO_UDP src dest -> datagram u D src dest sport dport -> is_bytes D ->
  n = 28 + Z.of_nat (length D) -> n <= 65535 ->
  for_us rx dest -> raw_pcbs rx = [] -> netifs (s_net rx) !! inp = Some i -> if_addr i = dest ->
  ip_addr_isbroadcast dest (if_net i) || ip_addr_ismulticast dest = false ->
  udp_find h sport dport rx = Some None ->
  pbuf_ok = true -> is_bytes (fresh 36) -> Netif.ip_route (s_net rx) src = Some (Some k) ->
  netifs (s_net rx) !! k = Some j -> fits 32 (if_addr j) -> if_mtu j = 0 \/ 56 <= if_mtu j ->
  exists st' h2 g c0 c1, ip_input (in_pbuf (hdr_bytes h ++ udp_hdr_bytes u ++ D)) inp rx = Some (tt, st') /\
    let m := [ICMP_DUR; ICMP_DUR_PORT; c0; c1] ++ g ++ hdr_bytes h ++ udp_hdr_bytes u in
    wire st' = wire rx ++ [mkFrame k (hdr_bytes h2 ++ m) src] /\
    good_header h2 56 ICMP_TTL IP_PROTO_ICMP (if_addr j) src /\ inet_chksum m = 0 /\
    g = take 4 (drop 4 (fresh 36)) /\ udp_got st' = udp_got rx.
Proof.
  intros G Dg B En Hn U Hraw Hi Ha Hb Hf Ok Bf Hr Hk Fa Hm. pose proof G as [W HV HL _ _ Hp Hs Hd _ _].
  pose proof Dg as [Wu Es Ed _ _]. rewrite (ip_input_whole h _ n ttl IP_PROTO_UDP src dest); trivial.
  2:{ rewrite length_app, udp_hdr_bytes_length. lia. }
  rewrite (ip_upper_proto h); [|exact Hraw|now apply hdr_at_bytes]. rewrite Hp.
  change (IP_PROTO_UDP =? IP_PROTO_UDP) with true. cbn [orb].
  rewrite (udp_input_unwanted h u false [] D [] inp i W HL Wu); [|exact Hi|now rewrite Es, Ed|now rewrite Hd|now rewrite Hd|].
  2:{ apply (udp_good_chksum h u D src dest sport dport D [] Dg); trivial; [apply app_nil_r | lia]. }
  destruct (icmp_dest_unreach_sends h (udp_hdr_bytes u ++ D) ICMP_DUR_PORT k j (count_udp (count_recv rx)))
    as (st' & h2 & g & c0 & c1 & E & Hw & En' & G2 & C & Eg); rewrite ?Hs; trivial; [now split | | |].
  - rewrite length_app, udp_hdr_bytes_length. lia.
  - apply Forall_app_2; [now apply udp_hdr_bytes_bytes | exact B].
  - eexists _, h2, g, c0, c1. unfold sm_bind. rewrite E. split; [reflexivity|].
    change 8%nat with (length (udp_hdr_bytes u)) in Hw, C. rewrite take_app_length, ?Hs in Hw. rewrite take_app_length in C.
    rewrite Hs in G2. split_and!; trivial. apply En'.
Qed.

End Port.

Lemma udp_port_unreachable_witness :
  let h := packet_hdr 32 64 0 IP_PROTO_UDP A1 A2 in let u := mkUdpHdr (htons 4096) (htons 7) (htons 12) 0 in
  exists st' h2 c0 c1, ip_input (V := plain_env) (A := quiet_app) (L := plain_link) (R := quiet_raw) (PP := demo_pool)
      (in_pbuf (hdr_bytes h ++ udp_hdr_bytes u ++ [1; 2; 3; 4])) 0 (host A2 1500) = Some (tt, st') /\
    wire st' = [mkFrame 0 (hdr_bytes h2 ++ [3; 3; c0; c1] ++ [170; 170; 170; 170] ++ hdr_bytes h ++ udp_hdr_bytes u) A1] /\
    good_header h2 56 255 IP_PROTO_ICMP A2 A1.
Proof.
  intros h u. destruct (udp_port_unreachable (V := plain_env) (A := quiet_app) (L := plain_link) (R := quiet_raw) (PP := demo_pool)
    h u [1; 2; 3; 4] 32 64 A1 A2 4096 7 0 (host_if A2 1500) 0 (host_if A2 1500) (host A2 1500))
    as (st' & h2 & g & c0 & c1 & E & Hw & G & _ & Eg & _).
  - apply packet_hdr_good; split; reflexivity || discriminate.
  - constructor; try reflexivity; [repeat split; discriminate | now left].
  - repeat (constructor; [split; reflexivity || discriminate|]). constructor.
  - reflexivity.
  - discriminate.
  - apply host_for_us. discriminate.
  - reflexivity.
  - reflexivity.
  - reflexivity.
  - reflexivity.
  - reflexivity.
  - reflexivity.
  - change (is_bytes (replicate 36 170)). apply Forall_replicate. now split.
  - reflexivity.
  - reflexivity.
  - now split.
  - right. discriminate.
  - exists st', h2, c0, c1. split; [exact E|]. subst g. split; [exact Hw | exact G].
Defined.

(** ** UDP-Lite *)

Section Lite.
Context (u0 : udp_hdr) (D : list Z) (tx : list (list Z)) (src dest n : Z).
Hypothesis (W : wf_udp_hdr u0) (Z0 : uh_chksum u0 = 0) (Fs : fits 32 src) (Fd : fits 32 dest) (Fn : fits 16 n)
  (Pt : payloads tx) (Et : concat tx = udp_hdr_bytes u0 ++ D).

Abbreviation c := (inet_chksum_pseudo tx src dest IP_PROTO_UDP n).
Abbreviation u := (u0 <| uh_chksum := if c =? 0 then 65535 else c |>).

(** A sum made with one protocol number is not right for the other. *)
Lemma lite_fails rx : payloads rx -> concat rx = udp_hdr_bytes u ++ D ->
  inet_chksum_pseudo rx src dest IP_PROTO_UDPLITE n <> 0.
Proof using W Z0 Fs Fd Fn Pt Et.
  intros Pr Er. pose proof (udp_verifies u0 D tx src dest n W Z0 Fs Fd Fn Pt Et rx Pr Er) as E.
  rewrite (chksum_pseudo_norm rx) in * by (trivial; now split). pose proof (word_sum_bound _ (is_bytes_concat _ Pr)) as B.
  pose proof (pseudo_words_nonneg src dest IP_PROTO_UDP n Fs Fd ltac:(now split) Fn) as P.
  assert (Ep : pseudo_words src dest IP_PROTO_UDPLITE n = pseudo_words src dest IP_PROTO_UDP n + 39168).
  { unfold pseudo_words. change (htons IP_PROTO_UDPLITE) with 43520. change (htons IP_PROTO_UDP) with 4352. lia. }
  rewrite Ep. set (s := word_sum (concat rx) + _) in E. replace (word_sum (concat rx) + _) with (s + 39168) by (unfold s; ring).
  assert (S0 : 0 <= s) by (unfold s; lia). clearbody s. unfold norm16 in *. destruct (Z.eqb_spec s 0); [lia|].
  destruct (Z.eqb_spec (s + 39168) 0); [lia|]. zmod_lia.
Qed.

End Lite.

(** C38: No datagram of UDP-Lite arrives.  For a block with the flag, [udp_send]
    builds the checksum with the protocol number of UDP and sends the packet with
    that of UDP-Lite; however the receiver holds the datagram, the test of
    [udp_input] fails, so that the datagram is counted as bad and dropped. *)
Theorem udplite_never_arrives b p q src_ip : u_has UDP_FLAGS_UDPLITE b = true ->
  fits 16 (u_local_port b) -> fits 16 (u_remote_port b) -> fits 16 (u_chksum_len b) -> fits 32 src_ip -> fits 32 (u_remote_ip b) ->
  fixed p = false -> (8 <= length (before p))%nat -> chain p <> [] -> Forall is_bytes (chain p) ->
  tot_len (chain p) <= 65535 - 8 -> pk_header UDP_HLEN p = Some (false, q) ->
  exists u, udp_build b q src_ip = (u, IP_PROTO_UDPLITE) /\
    forall h rx, IPH_PROTO h = IP_PROTO_UDPLITE -> IpFrag.src h = src_ip -> IpFrag.dest h = u_remote_ip b -> payloads rx ->
      concat rx = udp_hdr_bytes u ++ concat (chain p) -> udp_bad_chksum h u rx = true.
Proof.
  intros Hl F1 F2 Fn Fs Fd Hfix Hroom Hc B Hlen Eq.
  destruct (udp_header_room (V := plain_env) (L := plain_link) p Hfix Hroom Hc) as (q' & Eh & _ & Ep).
  assert (q' = q) as -> by (unfold udp_header in Eh; rewrite Eq in Eh; congruence).
  set (u0 := mkUdpHdr (htons (u_local_port b)) (htons (u_remote_port b)) (htons (u_chksum_len b)) 0).
  assert (W0 : wf_udp_hdr u0) by (split_and!; cbn; try (now apply htons_fits); now split).
  pose proof (put_udp_concat u0 p q (proj1 (Ep u0))) as Et.
  assert (Pt : payloads (chain (put_udp_hdr u0 q))).
  { apply payloads_of.
    - rewrite (proj1 (Ep u0)). constructor; [apply Forall_app_2; [now apply udp_hdr_bytes_bytes|]|];
        destruct (chain p); inversion B; subst; auto; constructor.
    - unfold tot_len in *. rewrite Et, length_app, udp_hdr_bytes_length. lia. }
  unfold udp_build. rewrite Hl. eexists. split; [reflexivity|]. change (_ <| uh_len := htons (u_chksum_len b) |>) with u0.
  intros h rx Hp <- Hd Pr Er. rewrite <- Hd in *. unfold udp_bad_chksum. rewrite Hp, Z.eqb_refl.
  change (ntohs (uh_len (udp_set_chksum u0 q (IpFrag.src h) (IpFrag.dest h) (u_chksum_len b)))) with (ntohs (htons (u_chksum_len b))).
  unfold ntohs. rewrite htons_htons by exact Fn. apply negb_true_iff, Z.eqb_neq.
  now apply (lite_fails u0 (concat (chain p)) (chain (put_udp_hdr u0 q))).
Qed.

Definition lite_client : udp_pcb := mkUdp 0 A2 0 UDP_TTL UDP_FLAGS_UDPLITE 4096 7 8 true.

Lemma udplite_never_arrives_witness : exists q u, pk_header UDP_HLEN (demo_pk 60) = Some (false, q) /\
  udp_build lite_client q A1 = (u, IP_PROTO_UDPLITE) /\
  udp_bad_chksum (packet_hdr 88 64 0 IP_PROTO_UDPLITE A1 A2) u [udp_hdr_bytes u ++ demo_data 60] = true.
Proof.
  eexists. destruct (udplite_never_arrives lite_client (demo_pk 60)
    (mkPk false (replicate 26 170) [replicate 8 170 ++ take 50 (demo_data 60); drop 50 (demo_data 60)]) A1) as (u & E & H).
  - reflexivity.
  - now split.
  - now split.
  - now split.
  - now split.
  - now split.
  - reflexivity.
  - apply Nat.leb_le. reflexivity.
  - discriminate.
  - pose proof (demo_data_bytes 60) as B. constructor; [now apply Forall_take|]. constructor; [now apply Forall_drop | constructor].
  - discriminate.
  - reflexivity.
  - exists u. split; [reflexivity|]. split; [exact E|]. apply H; [reflexivity | reflexivity | reflexivity | |].
    + pose proof (f_equal (fun x => uh_chksum (fst x)) E) as Ec.
      assert (W : exists v, fst (udp_build lite_client
        (mkPk false (replicate 26 170) [replicate 8 170 ++ take 50 (demo_data 60); drop 50 (demo_data 60)]) A1) = v /\
          wf_udp_hdr v) by (eexists; split; [vm_compute; reflexivity | repeat split; discriminate]).
      destruct W as (v & Ev & Wv). rewrite E in Ev. cbn [fst] in Ev. subst v.
      constructor; [|constructor]. split; [|vm_compute; discriminate].
      apply Forall_app_2; [now apply udp_hdr_bytes_bytes | apply demo_data_bytes].
    + cbn [concat demo_pk chain]. now rewrite !app_nil_r, take_drop.
Defined.

(** ** Binding *)

Lemma existsb_in p l : existsb (Z.eqb p) l = true <-> p ∈ l.
Proof.
  rewrite existsb_exists. split.
  - intros (x & Hx & E). apply Z.eqb_eq in E as ->. now apply list_elem_of_In.
  - intros H. exists p. split; [now apply list_elem_of_In | apply Z.eqb_refl].
Qed.

(** The search ends within its fuel, with the first port from [port] on that is
    not on the list, or with none below the end of the range. *)
Lemma udp_port_loop_ends ports : forall fuel port, UDP_LOCAL_PORT_RANGE_START <= port <= UDP_LOCAL_PORT_RANGE_END ->
  UDP_LOCAL_PORT_RANGE_END - port < Z.of_nat fuel ->
  exists r, udp_port_loop fuel ports port = Done r /\
    match r with
    | Some p => port <= p /\ (p ∉ ports) /\ (forall q, port <= q < p -> q ∈ ports) /\ (p < UDP_LOCAL_PORT_RANGE_END \/ ports = [])
    | None => forall q, port <= q < UDP_LOCAL_PORT_RANGE_END -> q ∈ ports
    end.
Proof.
  unfold UDP_LOCAL_PORT_RANGE_START, UDP_LOCAL_PORT_RANGE_END. induction fuel as [|fuel IH]; intros port Hp Hf; [lia|].
  cbn [udp_port_loop]. destruct (Nat.eqb_spec (length ports) 0) as [E0|E0]; cbn [negb andb].
  - apply length_zero_iff_nil in E0 as ->. cbn [existsb]. exists (Some port). split; [reflexivity|].
    split; [lia|]. split; [apply not_elem_of_nil|]. split; [lia | now right].
  - unfold UDP_LOCAL_PORT_RANGE_END. destruct (Z.eqb_spec port 32767) as [->|N]; [exists None; split; [reflexivity | lia]|].
    destruct (existsb (Z.eqb port) ports) eqn:Ex.
    + apply existsb_in in Ex. rewrite wrap_small by (unfold fits; pow2; lia).
      destruct (IH (port + 1)) as (r & -> & Hr); [lia|lia|]. exists r. split; [reflexivity|].
      assert (S : forall hi, (forall q, port + 1 <= q < hi -> q ∈ ports) -> forall q, port <= q < hi -> q ∈ ports).
      { intros hi H q Hq. destruct (Z.eq_dec q port) as [->|]; [exact Ex | apply H; lia]. }
      destruct r as [p|]; [|now apply S]. destruct Hr as (H1 & H2 & H3 & H4). split; [lia|]. split; [exact H2|].
      split; [now apply S | exact H4].
    + exists (Some port). split; [reflexivity|]. split; [lia|]. split; [|split; [lia | left; lia]].
      intros C. apply existsb_in in C. congruence.
Qed.

Lemma udp_ports_same blocks x b b' l : blocks !! x = Some b -> u_local_port b' = u_local_port b ->
  udp_ports (<[x := b']> blocks) l = udp_ports blocks l.
Proof.
  intros Hx E. induction l as [|y l IH]; [reflexivity|]. cbn [udp_ports]. rewrite IH.
  destruct (decide (x = y)) as [<-|N]; [|now rewrite lookup_insert_ne]. now rewrite lookup_insert_eq, Hx, E.
Qed.

(** The blocks on the list are in use, and none is there twice. *)
Definition udp_list_ok (st : stack) : Prop :=
  NoDup (udp_pcbs st) /\ forall x, x ∈ udp_pcbs st -> is_Some (udp_blocks st !! x).

Lemma udp_list_ok_ports st : udp_list_ok st -> exists ports, udp_ports (udp_blocks st) (udp_pcbs st) = Some ports /\
  forall p, p ∈ ports <-> exists y b, y ∈ udp_pcbs st /\ udp_blocks st !! y = Some b /\ u_local_port b = p.
Proof.
  intros [_ H]. induction (udp_pcbs st) as [|y l IH].
  - exists []. split; [reflexivity|]. intros p. split; [intros C; now apply not_elem_of_nil in C|].
    intros (y & _ & C & _). now apply not_elem_of_nil in C.
  - destruct IH as (ports & E & P); [intros; apply H, elem_of_cons; auto|]. destruct (H y ltac:(apply elem_of_cons; auto)) as [b Hb].
    exists (u_local_port b :: ports). cbn [udp_ports]. rewrite Hb, E. split; [reflexivity|].
    intros p. rewrite elem_of_cons, P. split.
    + intros [->|(z & c & Hz & Hc)]; [exists y, b|exists z, c]; rewrite elem_of_cons; tauto.
    + intros (z & c & Hz & Hc & Ep). apply elem_of_cons in Hz as [->|Hz]; [left; congruence | right; eauto].
Qed.

(** The state after a block has got address and port. *)
Definition bound (x : nat) (b : udp_pcb) (ip port : Z) (st : stack) : stack :=
  let st := st <| udp_blocks ::= insert x (b <| u_local_ip := ip |> <| u_local_port := port |>) |> in
  if decide (x ∈ udp_pcbs st) then st else st <| udp_pcbs ::= cons x |>.

Lemma bound_list_ok x b ip port st : udp_list_ok st -> udp_list_ok (bound x b ip port st) /\ x ∈ udp_pcbs (bound x b ip port st) /\
  udp_blocks (bound x b ip port st) !! x = Some (b <| u_local_ip := ip |> <| u_local_port := port |>) /\
  forall y, y <> x -> udp_blocks (bound x b ip port st) !! y = udp_blocks st !! y.
Proof.
  intros [ND H]. unfold bound. set (c := b <| u_local_ip := ip |> <| u_local_port := port |>).
  set (st1 := st <| udp_blocks ::= insert x c |>).
  assert (E : udp_blocks st1 = <[x := c]> (udp_blocks st)) by reflexivity. assert (El : udp_pcbs st1 = udp_pcbs st) by reflexivity.
  assert (S : forall y, y ∈ udp_pcbs st -> is_Some (udp_blocks st1 !! y)).
  { intros y Hy. rewrite E. destruct (decide (x = y)) as [<-|N]; [rewrite lookup_insert_eq; eauto | rewrite lookup_insert_ne; auto]. }
  assert (L1 : udp_blocks st1 !! x = Some c) by (rewrite E; apply lookup_insert_eq).
  assert (L2 : forall y, y <> x -> udp_blocks st1 !! y = udp_blocks st !! y) by (intros; rewrite E; now apply lookup_insert_ne).
  destruct (decide (x ∈ udp_pcbs st1)) as [I|N].
  - split; [split; [exact ND | exact S]|]. split; [exact I|]. split; [exact L1 | exact L2].
  - split; [split|].
    + change (NoDup (x :: udp_pcbs st)). constructor; [now rewrite <- El | exact ND].
    + intros y Hy. change (y ∈ x :: udp_pcbs st) in Hy. change (is_Some (udp_blocks st1 !! y)).
      apply elem_of_cons in Hy as [->|Hy]; [rewrite L1; eauto | auto].
    + split; [change (x ∈ x :: udp_pcbs st); apply elem_of_cons; auto|]. split; [exact L1 | exact L2].
Qed.

(** The end of [udp_bind]. *)
Definition udp_bind_end (x : nat) (port : option Z) : SK Z :=
  match port with
  | None => sm_ret ERR_USE
  | Some port => b <- get_udp x ;; put_udp x (b <| u_local_port := port |>) ;; udp_list x ;; sm_ret ERR_OK
  end.

Lemma udp_bind_finish x b ip port st : udp_bind_end x (Some port) (st <| udp_blocks ::= insert x (b <| u_local_ip := ip |>) |>) =
  Some (ERR_OK, bound x b ip port st).
Proof.
  unfold udp_bind_end, get_udp. unfold sm_bind at 1. change (udp_blocks (st <| udp_blocks ::= _ |>)) with (<[x := b <| u_local_ip := ip |>]> (udp_blocks st)).
  rewrite lookup_insert_eq. unfold put_udp, udp_list, sm_modify, sm_bind, sm_ret. do 3 f_equal. unfold bound.
  assert (E : st <| udp_blocks ::= insert x (b <| u_local_ip := ip |>) |> <| udp_blocks ::= insert x (b <| u_local_ip := ip |> <| u_local_port := port |>) |>
    = st <| udp_blocks ::= insert x (b <| u_local_ip := ip |> <| u_local_port := port |>) |>).
  { destruct st. cbn. unfold apply_update. cbn. f_equal. apply insert_insert_eq. }
  rewrite E. reflexivity.
Qed.

(** The blocks in use with port [p]. *)
Definition udp_taken (st : stack) (p : Z) : Prop :=
  exists y b, y ∈ udp_pcbs st /\ udp_blocks st !! y = Some b /\ u_local_port b = p.

(** C37: [udp_bind] with port 0 ends with the first port from 4096 on that no
    bound block has, or, when every one up to 32766 is taken, with [ERR_USE] (and
    the local address already changed); with a port it succeeds, whoever has that
    port.  In success the block alone has changed: it has address and port, and is
    on the list, which keeps each block once. *)
Theorem udp_bind_spec x ipaddr port st b : udp_list_ok st -> udp_blocks st !! x = Some b ->
  (port <> 0 -> udp_bind x ipaddr port st = Some (ERR_OK, bound x b (default 0 ipaddr) port st)) /\
  (port = 0 ->
     (exists p, UDP_LOCAL_PORT_RANGE_START <= p /\ (p < UDP_LOCAL_PORT_RANGE_END \/ udp_pcbs st = []) /\ ~ udp_taken st p /\
        (forall q, UDP_LOCAL_PORT_RANGE_START <= q < p -> udp_taken st q) /\
        udp_bind x ipaddr 0 st = Some (ERR_OK, bound x b (default 0 ipaddr) p st)) \/
     ((forall q, UDP_LOCAL_PORT_RANGE_START <= q < UDP_LOCAL_PORT_RANGE_END -> udp_taken st q) /\
      udp_bind x ipaddr 0 st = Some (ERR_USE, st <| udp_blocks ::= insert x (b <| u_local_ip := default 0 ipaddr |>) |>))) /\
  forall p, let st' := bound x b (default 0 ipaddr) p st in udp_list_ok st' /\ x ∈ udp_pcbs st' /\
    udp_blocks st' !! x = Some (b <| u_local_ip := default 0 ipaddr |> <| u_local_port := p |>) /\
    forall y, y <> x -> udp_blocks st' !! y = udp_blocks st !! y.
Proof.
  intros Ok Hx. destruct (udp_list_ok_ports st Ok) as (ports & Ep & P). split; [|split; [|intros p; now apply bound_list_ok]].
  - intros N. unfold udp_bind, get_udp, put_udp, sm_modify. unfold sm_bind at 1. rewrite Hx. unfold sm_bind at 1.
    rewrite (proj2 (Z.eqb_neq _ _) N). apply udp_bind_finish.
  - intros _. set (b1 := b <| u_local_ip := default 0 ipaddr |>). set (st1 := st <| udp_blocks ::= insert x b1 |>).
    destruct (udp_port_loop_ends ports udp_port_fuel UDP_LOCAL_PORT_RANGE_START) as (r & El & Hr); [split; discriminate | reflexivity|].
    assert (E0 : udp_new_port st1 = Some (r, st1)).
    { unfold udp_new_port. change (udp_blocks st1) with (<[x := b1]> (udp_blocks st)). change (udp_pcbs st1) with (udp_pcbs st).
      now rewrite (udp_ports_same _ x b b1 _ Hx eq_refl), Ep, El. }
    assert (E1 : udp_bind x ipaddr 0 st = udp_bind_end x r st1).
    { unfold udp_bind, get_udp, put_udp, sm_modify. unfold sm_bind at 1. rewrite Hx. unfold sm_bind at 1.
      exact (sm_bind_some udp_new_port (udp_bind_end x) st1 r st1 E0). }
    rewrite E1. destruct r as [p|]; [left | right].
    + destruct Hr as (H1 & H2 & H3 & H4). exists p. split; [exact H1|].
      split; [destruct H4 as [|H4]; [now left | right]|]; [|split; [|split]].
      * subst ports. destruct (udp_pcbs st) as [|y l]; [reflexivity|]. cbn [udp_ports] in Ep. repeat case_match; discriminate.
      * intros T. apply H2, P, T.
      * intros q Hq. apply P, H3, Hq.
      * apply udp_bind_finish.
    + split; [|reflexivity]. intros q Hq. apply P, Hr, Hq.
Qed.

Lemma udp_bind_spec_witness : let st := udp_host A2 1500 9 (server <| u_local_port := 4096 |>) in
  let st := st <| udp_blocks ::= insert 3%nat server |> in
  udp_bind 3 None 0 st = Some (ERR_OK, bound 3 server 0 4097 st) /\ udp_bind 3 None 4096 st = Some (ERR_OK, bound 3 server 0 4096 st).
Proof.
  intros st0 st. assert (Ok : udp_list_ok st).
  { split; [apply NoDup_singleton|]. intros x Hx. change (x ∈ [9%nat]) in Hx. apply list_elem_of_singleton in Hx as ->.
    eexists. reflexivity. }
  assert (Hx : udp_blocks st !! 3%nat = Some server) by reflexivity. split.
  - destruct (udp_bind_spec 3 None 0 st server Ok Hx) as (_ & H & _).
    destruct (H eq_refl) as [(p & H1 & _ & H3 & H4 & E)|[H1 _]].
    + assert (p = 4097) as ->; [|exact E]. unfold UDP_LOCAL_PORT_RANGE_START in *.
      destruct (Z.lt_trichotomy p 4097) as [L|[L|L]]; [|exact L|].
      * exfalso. apply H3. assert (p = 4096) as -> by lia. eexists 9%nat, _.
        split; [change (9%nat ∈ [9%nat]); now apply list_elem_of_singleton|]. split; reflexivity.
      * exfalso. destruct (H4 4097 ltac:(lia)) as (y & c & Hy & Hc & Ec). change (y ∈ [9%nat]) in Hy.
        apply list_elem_of_singleton in Hy as ->. vm_compute in Hc. injection Hc as <-. discriminate Ec.
    + exfalso. destruct (H1 4097 ltac:(split; reflexivity || discriminate)) as (y & c & Hy & Hc & Ec). change (y ∈ [9%nat]) in Hy.
      apply list_elem_of_singleton in Hy as ->. vm_compute in Hc. injection Hc as <-. discriminate Ec.
  - apply (udp_bind_spec 3 None 4096 st server Ok Hx). discriminate.
Defined.
