(* ===== verification/TcpPath.v ===== *)
(** * TcpPath: segments from one stack to another

    What TCP gives to [ip_output] ([IpOut.send_all]) arrives, through IP, in front
    of the demultiplexing of [tcp_input]: [TcpWire] over [IpPath]. *)
From Stdlib Require Import ZArith Lia List Bool.
From stdpp Require Import base gmap list.
From coqutil Require Import Datatypes.RecordSetters.
From S2P Require Import IpFrag Prelude Inet IpAddr Tcp TcpOut TcpPcb TcpIn TcpInput TcpWire Netif IpOut Icmp Raw Udp IpIn IpPath IcmpPath.
Import ListNotations.
#[local] Open Scope Z_scope.
#[local] Open Scope sm_scope.

(** The route of the packet [q]: through the interface [i] at [k], in one frame. *)
Record tcp_can_send (q : packet) (k : nat) (i : net_if) (st : stack) : Prop := {
  ts_route : Netif.ip_route (s_net st) (pk_dest q) = Some (Some k);
  ts_if : netifs (s_net st) !! k = Some i;
  ts_src : pk_src q <> 0;
  ts_ttl : fits 8 (pk_ttl q); ts_tos : fits 8 (pk_tos q);
  ts_sendable : sendable (pk_data q) (pk_src q) (pk_dest q);
  ts_mtu : if_mtu i = 0 \/ 40 + tot_len (pk_data q) <= if_mtu i
}.

Section Sending.
Context {L : Link}.

Lemma tcp_packet_sent q k i st : tcp_can_send q k i st ->
  let n := 40 + tot_len (pk_data q) in let h := packet_hdr n (pk_ttl q) (pk_tos q) IP_PROTO_TCP (pk_src q) (pk_dest q) in
  exists st', send_all [q] st = Some (tt, st') /\
    wire st' = wire st ++ [mkFrame k (hdr_bytes h ++ tcp_hdr_bytes (pk_hdr q) ++ concat (pk_data q)) (pk_dest q)] /\
    same_apps st st' /\ good_header h n (pk_ttl q) IP_PROTO_TCP (pk_src q) (pk_dest q).
Proof.
  intros [Hr Hk Hs Ft Fo [B Hl Fs Fd] Hm] n h. set (p := mkPk false (room IP_ROOM) (seg_chain (pk_hdr q) (pk_data q))).
  assert (Ec : concat (chain p) = tcp_hdr_bytes (pk_hdr q) ++ concat (pk_data q)) by apply concat_seg_chain.
  assert (Et : tot_len (chain p) = 20 + tot_len (pk_data q)).
  { unfold tot_len. rewrite Ec, length_app, tcp_hdr_bytes_length. lia. }
  assert (T0 : 0 <= tot_len (pk_data q)) by (unfold tot_len; lia).
  assert (Es : src_of (Some (pk_src q)) (if_addr i) = pk_src q) by (unfold src_of; now rewrite (proj2 (Z.eqb_neq _ 0))).
  destruct (departs p k i (Some (pk_src q)) (pk_dest q) (pk_ttl q) (pk_tos q) IP_PROTO_TCP st) as (e & st' & fr & E & Hw & En & G & Sa).
  { constructor; rewrite ?Et, ?Es; trivial; try lia; try (now split); try discriminate.
    - cbn [p before]. rewrite room_length. unfold IP_ROOM. lia.
    - unfold carried. destruct Hm; [now left | right; left; lia]. }
  rewrite Et, Es in G, Sa. replace (20 + (20 + tot_len (pk_data q))) with n in G, Sa by (unfold n; ring). fold h in G, Sa.
  exists st'. split; [|split_and!; trivial; try apply En].
  - cbn [send_all]. unfold sm_bind, ip_output. fold p. now rewrite Hr, E.
  - rewrite Hw. f_equal. destruct Sa as [[-> _]|(Bad & Hmtu & _)].
    + cbn [map]. now rewrite Ec.
    + exfalso. rewrite Ec, length_app, tcp_hdr_bytes_length in Bad. unfold tot_len in *. lia.
Qed.

End Sending.

Section Path.
Context {L1 : Link} {V : Env} {A : App} {L2 : Link} {R : RawApp} {PP : PbufPool}.

(** C5: A segment of TCP arrives through IP.  A packet of TCP that fits the MTU,
    its header with the checksum that [tcp_set_chksum] computes: [ip_output] sends
    one frame, and in a stack whose address it is sent to, [ip_input] does nothing
    but count it and demultiplex the segment, with the ports, numbers, flags,
    window, options and data that were sent. *)
Theorem tcp_over_ip q k i st sport dport seq ack hl fl wnd :
  tcp_can_send q k i st -> wire_fits sport dport seq ack hl fl wnd -> 5 <= hl -> 4 * (hl - 5) <= tot_len (pk_data q) ->
  pk_hdr q = tcp_set_chksum (wire_hdr sport dport seq ack hl fl wnd) (pk_data q) (pk_src q) (pk_dest q) ->
  exists st' F chk, send_all (L := L1) [q] st = Some (tt, st') /\ wire st' = wire st ++ [mkFrame k F (pk_dest q)] /\
    forall rx inp j, for_us rx (pk_dest q) -> raw_pcbs rx = [] -> netifs (s_net rx) !! inp = Some j ->
      ip_addr_isbroadcast (pk_dest q) (if_net j) || ip_addr_ismulticast (pk_dest q) = false ->
      ip_input (L := L2) (in_pbuf F) inp rx =
        with_tcp (L := L2) (fun V => demux (V := V) (wire_input sport dport seq ack hl fl wnd chk (concat (pk_data q)))
          (pk_src q) (pk_dest q)) (count_recv rx).
Proof.
  intros C Wf H1 H2 Eh. destruct (tcp_packet_sent (L := L1) q k i st C) as (st' & E & Hw & _ & G).
  destruct C as [_ _ _ _ _ S _]. set (h := packet_hdr _ _ _ _ _ _) in *.
  pose proof G as [W HV HL _ _ Hp Hs Hd _ _]. pose proof (wire_hdr_fits _ _ _ _ _ _ _ Wf) as F.
  set (wh := wire_hdr sport dport seq ack hl fl wnd) in *. set (d := pk_data q) in *.
  set (l := tcp_hdr_bytes (pk_hdr q) ++ concat d) in *. assert (T0 : 0 <= tot_len d) by (unfold tot_len; lia).
  pose proof (sent_length wh d (pk_src q) (pk_dest q)) as Ll. rewrite <- Eh in Ll. fold l in Ll. unfold TCP_HLEN in Ll.
  pose proof (sent_verifies wh d _ _ F S) as V0. rewrite <- Eh in V0. fold l in V0.
  exists st', (hdr_bytes h ++ l). eexists. split; [exact E|]. split; [exact Hw|].
  intros rx inp j U Hraw Hj Hb.
  rewrite (ip_input_whole h l (40 + tot_len d) (pk_ttl q) IP_PROTO_TCP (pk_src q) (pk_dest q)); trivial; [|lia|destruct S; lia].
  rewrite (ip_upper_proto h); [|exact Hraw|now apply hdr_at_bytes]. rewrite Hp.
  change (IP_PROTO_TCP =? IP_PROTO_UDP) with false. change (IP_PROTO_TCP =? IP_PROTO_UDPLITE) with false.
  change (IP_PROTO_TCP =? IP_PROTO_TCP) with true. cbn [orb]. unfold the_if. unfold sm_bind at 1.
  change (netifs (s_net (count_recv rx))) with (netifs (s_net rx)). rewrite Hj. unfold with_tcp.
  cbn [chain]. rewrite tcp_input_frame; [|exact W|exact HL|unfold TCP_HLEN; lia|now rewrite Hd]. rewrite Hs, Hd.
  replace (Z.of_nat (length l)) with (TCP_HLEN + tot_len d) by (unfold TCP_HLEN; lia). rewrite V0. cbn [Z.eqb].
  pose proof (chk_fits wh d _ _ F S) as Fc.
  pose proof (set_input_wire sport dport seq ack hl fl wnd _ (concat d) Wf Fc H1 H2) as Es.
  unfold l. rewrite Eh, tcp_set_chksum_eq. fold wh in Es. rewrite Es. reflexivity.
Qed.

End Path.

Definition demo_segment : packet :=
  mkPacket (tcp_set_chksum (wire_hdr 4096 80 6510 0 6 TCP_SYN 2048) [[2; 4; 5; 180]] A1 A2) [[2; 4; 5; 180]] A1 A2 255 0.

Lemma tcp_over_ip_witness :
  exists st' F chk, send_all (L := plain_link) [demo_segment] (host A1 1500) = Some (tt, st') /\ wire st' = [mkFrame 0 F A2] /\
    ip_input (V := plain_env) (A := quiet_app) (L := plain_link) (R := quiet_raw) (PP := demo_pool) (in_pbuf F) 0 (host A2 1500) =
      with_tcp (V := plain_env) (L := plain_link)
        (fun V => demux (A := quiet_app) (V := V) (wire_input 4096 80 6510 0 6 TCP_SYN 2048 chk [2; 4; 5; 180]) A1 A2)
        (count_recv (host A2 1500)).
Proof.
  destruct (tcp_over_ip (L1 := plain_link) (V := plain_env) (A := quiet_app) (L2 := plain_link) (R := quiet_raw) (PP := demo_pool)
    demo_segment 0 (host_if A1 1500) (host A1 1500) 4096 80 6510 0 6 TCP_SYN 2048) as (st' & F & chk & E & Hw & H).
  - constructor; try reflexivity; try (now split); try discriminate; [|right; discriminate].
    constructor; [repeat (constructor; [repeat (constructor; [now split|]); constructor|]); constructor | discriminate | now split | now split].
  - constructor; now split.
  - discriminate.
  - discriminate.
  - reflexivity.
  - exists st', F, chk. split; [exact E|]. split; [exact Hw|]. apply (H (host A2 1500) 0%nat (host_if A2 1500)).
    + apply host_for_us. discriminate.
    + reflexivity.
    + reflexivity.
    + reflexivity.
Defined.

(** ** Two hosts on a wire *)

(** The frames that one host has sent are put to the other, in turn. *)
Fixpoint talk `{Env, App, Link, RawApp, PbufPool} (turns : nat) (a b : stack) : option (stack * stack) :=
  match turns with
  | O => Some (a, b)
  | S turns =>
      match ip_input_all (map (fun f => in_pbuf (fr_data f)) (wire a)) 0 b with
      | None => None
      | Some (_, b) =>
          match talk turns b (a <| wire := [] |>) with Some (b, a) => Some (a, b) | None => None end
      end
  end.

Section Run.
#[local] Existing Instances plain_env quiet_app plain_link quiet_raw demo_pool.

(** 10.0.0.2 listens on port 80; 10.0.0.1 connects. *)
Definition listening : option stack :=
  match with_tcp (fun V => tcp_new (V := V) ;; tcp_bind 0 None 80 ;; tcp_listen (V := V) (Pcb 0)) (host A2 1500) with
  | Some (_, st) => Some st | None => None
  end.

Definition connecting_host : option stack :=
  match with_tcp (fun V => tcp_new (V := V) ;; tcp_connect (V := V) 0 (Some A2) 80) (host A1 1500) with
  | Some (_, st) => Some st | None => None
  end.

(** The states of the connections of a host. *)
Definition states (st : stack) : list tcp_state :=
  omap (fun x => state <$> pcbs (s_tcp st) !! x) (tcp_active_pcbs (s_tcp st)).

(** The acknowledgement of the client is delayed, and goes out with a tick of
    its fast timer. *)
Definition handshake : option (stack * stack) :=
  match connecting_host, listening with
  | Some a, Some b =>
      match talk 2 a b with
      | Some (a, b) =>
          match with_tcp (fun V => tcp_fasttmr (V := V)) a with Some (_, a) => talk 2 a b | None => None end
      | None => None
      end
  | _, _ => None
  end.

End Run.

(** The handshake, with IP and the wire below: both ends are connected, to each
    other. *)
Example handshake_over_ip : exists a b, handshake = Some (a, b) /\ states a = [ESTABLISHED] /\ states b = [ESTABLISHED] /\
  wire a = [] /\ wire b = [] /\
  exists x y p q, pcbs (s_tcp a) !! x = Some p /\ pcbs (s_tcp b) !! y = Some q /\ local_ip p = remote_ip q /\
    remote_ip p = local_ip q /\ local_port p = remote_port q /\ remote_port p = local_port q /\
    snd_nxt p = rcv_nxt q /\ snd_nxt q = rcv_nxt p.
Proof.
  assert (E : exists v, handshake = v) by eauto. destruct E as (v & E). vm_compute in E. subst v. eexists _, _.
  split; [vm_compute; reflexivity|]. split; [vm_compute; reflexivity|]. split; [vm_compute; reflexivity|].
  split; [reflexivity|]. split; [reflexivity|]. eexists 0%nat, 2%nat, _, _.
  split; [vm_compute; reflexivity|]. split; [vm_compute; reflexivity|]. split_and!; reflexivity.
Qed.
