(* ===== verification/IpDefects.v ===== *)
(** * IpDefects: what the identification field does not do

    [ip_output_if] takes the identification of a packet from a local variable that
    is 0 ([core/ipv4/ip.c]): the fragments of two datagrams are fragments of one
    for [ip_reass].  A run of two hosts shows what comes of it. *)
From Stdlib Require Import ZArith Lia List Bool.
From stdpp Require Import base gmap list.
From coqutil Require Import Datatypes.RecordSetters.
From S2P Require Import IpFrag Prelude Inet IpAddr Tcp TcpOut TcpPcb TcpIn TcpInput TcpWire Netif IpOut Icmp Raw Udp IpIn IpPath IcmpPath UdpPath.
Import ListNotations.
#[local] Open Scope Z_scope.
#[local] Open Scope sm_scope.

(** A client that sends without checksums. *)
Definition bare_client : udp_pcb := client <| u_flags := Z.lor UDP_FLAGS_CONNECTED UDP_FLAGS_NOCHKSUM |>.

(** [n] bytes [v]. *)
Definition filled (n : nat) (v : Z) : pk := mkPk false (replicate 34 0) [replicate n v].

Section Run.
#[local] Existing Instances plain_env quiet_app plain_link quiet_raw demo_pool.

(** The frames of two datagrams of 200 bytes, all 1 and all 2, over an MTU of 120. *)
Definition two_datagrams : option (list frame) :=
  match (udp_send 5 (filled 200 1) ;; udp_send 5 (filled 200 2)) (udp_host A1 120 5 bare_client) with
  | Some (_, st) => Some (wire st)
  | None => None
  end.

(** The first frame of the first and the last two of the second arrive. *)
Definition mixed_arrival : option stack :=
  match two_datagrams with
  | Some [f0; _; _; _; g1; g2] =>
      match ip_input_all (map (fun f => in_pbuf (fr_data f)) [f0; g1; g2]) 0 (udp_host A2 1500 9 server) with
      | Some (_, st) => Some st | None => None
      end
  | _ => None
  end.

(** Datagrams mix.  Of two datagrams that one block sends, one of bytes 1
    and one of bytes 2, each in three fragments, three fragments are lost; the
    callback of the peer gets one datagram of 200 bytes, which nobody sent: 88
    bytes 1 and 112 bytes 2. *)
Example fragments_mix : exists st q, mixed_arrival = Some st /\ udp_got st = [(9%nat, q, A1, 4096)] /\
  concat q = replicate 88 1 ++ replicate 112 2.
Proof.
  assert (E : exists v, mixed_arrival = v) by eauto. destruct E as (v & E). rewrite E. vm_compute in E. subst v. eexists _, _.
  split; [reflexivity|]. split; reflexivity.
Qed.

End Run.
