(* ===== verification/Etharp.v ===== *)
(** * Etharp: address resolution

    [nsc-0.5.3/lwip-HEAD/src/netif/etharp.c] with [ARP_TABLE_SIZE] 10,
    [ARP_QUEUEING] 1, [ETH_PAD_SIZE] 0 ([opt.h], [etharp.h]) and [LWIP_DHCP] 0.

    The packets are those of [Pbuf], by address, with their bytes in memory: a
    queued packet is shared with whoever gave it, and its header is written in
    place.  The state is the table, that memory, and what the interfaces were
    given to send.  An access outside a pbuf's payload, an array or the table is
    a fault ([None]).  The driver, and the bytes of memory that was never
    written, are the class [Ether]. *)
From Stdlib Require Import ZArith Lia List Bool.
From stdpp Require Import base gmap list.
From S2P Require Import Tcp IpFrag IpOut Prelude Inet IpAddr Pbuf.
Import ListNotations.
#[local] Open Scope Z_scope.
#[local] Open Scope sm_scope.

(** ** Constants *)

Definition ERR_ARG : Z := -8.
Definition ARP_TABLE_SIZE : Z := 10.
Definition ARP_MAXAGE : Z := 240.
Definition ARP_MAXPENDING : Z := 2.
Definition HWTYPE_ETHERNET : Z := 1.
Definition ARP_REQUEST : Z := 1.
Definition ARP_REPLY : Z := 2.
Definition ETHTYPE_ARP : Z := 2054.
Definition ETHTYPE_IP : Z := 2048.
Definition ETHARP_TRY_HARD : Z := 1.

(** [sizeof] of [struct eth_hdr], [struct etharp_hdr] and [struct ip_addr]. *)
Definition sizeof_eth_hdr : Z := 14.
Definition sizeof_etharp_hdr : Z := 42.
Definition sizeof_ip_addr : Z := 4.

(** ** State *)

Inductive etharp_state :=
| ETHARP_STATE_EMPTY | ETHARP_STATE_PENDING | ETHARP_STATE_STABLE | ETHARP_STATE_EXPIRED.

#[export] Instance etharp_state_eq_dec : EqDecision etharp_state.
Proof. solve_decision. Defined.

(** [struct etharp_entry]; [e_p] is the address of the queued packet, 0 for
    none. *)
Record etharp_entry := mkEntry {
  e_p : Z; e_ip : Z; e_eth : list Z; e_state : etharp_state; e_ctime : Z
}.

Definition set_p (v : Z) (e : etharp_entry) : etharp_entry :=
  mkEntry v (e_ip e) (e_eth e) (e_state e) (e_ctime e).
Definition set_ip (v : Z) (e : etharp_entry) : etharp_entry :=
  mkEntry (e_p e) v (e_eth e) (e_state e) (e_ctime e).
Definition set_eth (v : list Z) (e : etharp_entry) : etharp_entry :=
  mkEntry (e_p e) (e_ip e) v (e_state e) (e_ctime e).
Definition set_state (v : etharp_state) (e : etharp_entry) : etharp_entry :=
  mkEntry (e_p e) (e_ip e) (e_eth e) v (e_ctime e).
Definition set_ctime (v : Z) (e : etharp_entry) : etharp_entry :=
  mkEntry (e_p e) (e_ip e) (e_eth e) (e_state e) v.

(** The fields of [struct netif] read here; [eth_num] says which interface it
    is. *)
Record eth_if := mkEthIf {
  eth_num : nat; eth_net : netif; eth_gw : Z; hwaddr_len : Z; hwaddr : list Z
}.

Definition eth_ip (n : eth_if) : Z := netif_addr (eth_net n).

Record arp := mkArp {
  arp_table : list etharp_entry;
  heap : pstate;
  sent : list (nat * list Z)        (* calls of [linkoutput] *)
}.

Definition with_table (f : list etharp_entry -> list etharp_entry) (st : arp) : arp :=
  mkArp (f (arp_table st)) (heap st) (sent st).
Definition with_heap (h : pstate) (st : arp) : arp := mkArp (arp_table st) h (sent st).
Definition with_sent (f : list (nat * list Z) -> list (nat * list Z)) (st : arp) : arp :=
  mkArp (arp_table st) (heap st) (f (sent st)).

(** What [linkoutput] returns, and memory that was never written. *)
Class Ether := {
  link_result : eth_if -> list Z -> Z;
  dirt : Z -> Z;
  dirt_fits a : fits 8 (dirt a)
}.

Abbreviation AM := (SM arp).

(** [for (k = 0; k < n; ++k) body] *)
Fixpoint for_k {S} (n : nat) (body : nat -> SM S unit) : SM S unit :=
  match n with
  | O => sm_ret tt
  | S n => for_k n body ;; body n
  end.

Section Arp.
Context {PF : Platform} {E : Ether}.

(** ** Memory *)

Definition on_heap {T} (m : M T) : AM T := fun st =>
  match m (heap st) with Some (a, h) => Some (a, with_heap h st) | None => None end.

Definition byte_at (h : pstate) (a : Z) : Z := default (dirt a) (mem h !! a).

Definition ld8 (a : Z) : M Z := fun h => Some (byte_at h a, h).
Definition st8 (a v : Z) : M unit := sm_modify (with_mem <[a := v]>).
Definition ld16 (a : Z) : M Z := b0 <- ld8 a ;; b1 <- ld8 (a + 1) ;; sm_ret (b0 + 256 * b1).
Definition ld32 (a : Z) : M Z :=
  b0 <- ld8 a ;; b1 <- ld8 (a + 1) ;; b2 <- ld8 (a + 2) ;; b3 <- ld8 (a + 3) ;;
  sm_ret (word32 b0 b1 b2 b3).
Fixpoint st_bytes (a : Z) (l : list Z) : M unit :=
  match l with
  | [] => sm_ret tt
  | v :: l => st8 a v ;; st_bytes (a + 1) l
  end.
Definition st16 (a v : Z) : M unit := st_bytes a (bytes16 v).
Definition st32 (a v : Z) : M unit := st_bytes a (bytes32 v).

(** [p->payload], which is about to be read or written as a structure of [n]
    bytes. *)
Definition header_of (p n : Z) : M Z :=
  b <- load p ;; if n <=? len b then sm_ret (payload b) else sm_fail.

(** [l[k]] for an array outside that memory. *)
Definition octet (l : list Z) (k : nat) : M Z :=
  match l !! k with Some v => sm_ret v | None => sm_fail end.

(** The bytes of a chain of pbufs, as a driver sends them. *)
Fixpoint ld_bytes (a : Z) (n : nat) : M (list Z) :=
  match n with
  | O => sm_ret []
  | S n => v <- ld8 a ;; l <- ld_bytes (a + 1) n ;; sm_ret (v :: l)
  end.

Fixpoint chain_bytes (fuel : nat) (p : Z) : M (list Z) :=
  if p =? 0 then sm_ret []
  else match fuel with
  | O => sm_fail
  | S f =>
      b <- load p ;;
      l <- ld_bytes (payload b) (Z.to_nat (len b)) ;;
      rest <- chain_bytes f (next b) ;;
      sm_ret (l ++ rest)
  end.

(** [netif->linkoutput(netif, p)] *)
Definition linkoutput (n : eth_if) (p : Z) : AM Z :=
  st <- sm_get ;;
  l <- on_heap (chain_bytes (heap_fuel (heap st)) p) ;;
  sm_modify (with_sent (fun w => w ++ [(eth_num n, l)])) ;;
  sm_ret (link_result n l).

(** [arp_table[i]] *)
Definition entry (i : Z) : AM etharp_entry := fun st =>
  if i <? 0 then None
  else match arp_table st !! Z.to_nat i with Some e => Some (e, st) | None => None end.
Definition set_entry (i : Z) (f : etharp_entry -> etharp_entry) : AM unit :=
  e <- entry i ;; sm_modify (with_table <[Z.to_nat i := f e]>).

(** The header of an Ethernet frame in front of an IP packet; [dest k] reads a
    byte of the destination.  Offsets: [dest] 0, [src] 6, [type] 12. *)
Definition fill_eth (n : eth_if) (hdr : Z) (dest : nat -> M Z) : M unit :=
  for_k (Z.to_nat (hwaddr_len n)) (fun k =>
    v <- dest k ;; st8 (hdr + Z.of_nat k) v ;;
    w <- octet (hwaddr n) k ;; st8 (hdr + 6 + Z.of_nat k) w) ;;
  st16 (hdr + 12) (htons ETHTYPE_IP).

(** ** The table *)

Definition init_entry (i : nat) : AM unit :=
  set_entry (Z.of_nat i) (set_state ETHARP_STATE_EMPTY) ;;
  set_entry (Z.of_nat i) (set_p 0) ;;
  set_entry (Z.of_nat i) (set_ctime 0).

Definition etharp_init : AM unit := for_k (Z.to_nat ARP_TABLE_SIZE) init_entry.

Definition tmr_entry (j : nat) : AM unit :=
  let i := Z.of_nat j in
  set_entry i (fun e => set_ctime (u8 (e_ctime e + 1)) e) ;;
  e <- entry i ;;
  (if bool_decide (e_state e = ETHARP_STATE_STABLE) && (ARP_MAXAGE <=? e_ctime e)
   then set_entry i (set_state ETHARP_STATE_EXPIRED)
   else if bool_decide (e_state e = ETHARP_STATE_PENDING) then
     if ARP_MAXPENDING <=? e_ctime e then set_entry i (set_state ETHARP_STATE_EXPIRED) else sm_ret tt
   else sm_ret tt) ;;
  e <- entry i ;;
  if bool_decide (e_state e = ETHARP_STATE_EXPIRED) then
    (if negb (e_p e =? 0) then on_heap (pbuf_free (e_p e)) ;; set_entry i (set_p 0) else sm_ret tt) ;;
    set_entry i (set_state ETHARP_STATE_EMPTY)
  else sm_ret tt.

Definition etharp_tmr : AM unit := for_k (Z.to_nat ARP_TABLE_SIZE) tmr_entry.

(** The local variables of the sweep of [find_entry]; [ARP_TABLE_SIZE] is "none
    yet". *)
Record sweep := mkSweep {
  empty : Z; old_stable : Z; age_stable : Z; old_pending : Z; age_pending : Z; old_queue : Z; age_queue : Z
}.

Definition sweep0 : sweep :=
  mkSweep ARP_TABLE_SIZE ARP_TABLE_SIZE 0 ARP_TABLE_SIZE 0 ARP_TABLE_SIZE 0.

(** [ipaddr && ip_addr_cmp(ipaddr, &arp_table[i].ipaddr)] *)
Definition ip_is (ipaddr : option Z) (e : etharp_entry) : bool :=
  match ipaddr with Some a => a =? e_ip e | None => false end.

(** One turn: [inl i] is [return i]. *)
Definition sweep_step (ipaddr : option Z) (i : Z) (e : etharp_entry) (s : sweep) : Z + sweep :=
  if (empty s =? ARP_TABLE_SIZE) && bool_decide (e_state e = ETHARP_STATE_EMPTY) then
    inr (mkSweep i (old_stable s) (age_stable s) (old_pending s) (age_pending s) (old_queue s) (age_queue s))
  else match e_state e with
  | ETHARP_STATE_PENDING =>
      if ip_is ipaddr e then inl i
      else if negb (e_p e =? 0) then
        if age_queue s <=? e_ctime e
        then inr (mkSweep (empty s) (old_stable s) (age_stable s) (old_pending s) (age_pending s) i (e_ctime e))
        else inr s
      else if age_pending s <=? e_ctime e
      then inr (mkSweep (empty s) (old_stable s) (age_stable s) i (e_ctime e) (old_queue s) (age_queue s))
      else inr s
  | ETHARP_STATE_STABLE =>
      if ip_is ipaddr e then inl i
      else if age_stable s <=? e_ctime e
      then inr (mkSweep (empty s) i (e_ctime e) (old_pending s) (age_pending s) (old_queue s) (age_queue s))
      else inr s
  | _ => inr s
  end.

Fixpoint sweep_loop (ipaddr : option Z) (i : Z) (t : list etharp_entry) (s : sweep) : Z + sweep :=
  match t with
  | [] => inr s
  | e :: t => match sweep_step ipaddr i e s with inl j => inl j | inr s => sweep_loop ipaddr (i + 1) t s end
  end.

(** The end of [find_entry]: entry [i] made new. *)
Definition recycle (ipaddr : option Z) (i : Z) : AM Z :=
  set_entry i (set_state ETHARP_STATE_EMPTY) ;;
  (match ipaddr with Some a => set_entry i (set_ip a) | None => sm_ret tt end) ;;
  set_entry i (set_ctime 0) ;;
  sm_ret i.

Definition find_entry (ipaddr : option Z) (flags : Z) : AM Z :=
  st <- sm_get ;;
  match sweep_loop ipaddr 0 (arp_table st) sweep0 with
  | inl i => sm_ret i
  | inr s =>
      if (empty s =? ARP_TABLE_SIZE) && (Z.land flags ETHARP_TRY_HARD =? 0) then sm_ret ERR_MEM
      else if empty s <? ARP_TABLE_SIZE then recycle ipaddr (empty s)
      else if old_stable s <? ARP_TABLE_SIZE then recycle ipaddr (old_stable s)
      else if old_pending s <? ARP_TABLE_SIZE then recycle ipaddr (old_pending s)
      else if old_queue s <? ARP_TABLE_SIZE then
        e <- entry (old_queue s) ;;
        on_heap (pbuf_free (e_p e)) ;;
        set_entry (old_queue s) (set_p 0) ;;
        recycle ipaddr (old_queue s)
      else sm_ret ERR_MEM
  end.

(** The loop that sends the queue of entry [i]; [ethaddr] is an address in
    memory. *)
Fixpoint send_queue (fuel : nat) (n : eth_if) (ethaddr i : Z) : AM unit :=
  e <- entry i ;;
  if e_p e =? 0 then sm_ret tt
  else match fuel with
  | O => sm_fail
  | S f =>
      let p := e_p e in
      hdr <- on_heap (header_of p sizeof_eth_hdr) ;;
      q <- on_heap (pbuf_dequeue p) ;;
      set_entry i (set_p q) ;;
      on_heap (fill_eth n hdr (fun k => ld8 (ethaddr + Z.of_nat k))) ;;
      linkoutput n p ;;
      on_heap (pbuf_free p) ;;
      send_queue f n ethaddr i
  end.

Definition not_unicast (n : eth_if) (ipaddr : Z) : bool :=
  ip_addr_isany (Some ipaddr) || ip_addr_isbroadcast ipaddr (eth_net n) || ip_addr_ismulticast ipaddr.

(** [arp_table[i].ethaddr.addr[k] = v] *)
Definition put_octet (i : Z) (k : nat) (v : Z) : AM unit :=
  e <- entry i ;;
  if (k <? length (e_eth e))%nat then set_entry i (set_eth (<[k := v]> (e_eth e))) else sm_fail.

Definition update_arp_entry (n : eth_if) (ipaddr ethaddr flags : Z) : AM Z :=
  if not_unicast n ipaddr then sm_ret ERR_ARG
  else
    i <- find_entry (Some ipaddr) flags ;;
    if i <? 0 then sm_ret i
    else
      set_entry i (set_state ETHARP_STATE_STABLE) ;;
      for_k (Z.to_nat (hwaddr_len n)) (fun k =>
        v <- on_heap (ld8 (ethaddr + Z.of_nat k)) ;; put_octet i k v) ;;
      set_entry i (set_ctime 0) ;;
      st <- sm_get ;;
      send_queue (heap_fuel (heap st)) n ethaddr i ;;
      sm_ret ERR_OK.

(** ** Input *)

(** [struct ethip_hdr]: [eth.src] at 6, [ip.src] at 26. *)
Definition etharp_ip_input (n : eth_if) (p : Z) : AM unit :=
  hdr <- on_heap (header_of p 30) ;;
  src <- on_heap (ld32 (hdr + 26)) ;;
  if negb (ip_addr_netcmp src (eth_ip n) (netmask (eth_net n))) then sm_ret tt
  else update_arp_entry n src (hdr + 6) 0 ;; sm_ret tt.

(** [struct etharp_hdr]: [hwtype] 14, [proto] 16, [_hwlen_protolen] 18, [opcode]
    20, [shwaddr] 22, [sipaddr] 28, [dhwaddr] 32, [dipaddr] 38. *)
Definition ARPH_HWLEN (hdr : Z) : M Z := v <- ld16 (hdr + 18) ;; sm_ret (Z.shiftr (ntohs v) 8).
Definition ARPH_PROTOLEN (hdr : Z) : M Z := v <- ld16 (hdr + 18) ;; sm_ret (Z.land (ntohs v) 255).
Definition ARPH_HWLEN_SET (hdr l : Z) : M unit :=
  v <- ARPH_PROTOLEN hdr ;; st16 (hdr + 18) (htons (u16 (Z.lor v (Z.shiftl l 8)))).
Definition ARPH_PROTOLEN_SET (hdr l : Z) : M unit :=
  v <- ARPH_HWLEN hdr ;; st16 (hdr + 18) (htons (u16 (Z.lor l (Z.shiftl v 8)))).

(** Copy the four bytes of a [struct ip_addr2]. *)
Definition copy_ip (dst src : Z) : M unit := v <- ld32 src ;; st32 dst v.

(** The request at [hdr] turned into a reply; [ethaddr] is the argument of
    [etharp_arp_input]. *)
Definition make_reply (n : eth_if) (ethaddr : list Z) (hdr : Z) : M unit :=
  st16 (hdr + 20) (htons ARP_REPLY) ;;
  copy_ip (hdr + 38) (hdr + 28) ;;
  st32 (hdr + 28) (eth_ip n) ;;
  for_k (Z.to_nat (hwaddr_len n)) (fun j =>
    let i := Z.of_nat j in
    v <- ld8 (hdr + 22 + i) ;; st8 (hdr + 32 + i) v ;;
    w <- octet ethaddr j ;; st8 (hdr + 22 + i) w ;;
    v <- ld8 (hdr + 32 + i) ;; st8 (hdr + i) v ;;
    w <- octet ethaddr j ;; st8 (hdr + 6 + i) w) ;;
  st16 (hdr + 14) (htons HWTYPE_ETHERNET) ;;
  ARPH_HWLEN_SET hdr (hwaddr_len n) ;;
  st16 (hdr + 16) (htons ETHTYPE_IP) ;;
  ARPH_PROTOLEN_SET hdr sizeof_ip_addr ;;
  st16 (hdr + 12) (htons ETHTYPE_ARP).

Definition etharp_arp_input (n : eth_if) (ethaddr : list Z) (p : Z) : AM unit :=
  b <- on_heap (load p) ;;
  if tot_len b <? sizeof_etharp_hdr then on_heap (pbuf_free p) ;; sm_ret tt
  else
    hdr <- on_heap (header_of p sizeof_etharp_hdr) ;;
    sipaddr <- on_heap (ld32 (hdr + 28)) ;;
    dipaddr <- on_heap (ld32 (hdr + 38)) ;;
    let for_us := if eth_ip n =? 0 then false else dipaddr =? eth_ip n in
    (if for_us then update_arp_entry n sipaddr (hdr + 22) ETHARP_TRY_HARD
     else update_arp_entry n sipaddr (hdr + 22) 0) ;;
    op <- on_heap (ld16 (hdr + 20)) ;;
    (if htons op =? ARP_REQUEST then
       if for_us then
         on_heap (make_reply n ethaddr hdr) ;;
         linkoutput n p ;; sm_ret tt
       else sm_ret tt
     else sm_ret tt) ;;
    on_heap (pbuf_free p) ;; sm_ret tt.

(** ** Output *)

(** The request at [hdr]. *)
Definition make_request (n : eth_if) (ipaddr hdr : Z) : M unit :=
  st16 (hdr + 20) (htons ARP_REQUEST) ;;
  for_k (Z.to_nat (hwaddr_len n)) (fun k =>
    w <- octet (hwaddr n) k ;; st8 (hdr + 22 + Z.of_nat k) w ;;
    st8 (hdr + 32 + Z.of_nat k) 0) ;;
  st32 (hdr + 38) ipaddr ;;
  st32 (hdr + 28) (eth_ip n) ;;
  st16 (hdr + 14) (htons HWTYPE_ETHERNET) ;;
  ARPH_HWLEN_SET hdr (hwaddr_len n) ;;
  st16 (hdr + 16) (htons ETHTYPE_IP) ;;
  ARPH_PROTOLEN_SET hdr sizeof_ip_addr ;;
  for_k (Z.to_nat (hwaddr_len n)) (fun k =>
    st8 (hdr + Z.of_nat k) 255 ;;
    w <- octet (hwaddr n) k ;; st8 (hdr + 6 + Z.of_nat k) w) ;;
  st16 (hdr + 12) (htons ETHTYPE_ARP).

Definition etharp_request (n : eth_if) (ipaddr : Z) : AM Z :=
  p <- on_heap (pbuf_alloc PBUF_LINK sizeof_etharp_hdr PBUF_RAM) ;;
  if negb (p =? 0) then
    hdr <- on_heap (header_of p sizeof_etharp_hdr) ;;
    on_heap (make_request n ipaddr hdr) ;;
    result <- linkoutput n p ;;
    on_heap (pbuf_free p) ;;
    sm_ret result
  else sm_ret ERR_MEM.

(** The [switch] on the state of the entry once there is a packet. *)
Definition query_packet (n : eth_if) (i q result : Z) : AM Z :=
  e <- entry i ;;
  match e_state e with
  | ETHARP_STATE_STABLE =>
      hdr <- on_heap (header_of q sizeof_eth_hdr) ;;
      on_heap (fill_eth n hdr (fun k => octet (e_eth e) k)) ;;
      linkoutput n q
  | ETHARP_STATE_PENDING =>
      p <- on_heap (pbuf_take q) ;;
      if negb (p =? 0) then
        (if e_p e =? 0 then on_heap (pbuf_ref p) ;; set_entry i (set_p p) else sm_ret tt) ;;
        sm_ret ERR_OK
      else sm_ret result
  | _ => sm_ret result
  end.

(** [err_t etharp_query(netif, ipaddr, q)]; [q] may be 0. *)
Definition etharp_query (n : eth_if) (ipaddr q : Z) : AM Z :=
  if ip_addr_isbroadcast ipaddr (eth_net n) || ip_addr_ismulticast ipaddr || ip_addr_isany (Some ipaddr)
  then sm_ret ERR_ARG
  else
    i <- find_entry (Some ipaddr) ETHARP_TRY_HARD ;;
    if i <? 0 then sm_ret i
    else
      e <- entry i ;;
      (if bool_decide (e_state e = ETHARP_STATE_EMPTY)
       then set_entry i (set_state ETHARP_STATE_PENDING) else sm_ret tt) ;;
      e <- entry i ;;
      result <- (if bool_decide (e_state e = ETHARP_STATE_PENDING) || (q =? 0)
                 then etharp_request n ipaddr else sm_ret ERR_MEM) ;;
      if negb (q =? 0) then query_packet n i q result else sm_ret result.

Definition ethbroadcast : list Z := [255; 255; 255; 255; 255; 255].

(** [ip4_addr2], [ip4_addr3] and [ip4_addr4] in the bytes of [mcastaddr]. *)
Definition mcastaddr (ipaddr : Z) : list Z :=
  [1; 0; 94; Z.land (Z.land (Z.shiftr (ntohl ipaddr) 16) 255) 127;
   Z.land (Z.shiftr (ntohl ipaddr) 8) 255; Z.land (ntohl ipaddr) 255].

(** The end of [etharp_output], for broadcasts and multicasts. *)
Definition output_direct (n : eth_if) (dest : list Z) (q : Z) : AM Z :=
  hdr <- on_heap (header_of q sizeof_eth_hdr) ;;
  on_heap (fill_eth n hdr (octet dest)) ;;
  linkoutput n q.

Definition etharp_output (n : eth_if) (ipaddr q : Z) : AM Z :=
  err <- on_heap (pbuf_header q sizeof_eth_hdr) ;;
  if negb (err =? 0) then sm_ret ERR_BUF
  else if ip_addr_isbroadcast ipaddr (eth_net n) then output_direct n ethbroadcast q
  else if ip_addr_ismulticast ipaddr then output_direct n (mcastaddr ipaddr) q
  else if negb (ip_addr_netcmp ipaddr (eth_ip n) (netmask (eth_net n))) then
    if negb (eth_gw n =? 0) then etharp_query n (eth_gw n) q else sm_ret ERR_RTE
  else etharp_query n ipaddr q.

End Arp.
