(* ===== verification/EtharpHeap.v ===== *)
(** * EtharpHeap: who holds which packet

    Theorems about [Pbuf] that address resolution needs; no C code.  [own h F H]
    says that the heap [h] has the packets [F], apart from each other and from
    the pool, and that the holders [H] (the entries of a table, a caller) have
    one reference each.  Each operation of [Pbuf] on a held packet runs, and
    takes [own] to the [own] of the heap it leaves. *)
From Stdlib Require Import ZArith Lia List Bool.
From stdpp Require Import base gmap list.
From S2P Require Import Prelude Pbuf.
Import ListNotations.
#[local] Open Scope Z_scope.
#[local] Open Scope sm_scope.

Abbreviation pchain := (list (Z * pbuf)).

Section Own.
Context {PF : Platform}.

(** The memory of the pool, which the linker places. *)
Definition in_pool (a : Z) : Prop :=
  pool_base <= a < pool_base + PBUF_POOL_SIZE * (PBUF_POOL_BUFSIZE + sizeof_pbuf).

Definition placed (B : gmap Z Z) (x : Z * pbuf) : Prop :=
  (flags x.2 = PBUF_FLAG_POOL /\ in_pool x.1) \/ (flags x.2 <> PBUF_FLAG_POOL /\ is_Some (B !! x.1)).

(** Live pbufs. *)
Definition live (B : gmap Z Z) (x : Z * pbuf) : Prop :=
  1 <= ref x.2 <= 65535 /\ placed B x /\ fits 16 (len x.2).

(** A packet whose first pbuf has room for an Ethernet header. *)
Definition packet_at (h : pstate) (l : pchain) : Prop :=
  chain (pbufs h) (head_addr l) l /\ packet l /\ Forall (live (blocks h)) l /\
  match l with [] => False | (_, b) :: _ => 14 <= len b end.

Definition addrs (F : list pchain) : list Z := (concat F).*1.

Definition holders (H : list Z) (p : Z) : Z := Z.of_nat (count_occ Z.eq_dec H p).

Definition head_ref (l : pchain) : Z := match l with [] => 0 | (_, b) :: _ => ref b end.

Record own (h : pstate) (F : list pchain) (H : list Z) : Prop := {
  ow_packet l : l ∈ F -> packet_at h l;
  ow_apart : NoDup (addrs F);
  ow_held p : p ∈ H -> exists l, l ∈ F /\ head_addr l = p;
  ow_count l : l ∈ F -> holders H (head_addr l) <= head_ref l;
  ow_pool : exists P, pool_list h P /\ Forall in_pool P /\ (forall a, a ∈ addrs F -> a ∉ P);
  ow_used : fits 16 (used (stats h))
}.

(** What [malloc] promises. *)
Class MallocLaw := malloc_law B n a :
  malloc_addr B n = Some a -> a <> 0 /\ B !! a = None /\ ~ in_pool a.

(** ** The structure of [own] *)

Lemma packet_at_cons h l : packet_at h l -> exists a b l', l = (a, b) :: l' /\ a <> 0 /\ pbufs h !! a = Some b /\
  14 <= len b /\ fits 16 (len b) /\ 1 <= ref b <= 65535.
Proof.
  intros (C & _ & HL & Hl). destruct l as [|[a b] l]; [contradiction|]. exists a, b, l.
  inversion_clear HL as [|? ? (Hr & _ & Hf) _]. destruct C as (_ & Ha & Eb & _). auto 10.
Qed.

Lemma own_perm h F F' H H' : F ≡ₚ F' -> H ≡ₚ H' -> own h F H -> own h F' H'.
Proof.
  intros PF' PH [A1 A2 A3 A4 A5 A6].
  assert (PA : addrs F ≡ₚ addrs F') by (unfold addrs; now rewrite PF').
  constructor.
  - intros l Hl. apply A1. now rewrite PF'.
  - now rewrite <- PA.
  - intros p Hp. destruct (A3 p) as (l & Hl & E); [now rewrite PH|]. exists l. split; [|exact E]. now rewrite <- PF'.
  - intros l Hl. unfold holders. erewrite <- (proj1 (Permutation_count_occ Z.eq_dec H H') PH). apply A4. now rewrite PF'.
  - destruct A5 as (P & HP & HI & D). exists P. split; [exact HP|]. split; [exact HI|]. intros a Ha. apply D. now rewrite PA.
  - exact A6.
Qed.

(** The packet of a holder, put first. *)
Lemma own_pick h F H p : own h F H -> p ∈ H ->
  exists a b l F0, (F ≡ₚ ((a, b) :: l) :: F0) /\ own h (((a, b) :: l) :: F0) H /\ a = p /\ p <> 0 /\
    pbufs h !! p = Some b /\ 14 <= len b /\ fits 16 (len b) /\ 1 <= ref b <= 65535.
Proof.
  intros O Hp. destruct (ow_held _ _ _ O p Hp) as (l & Hl & E).
  destruct (packet_at_cons h l (ow_packet _ _ _ O l Hl)) as (a & b & l' & -> & Ha & Eb & R).
  cbn in E. subst p. apply elem_of_Permutation in Hl as [F0 PF0]. exists a, b, l', F0.
  split; [exact PF0|]. split; [exact (own_perm h F _ H H PF0 (Permutation_refl _) O)|]. auto.
Qed.

(** The chain from a held address is the packet. *)
Lemma own_chain h F H p l : own h F H -> p ∈ H -> chain (pbufs h) p l -> l ∈ F.
Proof.
  intros O Hp C. destruct (ow_held _ _ _ O p Hp) as (m & Hm & E). destruct (ow_packet _ _ _ O m Hm) as (Cm & _).
  rewrite E in Cm. now rewrite (lseg_det (pbufs h) l m p C Cm).
Qed.

Lemma own_mem h F H f : own h F H -> own (with_mem f h) F H.
Proof. intros [A1 A2 A3 A4 A5 A6]. constructor; auto. Qed.

Lemma addrs_cons l F : addrs (l :: F) = l.*1 ++ addrs F.
Proof. unfold addrs. cbn [concat]. apply fmap_app. Qed.

Lemma in_addrs l F a : l ∈ F -> a ∈ l.*1 -> a ∈ addrs F.
Proof.
  intros Hl Ha. unfold addrs. apply list_elem_of_fmap in Ha as (x & -> & Hx). apply list_elem_of_fmap_2.
  apply list_elem_of_In, in_concat. exists l. split; now apply list_elem_of_In.
Qed.

(** A packet stays one when its pbufs and their blocks are as they were. *)
Lemma packet_at_frame h h' l : (forall a, a ∈ l.*1 -> pbufs h' !! a = pbufs h !! a) ->
  (forall a, a ∈ l.*1 -> is_Some (blocks h !! a) -> is_Some (blocks h' !! a)) -> packet_at h l -> packet_at h' l.
Proof.
  intros F1 F2 (C & HP & HL & Hl). split; [now apply (lseg_frame (pbufs h))|]. split; [exact HP|]. split; [|exact Hl].
  rewrite Forall_forall in HL |- *. intros x Hx. destruct (HL x Hx) as (Hr & Hp & Hf). split; [exact Hr|]. split; [|exact Hf].
  destruct Hp as [Hp|[Hp HB]]; [now left|]. right. split; [exact Hp|]. apply F2; [|exact HB]. now apply list_elem_of_fmap_2.
Qed.

(** A holder more, or one less. *)
Lemma holders_cons H p q : holders (p :: H) q = holders H q + (if decide (p = q) then 1 else 0).
Proof.
  unfold holders. cbn [count_occ]. destruct (Z.eq_dec p q) as [->|N].
  - rewrite decide_True by reflexivity. lia.
  - rewrite decide_False by congruence. lia.
Qed.

Lemma holders_in H p : p ∈ H -> 1 <= holders H p.
Proof.
  intros Hp. unfold holders. apply list_elem_of_In, (count_occ_In Z.eq_dec) in Hp. lia.
Qed.

(** Replacing the first packet: the general step.  The new version has the same
    addresses; the others and the pool are apart from it. *)
Lemma own_change h h' a b b' l F H H' : own h (((a, b) :: l) :: F) H ->
  pbufs h' = <[a := b']> (pbufs h) -> blocks h' = blocks h -> pbuf_pool h' = pbuf_pool h -> stats h' = stats h ->
  next b' = next b -> flags b' = flags b -> 1 <= ref b' <= 65535 -> fits 16 (len b') -> 14 <= len b' ->
  packet ((a, b') :: l) ->
  (forall p, p ∈ H' -> p ∈ H \/ p = a) -> holders H' a <= ref b' ->
  (forall p, p <> a -> holders H' p <= holders H p) ->
  own h' (((a, b') :: l) :: F) H'.
Proof.
  intros O Ep Eb El Es En Ef Hr Hfit Hlen HP HH Hc Ho. destruct O as [A1 A2 A3 A4 A5 A6].
  rewrite addrs_cons in A2. cbn [fmap list_fmap fst] in A2.
  assert (Na : (a ∉ l.*1) /\ (a ∉ addrs F)).
  { cbn [app] in A2. apply NoDup_cons in A2 as [A2 _]. now apply not_elem_of_app in A2. }
  destruct Na as [Na NF]. constructor.
  - intros m [->|Hm]%elem_of_cons.
    + destruct (A1 ((a, b) :: l)) as (C & _ & HL & _); [apply elem_of_cons; auto|].
      destruct C as (_ & Ha & _ & C). inversion_clear HL as [|? ? (_ & Hp & _) HL'].
      split; [|split; [exact HP|split; [|exact Hlen]]].
      * cbn. split; [reflexivity|]. split; [exact Ha|]. split; [rewrite Ep; apply lookup_insert_eq|].
        rewrite Ep, En. now apply lseg_insert_other.
      * rewrite Eb. constructor; [|exact HL']. split; [exact Hr|]. split; [|exact Hfit].
        unfold placed in *. cbn in *. now rewrite Ef.
    + apply (packet_at_frame h); [| |apply A1; apply elem_of_cons; auto].
      * intros c Hc'. rewrite Ep. apply lookup_insert_ne. intros <-. apply NF. now apply (in_addrs m).
      * intros c _. now rewrite Eb.
  - rewrite addrs_cons. exact A2.
  - intros p Hp. destruct (HH p Hp) as [Hp'| ->].
    + destruct (A3 p Hp') as (m & [->|Hm]%elem_of_cons & E).
      * exists ((a, b') :: l). split; [apply elem_of_cons; auto|exact E].
      * exists m. split; [apply elem_of_cons; auto|exact E].
    + exists ((a, b') :: l). split; [apply elem_of_cons; auto|reflexivity].
  - intros m [->|Hm]%elem_of_cons; [exact Hc|]. etransitivity; [apply Ho|apply A4, elem_of_cons; auto].
    intros E. destruct (packet_at_cons h m) as (c & d & m' & -> & _).
    { apply A1, elem_of_cons. auto. }
    cbn in E. subst c. apply NF, (in_addrs ((a, d) :: m')); [exact Hm|apply elem_of_cons; auto].
  - destruct A5 as (P & (lp & C & ->) & HI & D). exists (lp.*1). split.
    + exists lp. split; [|reflexivity]. rewrite Ep, El. apply lseg_insert_other; [|exact C].
      intros Hin. apply (D a); [|exact Hin]. rewrite addrs_cons. apply elem_of_app. left. apply elem_of_cons. auto.
    + split; [exact HI|]. intros c Hc'. apply D. rewrite addrs_cons in *. exact Hc'.
  - now rewrite Es.
Qed.

(** ** Freeing *)

(** What is left of a packet after [pbuf_free]. *)
Definition unref_chain (l : pchain) : list pchain :=
  match l with
  | [] => []
  | (a, b) :: l => if ref b =? 1 then [] else [(a, set_ref (ref b - 1) b) :: l]
  end.

Lemma packet_set_ref a b l v : packet ((a, b) :: l) -> packet ((a, set_ref v b) :: l).
Proof.
  intros ((HT & HT') & HL & HP). split; [split; [exact HT|exact HT']|]. split; [|exact HP].
  inversion_clear HL. now constructor.
Qed.

Lemma live_owned B l : Forall (live B) l -> Forall (owned B) l.
Proof.
  intros HL. eapply Forall_impl; [exact HL|]. intros x (_ & [[Hp _]|Hp] & _); [now left|now right].
Qed.

Lemma pooled_in_pool B l : Forall (live B) l -> Forall in_pool (pooled l).
Proof.
  intros HL. rewrite Forall_forall in HL. apply Forall_forall. intros a Ha. unfold pooled in Ha.
  apply list_elem_of_fmap in Ha as (x & -> & Hx). apply list_elem_of_filter in Hx as [Hf Hx].
  unfold is_pool in Hf. apply Z.eqb_eq in Hf. destruct (HL x Hx) as (_ & [[_ Hp]|[Hp _]] & _); [exact Hp|contradiction].
Qed.

Lemma own_free h p l F H : own h (l :: F) (p :: H) -> head_addr l = p ->
  exists n h', pbuf_free p h = Some (n, h') /\ mem h' = mem h /\ own h' (unref_chain l ++ F) H.
Proof.
  intros O Ep. pose proof O as [A1 A2 A3 A4 A5 A6].
  pose proof (A1 l ltac:(apply elem_of_cons; auto)) as (C & HP & HL & Hl).
  destruct l as [|[a b] l]; [contradiction|]. cbn in Ep. subst a. cbn [head_addr] in C.
  pose proof C as (_ & Hp & Eb & _). pose proof (A4 _ (list_elem_of_here _ _)) as Hc. cbn [head_addr head_ref] in Hc.
  rewrite holders_cons, decide_True in Hc by reflexivity.
  cbn [unref_chain]. destruct (Z.eqb_spec (ref b) 1) as [E1|N1].
  - (* the last reference *)
    destruct (refs_split ((p, b) :: l)) as (gone & rest & Eg & HG & Hs).
    { eapply Forall_impl; [exact HL|]. intros x Hx. apply Hx. }
    pose proof HL as HL'. rewrite Eg in HL'. apply Forall_app in HL' as [HLg HLr].
    rewrite Eg in C. pose proof (chain_nodup _ _ _ C) as N. pose proof (chain_nonzero _ _ _ C) as NZ.
    rewrite fmap_app in N, NZ. apply NoDup_app in N as (N1 & N12 & _). apply Forall_app in NZ as [NZ _].
    assert (HF : Forall (fun x => ref x.2 = 1 /\ owned (blocks h) x) gone).
    { apply Forall_and. split; [exact HG|now apply live_owned]. }
    pose proof (pbuf_free_ok h p gone rest C HF Hs) as EF.
    set (h' := unref rest (foldl free_one h gone)) in EF. exists (u8 (Z.of_nat (length gone))), h'.
    split; [exact EF|]. split.
    { unfold h'. destruct rest as [|[c d] rest]; apply free_all_mem. }
    rewrite addrs_cons, Eg in A2. apply NoDup_app in A2 as (_ & ND & A2).
    assert (EB : forall c, c ∉ gone.*1 -> blocks h' !! c = blocks h !! c).
    { intros c Hc'. unfold h'. destruct rest as [|[? ?] ?]; cbn; now apply free_all_blocks_frame. }
    cbn [app]. constructor.
    + intros m Hm. apply (packet_at_frame h); [| |apply A1; apply elem_of_cons; auto].
      * intros c Hc'. apply pbuf_free_frame. intros Hin. apply (ND c Hin). now apply (in_addrs m).
      * intros c Hc'. rewrite EB; [auto|]. intros Hin. apply (ND c); [rewrite fmap_app; apply elem_of_app; auto|].
        now apply (in_addrs m).
    + exact A2.
    + intros q Hq. destruct (A3 q) as (m & [->|Hm]%elem_of_cons & E); [apply elem_of_cons; auto| |eauto].
      exfalso. cbn in E. subst q. apply holders_in in Hq. lia.
    + intros m Hm. pose proof (A4 m ltac:(apply elem_of_cons; auto)) as B. rewrite holders_cons in B.
      destruct (decide _); lia.
    + destruct A5 as (P & HPl & HI & D). exists (reverse (pooled gone) ++ P).
      assert (Dg : forall c, c ∈ (gone ++ rest).*1 -> c ∉ P).
      { intros c Hc'. apply D. rewrite addrs_cons, Eg. apply elem_of_app. auto. }
      split; [|split].
      * apply pool_list_unref.
        -- intros c Hc' [Hin|Hin]%elem_of_app.
           ++ apply elem_of_reverse, pooled_subset in Hin. now apply (N12 c).
           ++ apply (Dg c); [rewrite fmap_app; apply elem_of_app; auto|exact Hin].
        -- apply pool_list_free_all; auto. intros c Hc'. apply Dg. rewrite fmap_app. apply elem_of_app. auto.
      * apply Forall_app. split; [|exact HI]. apply Forall_reverse. now apply (pooled_in_pool (blocks h)).
      * intros c Hc' [Hin|Hin]%elem_of_app.
        -- apply elem_of_reverse, pooled_subset in Hin. apply (ND c); [|exact Hc'].
           rewrite fmap_app. apply elem_of_app. auto.
        -- apply (D c); [|exact Hin]. rewrite addrs_cons. apply elem_of_app. auto.
    + unfold h'. destruct rest as [|[? ?] ?]; cbn [unref]; cbn; rewrite free_all_used by exact A6; auto with cint.
  - (* one of several *)
    inversion_clear HL as [|? ? (Hr & _ & Hf) HL']. cbn [snd] in *.
    pose proof (pbuf_free_ok h p [] ((p, b) :: l) C ltac:(constructor)) as EF.
    cbn [stays] in EF. rewrite wrap_small in EF by (unfold fits; pow2; lia). specialize (EF ltac:(lia)).
    cbn [foldl length unref] in EF. rewrite wrap_small in EF by (unfold fits; pow2; lia).
    eexists _, _. split; [exact EF|]. split; [reflexivity|]. rewrite (wrap_small 16) by (unfold fits; pow2; lia).
    apply (own_change h _ p b _ l F (p :: H) H O); try reflexivity.
    + cbn. lia.
    + exact Hf.
    + exact Hl.
    + now apply packet_set_ref.
    + intros q Hq. left. apply elem_of_cons. auto.
    + cbn. lia.
    + intros q Hq. rewrite holders_cons. destruct (decide _); lia.
Qed.

(** ** One more reference, and one more header *)

Lemma own_ref h p b l F H : own h (((p, b) :: l) :: F) H -> ref b < 65535 ->
  exists h', pbuf_ref p h = Some (tt, h') /\ h' = with_pbufs <[p := set_ref (ref b + 1) b]> h /\
    own h' (((p, set_ref (ref b + 1) b) :: l) :: F) (p :: H).
Proof.
  intros O Hr. pose proof (ow_packet _ _ _ O _ (list_elem_of_here _ _)) as K. pose proof K as (C & HP & HL & Hl).
  destruct C as (_ & Hp & Eb & _). inversion_clear HL as [|? ? (Hr1 & _ & Hf) HL']. cbn [snd] in *.
  pose proof (ow_count _ _ _ O _ (list_elem_of_here _ _)) as Hc. cbn [head_addr head_ref] in Hc.
  eexists. split; [|split; [reflexivity|]].
  - unfold pbuf_ref. replace (p =? 0) with false by lia. cbn [negb]. erewrite update_ok by exact Eb.
    rewrite wrap_small by (unfold fits; pow2; lia). reflexivity.
  - apply (own_change h _ p b _ l F H (p :: H) O); try reflexivity.
    + cbn. lia.
    + exact Hf.
    + exact Hl.
    + now apply packet_set_ref.
    + intros q [->|Hq]%elem_of_cons; auto.
    + rewrite holders_cons, decide_True by reflexivity. cbn. lia.
    + intros q Hq. rewrite holders_cons, decide_False by congruence. lia.
Qed.

(** What [pbuf_header(p, 14)] gives: it fails and does nothing, or the packet has
    14 more bytes. *)
Lemma own_header h p b l F H : own h (((p, b) :: l) :: F) H -> tot_len b + 14 <= 65535 ->
  flags b ∈ [PBUF_FLAG_RAM; PBUF_FLAG_ROM; PBUF_FLAG_POOL; PBUF_FLAG_REF] ->
  (pbuf_header p 14 h = Some (1, h) /\ (holds_data b -> payload b - 14 < p + sizeof_pbuf)) \/
  (holds_data b /\ p + sizeof_pbuf <= payload b - 14 /\
   exists h', pbuf_header p 14 h = Some (0, h') /\ h' = with_pbufs <[p := moved 14 b]> h /\
   own h' (((p, moved 14 b) :: l) :: F) H).
Proof.
  intros O Ht Hfl. pose proof (ow_packet _ _ _ O _ (list_elem_of_here _ _)) as K. pose proof K as (C & HP & HL & Hl).
  destruct C as (_ & Hp & Eb & _). pose proof HL as HL0. inversion_clear HL as [|? ? (Hr1 & _ & Hf) HL']. cbn [snd] in *.
  pose proof (ow_count _ _ _ O _ (list_elem_of_here _ _)) as Hc. cbn [head_addr head_ref] in Hc.
  assert (R : refers_data b -> pbuf_header p 14 h = Some (1, h)).
  { intros Hd. rewrite (pbuf_header_ref h p b 14 Eb Hp ltac:(lia) Hd) by apply Hf. reflexivity. }
  assert (D : refers_data b \/ holds_data b).
  { unfold refers_data, holds_data. rewrite !elem_of_cons in Hfl. rewrite elem_of_nil in Hfl. tauto. }
  destruct D as [D|D].
  { left. split; [exact (R D)|]. intros D'. unfold holds_data, refers_data, PBUF_FLAG_RAM, PBUF_FLAG_POOL, PBUF_FLAG_REF, PBUF_FLAG_ROM in *. lia. }
  pose proof (pbuf_header_data h p b 14 Eb Hp ltac:(lia) D) as EH.
  destruct (Z.ltb_spec (payload b - 14) (p + sizeof_pbuf)) as [G|G]; [left; auto|right].
  split; [exact D|]. split; [exact G|]. eexists. split; [exact EH|]. split; [reflexivity|].
  destruct HP as ((HT & HT') & HLn & HPt). rewrite sum_len_cons in HT. cbn [snd] in HT.
  assert (B : 0 <= sum_len l) by (apply sum_len_nonneg; now inversion_clear HLn).
  assert (Ew : forall x, 0 <= x <= tot_len b -> u16 (x + 14) = x + 14).
  { intros v Hv. apply wrap_small. unfold fits. pow2. lia. }
  unfold fits in Hf.
  assert (Elen : len (moved 14 b) = len b + 14) by (apply Ew; lia).
  apply (own_change h _ p b _ l F H H O); try reflexivity.
  - exact Hr1.
  - rewrite Elen. unfold fits. pow2. lia.
  - rewrite Elen. lia.
  - split; [split; [|exact HT']|split].
    + rewrite sum_len_cons. cbn [snd]. rewrite Elen. cbn. rewrite Ew; lia.
    + inversion_clear HLn. constructor; [cbn [snd]; rewrite Elen; lia|assumption].
    + exact HPt.
  - auto.
  - exact Hc.
Qed.

(** ** Operations that find nothing to do *)

Lemma own_dequeue h p l F H : own h (l :: F) H -> head_addr l = p -> pbuf_dequeue p h = Some (0, h).
Proof.
  intros O Ep. destruct (ow_packet _ _ _ O _ (list_elem_of_here _ _)) as (C & HP & _ & Hl). rewrite Ep in C.
  destruct l as [|[r br] l0 _] using rev_ind; [contradiction|].
  pose proof (chain_length_bound _ _ _ C) as B. rewrite length_app in B.
  unfold pbuf_dequeue, sm_bind at 1, sm_get.
  erewrite sm_bind_some by (apply (packet_last_ok l0) with (br := br) (q := 0); [exact C|exact HP|unfold heap_fuel; cbn in *; lia]).
  apply lseg_app in C as (m & _ & (-> & Hr & Er & En)). cbn in En.
  erewrite sm_bind_some by (apply load_ok; exact Er). erewrite sm_bind_some by (apply update_ok; exact Er).
  unfold sm_ret. rewrite En. do 2 f_equal. replace (set_next 0 br) with br by (rewrite <- En; now destruct br).
  now apply restore_pbufs.
Qed.

(** No pbuf of the packet is a [PBUF_REF]. *)
Definition no_ref (l : pchain) : Prop := Forall (fun x => flags x.2 <> PBUF_FLAG_REF) l.

Lemma take_loop_ok l : forall fuel p prev head h, l <> [] -> chain (pbufs h) p l -> no_ref l -> (length l <= fuel)%nat ->
  take_loop fuel p prev head h = Some (head, h).
Proof.
  induction l as [|[a b] l IH]; intros fuel p prev head h Hne C NR Hf; [congruence|].
  destruct fuel as [|f]; [cbn in Hf; lia|]. destruct C as (-> & Ha & Eb & C). inversion_clear NR as [|? ? Nb NR'].
  cbn [take_loop]. erewrite sm_bind_some by (apply load_ok; exact Eb). cbn [snd] in Nb.
  replace (flags b =? PBUF_FLAG_REF) with false by lia. destruct l as [|[c d] l].
  - cbn in C. now rewrite C.
  - pose proof C as (En & Hn & _). rewrite En. replace (c =? 0) with false by lia. cbn [negb].
    apply IH; [discriminate|rewrite En in C; exact C|exact NR'|cbn in *; lia].
Qed.

Lemma own_take h p l F H : own h (l :: F) H -> head_addr l = p -> no_ref l -> pbuf_take p h = Some (p, h).
Proof.
  intros O Ep NR. destruct (ow_packet _ _ _ O _ (list_elem_of_here _ _)) as (C & _ & _ & Hl). rewrite Ep in C.
  pose proof (chain_length_bound _ _ _ C) as B. unfold pbuf_take, sm_bind, sm_get.
  apply (take_loop_ok l); [now destruct l|exact C|exact NR|unfold heap_fuel; lia].
Qed.

(** ** Allocation *)

Lemma own_alloc {ML : MallocLaw} h F H : own h F H ->
  (malloc_addr (blocks h) 72 = None /\ pbuf_alloc PBUF_LINK 42 PBUF_RAM h = Some (0, h)) \/
  exists p h', malloc_addr (blocks h) 72 = Some p /\ p <> 0 /\ pbuf_alloc PBUF_LINK 42 PBUF_RAM h = Some (p, h') /\
    mem h' = mem h /\ (p ∉ addrs F) /\ pbufs h' = <[p := mkPbuf 0 (p + 30) 42 42 PBUF_FLAG_RAM 1]> (pbufs h) /\
    own h' ([(p, mkPbuf 0 (p + 30) 42 42 PBUF_FLAG_RAM 1)] :: F) (p :: H).
Proof.
  intros [A1 A2 A3 A4 A5 A6].
  assert (EA : pbuf_alloc PBUF_LINK 42 PBUF_RAM h =
    match malloc_addr (blocks h) 72 with
    | Some p => if p =? 0 then Some (0, with_blocks <[p := 72]> h)
                else Some (p, with_pbufs <[p := mkPbuf 0 (p + 30) 42 42 PBUF_FLAG_RAM 1]> (with_blocks <[p := 72]> h))
    | None => Some (0, h)
    end).
  { unfold pbuf_alloc, pbuf_alloc_ram, mem_malloc. rewrite !MEM_ALIGN_SIZE_id. change (layer_offset PBUF_LINK) with 14.
    change (u16 (sizeof_pbuf + 14 + 42)) with 72. unfold sm_bind at 1, malloc.
    destruct (malloc_addr (blocks h) 72) as [p|]; [|reflexivity]. destruct (p =? 0); [reflexivity|].
    rewrite MEM_ALIGN_id. unfold sizeof_pbuf. replace (p + 16 + 14) with (p + 30) by lia. reflexivity. }
  rewrite EA. destruct (malloc_addr (blocks h) 72) as [p|] eqn:Em; [|left; auto].
  destruct (malloc_law (blocks h) 72 p Em) as (Hp & HB & HI). right.
  replace (p =? 0) with false by lia. eexists p, _. split; [reflexivity|]. split; [exact Hp|]. split; [reflexivity|].
  assert (NP : forall l x, l ∈ F -> x ∈ l -> x.1 <> p).
  { intros l x Hl Hx E. destruct (A1 l Hl) as (_ & _ & HL & _). rewrite Forall_forall in HL.
    destruct (HL x Hx) as (_ & [[_ K]|[_ [m K]]] & _); rewrite E in K; [contradiction|congruence]. }
  assert (NF : p ∉ addrs F).
  { unfold addrs. intros Hin. apply list_elem_of_fmap in Hin as (x & E & Hx).
    apply list_elem_of_In, in_concat in Hx as (l & Hl & Hx). apply (NP l x); [now apply list_elem_of_In..|auto]. }
  split; [reflexivity|]. split; [exact NF|]. split; [reflexivity|]. constructor.
  - intros l [->|Hl]%elem_of_cons.
    + split; [|split; [|split]].
      * cbn. repeat split; auto. apply lookup_insert_eq.
      * split; [cbn; auto|]. split; [|constructor]. constructor; [cbn; lia|constructor].
      * constructor; [|constructor]. split; [cbn; lia|]. split; [|split; [cbn; lia|reflexivity]].
        right. split; [discriminate|]. cbn. rewrite lookup_insert_eq. eauto.
      * cbn. lia.
    + apply (packet_at_frame h); [| |now apply A1].
      * intros a Ha. cbn. apply lookup_insert_ne. intros <-. apply NF. now apply (in_addrs l).
      * intros a Ha [m Hm]. cbn. destruct (decide (p = a)) as [->|N]; [rewrite lookup_insert_eq; eauto|].
        rewrite lookup_insert_ne by congruence. eauto.
  - rewrite addrs_cons. cbn. apply NoDup_cons. auto.
  - intros q [->|Hq]%elem_of_cons; [eexists; split; [apply list_elem_of_here|reflexivity]|].
    destruct (A3 q Hq) as (l & Hl & E). exists l. split; [apply elem_of_cons; auto|exact E].
  - intros l [->|Hl]%elem_of_cons; rewrite holders_cons.
    + cbn [head_addr head_ref ref]. rewrite decide_True by reflexivity.
      enough (holders H p = 0) by lia. unfold holders. rewrite (proj1 (count_occ_not_In Z.eq_dec H p)); [reflexivity|].
      intros Hin%list_elem_of_In. destruct (A3 p Hin) as (l & Hl & E).
      destruct (packet_at_cons h l (A1 l Hl)) as (a & b & l' & -> & _). cbn in E. subst a.
      apply NF, (in_addrs ((p, b) :: l')); [exact Hl|apply elem_of_cons; auto].
    + rewrite decide_False; [specialize (A4 l Hl); lia|]. intros E.
      destruct (packet_at_cons h l (A1 l Hl)) as (a & b & l' & -> & _). cbn in E. subst a.
      apply NF, (in_addrs ((p, b) :: l')); [exact Hl|apply elem_of_cons; auto].
  - destruct A5 as (P & (lp & C & ->) & HIP & D). exists lp.*1.
    assert (Np : p ∉ lp.*1) by (intros Hin; rewrite Forall_forall in HIP; now apply HI, HIP).
    split; [|split; [exact HIP|]].
    + exists lp. split; [|reflexivity]. cbn. now apply lseg_insert_other.
    + intros a. rewrite addrs_cons. cbn. intros [->|Ha]%elem_of_cons; [exact Np|now apply D].
  - exact A6.
Qed.

End Own.
