(* ===== verification/EtharpTable.v ===== *)
(** * EtharpTable: the ARP table

    Theorems about the table of [Etharp]: its invariant, which entry
    [find_entry] chooses, and what the timer does; no C code. *)
From Stdlib Require Import ZArith Lia List Bool.
From stdpp Require Import base gmap list.
From S2P Require Import Tcp Prelude Inet IpAddr Pbuf Etharp EtharpHeap.
Import ListNotations.
#[local] Open Scope Z_scope.
#[local] Open Scope sm_scope.

(** ** The invariant *)

Definition is_live (e : etharp_entry) : bool :=
  match e_state e with ETHARP_STATE_PENDING | ETHARP_STATE_STABLE => true | _ => false end.

(** An address of one host, whatever the interface. *)
Definition host_addr (a : Z) : Prop :=
  a <> ip_addr_any /\ a <> ip_addr_broadcast /\ ip_addr_ismulticast a = false.

Definition age_ok (e : etharp_entry) : Prop :=
  match e_state e with
  | ETHARP_STATE_EMPTY => fits 8 (e_ctime e)
  | ETHARP_STATE_PENDING => 0 <= e_ctime e < ARP_MAXPENDING
  | ETHARP_STATE_STABLE => 0 <= e_ctime e < ARP_MAXAGE
  | ETHARP_STATE_EXPIRED => False
  end.

(** An entry between calls: a packet waits only for an address that is being
    resolved. *)
Definition entry_ok (e : etharp_entry) : Prop :=
  age_ok e /\ (e_p e <> 0 -> e_state e = ETHARP_STATE_PENDING) /\ length (e_eth e) = 6%nat /\
  (is_live e = true -> host_addr (e_ip e)).

(** No address has two entries. *)
Definition distinct (t : list etharp_entry) : Prop :=
  forall i j e f, t !! i = Some e -> t !! j = Some f -> is_live e = true -> is_live f = true -> e_ip e = e_ip f -> i = j.

Record table_ok (t : list etharp_entry) : Prop := {
  to_length : length t = 10%nat;
  to_entries : Forall entry_ok t;
  to_distinct : distinct t
}.

(** The packets that wait. *)
Definition queue_of (e : etharp_entry) : list Z := if e_p e =? 0 then [] else [e_p e].
Definition queued (t : list etharp_entry) : list Z := concat (map queue_of t).

(** The invariant: the heap has the packets that wait, and those of the holders
    [X]. *)
Definition arp_inv {PF : Platform} (st : arp) (X : list Z) : Prop :=
  table_ok (arp_table st) /\ exists F, own (heap st) F (queued (arp_table st) ++ X).

Lemma entry_at t i e : table_ok t -> t !! i = Some e -> entry_ok e /\ (i < 10)%nat.
Proof.
  intros K Hi. split; [exact (proj1 (Forall_lookup _ _) (to_entries _ K) i e Hi)|].
  rewrite <- (to_length _ K). now apply lookup_lt_Some in Hi.
Qed.

Lemma queued_insert t i e e' : t !! i = Some e ->
  exists rest, (queued t ≡ₚ queue_of e ++ rest) /\ (queued (<[i := e']> t) ≡ₚ queue_of e' ++ rest).
Proof.
  intros Hi. exists (queued (take i t) ++ queued (drop (S i) t)).
  assert (K : forall x, queued (take i t ++ x :: drop (S i) t) ≡ₚ queue_of x ++ queued (take i t) ++ queued (drop (S i) t)).
  { intros x. unfold queued. rewrite map_app, concat_app. cbn [map concat]. rewrite !app_assoc.
    now rewrite (Permutation_app_comm (concat (map queue_of (take i t))) (queue_of x)). }
  split.
  - rewrite <- (take_drop_middle t i e Hi) at 1. apply K.
  - rewrite insert_take_drop by (now apply lookup_lt_Some in Hi). apply K.
Qed.

Lemma queued_same t i e e' : t !! i = Some e -> e_p e' = e_p e -> queued (<[i := e']> t) ≡ₚ queued t.
Proof.
  intros Hi Ep. destruct (queued_insert t i e e' Hi) as (rest & -> & ->). unfold queue_of. now rewrite Ep.
Qed.

Lemma distinct_insert t i e : distinct t ->
  (is_live e = true -> forall j f, t !! j = Some f -> is_live f = true -> e_ip f = e_ip e -> j = i) ->
  distinct (<[i := e]> t).
Proof.
  intros D He j k f g Hj Hk Lf Lg E. destruct (decide (i = j)) as [<-|Nj], (decide (i = k)) as [<-|Nk]; [reflexivity|..].
  - apply list_lookup_insert_Some in Hj as [(_ & -> & _)|(N & _)]; [|congruence].
    rewrite list_lookup_insert_ne in Hk by exact Nk. symmetry. now apply (He Lf k g).
  - apply list_lookup_insert_Some in Hk as [(_ & -> & _)|(N & _)]; [|congruence].
    rewrite list_lookup_insert_ne in Hj by exact Nj. now apply (He Lg j f).
  - rewrite list_lookup_insert_ne in Hj, Hk by assumption. now apply (D j k f g).
Qed.

Lemma table_insert t i e : table_ok t -> entry_ok e ->
  (is_live e = true -> forall j f, t !! j = Some f -> is_live f = true -> e_ip f = e_ip e -> j = i) ->
  table_ok (<[i := e]> t).
Proof.
  intros [L T D] He Hd. constructor.
  - now rewrite length_insert.
  - now apply Forall_insert.
  - now apply distinct_insert.
Qed.

(** The entry is replaced by one of the same address that lives at most if it
    did. *)
Lemma table_update t i e e' : table_ok t -> t !! i = Some e -> entry_ok e' -> e_ip e' = e_ip e ->
  (is_live e' = true -> is_live e = true) -> table_ok (<[i := e']> t).
Proof.
  intros K Hi He Ei Hl. apply table_insert; [exact K|exact He|]. intros Le j f Hj Lf E.
  apply (to_distinct _ K j i f e); auto. congruence.
Qed.

(** ** Steps of the monad *)

Section Steps.
Context {PF : Platform} {ET : Ether}.

Lemma index_ok i : (Z.of_nat i <? 0) = false.
Proof. apply Z.ltb_ge. lia. Qed.

Lemma entry_run i st e : arp_table st !! i = Some e -> entry (Z.of_nat i) st = Some (e, st).
Proof.
  intros Hi. unfold entry. now rewrite index_ok, Nat2Z.id, Hi.
Qed.

Lemma set_entry_run i f st e : arp_table st !! i = Some e ->
  set_entry (Z.of_nat i) f st = Some (tt, with_table <[i := f e]> st).
Proof. intros Hi. unfold set_entry. rewrite (sm_bind_some _ _ _ _ _ (entry_run i st e Hi)). now rewrite Nat2Z.id. Qed.

Lemma lookup_set i (e e' : etharp_entry) (t : list etharp_entry) : t !! i = Some e -> <[i := e']> t !! i = Some e'.
Proof. intros Hi. apply list_lookup_insert_eq. now apply lookup_lt_Some in Hi. Qed.

Lemma on_heap_run {T} (m : M T) st a h : m (heap st) = Some (a, h) -> on_heap m st = Some (a, with_heap h st).
Proof. unfold on_heap. now intros ->. Qed.

Lemma with_table2 f g st : with_table f (with_table g st) = with_table (fun t => f (g t)) st.
Proof. reflexivity. Qed.

End Steps.

(** ** Which entry [find_entry] chooses *)

(** How much is lost with an entry. *)
Definition rank (e : etharp_entry) : Z :=
  match e_state e with
  | ETHARP_STATE_EMPTY => 0
  | ETHARP_STATE_STABLE => 1
  | ETHARP_STATE_PENDING => if e_p e =? 0 then 2 else 3
  | ETHARP_STATE_EXPIRED => 4
  end.

(** Entry [i] is the one to take: of the lowest rank; among the empty ones the
    first, among others the oldest, the last of those. *)
Definition preferred (t : list etharp_entry) (i : nat) (e : etharp_entry) : Prop :=
  forall k f, t !! k = Some f -> rank e < rank f \/
    (rank e = rank f /\
     if rank e =? 0 then (i <= k)%nat
     else e_ctime f < e_ctime e \/ (e_ctime f = e_ctime e /\ (k <= i)%nat)).

Definition oldest (c : Z) (t : list etharp_entry) (i age : Z) : Prop :=
  (i = ARP_TABLE_SIZE /\ age = 0 /\ forall k f, t !! k = Some f -> rank f <> c) \/
  (exists k e, i = Z.of_nat k /\ t !! k = Some e /\ rank e = c /\ age = e_ctime e /\
     forall k' f, t !! k' = Some f -> rank f = c -> e_ctime f < age \/ (e_ctime f = age /\ (k' <= k)%nat)).

Definition first_empty (t : list etharp_entry) (i : Z) : Prop :=
  (i = ARP_TABLE_SIZE /\ forall k f, t !! k = Some f -> rank f <> 0) \/
  (exists k e, i = Z.of_nat k /\ t !! k = Some e /\ rank e = 0 /\ forall k' f, t !! k' = Some f -> rank f = 0 -> (k <= k')%nat).

(** The local variables after the sweep has seen [t]. *)
Record swept (t : list etharp_entry) (s : sweep) : Prop := {
  sw_empty : first_empty t (empty s);
  sw_stable : oldest 1 t (old_stable s) (age_stable s);
  sw_pending : oldest 2 t (old_pending s) (age_pending s);
  sw_queue : oldest 3 t (old_queue s) (age_queue s)
}.

Lemma snoc_lookup (t : list etharp_entry) e k f : (t ++ [e]) !! k = Some f -> t !! k = Some f \/ (k = length t /\ f = e).
Proof.
  intros Hk. apply lookup_app_Some in Hk as [Hk|[Hl Hk]]; [auto|]. right.
  destruct (k - length t)%nat as [|m] eqn:Em; [|discriminate]. injection Hk as <-. split; [lia|reflexivity].
Qed.

Lemma oldest_other c t e i a : oldest c t i a -> rank e <> c -> oldest c (t ++ [e]) i a.
Proof.
  intros [(-> & -> & N)|(k & f & -> & Hk & Hr & -> & Hm)] He.
  - left. split; [reflexivity|]. split; [reflexivity|]. intros k f [Hk|[_ ->]]%snoc_lookup; eauto.
  - right. exists k, f. split; [reflexivity|]. split; [now apply lookup_app_l_Some|]. split; [exact Hr|].
    split; [reflexivity|]. intros k' g [Hk'|[_ ->]]%snoc_lookup Hg; [eauto|contradiction].
Qed.

Lemma oldest_same c t e i a : oldest c t i a -> rank e = c -> 0 <= e_ctime e ->
  if a <=? e_ctime e then oldest c (t ++ [e]) (Z.of_nat (length t)) (e_ctime e) else oldest c (t ++ [e]) i a.
Proof.
  intros O He H0. destruct (Z.leb_spec a (e_ctime e)) as [L|L].
  - right. exists (length t), e. split; [reflexivity|]. split; [now apply list_lookup_middle|].
    split; [exact He|]. split; [reflexivity|]. intros k f [Hk|[-> ->]]%snoc_lookup Hf; [|right; split; lia].
    destruct O as [(_ & _ & N)|(j & g & -> & Hj & Hg & -> & Hm)]; [destruct (N k f Hk Hf)|].
    apply lookup_lt_Some in Hk as Lk. destruct (Hm k f Hk Hf) as [B|[B _]]; [left; lia|].
    destruct (Z.eq_dec (e_ctime f) (e_ctime e)); [right|left]; lia.
  - destruct O as [(_ & -> & _)|(j & g & -> & Hj & Hg & -> & Hm)]; [lia|].
    right. exists j, g. split; [reflexivity|]. split; [now apply lookup_app_l_Some|]. split; [exact Hg|]. split; [reflexivity|].
    intros k f [Hk|[-> ->]]%snoc_lookup Hf; [eauto|left; lia].
Qed.

Lemma first_other t e i : first_empty t i -> i <> ARP_TABLE_SIZE \/ rank e <> 0 -> first_empty (t ++ [e]) i.
Proof.
  intros [[-> N]|(k & f & -> & Hk & Hr & Hm)] He.
  - left. split; [reflexivity|]. intros k f [Hk|[_ ->]]%snoc_lookup; [eauto|]. destruct He; [congruence|assumption].
  - right. exists k, f. split; [reflexivity|]. split; [now apply lookup_app_l_Some|]. split; [exact Hr|].
    intros k' g [Hk'|[-> _]]%snoc_lookup Hg; [eauto|]. apply lookup_lt_Some in Hk. lia.
Qed.

Lemma first_here t e : first_empty t ARP_TABLE_SIZE -> (length t < 10)%nat -> rank e = 0 ->
  first_empty (t ++ [e]) (Z.of_nat (length t)).
Proof.
  intros F Hl He. right. exists (length t), e. split; [reflexivity|].
  split; [now apply list_lookup_middle|]. split; [exact He|].
  intros k f [Hk|[-> _]]%snoc_lookup Hf; [|lia].
  destruct F as [[_ N]|(j & g & E & Hj & _)]; [destruct (N k f Hk Hf)|].
  apply lookup_lt_Some in Hj. unfold ARP_TABLE_SIZE in E. lia.
Qed.

Lemma age_nonneg e : entry_ok e -> 0 <= e_ctime e.
Proof. intros [A _]. unfold age_ok, fits in A. destruct (e_state e); lia || contradiction. Qed.

Lemma sweep_step_ok a t e s : swept t s -> (length t < 10)%nat -> entry_ok e ->
  match sweep_step (Some a) (Z.of_nat (length t)) e s with
  | inl j => j = Z.of_nat (length t) /\ is_live e = true /\ e_ip e = a
  | inr s' => swept (t ++ [e]) s' /\ (is_live e = true -> e_ip e <> a)
  end.
Proof.
  intros [W0 W1 W2 W3] Hl He. pose proof (age_nonneg e He) as H0. unfold sweep_step, ip_is.
  assert (RK : rank e = match e_state e with ETHARP_STATE_EMPTY => 0 | ETHARP_STATE_STABLE => 1
    | ETHARP_STATE_PENDING => if e_p e =? 0 then 2 else 3 | ETHARP_STATE_EXPIRED => 4 end) by reflexivity.
  assert (LV : is_live e = match e_state e with ETHARP_STATE_PENDING | ETHARP_STATE_STABLE => true | _ => false end) by reflexivity.
  destruct (e_state e) eqn:Es.
  - rewrite (bool_decide_true _ eq_refl), andb_true_r. destruct (Z.eqb_spec (empty s) ARP_TABLE_SIZE) as [E|N].
    + split; [|congruence]. rewrite E in W0. constructor; cbn; [now apply first_here|apply oldest_other; [assumption|lia]..].
    + split; [|congruence]. constructor; [apply first_other; auto|apply oldest_other; [assumption|lia]..].
  - rewrite bool_decide_false, andb_false_r by discriminate.
    destruct (Z.eqb_spec a (e_ip e)) as [->|Na]; [auto|]. destruct (Z.eqb_spec (e_p e) 0) as [Ep|Ep]; cbn [negb].
    + pose proof (oldest_same 2 t e _ _ W2 RK H0) as O. destruct (_ <=? _); (split; [|congruence]);
        (constructor; cbn; [apply first_other; [assumption|right; lia]|apply oldest_other; [assumption|lia]|exact O|apply oldest_other; [assumption|lia]]).
    + pose proof (oldest_same 3 t e _ _ W3 RK H0) as O. destruct (_ <=? _); (split; [|congruence]);
        (constructor; cbn; [apply first_other; [assumption|right; lia]|apply oldest_other; [assumption|lia]|apply oldest_other; [assumption|lia]|exact O]).
  - rewrite bool_decide_false, andb_false_r by discriminate.
    destruct (Z.eqb_spec a (e_ip e)) as [->|Na]; [auto|].
    pose proof (oldest_same 1 t e _ _ W1 RK H0) as O. destruct (_ <=? _); (split; [|congruence]);
      (constructor; cbn; [apply first_other; [assumption|right; lia]|exact O|apply oldest_other; [assumption|lia]..]).
  - destruct He as [A _]. unfold age_ok in A. now rewrite Es in A.
Qed.

Lemma sweep_loop_ok a t : forall pre s, swept pre s -> (length pre + length t <= 10)%nat -> Forall entry_ok t ->
  (forall e, e ∈ pre -> is_live e = true -> e_ip e <> a) ->
  match sweep_loop (Some a) (Z.of_nat (length pre)) t s with
  | inl j => exists i e, j = Z.of_nat i /\ (pre ++ t) !! i = Some e /\ is_live e = true /\ e_ip e = a
  | inr s' => swept (pre ++ t) s' /\ forall e, e ∈ pre ++ t -> is_live e = true -> e_ip e <> a
  end.
Proof.
  induction t as [|e t IH]; intros pre s W Hl HE HN; cbn [sweep_loop].
  { rewrite app_nil_r. auto. }
  inversion_clear HE as [|? ? He HE']. cbn [length] in Hl.
  pose proof (sweep_step_ok a pre e s W ltac:(lia) He) as S.
  destruct (sweep_step _ _ _ _) as [j|s'].
  - destruct S as (-> & Le & Ei). exists (length pre), e. split; [reflexivity|].
    split; [now apply list_lookup_middle|auto].
  - destruct S as [W' N]. replace (Z.of_nat (length pre) + 1) with (Z.of_nat (length (pre ++ [e])))
      by (rewrite length_app; cbn; lia).
    replace (pre ++ e :: t) with ((pre ++ [e]) ++ t) by now rewrite <- app_assoc.
    apply IH; [exact W'|rewrite length_app; cbn; lia|exact HE'|].
    intros f [Hf|Hf]%elem_of_app; [eauto|]. apply list_elem_of_singleton in Hf as ->. exact N.
Qed.

Lemma swept0 : swept [] sweep0.
Proof. constructor; left; repeat split; intros ? ? H; discriminate. Qed.

Lemma sweep_table a t : table_ok t ->
  match sweep_loop (Some a) 0 t sweep0 with
  | inl j => exists i e, j = Z.of_nat i /\ t !! i = Some e /\ is_live e = true /\ e_ip e = a
  | inr s' => swept t s' /\ forall e, e ∈ t -> is_live e = true -> e_ip e <> a
  end.
Proof.
  intros K. apply (sweep_loop_ok a t [] sweep0 swept0); [now rewrite (to_length _ K)|apply (to_entries _ K)|].
  intros e He. now apply elem_of_nil in He.
Qed.

(** *** The result *)

(** What [find_entry] gives on the table [t]: the entry of the address; or none,
    as there is no empty one and others must not be taken; or a new one in the
    place of the preferred. *)
Definition found (t : list etharp_entry) (a flags r : Z) (t' : list etharp_entry) : Prop :=
  (exists i e, r = Z.of_nat i /\ t !! i = Some e /\ is_live e = true /\ e_ip e = a /\ t' = t) \/
  ((forall e, e ∈ t -> is_live e = true -> e_ip e <> a) /\
   ((r = ERR_MEM /\ t' = t /\ Z.land flags ETHARP_TRY_HARD = 0 /\ forall e, e ∈ t -> rank e <> 0) \/
    (exists i e, r = Z.of_nat i /\ t !! i = Some e /\ preferred t i e /\
       (Z.land flags ETHARP_TRY_HARD = 0 -> rank e = 0) /\
       t' = <[i := mkEntry 0 a (e_eth e) ETHARP_STATE_EMPTY 0]> t))).

(** The packets [F'] are some of [F], one reference less at most. *)
Definition fewer (F F' : list pchain) : Prop :=
  forall l, l ∈ F' -> exists m, m ∈ F /\ (l = m \/ l ∈ unref_chain m).

Lemma fewer_refl F : fewer F F.
Proof. intros l Hl. exists l. auto. Qed.

Lemma fewer_unref F l F0 : F ≡ₚ l :: F0 -> fewer F (unref_chain l ++ F0).
Proof.
  intros P m [Hm|Hm]%elem_of_app; [exists l|exists m]; (split; [rewrite P; apply elem_of_cons|]); auto.
Qed.

Section Find.
Context {PF : Platform} {ET : Ether}.

Lemma recycle_run a i e st : arp_table st !! i = Some e ->
  recycle (Some a) (Z.of_nat i) st
  = Some (Z.of_nat i, with_table <[i := mkEntry (e_p e) a (e_eth e) ETHARP_STATE_EMPTY 0]> st).
Proof.
  intros Hi. unfold recycle. rewrite (sm_bind_some _ _ _ _ _ (set_entry_run i _ st e Hi)).
  erewrite sm_bind_some by (eapply set_entry_run; cbn; eapply lookup_set; exact Hi).
  erewrite sm_bind_some by (eapply set_entry_run; cbn; eapply lookup_set, lookup_set; exact Hi).
  unfold sm_ret, with_table. cbn. now rewrite !list_insert_insert_eq.
Qed.

(** An entry of the lowest rank that there is, oldest of its rank. *)
Lemma preferred_oldest t c i a e k : oldest c t i a -> i = Z.of_nat k -> t !! k = Some e -> c <> 0 -> (k < 10)%nat ->
  (forall k' f, t !! k' = Some f -> c <= rank f) -> preferred t k e.
Proof.
  intros O -> Hk Hc Hl Hm k' f Hf. destruct O as [(E & _)|(j & g & E & Hj & Hg & -> & HO)]; [unfold ARP_TABLE_SIZE in E; lia|].
  apply Nat2Z.inj in E. subst j. rewrite Hk in Hj. injection Hj as <-. specialize (Hm k' f Hf).
  destruct (Z.eq_dec (rank f) c) as [Ef|Nf]; [right|left; lia]. split; [lia|].
  replace (rank e =? 0) with false by lia. eauto.
Qed.

Lemma preferred_first t i e k : first_empty t i -> i = Z.of_nat k -> t !! k = Some e -> (k < 10)%nat ->
  (forall k' f, t !! k' = Some f -> 0 <= rank f) -> preferred t k e /\ rank e = 0.
Proof.
  intros O -> Hk Hl Hm. destruct O as [(E & _)|(j & g & E & Hj & Hg & HO)]; [unfold ARP_TABLE_SIZE in E; lia|].
  apply Nat2Z.inj in E. subst j. rewrite Hk in Hj. injection Hj as <-. split; [|exact Hg].
  intros k' f Hf. specialize (Hm k' f Hf). destruct (Z.eq_dec (rank f) 0) as [Ef|Nf]; [right|left; lia].
  split; [lia|]. replace (rank e =? 0) with true by lia. eauto.
Qed.

Lemma rank_range e : entry_ok e -> 0 <= rank e <= 3.
Proof.
  intros [A _]. unfold rank, age_ok in *. destruct (e_state e); try destruct (_ =? _); lia || contradiction.
Qed.

Lemma oldest_cases c t i a : oldest c t i a -> (length t <= 10)%nat ->
  (i <? ARP_TABLE_SIZE) = false /\ (forall k f, t !! k = Some f -> rank f <> c) \/
  exists k e, (i <? ARP_TABLE_SIZE) = true /\ i = Z.of_nat k /\ t !! k = Some e /\ rank e = c.
Proof.
  intros [(-> & _ & N)|(k & e & -> & Hk & Hr & _)] Hl; [auto|]. right. exists k, e.
  apply lookup_lt_Some in Hk as L. unfold ARP_TABLE_SIZE. repeat split; auto. lia.
Qed.

(** What the entry that is taken was holding. *)
Lemma rank_queue e : entry_ok e -> rank e <> 3 -> e_p e = 0.
Proof.
  intros (_ & Q & _) Hr. destruct (Z.eq_dec (e_p e) 0) as [|N]; [assumption|]. exfalso. apply Hr.
  unfold rank. rewrite (Q N). replace (e_p e =? 0) with false by lia. reflexivity.
Qed.

Lemma rank3 e : rank e = 3 -> e_p e <> 0.
Proof. unfold rank. destruct (e_state e); try discriminate. destruct (Z.eqb_spec (e_p e) 0); [discriminate|auto]. Qed.

Lemma find_entry_ok st a flags X F : table_ok (arp_table st) -> own (heap st) F (queued (arp_table st) ++ X) ->
  exists r t' h' F', find_entry (Some a) flags st = Some (r, mkArp t' h' (sent st)) /\
    found (arp_table st) a flags r t' /\ own h' F' (queued t' ++ X) /\ mem h' = mem (heap st) /\ fewer F F' /\
    (r = ERR_MEM \/ (exists e, e ∈ arp_table st /\ rank e < 3) -> h' = heap st /\ F' = F).
Proof.
  intros K O. unfold find_entry, sm_bind at 1, sm_get. pose proof (sweep_table a _ K) as S.
  set (t := arp_table st) in *.
  assert (Est : st = mkArp t (heap st) (sent st)) by now destruct st.
  destruct (sweep_loop (Some a) 0 t sweep0) as [j|s].
  { destruct S as (i & e & -> & Hi & Le & Ea). exists (Z.of_nat i), t, (heap st), F. rewrite Est at 1.
    split; [reflexivity|]. split; [left; eauto 10|]. auto using fewer_refl. }
  destruct S as [[W0 W1 W2 W3] N].
  assert (Hlen : (length t <= 10)%nat) by (rewrite (to_length _ K); lia).
  assert (RR : forall k f, t !! k = Some f -> 0 <= rank f <= 3).
  { intros k f Hk. apply rank_range. now apply (entry_at t k f K). }
  (* an entry without a queue is taken *)
  assert (TAKE : forall k e, t !! k = Some e -> rank e <> 3 -> preferred t k e ->
    (Z.land flags ETHARP_TRY_HARD = 0 -> rank e = 0) ->
    exists r t' h' F', recycle (Some a) (Z.of_nat k) st = Some (r, mkArp t' h' (sent st)) /\
      found t a flags r t' /\ own h' F' (queued t' ++ X) /\ mem h' = mem (heap st) /\ fewer F F' /\
      (r = ERR_MEM \/ (exists e, e ∈ t /\ rank e < 3) -> h' = heap st /\ F' = F)).
  { intros k e Hk R3 HP HF. pose proof (rank_queue e (proj1 (entry_at t k e K Hk)) R3) as Ep.
    exists (Z.of_nat k), (<[k := mkEntry 0 a (e_eth e) ETHARP_STATE_EMPTY 0]> t), (heap st), F.
    split; [rewrite (recycle_run a k e st Hk), Ep, Est; reflexivity|]. split; [right; split; [exact N|right; eauto 10]|].
    split; [|auto using fewer_refl]. eapply own_perm; [reflexivity| |exact O]. f_equiv. symmetry. now apply (queued_same t k e). }
  assert (E0 : (empty s =? ARP_TABLE_SIZE) = negb (empty s <? ARP_TABLE_SIZE)).
  { destruct W0 as [[-> _]|(k & e & -> & Hk & _)]; [reflexivity|]. apply lookup_lt_Some in Hk.
    unfold ARP_TABLE_SIZE. lia. }
  rewrite E0. destruct (empty s <? ARP_TABLE_SIZE) eqn:Ee; cbn [negb andb].
  { destruct W0 as [[E _]|(k & e & E & Hk & Hr & Hm)]; [rewrite E in Ee; discriminate|]. rewrite E.
    apply (TAKE k e Hk); [lia| |auto]. apply (preferred_first t (empty s) e k); auto.
    - right. eauto 10.
    - apply lookup_lt_Some in Hk. lia.
    - intros k' f Hf. now apply (RR k' f). }
  assert (N0 : forall k f, t !! k = Some f -> rank f <> 0).
  { destruct W0 as [[_ N0]|(k & e & E & Hk & _)]; [exact N0|]. rewrite E in Ee. apply lookup_lt_Some in Hk.
    unfold ARP_TABLE_SIZE in Ee. lia. }
  destruct (Z.eqb_spec (Z.land flags ETHARP_TRY_HARD) 0) as [Ef|Ef].
  { exists ERR_MEM, t, (heap st), F. rewrite Est at 1. split; [reflexivity|]. split; [|auto using fewer_refl]. right. split; [exact N|].
    left. repeat split; auto. intros e He. apply list_elem_of_lookup in He as [k Hk]. eauto. }
  assert (P1 : forall k e c i ag, oldest c t i ag -> i = Z.of_nat k -> t !! k = Some e -> c <> 0 ->
    (forall k' f, t !! k' = Some f -> c <= rank f) -> preferred t k e).
  { intros k e c i ag Oc Ei Hk Hc Hm. apply (preferred_oldest t c i ag e k); auto. apply lookup_lt_Some in Hk. lia. }
  destruct (oldest_cases 1 t _ _ W1 Hlen) as [[-> N1]|(k & e & -> & Ek & Hk & Hr)].
  2:{ rewrite Ek. apply (TAKE k e Hk); [lia| |congruence]. apply (P1 k e 1 _ _ W1 Ek Hk); [lia|].
      intros k' f Hf. specialize (RR k' f Hf). specialize (N0 k' f Hf). lia. }
  destruct (oldest_cases 2 t _ _ W2 Hlen) as [[-> N2]|(k & e & -> & Ek & Hk & Hr)].
  2:{ rewrite Ek. apply (TAKE k e Hk); [lia| |congruence]. apply (P1 k e 2 _ _ W2 Ek Hk); [lia|].
      intros k' f Hf. specialize (RR k' f Hf). specialize (N0 k' f Hf). specialize (N1 k' f Hf). lia. }
  destruct (oldest_cases 3 t _ _ W3 Hlen) as [[_ N3]|(k & e & -> & Ek & Hk & Hr)].
  { exfalso. destruct t as [|e t0] eqn:Et; [pose proof (to_length _ K) as L; rewrite <- Et in L; unfold t in *; rewrite Et in L; discriminate|].
    specialize (N0 0%nat e eq_refl). specialize (N1 0%nat e eq_refl). specialize (N2 0%nat e eq_refl).
    specialize (N3 0%nat e eq_refl). specialize (RR 0%nat e eq_refl). lia. }
  (* a queue is given up *)
  assert (HP : preferred t k e).
  { apply (P1 k e 3 _ _ W3 Ek Hk); [lia|]. intros k' f Hf. specialize (RR k' f Hf). specialize (N0 k' f Hf).
    specialize (N1 k' f Hf). specialize (N2 k' f Hf). lia. }
  rewrite Ek. rewrite (sm_bind_some _ _ _ _ _ (entry_run k st e Hk)). pose proof (rank3 e Hr) as Hp.
  destruct (queued_insert t k e (mkEntry 0 a (e_eth e) ETHARP_STATE_EMPTY 0) Hk) as (rest & Q1 & Q2).
  assert (Qe : queue_of e = [e_p e]) by (unfold queue_of; now replace (e_p e =? 0) with false by lia).
  rewrite Qe in Q1. cbn [app] in Q1.
  assert (O1 : own (heap st) F (e_p e :: rest ++ X)).
  { eapply own_perm; [reflexivity| |exact O]. now rewrite Q1. }
  destruct (own_pick _ _ _ (e_p e) O1 ltac:(apply list_elem_of_here)) as (p & b & l & F0 & PF0 & O2 & Ea & _).
  destruct (own_free (heap st) (e_p e) _ F0 (rest ++ X) O2 Ea) as (n & h' & EF & Em & O3).
  rewrite (sm_bind_some _ _ _ _ _ (on_heap_run _ st n h' EF)).
  erewrite sm_bind_some by (apply (set_entry_run k _ _ e); exact Hk).
  rewrite (recycle_run a k (set_p 0 e)) by (cbn; eapply lookup_set; exact Hk).
  exists (Z.of_nat k), (<[k := mkEntry 0 a (e_eth e) ETHARP_STATE_EMPTY 0]> t), h', (unref_chain ((p, b) :: l) ++ F0).
  split; [unfold with_table, with_heap; cbn; now rewrite list_insert_insert_eq|].
  split; [right; split; [exact N|right; exists k, e; repeat split; auto; congruence]|].
  split; [eapply own_perm; [reflexivity| |exact O3]; now rewrite Q2|]. split; [exact Em|]. split; [now apply fewer_unref|].
  intros [E|(f & Hf & Rf)]; [unfold ERR_MEM in E; lia|]. exfalso. apply list_elem_of_lookup in Hf as [k' Hf].
  specialize (N0 k' f Hf). specialize (N1 k' f Hf). specialize (N2 k' f Hf). specialize (RR k' f Hf). lia.
Qed.

(** [find_entry] on an address that has an entry. *)
Lemma find_known st a X F e : table_ok (arp_table st) -> own (heap st) F (queued (arp_table st) ++ X) ->
  e ∈ arp_table st -> is_live e = true -> e_ip e = a ->
  exists i, arp_table st !! i = Some e /\ find_entry (Some a) ETHARP_TRY_HARD st = Some (Z.of_nat i, st).
Proof.
  intros K O He Le Ea. destruct (find_entry_ok st a ETHARP_TRY_HARD X F K O) as (r & t' & h' & F' & E & FD & _ & _ & _ & _).
  destruct FD as [(i & f & -> & Hi & Lf & Ef & ->)|(N & _)]; [|destruct (N e He Le Ea)].
  apply list_elem_of_lookup in He as [j Hj]. assert (i = j) as -> by (apply (to_distinct _ K i j f e); auto; congruence).
  exists j. split; [exact Hj|]. unfold find_entry in E |- *. rewrite (sm_bind_some sm_get _ st st st eq_refl) in E |- *.
  pose proof (sweep_table a _ K) as S. destruct (sweep_loop _ _ _ _) as [k|s].
  - unfold sm_ret in *. injection E as -> _. reflexivity.
  - destruct S as [_ N]. destruct (N e); auto. apply list_elem_of_lookup. eauto.
Qed.

(** C12: [find_entry] for an address: if the address has a pending or resolved
    entry, its index, and nothing changes.  Otherwise, when there is an empty
    entry, the first of them; when there is none, [ERR_MEM] without the flag
    [ETHARP_TRY_HARD], and with it the entry that costs least: a resolved one, or
    a pending one without a packet, or a pending one with a packet, the oldest of
    its kind, the last of those; its packet is freed.  The entry has then the
    address, is empty and of age 0, and the others are as they were; nothing is
    sent, and the packets of other holders are safe. *)
Theorem find_entry_chooses st a flags X : arp_inv st X ->
  exists r st', find_entry (Some a) flags st = Some (r, st') /\ found (arp_table st) a flags r (arp_table st') /\
    sent st' = sent st /\ mem (heap st') = mem (heap st) /\
    (exists F, own (heap st') F (queued (arp_table st') ++ X)) /\
    (r = ERR_MEM -> Z.land flags ETHARP_TRY_HARD = 0 /\ st' = st).
Proof.
  intros [K [F O]]. destruct (find_entry_ok st a flags X F K O) as (r & t' & h' & F' & E & FD & O' & Em & _ & Eh).
  exists r, (mkArp t' h' (sent st)). split; [exact E|]. split; [exact FD|]. split; [reflexivity|]. split; [exact Em|].
  split; [eauto|]. intros ->. destruct (Eh (or_introl eq_refl)) as [-> _].
  destruct FD as [(i & e & Ei & _)|(_ & [(_ & -> & Ef & _)|(i & e & Ei & _)])]; [unfold ERR_MEM in Ei; lia| |unfold ERR_MEM in Ei; lia].
  split; [exact Ef|now destruct st].
Qed.

End Find.

(** ** The timer *)

(** Ticks that an entry lives. *)
Definition lifetime (e : etharp_entry) : Z :=
  match e_state e with
  | ETHARP_STATE_STABLE => ARP_MAXAGE
  | ETHARP_STATE_PENDING => ARP_MAXPENDING
  | _ => 0
  end.

(** An entry after a tick. *)
Definition ticked (e : etharp_entry) : etharp_entry :=
  let c := u8 (e_ctime e + 1) in
  if is_live e && (lifetime e <=? c) then mkEntry 0 (e_ip e) (e_eth e) ETHARP_STATE_EMPTY c else set_ctime c e.

Lemma ticked_ok e : entry_ok e -> entry_ok (ticked e).
Proof.
  intros (A & Q & L & I). unfold ticked, is_live, lifetime, age_ok in *.
  assert (B : 0 <= e_ctime e < 256).
  { unfold fits in A. change (2 ^ 8) with 256 in A. unfold ARP_MAXAGE, ARP_MAXPENDING in A. destruct (e_state e); lia || contradiction. }
  assert (FU : fits 8 (u8 (e_ctime e + 1))) by auto with cint.
  assert (EU : forall m, e_ctime e < m -> m <= 255 -> u8 (e_ctime e + 1) = e_ctime e + 1).
  { intros m H1 H2. apply wrap_small. unfold fits. pow2. lia. }
  unfold entry_ok, age_ok, is_live, ARP_MAXAGE, ARP_MAXPENDING in *.
  destruct (e_state e) eqn:Es; cbn [andb] in *; try contradiction.
  - cbn. rewrite Es. split; [exact FU|]. auto.
  - rewrite (EU 2) by lia. destruct (Z.leb_spec 2 (e_ctime e + 1)); cbn; [|rewrite Es]; (split; [unfold fits; pow2; lia|]); split; auto; congruence.
  - rewrite (EU 240) by lia. destruct (Z.leb_spec 240 (e_ctime e + 1)); cbn; [|rewrite Es]; (split; [unfold fits; pow2; lia|]); split; auto; congruence.
Qed.

Lemma ticked_live e : is_live (ticked e) = true -> is_live e = true.
Proof. unfold ticked. destruct (is_live e) eqn:L; [auto|]. cbn [andb]. unfold is_live in *. cbn. now destruct (e_state e). Qed.

Lemma ticked_ip e : e_ip (ticked e) = e_ip e.
Proof. unfold ticked. now destruct (_ && _). Qed.

Section Timer.
Context {PF : Platform} {ET : Ether}.

(** [tmr_entry] by cases. *)
Lemma tmr_entry_eq i st e : arp_table st !! i = Some e -> e_state e <> ETHARP_STATE_EXPIRED ->
  tmr_entry i st =
  if is_live e && (lifetime e <=? u8 (e_ctime e + 1)) then
    if e_p e =? 0 then Some (tt, with_table <[i := mkEntry (e_p e) (e_ip e) (e_eth e) ETHARP_STATE_EMPTY (u8 (e_ctime e + 1))]> st)
    else match pbuf_free (e_p e) (heap st) with
         | Some (_, h) => Some (tt, with_table <[i := ticked e]> (with_heap h st))
         | None => None
         end
  else Some (tt, with_table <[i := ticked e]> st).
Proof.
  intros Hi Hx. unfold tmr_entry. set (c := u8 (e_ctime e + 1)).
  rewrite (sm_bind_some _ _ _ _ _ (set_entry_run i _ st e Hi)). cbn beta.
  set (st1 := with_table <[i := _]> st).
  assert (H1 : arp_table st1 !! i = Some (set_ctime c e)) by (cbn; eapply lookup_set; exact Hi).
  rewrite (sm_bind_some _ _ _ _ _ (entry_run i st1 _ H1)). cbn [e_state e_ctime set_ctime].
  assert (KEEP : is_live e && (lifetime e <=? c) = false ->
    (e' <- entry (Z.of_nat i) ;;
     if bool_decide (e_state e' = ETHARP_STATE_EXPIRED) then
       (if negb (e_p e' =? 0) then on_heap (pbuf_free (e_p e')) ;; set_entry (Z.of_nat i) (set_p 0) else sm_ret tt) ;;
       set_entry (Z.of_nat i) (set_state ETHARP_STATE_EMPTY)
     else sm_ret tt) st1 = Some (tt, with_table <[i := ticked e]> st)).
  { intros El. rewrite (sm_bind_some _ _ _ _ _ (entry_run i st1 _ H1)). cbn [e_state set_ctime].
    rewrite bool_decide_false by exact Hx. unfold ticked. fold c. now rewrite El. }
  assert (GONE : is_live e && (lifetime e <=? c) = true ->
    (set_entry (Z.of_nat i) (set_state ETHARP_STATE_EXPIRED) ;;
     e' <- entry (Z.of_nat i) ;;
     if bool_decide (e_state e' = ETHARP_STATE_EXPIRED) then
       (if negb (e_p e' =? 0) then on_heap (pbuf_free (e_p e')) ;; set_entry (Z.of_nat i) (set_p 0) else sm_ret tt) ;;
       set_entry (Z.of_nat i) (set_state ETHARP_STATE_EMPTY)
     else sm_ret tt) st1 =
    if e_p e =? 0 then Some (tt, with_table <[i := mkEntry (e_p e) (e_ip e) (e_eth e) ETHARP_STATE_EMPTY c]> st)
    else match pbuf_free (e_p e) (heap st) with
         | Some (_, h) => Some (tt, with_table <[i := ticked e]> (with_heap h st))
         | None => None
         end).
  { intros El. rewrite (sm_bind_some _ _ _ _ _ (set_entry_run i _ st1 _ H1)).
    set (st2 := with_table <[i := _]> st1).
    assert (H2 : arp_table st2 !! i = Some (set_state ETHARP_STATE_EXPIRED (set_ctime c e))) by (cbn; eapply lookup_set, lookup_set; exact Hi).
    rewrite (sm_bind_some _ _ _ _ _ (entry_run i st2 _ H2)). cbn [e_state set_state set_ctime e_p].
    rewrite (bool_decide_true _ eq_refl). destruct (e_p e =? 0) eqn:Ep; cbn [negb].
    - unfold sm_bind at 1, sm_ret. rewrite (set_entry_run i _ st2 _ H2). unfold st2, st1, with_table. cbn.
      now rewrite !list_insert_insert_eq.
    - unfold sm_bind at 1 2, on_heap. cbn [heap st2 st1 with_table].
      destruct (pbuf_free (e_p e) (heap st)) as [[n h]|]; [|reflexivity].
      erewrite set_entry_run by (cbn; eapply lookup_set, lookup_set; exact Hi).
      erewrite set_entry_run by (cbn; eapply lookup_set, lookup_set, lookup_set; exact Hi).
      unfold ticked. fold c. rewrite El. unfold st2, st1, with_table, with_heap. cbn. now rewrite !list_insert_insert_eq. }
  unfold is_live, lifetime in *. destruct (e_state e) eqn:Es; cbn [andb] in *; try congruence.
  - rewrite !bool_decide_false by discriminate. cbn [andb]. unfold sm_bind at 1, sm_ret at 1. apply KEEP. reflexivity.
  - rewrite bool_decide_false by discriminate. rewrite (bool_decide_true _ eq_refl). cbn [andb].
    destruct (_ <=? _) eqn:El; [now apply GONE|]. unfold sm_bind at 1, sm_ret at 1. now apply KEEP.
  - rewrite (bool_decide_true _ eq_refl). cbn [andb]. rewrite bool_decide_false by discriminate.
    destruct (_ <=? _) eqn:El; [now apply GONE|]. unfold sm_bind at 1, sm_ret at 1. now apply KEEP.
Qed.

Lemma tmr_entry_ok i st X e : arp_inv st X -> arp_table st !! i = Some e ->
  exists h', tmr_entry i st = Some (tt, mkArp (<[i := ticked e]> (arp_table st)) h' (sent st)) /\
    mem h' = mem (heap st) /\ arp_inv (mkArp (<[i := ticked e]> (arp_table st)) h' (sent st)) X.
Proof.
  intros (K & F & O) Hi. destruct (entry_at _ i e K Hi) as [He _].
  assert (K' : table_ok (<[i := ticked e]> (arp_table st))).
  { apply (table_update _ i e); auto using ticked_ok, ticked_ip, ticked_live. }
  rewrite (tmr_entry_eq i st e Hi) by (destruct He as [A _]; unfold age_ok in A; now destruct (e_state e)).
  assert (SAME : e_p (ticked e) = e_p e -> arp_inv (mkArp (<[i := ticked e]> (arp_table st)) (heap st) (sent st)) X).
  { intros Ep. split; [exact K'|]. exists F. eapply own_perm; [reflexivity| |exact O]. f_equiv. symmetry. now apply (queued_same _ i e). }
  unfold ticked in *. set (c := u8 (e_ctime e + 1)) in *. destruct (is_live e && (lifetime e <=? c)).
  - destruct (Z.eqb_spec (e_p e) 0) as [Ep|Ep].
    + exists (heap st). rewrite Ep. split; [reflexivity|]. split; [reflexivity|]. now apply SAME.
    + destruct (queued_insert _ i e (mkEntry 0 (e_ip e) (e_eth e) ETHARP_STATE_EMPTY c) Hi) as (rest & Q1 & Q2).
      assert (Qe : queue_of e = [e_p e]) by (unfold queue_of; now replace (e_p e =? 0) with false by lia).
      rewrite Qe in Q1. cbn [app] in Q1.
      assert (O1 : own (heap st) F (e_p e :: rest ++ X)) by (eapply own_perm; [reflexivity| |exact O]; now rewrite Q1).
      destruct (own_pick _ _ _ (e_p e) O1 ltac:(apply list_elem_of_here)) as (p & b & l & F0 & _ & O2 & Ea & _).
      destruct (own_free (heap st) (e_p e) _ F0 (rest ++ X) O2 Ea) as (n & h' & EF & Em & O3).
      rewrite EF. exists h'. split; [reflexivity|]. split; [exact Em|]. split; [exact K'|].
      exists (unref_chain ((p, b) :: l) ++ F0). eapply own_perm; [reflexivity| |exact O3]. now rewrite Q2.
  - exists (heap st). split; [reflexivity|]. split; [reflexivity|]. now apply SAME.
Qed.

(** A loop with an invariant that may depend on the turn. *)
Lemma for_k_ok {S} (body : nat -> SM S unit) (P : nat -> S -> Prop) n : forall s,
  (forall k s, (k < n)%nat -> P k s -> exists s', body k s = Some (tt, s') /\ P (k + 1)%nat s') -> P 0%nat s ->
  exists s', for_k n body s = Some (tt, s') /\ P n s'.
Proof.
  induction n as [|n IH]; intros s HB H0; [exists s; split; [reflexivity|exact H0]|].
  destruct (IH s) as (s1 & E1 & H1); [|exact H0|].
  - intros k s' Hk. apply HB. lia.
  - destruct (HB n s1 ltac:(lia) H1) as (s2 & E2 & H2). exists s2. cbn [for_k].
    rewrite (sm_bind_some _ _ _ _ _ E1). split; [exact E2|]. now rewrite Nat.add_1_r in H2.
Qed.

Lemma etharp_tmr_ok st X : arp_inv st X ->
  exists st', etharp_tmr st = Some (tt, st') /\ arp_table st' = map ticked (arp_table st) /\
    sent st' = sent st /\ mem (heap st') = mem (heap st) /\ arp_inv st' X.
Proof.
  intros I. pose proof I as [K _]. set (t := arp_table st) in *.
  destruct (for_k_ok tmr_entry (fun k s => arp_inv s X /\ arp_table s = map ticked (take k t) ++ drop k t /\
    sent s = sent st /\ mem (heap s) = mem (heap st)) 10 st) as (st' & E & I' & Et & Es & Em).
  - intros k s Hk (Is & Et & Es & Em). destruct (lookup_lt_is_Some_2 t k) as [e He]; [rewrite (to_length _ K); lia|].
    assert (Lk : length (map ticked (take k t)) = k).
    { rewrite length_map, length_take. apply lookup_lt_Some in He. lia. }
    assert (Hs : arp_table s !! k = Some e).
    { rewrite Et, lookup_app_r by lia. rewrite Lk, Nat.sub_diag, lookup_drop, Nat.add_0_r. exact He. }
    destruct (tmr_entry_ok k s X e Is Hs) as (h' & E & Em' & I'). eexists. split; [exact E|]. split; [exact I'|].
    cbn [arp_table sent heap]. split; [|split; congruence]. rewrite Et.
    rewrite insert_app_r_alt by lia. rewrite Lk, Nat.sub_diag, (drop_S t e k He). cbn [insert list_insert].
    rewrite Nat.add_1_r, (take_S_r t k e He), map_app, <- app_assoc. reflexivity.
  - auto.
  - exists st'. split; [exact E|]. rewrite take_ge, drop_ge, app_nil_r in Et by (rewrite (to_length _ K); lia). auto.
Qed.

(** An entry after [k] ticks. *)
Lemma ticked_iter e k : entry_ok e ->
  if is_live e && (e_ctime e + Z.of_nat k <? lifetime e)
  then Nat.iter k ticked e = set_ctime (e_ctime e + Z.of_nat k) e
  else e_state (Nat.iter k ticked e) = ETHARP_STATE_EMPTY /\ e_p (Nat.iter k ticked e) = 0.
Proof.
  intros He. pose proof He as (A & Q & _). pose proof (age_nonneg e He) as H0.
  assert (EMP : forall f, entry_ok f -> e_state f = ETHARP_STATE_EMPTY -> e_state (ticked f) = ETHARP_STATE_EMPTY /\ e_p (ticked f) = 0).
  { intros f (_ & Qf & _) Ef. assert (Pf : e_p f = 0) by (destruct (Z.eq_dec (e_p f) 0); [assumption|now rewrite Qf in Ef]).
    unfold ticked, is_live. rewrite Ef. cbn. auto. }
  assert (OK : forall m, entry_ok (Nat.iter m ticked e)) by (induction m; cbn; auto using ticked_ok).
  induction k as [|k IH].
  - rewrite Z.add_0_r. cbn [Nat.iter nat_rect]. unfold is_live, lifetime, age_ok in *. destruct (e_state e) eqn:Es; cbn [andb].
    + split; [reflexivity|]. destruct (Z.eq_dec (e_p e) 0) as [|N]; [assumption|discriminate (Q N)].
    + replace (_ <? _) with true by lia. now destruct e.
    + replace (_ <? _) with true by lia. now destruct e.
    + contradiction.
  - cbn [Nat.iter nat_rect]. fold (Nat.iter k ticked e). destruct (is_live e) eqn:L; cbn [andb] in *; [|now apply EMP].
    destruct (Z.ltb_spec (e_ctime e + Z.of_nat k) (lifetime e)) as [B|B].
    + rewrite IH. unfold ticked. assert (LT : lifetime e <= 240) by (unfold lifetime; destruct (e_state e); unfold ARP_MAXAGE, ARP_MAXPENDING; lia).
      cbn [e_ctime set_ctime]. rewrite (wrap_small 8) by (unfold fits; pow2; lia).
      change (is_live (set_ctime _ e)) with (is_live e). change (lifetime (set_ctime _ e)) with (lifetime e). rewrite L. cbn [andb].
      replace (e_ctime e + Z.of_nat k + 1) with (e_ctime e + Z.of_nat (S k)) by lia.
      destruct (Z.leb_spec (lifetime e) (e_ctime e + Z.of_nat (S k))).
      * rewrite (proj2 (Z.ltb_ge _ _)) by lia. auto.
      * rewrite (proj2 (Z.ltb_lt _ _)) by lia. now destruct e.
    + rewrite (proj2 (Z.ltb_ge _ _)) by lia. now apply EMP.
Qed.

Lemma ticks_ok k st X : arp_inv st X ->
  exists st', for_k k (fun _ => etharp_tmr) st = Some (tt, st') /\
    arp_table st' = map (Nat.iter k ticked) (arp_table st) /\
    sent st' = sent st /\ mem (heap st') = mem (heap st) /\ arp_inv st' X.
Proof.
  intros I. apply (for_k_ok (fun _ => etharp_tmr) (fun k s => arp_table s = map (Nat.iter k ticked) (arp_table st) /\
    sent s = sent st /\ mem (heap s) = mem (heap st) /\ arp_inv s X)).
  - intros m s _ (Et & Es & Em & Is). destruct (etharp_tmr_ok s X Is) as (s' & E & Et' & Es' & Em' & I').
    exists s'. split; [exact E|]. split; [|split; [congruence|split; [congruence|exact I']]].
    rewrite Et', Et, map_map. apply map_ext. intros e. now rewrite Nat.add_1_r.
  - split; [symmetry; apply map_id|auto].
Qed.

(** C11: [etharp_tmr] makes every entry end.  After [k] ticks without other calls
    an entry is as it was but older, if it was resolved and would be less than
    [ARP_MAXAGE] ticks old, or pending and would be less than [ARP_MAXPENDING];
    any other entry is empty and holds no packet.  So all packets that wait have
    been freed after 2 ticks, and the table is empty after 240.  The timer sends
    nothing, changes no byte of a packet, never faults, and keeps the
    invariant of the table, also for the packets of others. *)
Theorem etharp_entries_expire k st X : arp_inv st X ->
  exists st', for_k k (fun _ => etharp_tmr) st = Some (tt, st') /\
    (forall i e, arp_table st !! i = Some e -> exists e', arp_table st' !! i = Some e' /\
       if is_live e && (e_ctime e + Z.of_nat k <? lifetime e)
       then e' = set_ctime (e_ctime e + Z.of_nat k) e
       else e_state e' = ETHARP_STATE_EMPTY /\ e_p e' = 0) /\
    (2 <= Z.of_nat k -> queued (arp_table st') = []) /\
    (240 <= Z.of_nat k -> Forall (fun e => e_state e = ETHARP_STATE_EMPTY) (arp_table st')) /\
    sent st' = sent st /\ mem (heap st') = mem (heap st) /\ arp_inv st' X.
Proof.
  intros I. destruct (ticks_ok k st X I) as (st' & E & Et & Es & Em & I'). pose proof I as [K _].
  assert (R : forall e, e ∈ arp_table st' -> exists f, f ∈ arp_table st /\ e = Nat.iter k ticked f /\ entry_ok f).
  { intros e He. rewrite Et in He. apply list_elem_of_In, in_map_iff in He as (f & <- & Hf). apply list_elem_of_In in Hf.
    exists f. split; [exact Hf|]. split; [reflexivity|]. pose proof (to_entries _ K) as T. rewrite Forall_forall in T. auto. }
  exists st'. split; [exact E|]. split; [|split; [|split; [|auto]]].
  - intros i e Hi. exists (Nat.iter k ticked e). split; [rewrite Et, list_lookup_fmap, Hi; reflexivity|].
    apply ticked_iter. now apply (entry_at _ i e K).
  - intros Hk. unfold queued. apply concat_nil_Forall. apply Forall_map, Forall_forall. intros e He.
    destruct (R e He) as (f & Hf & -> & Kf). pose proof (ticked_iter f k Kf) as T. pose proof Kf as (A & Q & _).
    destruct (is_live f && _) eqn:B; [|unfold queue_of; now rewrite (proj2 T)].
    rewrite T. unfold queue_of. cbn [e_p set_ctime]. destruct (Z.eqb_spec (e_p f) 0) as [|N]; [reflexivity|].
    specialize (Q N). unfold age_ok, lifetime in *. rewrite Q in *. unfold ARP_MAXPENDING in *. bool_to_prop. lia.
  - intros Hk. apply Forall_forall. intros e He. destruct (R e He) as (f & Hf & -> & Kf).
    pose proof (ticked_iter f k Kf) as T. pose proof (age_nonneg f Kf) as H0.
    destruct (is_live f && _) eqn:B; [|apply T]. bool_to_prop. unfold lifetime in *.
    destruct (e_state f); unfold ARP_MAXAGE, ARP_MAXPENDING in *; lia.
Qed.

End Timer.
