(* ===== verification/EtharpMem.v ===== *)
(** * EtharpMem: what is written into packets

    Theorems about the frames that [Etharp] builds in memory: a header of an
    Ethernet frame, a request, a reply, byte for byte; no C code.

    [wp m Q s]: from [s], [m] runs without a fault to a result with [Q]. *)
From Stdlib Require Import ZArith Lia List Bool.
From stdpp Require Import base gmap list.
From S2P Require Import IpFrag Prelude Inet IpAddr Pbuf Etharp EtharpHeap EtharpTable.
Import ListNotations.
#[local] Open Scope Z_scope.
#[local] Open Scope sm_scope.

(** ** Total correctness *)

Definition wp {S A} (m : SM S A) (Q : A -> S -> Prop) (s : S) : Prop :=
  exists a s', m s = Some (a, s') /\ Q a s'.

Lemma wp_ret {S A} (a : A) (Q : A -> S -> Prop) s : Q a s -> wp (sm_ret a) Q s.
Proof. intros H. now exists a, s. Qed.

Lemma wp_run {S A} (m : SM S A) (Q : A -> S -> Prop) s a s' : m s = Some (a, s') -> Q a s' -> wp m Q s.
Proof. intros E H. now exists a, s'. Qed.

Lemma wp_bind {S A B} (m : SM S A) (k : A -> SM S B) (Q : B -> S -> Prop) s :
  wp m (fun a => wp (k a) Q) s -> wp (sm_bind m k) Q s.
Proof.
  intros (a & s' & E & b & s2 & E2 & H). exists b, s2. split; [|exact H]. unfold sm_bind. now rewrite E.
Qed.

Lemma wp_mono {S A} (m : SM S A) (Q Q' : A -> S -> Prop) s :
  wp m Q s -> (forall a s', Q a s' -> Q' a s') -> wp m Q' s.
Proof. intros (a & s' & E & H) HQ. exists a, s'. auto. Qed.

Lemma wp_for_k {S} (body : nat -> SM S unit) (P : nat -> S -> Prop) (Q : unit -> S -> Prop) n s : P 0%nat s ->
  (forall k s, (k < n)%nat -> P k s -> wp (body k) (fun _ => P (k + 1)%nat) s) ->
  (forall s, P n s -> Q tt s) -> wp (for_k n body) Q s.
Proof.
  intros H0 HB HQ. destruct (for_k_ok body P n s) as (s' & E & H).
  - intros k s1 Hk H1. destruct (HB k s1 Hk H1) as ([] & s2 & E & H2). eauto.
  - exact H0.
  - exists tt, s'. auto.
Qed.

(** The value of a run that is known. *)
Lemma wp_det {S A} (m : SM S A) (Q : A -> S -> Prop) s a s' : wp m Q s -> m s = Some (a, s') -> Q a s'.
Proof. intros (b & s2 & E & H) E'. rewrite E in E'. now injection E' as <- <-. Qed.

(** ** Bytes of memory *)

Section Bytes.
Context {PF : Platform} {ET : Ether}.

(** [n] bytes at [a]. *)
Definition peek (h : pstate) (a : Z) (n : nat) : list Z := map (fun k => byte_at h (a + Z.of_nat k)) (seq 0 n).

Lemma peek_length h a n : length (peek h a n) = n.
Proof. unfold peek. now rewrite length_map, length_seq. Qed.

Lemma peek_lookup h a n k : (k < n)%nat -> peek h a n !! k = Some (byte_at h (a + Z.of_nat k)).
Proof. intros Hk. unfold peek. rewrite list_lookup_fmap, lookup_seq_lt by exact Hk. reflexivity. Qed.

Lemma peek_eq h h' a n : (forall c, a <= c < a + Z.of_nat n -> byte_at h c = byte_at h' c) -> peek h a n = peek h' a n.
Proof.
  intros H. apply map_ext_in. intros k Hk%in_seq. apply H. lia.
Qed.

Lemma peek_app h a n m : peek h a (n + m) = peek h a n ++ peek h (a + Z.of_nat n) m.
Proof.
  unfold peek. rewrite seq_app, map_app. f_equal. cbn [Nat.add].
  replace (seq n m) with (map (Nat.add n) (seq 0 m)) by (rewrite <- (Nat.add_0_r n) at 2; apply fmap_add_seq).
  rewrite map_map. apply map_ext. intros k. f_equal. lia.
Qed.

(** [h'] is [h] with other bytes in [[a, a + n)] at most. *)
Definition touched (a n : Z) (h h' : pstate) : Prop :=
  h' = with_mem (fun _ => mem h') h /\ forall c, c < a \/ a + n <= c -> mem h' !! c = mem h !! c.

(** [h'] is [h] with the bytes [l] at [a]. *)
Definition wrote (h : pstate) (a : Z) (l : list Z) (h' : pstate) : Prop :=
  touched a (Z.of_nat (length l)) h h' /\ forall k v, l !! k = Some v -> byte_at h' (a + Z.of_nat k) = v.

Lemma mem_touched_refl a n h : touched a n h h.
Proof. split; [now destruct h|auto]. Qed.

Lemma mem_touched_trans a n h h1 h2 : touched a n h h1 -> touched a n h1 h2 -> touched a n h h2.
Proof.
  intros [E1 F1] [E2 F2]. split; [rewrite E2, E1; reflexivity|]. intros c Hc. now rewrite F2, F1.
Qed.

Lemma touched_st8 a n h c v : a <= c < a + n -> touched a n h (with_mem <[c := v]> h).
Proof. intros Hc. split; [reflexivity|]. intros d Hd. cbn. apply lookup_insert_ne. lia. Qed.

Lemma touched_byte a n h h' c : touched a n h h' -> c < a \/ a + n <= c -> byte_at h' c = byte_at h c.
Proof. intros [_ F] Hc. unfold byte_at. now rewrite F. Qed.

Lemma touched_own a n h h' F H : touched a n h h' -> own h F H -> own h' F H.
Proof. intros [E _] O. rewrite E. now apply own_mem. Qed.

Lemma wrote_refl h a n : wrote h a (peek h a n) h.
Proof.
  split; [apply mem_touched_refl|]. intros k v Hk. pose proof Hk as L%lookup_lt_Some. rewrite peek_length in L.
  rewrite peek_lookup in Hk by exact L. now injection Hk.
Qed.

Lemma wrote_peek h a l h' : wrote h a l h' -> peek h' a (length l) = l.
Proof.
  intros [_ H]. apply list_eq. intros k. destruct (l !! k) as [v|] eqn:E.
  - rewrite peek_lookup by (now apply lookup_lt_Some in E). f_equal. now apply H.
  - apply lookup_ge_None in E. apply lookup_ge_None. now rewrite peek_length.
Qed.

Lemma byte_insert h c v d : byte_at (with_mem <[c := v]> h) d = if decide (c = d) then v else byte_at h d.
Proof.
  unfold byte_at. cbn. destruct (decide (c = d)) as [->|N]; [now rewrite lookup_insert_eq|now rewrite lookup_insert_ne].
Qed.

Lemma wrote_st8 h a l h1 k v : wrote h a l h1 -> (k < length l)%nat ->
  wrote h a (<[k := v]> l) (with_mem <[a + Z.of_nat k := v]> h1).
Proof.
  intros [T H] Hk. split.
  - rewrite length_insert. apply (mem_touched_trans a _ h h1); [exact T|]. apply touched_st8. lia.
  - intros j w Hj. rewrite byte_insert. destruct (decide (k = j)) as [<-|N].
    + rewrite decide_True by reflexivity. rewrite list_lookup_insert_eq in Hj by exact Hk. congruence.
    + rewrite decide_False by lia. rewrite list_lookup_insert_ne in Hj by exact N. auto.
Qed.

(** ** Reading and writing the bytes of a structure at [a] *)

Lemma wp_st8 h a l o v addr Q h1 : wrote h a l h1 -> addr = a + o -> 0 <= o < Z.of_nat (length l) ->
  (forall h2, wrote h a (<[Z.to_nat o := v]> l) h2 -> Q tt h2) -> wp (st8 addr v) Q h1.
Proof.
  intros W -> Ho HQ. eapply wp_run; [reflexivity|]. apply HQ.
  replace (a + o) with (a + Z.of_nat (Z.to_nat o)) by lia. apply wrote_st8; [exact W|lia].
Qed.

Lemma wp_ld8 h a l o v addr (Q : Z -> pstate -> Prop) h1 : wrote h a l h1 -> addr = a + o -> 0 <= o -> l !! Z.to_nat o = Some v ->
  Q v h1 -> wp (ld8 addr) Q h1.
Proof.
  intros [_ W] -> Ho Hl HQ. eapply wp_run; [reflexivity|]. specialize (W _ _ Hl).
  replace (a + Z.of_nat (Z.to_nat o)) with (a + o) in W by lia. now rewrite W.
Qed.

(** A byte that is elsewhere. *)
Lemma wp_ld8_out h a l addr (Q : Z -> pstate -> Prop) h1 : wrote h a l h1 -> addr < a \/ a + Z.of_nat (length l) <= addr ->
  Q (byte_at h addr) h1 -> wp (ld8 addr) Q h1.
Proof. intros [T _] Ho HQ. eapply wp_run; [reflexivity|]. now rewrite (touched_byte _ _ h h1 addr T Ho). Qed.

End Bytes.

(** The offset from [a] of an address that is [a] plus numbers. *)
Ltac offset a addr :=
  let f := eval pattern a in addr in
  match f with ?g a => let o := eval cbv in (g 0) in o end.

(** One step of a program that reads and writes the structure at [a], [W] being
    what it wrote so far. *)
Ltac wstep :=
  match goal with
  | |- wp (sm_bind _ _) _ _ => apply wp_bind
  | |- wp (sm_ret _) _ _ => apply wp_ret
  | W : wrote ?h ?a ?l ?h1 |- wp (st8 ?addr ?v) _ ?h1 =>
      let o := offset a addr in
      apply (wp_st8 h a l o v addr _ h1 W); [lia|cbn [length]; lia|];
      clear W; let h2 := fresh "h" in intros h2 W; cbn [Z.to_nat Pos.to_nat Pos.iter_op Nat.add] in W; simpl insert in W
  | W : wrote ?h ?a ?l ?h1 |- wp (ld8 ?addr) _ ?h1 =>
      let o := offset a addr in
      eapply (wp_ld8 h a l o _ addr _ h1 W); [lia|lia|reflexivity|]
  | |- wp (octet _ _) _ _ => eapply wp_run; [reflexivity|]
  | |- wp (st16 _ _) _ _ => unfold st16, bytes16; cbn [st_bytes]
  | |- wp (st32 _ _) _ _ => unfold st32, bytes32; cbn [st_bytes]
  | |- wp (ld16 _) _ _ => unfold ld16
  | |- wp (ld32 _) _ _ => unfold ld32
  | |- wp (copy_ip _ _) _ _ => unfold copy_ip
  end; cbv beta.

Section Frames.
Context {PF : Platform} {ET : Ether}.

(** An interface on an Ethernet. *)
Definition ether (n : eth_if) : Prop :=
  hwaddr_len n = 6 /\ length (hwaddr n) = 6%nat.

(** The 14 bytes in front of an IP packet. *)
Definition eth_bytes (dst src : list Z) (type : Z) : list Z := dst ++ src ++ bytes16 (htons type).

Lemma list6 {A} (l : list A) : length l = 6%nat -> exists a b c d e f, l = [a; b; c; d; e; f].
Proof. intros H. do 6 (destruct l as [|? l]; [discriminate|]). destruct l; [eauto 10|discriminate]. Qed.

Lemma fill_eth_wp n hdr dest D h l h1 (Q : unit -> pstate -> Prop) : ether n -> length D = 6%nat -> length l = 14%nat ->
  (forall k v h2, D !! k = Some v -> touched hdr 14 h h2 -> dest k h2 = Some (v, h2)) -> wrote h hdr l h1 ->
  (forall h2, wrote h hdr (eth_bytes D (hwaddr n) ETHTYPE_IP) h2 -> Q tt h2) -> wp (fill_eth n hdr dest) Q h1.
Proof.
  intros [E6 LH] LD Ll HD W HQ. unfold fill_eth. rewrite E6. change (Z.to_nat 6) with 6%nat.
  destruct (list6 _ LH) as (s0 & s1 & s2 & s3 & s4 & s5 & ES). rewrite ES in *.
  destruct (list6 _ LD) as (d0 & d1 & d2 & d3 & d4 & d5 & ED).
  do 14 (destruct l as [|? l]; [discriminate|]). destruct l; [|discriminate].
  cbn [for_k].
  repeat first [wstep | match goal with
    | W : wrote _ _ _ ?h1 |- wp (dest ?k) _ ?h1 =>
        eapply wp_run; [apply (HD k _ h1); [rewrite ED; reflexivity|exact (proj1 W)]|cbv beta]
    end].
  apply HQ. rewrite ED. exact W.
Qed.

(** The 42 bytes of an ARP message. *)
Definition arp_bytes (dst src : list Z) (op : Z) (sha : list Z) (sip : Z) (tha : list Z) (tip : Z) : list Z :=
  eth_bytes dst src ETHTYPE_ARP ++ bytes16 (htons HWTYPE_ETHERNET) ++ bytes16 (htons ETHTYPE_IP) ++ [6; 4] ++
  bytes16 (htons op) ++ sha ++ bytes32 sip ++ tha ++ bytes32 tip.

Definition zeros6 : list Z := [0; 0; 0; 0; 0; 0].

(** [ARPH_HWLEN_SET] and then [ARPH_PROTOLEN_SET], whatever the memory held. *)
Lemma word_bytes w : fits 16 w -> Z.land w 255 + 256 * Z.shiftr w 8 = w.
Proof. intros H. change 255 with (2 ^ 8 - 1). rewrite land_ones_mod, shiftr_div by lia. change (2 ^ 8) with 256. zmod_lia. Qed.

Lemma lens_ok b0 b1 : fits 8 b0 -> fits 8 b1 ->
  u16 (Z.lor sizeof_ip_addr (Z.shiftl (Z.shiftr (ntohs
    (Z.land (htons (u16 (Z.lor (Z.land (ntohs (b0 + 256 * b1)) 255) (Z.shiftl 6 8)))) 255 +
     256 * Z.shiftr (htons (u16 (Z.lor (Z.land (ntohs (b0 + 256 * b1)) 255) (Z.shiftl 6 8)))) 8)) 8) 8)) = 1540.
Proof.
  intros H0 H1. set (x := Z.land (ntohs (b0 + 256 * b1)) 255).
  assert (Hx : 0 <= x < 256).
  { unfold x. change 255 with (2 ^ 8 - 1). rewrite land_ones_mod by lia. apply Z.mod_pos_bound. lia. }
  assert (Ey : u16 (Z.lor x (Z.shiftl 6 8)) = 1536 + x).
  { rewrite Z.lor_comm, shiftl_mul, lor_add by lia. change (6 * 2 ^ 8) with 1536. apply wrap_small. unfold fits. pow2. lia. }
  rewrite Ey. assert (Fy : fits 16 (1536 + x)) by (unfold fits; pow2; lia).
  rewrite word_bytes by now apply htons_fits. unfold ntohs. rewrite htons_htons by exact Fy.
  rewrite shiftr_div by lia. change (2 ^ 8) with 256. replace ((1536 + x) / 256) with 6 by zmod_lia. reflexivity.
Qed.

Lemma make_request_wp n ip hdr h l h1 (Q : unit -> pstate -> Prop) : ether n -> length l = 42%nat -> Forall (fits 8) l ->
  wrote h hdr l h1 ->
  (forall h2, wrote h hdr (arp_bytes ethbroadcast (hwaddr n) ARP_REQUEST (hwaddr n) (eth_ip n) zeros6 ip) h2 -> Q tt h2) ->
  wp (make_request n ip hdr) Q h1.
Proof.
  intros [E6 LH] Ll FB W HQ. unfold make_request. rewrite E6. change (Z.to_nat 6) with 6%nat.
  destruct (list6 _ LH) as (s0 & s1 & s2 & s3 & s4 & s5 & ES). rewrite ES in *.
  do 42 (destruct l as [|? l]; [discriminate|]). destruct l; [|discriminate].
  cbn [for_k]. unfold ARPH_HWLEN_SET, ARPH_PROTOLEN_SET, ARPH_PROTOLEN, ARPH_HWLEN.
  repeat wstep. apply HQ. rewrite !Forall_cons in FB. rewrite lens_ok in W by tauto. exact W.
Qed.

(** The same, wherever the memory comes from. *)
Lemma make_request_runs n ip hdr h l h1 (Q : unit -> pstate -> Prop) : ether n -> length l = 42%nat ->
  wrote h hdr l h1 ->
  (forall h2, touched hdr 42 h h2 -> Q tt h2) ->
  wp (make_request n ip hdr) Q h1.
Proof.
  intros [E6 LH] Ll W HQ. unfold make_request. rewrite E6. change (Z.to_nat 6) with 6%nat.
  destruct (list6 _ LH) as (s0 & s1 & s2 & s3 & s4 & s5 & ES). rewrite ES in *.
  do 42 (destruct l as [|? l]; [discriminate|]). destruct l; [|discriminate].
  cbn [for_k]. unfold ARPH_HWLEN_SET, ARPH_PROTOLEN_SET, ARPH_PROTOLEN, ARPH_HWLEN.
  repeat wstep. apply HQ. exact (proj1 W).
Qed.

(** [l], in memory when [make_reply] begins, is a message whose sender is the one
    to be answered. *)
Lemma make_reply_wp n mac hdr h l h1 dst src t0 t1 w0 w1 r0 r1 v0 v1 o0 o1 sha sip tha tip (Q : unit -> pstate -> Prop) :
  hwaddr_len n = 6 -> length mac = 6%nat ->
  length dst = 6%nat -> length src = 6%nat -> length sha = 6%nat -> length tha = 6%nat ->
  fits 32 sip -> fits 8 v0 -> fits 8 v1 ->
  l = dst ++ src ++ [t0; t1; w0; w1; r0; r1; v0; v1; o0; o1] ++ sha ++ bytes32 sip ++ tha ++ bytes32 tip ->
  wrote h hdr l h1 ->
  (forall h2, wrote h hdr (arp_bytes sha mac ARP_REPLY mac (eth_ip n) sha sip) h2 -> Q tt h2) ->
  wp (make_reply n mac hdr) Q h1.
Proof.
  intros E6 LM LD LS LA LT Fs F0 F1 -> W HQ. unfold make_reply. rewrite E6. change (Z.to_nat 6) with 6%nat.
  destruct (list6 _ LM) as (s0 & s1 & s2 & s3 & s4 & s5 & ->).
  destruct (list6 _ LD) as (? & ? & ? & ? & ? & ? & ->). destruct (list6 _ LS) as (? & ? & ? & ? & ? & ? & ->).
  destruct (list6 _ LA) as (a0 & a1 & a2 & a3 & a4 & a5 & ->). destruct (list6 _ LT) as (? & ? & ? & ? & ? & ? & ->).
  destruct (word32_split sip Fs) as (i0 & i1 & i2 & i3 & -> & I0 & I1 & I2 & I3).
  rewrite (bytes32_word32 i0 i1 i2 i3) in W by assumption.
  assert (EB := bytes32_word32 i0 i1 i2 i3 I0 I1 I2 I3). unfold bytes32 in EB, W. cbn [app] in W.
  cbn [for_k]. unfold ARPH_HWLEN_SET, ARPH_PROTOLEN_SET, ARPH_PROTOLEN, ARPH_HWLEN.
  repeat wstep. apply HQ. rewrite lens_ok in W by assumption.
  unfold arp_bytes, bytes32. rewrite EB. injection EB as E1 E2 E3 E4. rewrite E1, E2, E3, E4 in W. exact W.
Qed.

Lemma make_reply_runs n mac hdr h l h1 (Q : unit -> pstate -> Prop) :
  hwaddr_len n = 6 -> length mac = 6%nat -> length l = 42%nat -> wrote h hdr l h1 ->
  (forall h2, touched hdr 42 h h2 -> Q tt h2) -> wp (make_reply n mac hdr) Q h1.
Proof.
  intros E6 LM Ll W HQ. unfold make_reply. rewrite E6. change (Z.to_nat 6) with 6%nat.
  destruct (list6 _ LM) as (s0 & s1 & s2 & s3 & s4 & s5 & ->).
  do 42 (destruct l as [|? l]; [discriminate|]). destruct l; [|discriminate].
  cbn [for_k]. unfold ARPH_HWLEN_SET, ARPH_PROTOLEN_SET, ARPH_PROTOLEN, ARPH_HWLEN.
  repeat wstep. apply HQ. exact (proj1 W).
Qed.

(** The same for any destination that can be read. *)
Lemma fill_eth_runs n hdr dest h (Q : unit -> pstate -> Prop) : ether n ->
  (forall k h2, (k < 6)%nat -> exists v, dest k h2 = Some (v, h2)) ->
  (forall h2, touched hdr 14 h h2 -> Q tt h2) -> wp (fill_eth n hdr dest) Q h.
Proof.
  intros [E6 LH] HD HQ. unfold fill_eth. rewrite E6. change (Z.to_nat 6) with 6%nat.
  apply wp_bind. apply (wp_for_k _ (fun _ => touched hdr 14 h)); [apply mem_touched_refl| |].
  - intros k s Hk T. destruct (HD k s Hk) as [v Ev]. apply wp_bind. eapply wp_run; [exact Ev|]. apply wp_bind.
    eapply wp_run; [reflexivity|]. apply wp_bind. unfold octet.
    destruct (lookup_lt_is_Some_2 (hwaddr n) k) as [w Ew]; [lia|]. rewrite Ew. apply wp_ret.
    eapply wp_run; [reflexivity|]. apply (mem_touched_trans _ _ h s); [exact T|].
    apply (mem_touched_trans _ _ s (with_mem <[hdr + Z.of_nat k := v]> s)); apply touched_st8; lia.
  - intros s T. unfold st16, bytes16. cbn [st_bytes]. apply wp_bind. eapply wp_run; [reflexivity|]. apply wp_bind.
    eapply wp_run; [reflexivity|]. apply wp_ret. apply HQ. apply (mem_touched_trans _ _ h s); [exact T|].
    eapply mem_touched_trans; apply touched_st8; lia.
Qed.

End Frames.
