(* ===== verification/EtharpSafe.v ===== *)
(** * EtharpSafe: no call of address resolution faults

    Theorems about the operations of [Etharp] on a table with the invariant
    [arp_inv]: what each does to the table, to the packets that wait and to those
    of the caller; and that runs of calls keep the invariant and touch no memory
    they should not; no C code. *)
From Stdlib Require Import ZArith Lia List Bool.
From stdpp Require Import base gmap list.
From S2P Require Import Tcp IpOut Prelude Inet IpAddr Pbuf Etharp EtharpHeap EtharpTable EtharpMem.
Import ListNotations.
#[local] Open Scope Z_scope.
#[local] Open Scope sm_scope.

Section Sending.
Context {PF : Platform} {ET : Ether}.

(** ** What the driver reads *)

(** The bytes of a packet. *)
Definition packet_bytes (h : pstate) (l : pchain) : list Z :=
  concat (map (fun x => peek h (payload x.2) (Z.to_nat (len x.2))) l).

Lemma ld_bytes_ok n : forall a h, ld_bytes a n h = Some (peek h a n, h).
Proof.
  induction n as [|n IH]; intros a h; [reflexivity|]. cbn [ld_bytes]. unfold sm_bind at 1, ld8.
  rewrite (sm_bind_some _ _ _ _ _ (IH (a + 1) h)). unfold sm_ret, peek. cbn [seq map]. rewrite Z.add_0_r.
  rewrite <- seq_shift, map_map. do 3 f_equal. apply map_ext. intros k. f_equal. lia.
Qed.

Lemma chain_bytes_ok h l : forall p fuel, chain (pbufs h) p l -> (length l <= fuel)%nat ->
  chain_bytes fuel p h = Some (packet_bytes h l, h).
Proof.
  induction l as [|[a b] l IH]; intros p fuel C Hf.
  - cbn in C. subst p. now destruct fuel.
  - destruct fuel as [|f]; [cbn in Hf; lia|]. destruct C as (-> & Ha & Eb & C). cbn [chain_bytes].
    replace (a =? 0) with false by lia. rewrite (sm_bind_some _ _ _ _ _ (load_ok a b h Eb)).
    rewrite (sm_bind_some _ _ _ _ _ (ld_bytes_ok _ _ h)).
    rewrite (sm_bind_some _ _ _ _ _ (IH (next b) f C ltac:(cbn in Hf; lia))). reflexivity.
Qed.

Lemma linkoutput_ok n st p l F H : own (heap st) (l :: F) H -> head_addr l = p ->
  linkoutput n p st = Some (link_result n (packet_bytes (heap st) l),
    with_sent (fun w => w ++ [(eth_num n, packet_bytes (heap st) l)]) st).
Proof.
  intros O <-. destruct (ow_packet _ _ _ O l (list_elem_of_here _ _)) as (C & _).
  pose proof (chain_length_bound _ _ _ C) as B. unfold linkoutput, sm_bind at 1, sm_get.
  erewrite sm_bind_some by (apply on_heap_run; apply (chain_bytes_ok _ l); [exact C|unfold heap_fuel; lia]).
  unfold sm_bind, sm_modify, sm_ret. destruct st. reflexivity.
Qed.

Lemma header_of_ok p n b h : pbufs h !! p = Some b -> n <= len b -> header_of p n h = Some (payload b, h).
Proof.
  intros Eb Hn. unfold header_of. rewrite (sm_bind_some _ _ _ _ _ (load_ok p b h Eb)).
  now replace (n <=? len b) with true by lia.
Qed.

Lemma touched_pbufs a n h h' : touched a n h h' -> pbufs h' = pbufs h.
Proof. intros [-> _]. reflexivity. Qed.

(** ** The queue of an entry *)

(** What [send_queue] does on a queue: the header is written into the packet, the
    packet is sent and the reference given up. *)
Lemma send_queue_ok st i e n ethaddr F X fuel : ether n -> arp_table st !! i = Some e -> e_p e <> 0 ->
  own (heap st) F (queued (arp_table st) ++ X) ->
  exists b l F0 h1 h2, (F ≡ₚ ((e_p e, b) :: l) :: F0) /\ pbufs (heap st) !! e_p e = Some b /\
    fill_eth n (payload b) (fun k => ld8 (ethaddr + Z.of_nat k)) (heap st) = Some (tt, h1) /\
    touched (payload b) 14 (heap st) h1 /\
    send_queue (S fuel) n ethaddr (Z.of_nat i) st = Some (tt, mkArp (<[i := set_p 0 e]> (arp_table st)) h2
      (sent st ++ [(eth_num n, packet_bytes h1 ((e_p e, b) :: l))])) /\
    mem h2 = mem h1 /\ own h2 (unref_chain ((e_p e, b) :: l) ++ F0) (queued (<[i := set_p 0 e]> (arp_table st)) ++ X).
Proof.
  intros En Hi Hp O.
  destruct (queued_insert _ i e (set_p 0 e) Hi) as (rest & Q1 & Q2).
  assert (Qe : queue_of e = [e_p e]) by (unfold queue_of; now replace (e_p e =? 0) with false by lia).
  rewrite Qe in Q1. cbn [app] in Q1.
  assert (O1 : own (heap st) F (e_p e :: rest ++ X)) by (eapply own_perm; [reflexivity| |exact O]; now rewrite Q1).
  destruct (own_pick _ _ _ (e_p e) O1 ltac:(apply list_elem_of_here)) as (p & b & l & F0 & PF0 & O2 & -> & _ & Eb & Lb & _).
  destruct (fill_eth_runs n (payload b) (fun k => ld8 (ethaddr + Z.of_nat k)) (heap st)
    (fun _ h1 => touched (payload b) 14 (heap st) h1) En) as ([] & h1 & EF & T).
  { intros k h2 _. eexists. reflexivity. }
  { auto. }
  pose proof (touched_own _ _ _ h1 _ _ T O2) as O3.
  destruct (own_free h1 (e_p e) _ F0 (rest ++ X) O3 eq_refl) as (m & h2 & EFr & Em & O4).
  exists b, l, F0, h1, h2. split; [exact PF0|]. split; [exact Eb|]. split; [exact EF|]. split; [exact T|].
  split; [|split; [exact Em|eapply own_perm; [reflexivity| |exact O4]; now rewrite Q2]].
  cbn [send_queue]. rewrite (sm_bind_some _ _ _ _ _ (entry_run i st e Hi)).
  replace (e_p e =? 0) with false by lia.
  rewrite (sm_bind_some _ _ _ _ _ (on_heap_run _ st _ _ (header_of_ok (e_p e) 14 b _ Eb Lb))).
  erewrite sm_bind_some by (apply on_heap_run; eapply own_dequeue; [exact O2|reflexivity]).
  erewrite sm_bind_some by (apply (set_entry_run i _ _ e); exact Hi).
  erewrite sm_bind_some by (apply on_heap_run; exact EF).
  erewrite sm_bind_some by (eapply linkoutput_ok; [exact O3|reflexivity]).
  erewrite sm_bind_some by (apply on_heap_run; exact EFr).
  set (st' := with_heap h2 _).
  assert (H' : arp_table st' !! i = Some (set_p 0 e)) by (cbn; eapply lookup_set; exact Hi).
  destruct fuel; cbn [send_queue]; rewrite (sm_bind_some _ _ _ _ _ (entry_run i st' _ H')); reflexivity.
Qed.

(** ** [update_arp_entry] *)

(** The loop that copies the address into the entry. *)
Lemma set_mac_ok st i e ethaddr : arp_table st !! i = Some e -> length (e_eth e) = 6%nat ->
  for_k 6 (fun k => v <- on_heap (ld8 (ethaddr + Z.of_nat k)) ;; put_octet (Z.of_nat i) k v) st
  = Some (tt, with_table <[i := set_eth (peek (heap st) ethaddr 6) e]> st).
Proof.
  intros Hi Hl. pose proof (peek_lookup (heap st) ethaddr 6) as PL. pose proof (peek_length (heap st) ethaddr 6) as LM.
  set (M := peek (heap st) ethaddr 6) in *. clearbody M.
  destruct (for_k_ok (fun k => v <- on_heap (ld8 (ethaddr + Z.of_nat k)) ;; put_octet (Z.of_nat i) k v)
    (fun k s => s = with_table <[i := set_eth (take k M ++ drop k (e_eth e)) e]> st) 6 st) as (s & E & ->).
  - intros k s Hk ->. eexists. split; [|reflexivity].
    erewrite sm_bind_some by (apply on_heap_run; reflexivity). unfold put_octet.
    set (st1 := with_heap _ _).
    assert (H1 : arp_table st1 !! i = Some (set_eth (take k M ++ drop k (e_eth e)) e)) by (cbn; eapply lookup_set; exact Hi).
    rewrite (sm_bind_some _ _ _ _ _ (entry_run i st1 _ H1)). cbn [e_eth set_eth].
    assert (Lk : length (take k M) = k) by (rewrite length_take; lia).
    rewrite length_app, Lk, length_drop, Hl. replace (k <? _)%nat with true by (symmetry; apply Nat.ltb_lt; lia).
    rewrite (set_entry_run i _ st1 _ H1). unfold st1, with_table, with_heap. cbn. rewrite list_insert_insert_eq.
    do 4 f_equal. unfold set_eth. cbn. f_equal.
    destruct (lookup_lt_is_Some_2 (e_eth e) k) as [w Ew]; [lia|].
    rewrite insert_app_r_alt by lia. rewrite Lk, Nat.sub_diag, (drop_S _ w k Ew). cbn [insert list_insert].
    rewrite Nat.add_1_r, (take_S_r M k (byte_at (heap st) (ethaddr + Z.of_nat k))), <- app_assoc; [reflexivity|].
    now apply PL.
  - cbn [take drop app].
    destruct st as [t h w]. cbn in *. unfold with_table. cbn. f_equal. symmetry. apply list_insert_id. rewrite Hi. now destruct e.
  - rewrite E. rewrite take_ge, drop_ge, app_nil_r by lia. reflexivity.
Qed.

Lemma not_unicast_host n a : not_unicast n a = false -> host_addr a.
Proof.
  unfold not_unicast, host_addr, ip_addr_isany, ip_addr_isbroadcast, ip_addr_any, ip_addr_broadcast. intros H.
  apply orb_false_iff in H as [H Hm]. apply orb_false_iff in H as [Ha Hb].
  destruct (Z.eqb_spec a 0); [discriminate|]. destruct (Z.eqb_spec a 4294967295); [discriminate|]. auto.
Qed.

(** The address [a] is resolved now: entry [i] of [t1], the table [find_entry]
    left, has the six bytes; the queue is gone. *)
Definition resolved (a : Z) (mac : list Z) (i : nat) (t1 t' : list etharp_entry) : Prop :=
  t' = <[i := mkEntry 0 a mac ETHARP_STATE_STABLE 0]> t1.

Lemma found_entry t a flags i t1 : table_ok t -> found t a flags (Z.of_nat i) t1 ->
  exists e, t1 !! i = Some e /\ e_ip e = a /\ length (e_eth e) = 6%nat /\ length t1 = 10%nat /\
    (forall j f, t1 !! j = Some f -> is_live f = true -> e_ip f = a -> j = i) /\
    (forall j f, t1 !! j = Some f -> entry_ok f \/ j = i) /\
    ((is_live e = true /\ t1 = t) \/ (e_p e = 0 /\ e_state e = ETHARP_STATE_EMPTY)).
Proof.
  intros K [(j & e & Ej & Hj & Le & Ea & ->)|(N & [(E & _)|(j & e & Ej & Hj & HP & HF & ->)])].
  - apply Nat2Z.inj in Ej. subst j. exists e. destruct (entry_at t i e K Hj) as [(_ & _ & Ll & _) _].
    split; [exact Hj|]. split; [exact Ea|]. split; [exact Ll|]. split; [apply (to_length _ K)|]. split; [|split; [|auto]].
    + intros j f Hf Lf Ef. apply (to_distinct _ K j i f e); auto. congruence.
    + intros j f Hf. left. now apply (entry_at t j f K).
  - unfold ERR_MEM in E. lia.
  - apply Nat2Z.inj in Ej. subst j. destruct (entry_at t i e K Hj) as [(_ & _ & Ll & _) _]. eexists.
    split; [eapply lookup_set; exact Hj|]. split; [reflexivity|]. split; [exact Ll|].
    split; [rewrite length_insert; apply (to_length _ K)|]. split; [|split; [|auto]].
    + intros j f Hf Lf Ef. apply list_lookup_insert_Some in Hf as [(<- & _)|(_ & Hf)]; [reflexivity|].
      exfalso. apply (N f); auto. apply list_elem_of_lookup. eauto.
    + intros j f Hf. apply list_lookup_insert_Some in Hf as [(<- & _)|(_ & Hf)]; [auto|]. left. now apply (entry_at t j f K).
Qed.

(** A live entry of address [a] put at [i]. *)
Lemma found_table t a flags i t1 e' : table_ok t -> found t a flags (Z.of_nat i) t1 -> entry_ok e' -> e_ip e' = a ->
  table_ok (<[i := e']> t1).
Proof.
  intros K FD He Ea. destruct (found_entry t a flags i t1 K FD) as (e & Hi & _ & _ & L1 & U & OK & _). constructor.
  - now rewrite length_insert.
  - apply Forall_lookup. intros j f Hf. apply list_lookup_insert_Some in Hf as [(_ & -> & _)|(N & Hf)]; [exact He|].
    destruct (OK j f Hf); [assumption|congruence].
  - apply distinct_insert.
    + intros j k f g Hj Hk Lf Lg E. destruct FD as [(m & e2 & _ & _ & _ & _ & ->)|(N & [(_ & -> & _)|(m & e2 & Em & Hm & _ & _ & ->)])].
      * now apply (to_distinct _ K j k f g).
      * now apply (to_distinct _ K j k f g).
      * apply list_lookup_insert_Some in Hj as [(_ & <- & _)|(_ & Hj)]; [discriminate|].
        apply list_lookup_insert_Some in Hk as [(_ & <- & _)|(_ & Hk)]; [discriminate|].
        now apply (to_distinct _ K j k f g).
    + intros _ j f Hf Lf Ef. apply (U j f Hf Lf). congruence.
Qed.

(** [update_arp_entry] once there is an entry. *)
Lemma update_run n a ethaddr flags st i t1 h1 e : ether n -> not_unicast n a = false ->
  find_entry (Some a) flags st = Some (Z.of_nat i, mkArp t1 h1 (sent st)) -> t1 !! i = Some e -> length (e_eth e) = 6%nat ->
  update_arp_entry n a ethaddr flags st =
    (send_queue (heap_fuel h1) n ethaddr (Z.of_nat i) ;; sm_ret ERR_OK)
      (mkArp (<[i := mkEntry (e_p e) (e_ip e) (peek h1 ethaddr 6) ETHARP_STATE_STABLE 0]> t1) h1 (sent st)).
Proof.
  intros [E6 _] NU EF Hi Hl. unfold update_arp_entry. rewrite NU, E6. change (Z.to_nat 6) with 6%nat.
  rewrite (sm_bind_some _ _ _ _ _ EF). rewrite index_ok.
  erewrite sm_bind_some by (apply (set_entry_run i _ _ e); exact Hi).
  erewrite sm_bind_some by (eapply set_mac_ok; [cbn; eapply lookup_set; exact Hi|exact Hl]).
  erewrite sm_bind_some by (eapply set_entry_run; cbn; eapply lookup_set, lookup_set; exact Hi).
  unfold sm_bind at 1, sm_get. unfold with_table. cbn. now rewrite !list_insert_insert_eq.
Qed.

Definition ok_mac (m : list Z) : Prop := length m = 6%nat.

Lemma stable_ok a m : host_addr a -> length m = 6%nat -> entry_ok (mkEntry 0 a m ETHARP_STATE_STABLE 0).
Proof. intros Ha Hm. unfold entry_ok, age_ok, ARP_MAXAGE. cbn. repeat split; auto; try lia; apply Ha. Qed.

(** What [update_arp_entry] does. *)
Definition updated (st : arp) (n : eth_if) (a ethaddr flags r : Z) (st' : arp) : Prop :=
  (r = ERR_ARG /\ not_unicast n a = true /\ st' = st) \/
  (not_unicast n a = false /\ r = ERR_MEM /\ st' = st /\ found (arp_table st) a flags r (arp_table st)) \/
  (not_unicast n a = false /\ r = ERR_OK /\ exists i t1 out, found (arp_table st) a flags (Z.of_nat i) t1 /\
     arp_table st' = <[i := mkEntry 0 a (peek (heap st) ethaddr 6) ETHARP_STATE_STABLE 0]> t1 /\
     sent st' = sent st ++ out /\
     length out = length (concat (map queue_of (option_list (t1 !! i))))).

Lemma peek_mem h h' a n : mem h' = mem h -> peek h' a n = peek h a n.
Proof. intros E. apply peek_eq. intros c _. unfold byte_at. now rewrite E. Qed.

Lemma etharp_update_ok n a ethaddr flags st X F : ether n -> table_ok (arp_table st) ->
  own (heap st) F (queued (arp_table st) ++ X) ->
  exists r st' F', update_arp_entry n a ethaddr flags st = Some (r, st') /\
    table_ok (arp_table st') /\ own (heap st') F' (queued (arp_table st') ++ X) /\ updated st n a ethaddr flags r st'.
Proof.
  intros En K O. destruct (not_unicast n a) eqn:NU.
  { exists ERR_ARG, st, F. unfold update_arp_entry. rewrite NU. split; [reflexivity|]. split; [exact K|]. split; [exact O|]. left. auto. }
  destruct (find_entry_ok st a flags X F K O) as (r & t1 & h1 & F1 & EF & FD & O1 & Em & _ & Eh).
  destruct (Z.ltb_spec r 0) as [Neg|Pos].
  { assert (r = ERR_MEM /\ t1 = arp_table st) as [-> ->].
    { destruct FD as [(i & e & -> & _)|(_ & [(-> & -> & _)|(i & e & -> & _)])]; [lia|auto|lia]. }
    destruct FD as [(i & e & E & _)|(N & [(_ & _ & Ef & N0)|(i & e & E & _)])]; [unfold ERR_MEM in E; lia| |unfold ERR_MEM in E; lia].
    destruct (Eh (or_introl eq_refl)) as [-> ->]. exists ERR_MEM, st, F. unfold update_arp_entry. rewrite NU.
    rewrite (sm_bind_some _ _ _ _ _ EF). split; [now destruct st|]. split; [exact K|]. split; [exact O|].
    right; left. repeat split; auto. right. split; [exact N|]. left. auto. }
  assert (exists i, r = Z.of_nat i) as [i ->] by (exists (Z.to_nat r); lia).
  destruct (found_entry _ a flags i t1 K FD) as (e & Hi & Ea & Ll & _ & _ & _ & Hc).
  rewrite (update_run n a ethaddr flags st i t1 h1 e En NU EF Hi Ll). rewrite (peek_mem _ _ _ _ Em).
  set (M := peek (heap st) ethaddr 6). set (e1 := mkEntry (e_p e) (e_ip e) M ETHARP_STATE_STABLE 0).
  set (st1 := mkArp _ h1 (sent st)).
  assert (H1 : arp_table st1 !! i = Some e1) by (cbn; eapply lookup_set; exact Hi).
  assert (O2 : own (heap st1) F1 (queued (arp_table st1) ++ X)).
  { eapply own_perm; [reflexivity| |exact O1]. f_equiv. symmetry. now apply (queued_same t1 i e e1). }
  assert (LM : length M = 6%nat) by apply peek_length.
  assert (KT : table_ok (<[i := mkEntry 0 a M ETHARP_STATE_STABLE 0]> t1)).
  { apply (found_table (arp_table st) a flags i t1 _ K FD); [|reflexivity]. apply stable_ok; [now apply (not_unicast_host n)|exact LM]. }
  destruct (Z.eq_dec (e_p e) 0) as [Ep|Ep].
  - exists ERR_OK, st1, F1. split; [|split; [|split; [exact O2|]]].
    + unfold heap_fuel. cbn [send_queue]. unfold sm_bind at 1. rewrite (sm_bind_some _ _ _ _ _ (entry_run i st1 _ H1)).
      cbn [e_p e1]. now rewrite Ep.
    + unfold st1, e1. cbn [arp_table]. now rewrite Ea, Ep.
    + right; right. split; [exact NU|]. split; [reflexivity|]. exists i, t1, []. split; [exact FD|].
      split; [unfold st1, e1; cbn; now rewrite Ea, Ep|]. split; [symmetry; apply app_nil_r|].
      rewrite Hi. cbn. unfold queue_of. now rewrite Ep.
  - destruct (send_queue_ok st1 i e1 n ethaddr F1 X (size (pbufs h1)) En H1 Ep O2)
      as (b & l & F0 & h2 & h3 & _ & _ & _ & _ & ES & _ & O3).
    rewrite (sm_bind_some _ _ _ _ _ ES). eexists ERR_OK, _, _. split; [reflexivity|].
    assert (ET' : <[i := set_p 0 e1]> (arp_table st1) = <[i := mkEntry 0 a M ETHARP_STATE_STABLE 0]> t1).
    { unfold st1, e1. cbn. now rewrite list_insert_insert_eq, Ea. }
    rewrite ET' in *. cbn [arp_table heap sent]. split; [exact KT|]. split; [exact O3|].
    right; right. split; [exact NU|]. split; [reflexivity|]. exists i, t1. eexists. split; [exact FD|].
    split; [reflexivity|]. split; [reflexivity|]. rewrite Hi. cbn. unfold queue_of.
    now replace (e_p e =? 0) with false by lia.
Qed.

(** ** [etharp_request] *)

Lemma request_run {ML : MallocLaw} n ip st F H : ether n -> own (heap st) F H ->
  (malloc_addr (blocks (heap st)) 72 = None /\ etharp_request n ip st = Some (ERR_MEM, st)) \/
  exists p h0 h1 h2, malloc_addr (blocks (heap st)) 72 = Some p /\ mem h0 = mem (heap st) /\ touched (p + 30) 42 h0 h1 /\
    make_request n ip (p + 30) h0 = Some (tt, h1) /\ mem h2 = mem h1 /\ own h2 F H /\
    etharp_request n ip st = Some (link_result n (peek h1 (p + 30) 42),
      mkArp (arp_table st) h2 (sent st ++ [(eth_num n, peek h1 (p + 30) 42)])).
Proof.
  intros En O. unfold etharp_request.
  destruct (own_alloc (heap st) F H O) as [[EN EA]|(p & h0 & Em & Hp & EA & E0 & Np & Epb & O0)].
  { left. split; [exact EN|]. rewrite (sm_bind_some _ _ _ _ _ (on_heap_run _ st _ _ EA)). now destruct st. }
  right. set (b := mkPbuf 0 (p + 30) 42 42 PBUF_FLAG_RAM 1) in *.
  destruct (make_request_runs n ip (p + 30) h0 (peek h0 (p + 30) 42) h0 (fun _ h1 => touched (p + 30) 42 h0 h1) En
    (peek_length _ _ _) (wrote_refl h0 (p + 30) 42)) as ([] & h1 & ER & T); [auto|].
  pose proof (touched_own _ _ _ h1 _ _ T O0) as O1.
  destruct (own_free h1 p _ F H O1 eq_refl) as (m & h2 & EF & E2 & O2).
  exists p, h0, h1, h2. split; [exact Em|]. split; [exact E0|]. split; [exact T|]. split; [exact ER|]. split; [exact E2|].
  split; [exact O2|]. rewrite (sm_bind_some _ _ _ _ _ (on_heap_run _ st _ _ EA)).
  replace (p =? 0) with false by lia. cbn [negb].
  erewrite sm_bind_some by (apply on_heap_run, header_of_ok; [cbn; rewrite Epb; apply lookup_insert_eq|vm_compute; discriminate]).
  erewrite sm_bind_some by (apply on_heap_run; exact ER).
  erewrite sm_bind_some by (eapply linkoutput_ok; [exact O1|reflexivity]).
  erewrite sm_bind_some by (apply on_heap_run; exact EF). unfold sm_ret, with_sent, with_heap. cbn [arp_table heap sent].
  unfold packet_bytes. cbn [map concat]. rewrite app_nil_r. reflexivity.
Qed.

Lemma request_ok {ML : MallocLaw} n ip st F H : ether n -> own (heap st) F H ->
  exists r h' out, etharp_request n ip st = Some (r, mkArp (arp_table st) h' (sent st ++ out)) /\ own h' F H.
Proof.
  intros En O. destruct (request_run n ip st F H En O) as [[_ E]|(p & h0 & h1 & h2 & _ & _ & _ & _ & _ & O2 & E)].
  - exists ERR_MEM, (heap st), []. rewrite E, app_nil_r. split; [now destruct st|exact O].
  - eexists _, _, _. split; [exact E|exact O2].
Qed.

(** ** [etharp_query] *)

(** A packet that may be queued: none of its pbufs is a [PBUF_REF], and its
    reference count does not overflow. *)
Definition sendable (F : list pchain) (q : Z) : Prop :=
  exists b l, ((q, b) :: l) ∈ F /\ no_ref ((q, b) :: l) /\ ref b < 65535.

(** In a list of packets apart from each other one is known by its address. *)
Lemma own_unique h F H l m : own h F H -> l ∈ F -> m ∈ F -> head_addr l = head_addr m -> l = m.
Proof.
  intros O Hl Hm E. destruct (ow_packet _ _ _ O l Hl) as (Cl & _). destruct (ow_packet _ _ _ O m Hm) as (Cm & _).
  rewrite E in Cl. now apply (lseg_det (pbufs h) l m (head_addr m)).
Qed.

Lemma sendable_fewer h F H h' F' H' q : own h F H -> own h' F' H' -> fewer F F' -> q ∈ H' -> sendable F q -> sendable F' q.
Proof.
  intros O O' HF Hq (b & l & Hl & NR & Hr). destruct (ow_held _ _ _ O' q Hq) as (m & Hm & E).
  destruct (HF m Hm) as (k & Hk & [->|Hu]).
  - assert (k = (q, b) :: l) as -> by (apply (own_unique h F H); auto). exists b, l. auto.
  - assert (k = (q, b) :: l) as ->.
    { apply (own_unique h F H); auto. rewrite <- E. destruct k as [|[a c] k]; [now apply elem_of_nil in Hu|].
      cbn in Hu. destruct (ref c =? 1); [now apply elem_of_nil in Hu|]. apply list_elem_of_singleton in Hu as ->. reflexivity. }
    cbn in Hu. destruct (ref b =? 1); [now apply elem_of_nil in Hu|]. apply list_elem_of_singleton in Hu as ->.
    exists (set_ref (ref b - 1) b), l. split; [exact Hm|]. split; [|cbn; lia].
    inversion_clear NR. constructor; assumption.
Qed.

Lemma sendable_pick h F H q : own h F H -> sendable F q -> exists b l F0, (F ≡ₚ ((q, b) :: l) :: F0) /\
  own h (((q, b) :: l) :: F0) H /\ no_ref ((q, b) :: l) /\ ref b < 65535 /\ pbufs h !! q = Some b /\ 14 <= len b /\ q <> 0.
Proof.
  intros O (b & l & Hl & NR & Hr). destruct (packet_at_cons h _ (ow_packet _ _ _ O _ Hl)) as (a & c & m & [= <- <- <-] & Ha & Eb & Lb & _).
  apply elem_of_Permutation in Hl as [F0 P]. exists b, l, F0. split; [exact P|].
  split; [exact (own_perm h F _ H H P (Permutation_refl _) O)|]. auto.
Qed.

Lemma octet_ok l k h : (k < length l)%nat -> exists v, octet l k h = Some (v, h).
Proof. intros Hk. unfold octet. destruct (lookup_lt_is_Some_2 l k Hk) as [v ->]. now exists v. Qed.

(** A header for a known address and out. *)
Lemma send_direct n mac q st F H b : ether n -> length mac = 6%nat -> own (heap st) F H -> q ∈ H ->
  pbufs (heap st) !! q = Some b ->
  exists r h' out, (hdr <- on_heap (header_of q sizeof_eth_hdr) ;; on_heap (fill_eth n hdr (octet mac)) ;; linkoutput n q) st
    = Some (r, mkArp (arp_table st) h' (sent st ++ out)) /\ own h' F H /\ touched (payload b) 14 (heap st) h' /\
    fill_eth n (payload b) (octet mac) (heap st) = Some (tt, h') /\
    exists l F0, (F ≡ₚ ((q, b) :: l) :: F0) /\ out = [(eth_num n, packet_bytes h' ((q, b) :: l))].
Proof.
  intros En LM O Hq Eb. destruct (own_pick _ _ _ q O Hq) as (a & c & l & F0 & P & O1 & -> & _ & Ec & Lb & _).
  rewrite Eb in Ec. injection Ec as <-.
  destruct (fill_eth_runs n (payload b) (octet mac) (heap st) (fun _ h1 => touched (payload b) 14 (heap st) h1) En)
    as ([] & h1 & EF & T); [intros k h2 Hk; apply octet_ok; lia|auto|].
  pose proof (touched_own _ _ _ h1 _ _ T O1) as O2.
  eexists _, h1, _. split; [|split; [exact (touched_own _ _ _ h1 _ _ T O)|split; [exact T|split; [exact EF|eauto]]]].
  rewrite (sm_bind_some _ _ _ _ _ (on_heap_run _ st _ _ (header_of_ok q 14 b _ Eb Lb))).
  erewrite sm_bind_some by (apply on_heap_run; exact EF).
  erewrite linkoutput_ok by (exact O2 || reflexivity). reflexivity.
Qed.

Lemma query_packet_ok n i q r st F X e : ether n -> table_ok (arp_table st) -> arp_table st !! i = Some e ->
  own (heap st) F (queued (arp_table st) ++ X) -> q ∈ X -> sendable F q ->
  exists r' st' F', query_packet n (Z.of_nat i) q r st = Some (r', st') /\ table_ok (arp_table st') /\
    own (heap st') F' (queued (arp_table st') ++ X).
Proof.
  intros En K Hi O Hq HS. unfold query_packet. rewrite (sm_bind_some _ _ _ _ _ (entry_run i st e Hi)).
  destruct (entry_at _ i e K Hi) as [(A & Q & LM & HA) _].
  destruct (sendable_pick _ _ _ q O HS) as (b & l & F0 & P & O1 & NR & Hr & Eb & Lb & Hq0).
  destruct (e_state e) eqn:Es; [exists r, st, F; auto| | |exists r, st, F; auto].
  - erewrite sm_bind_some by (apply on_heap_run; eapply own_take; [exact O1|reflexivity|exact NR]).
    replace (q =? 0) with false by lia. cbn [negb]. destruct (Z.eqb_spec (e_p e) 0) as [Ep|Ep].
    + destruct (own_ref _ _ _ _ _ _ O1 Hr) as (h' & ER & _ & O2). unfold sm_bind at 1.
      erewrite sm_bind_some by (apply on_heap_run; exact ER).
      erewrite set_entry_run by exact Hi. eexists _, _, _. split; [reflexivity|]. cbn [arp_table heap with_table with_heap].
      destruct (queued_insert _ i e (set_p q e) Hi) as (rest & Q1 & Q2). split.
      * apply (table_update _ i e); auto. unfold entry_ok, age_ok, is_live in *. cbn. rewrite Es in *. auto.
      * eapply own_perm; [reflexivity| |exact O2]. rewrite Q1, Q2. unfold queue_of. cbn [e_p set_p].
        rewrite Ep. replace (q =? 0) with false by lia. reflexivity.
    + exists ERR_OK, st, F. split; [destruct st; reflexivity|]. auto.
  - destruct (send_direct n (e_eth e) q st F _ b En LM O ltac:(apply elem_of_app; auto) Eb) as (r' & h' & out & E & O' & _).
    eexists _, _, F. split; [exact E|]. auto.
Qed.

Lemma query_ok {ML : MallocLaw} n a q st F X : ether n -> table_ok (arp_table st) ->
  own (heap st) F (queued (arp_table st) ++ X) -> q = 0 \/ (q ∈ X /\ sendable F q) ->
  exists r st' F', etharp_query n a q st = Some (r, st') /\ table_ok (arp_table st') /\
    own (heap st') F' (queued (arp_table st') ++ X).
Proof.
  intros En K O Hq. unfold etharp_query. destruct (_ || _ || _) eqn:NU; [exists ERR_ARG, st, F; auto|].
  assert (HA : host_addr a).
  { apply (not_unicast_host n). unfold not_unicast. apply orb_false_iff in NU as [NU ->]. apply orb_false_iff in NU as [-> ->]. reflexivity. }
  destruct (find_entry_ok st a ETHARP_TRY_HARD X F K O) as (r & t1 & h1 & F1 & EF & FD & O1 & Em & HF & _).
  rewrite (sm_bind_some _ _ _ _ _ EF).
  assert (exists i, r = Z.of_nat i) as [i ->].
  { destruct FD as [(i & e & -> & _)|(_ & [(_ & _ & E & _)|(i & e & -> & _)])]; [eauto|discriminate|eauto]. }
  rewrite index_ok. destruct (found_entry _ a _ i t1 K FD) as (e & Hi & Ea & Ll & _ & _ & _ & Hc).
  set (st1 := mkArp t1 h1 (sent st)).
  rewrite (sm_bind_some _ _ _ _ _ (entry_run i st1 e Hi)).
  assert (MARK : exists t2 e2, (if bool_decide (e_state e = ETHARP_STATE_EMPTY) then set_entry (Z.of_nat i) (set_state ETHARP_STATE_PENDING)
      else sm_ret tt) st1 = Some (tt, mkArp t2 h1 (sent st)) /\ t2 !! i = Some e2 /\ table_ok t2 /\
      own h1 F1 (queued t2 ++ X) /\ is_live e2 = true).
  { destruct Hc as [[Le ->]|[Ep Es]].
    - exists (arp_table st), e. rewrite bool_decide_false by (unfold is_live in Le; destruct (e_state e); congruence). auto.
    - exists (<[i := set_state ETHARP_STATE_PENDING e]> t1), (set_state ETHARP_STATE_PENDING e).
      rewrite bool_decide_true by exact Es. rewrite (set_entry_run i _ st1 e Hi). split; [reflexivity|].
      split; [eapply lookup_set; exact Hi|]. split; [|split; [|reflexivity]].
      + apply (found_table (arp_table st) a ETHARP_TRY_HARD i t1 _ K FD); [|exact Ea].
        destruct FD as [(j & f & Ej & Hj & Lf & _ & ->)|(_ & [(_ & _ & E & _)|(j & f & Ej & _ & _ & _ & ->)])]; [|discriminate|].
        * apply Nat2Z.inj in Ej. subst j. unfold is_live in Lf. rewrite Hi in Hj. injection Hj as <-. now rewrite Es in Lf.
        * apply Nat2Z.inj in Ej. subst j. apply list_lookup_insert_Some in Hi as [(_ & <- & _)|(N & _)]; [|congruence].
          unfold entry_ok, age_ok, ARP_MAXPENDING. cbn in *. repeat split; auto; try lia; apply HA.
      + eapply own_perm; [reflexivity| |exact O1]. f_equiv. symmetry. now apply (queued_same t1 i e). }
  destruct MARK as (t2 & e2 & EM & H2 & K2 & O2 & L2). rewrite (sm_bind_some _ _ _ _ _ EM).
  set (st2 := mkArp t2 h1 (sent st)). rewrite (sm_bind_some _ _ _ _ _ (entry_run i st2 e2 H2)).
  assert (REQ : exists r h3 out, (if bool_decide (e_state e2 = ETHARP_STATE_PENDING) || (q =? 0) then etharp_request n a else sm_ret ERR_MEM) st2
    = Some (r, mkArp t2 h3 (sent st ++ out)) /\ own h3 F1 (queued t2 ++ X)).
  { destruct (bool_decide (e_state e2 = ETHARP_STATE_PENDING) || (q =? 0)); [exact (request_ok n a st2 F1 _ En O2)|]. exists ERR_MEM, h1, []. rewrite app_nil_r. auto. }
  destruct REQ as (r & h3 & out & ER & O3). rewrite (sm_bind_some _ _ _ _ _ ER).
  destruct Hq as [->|[Hq HS]].
  - cbn [Z.eqb negb]. eexists _, _, _. split; [reflexivity|]. split; [exact K2|exact O3].
  - destruct (ow_held _ _ _ O q ltac:(apply elem_of_app; auto)) as (m & Hm & Eq).
    destruct (packet_at_cons _ m (ow_packet _ _ _ O m Hm)) as (q' & c & k & -> & Hq0 & _). cbn in Eq. subst q'.
    replace (q =? 0) with false by lia. cbn [negb].
    apply (query_packet_ok n i q r (mkArp t2 h3 (sent st ++ out)) F1 X e2 En K2 H2 O3 Hq).
    apply (sendable_fewer (heap st) F _ h3 F1 (queued t2 ++ X) q O O3 HF); [apply elem_of_app; auto|exact HS].
Qed.

End Sending.
