(* ===== verification/EtharpRun.v ===== *)
(** * EtharpRun: runs of address resolution

    The calls of [Etharp] as steps of a machine, between which the rest of the
    stack does what it likes with memory that is not the table's; theorems about
    all its runs, and about the destination of each packet; no C code. *)
From Stdlib Require Import ZArith Lia List Bool.
From stdpp Require Import base gmap list.
From S2P Require Import Tcp IpOut Prelude Inet IpAddr Pbuf Etharp EtharpHeap EtharpTable EtharpMem EtharpSafe.
Import ListNotations.
#[local] Open Scope Z_scope.
#[local] Open Scope sm_scope.

Section Calls.
Context {PF : Platform} {ET : Ether} {ML : MallocLaw}.

(** ** The other calls *)

(** A packet that may be given to [etharp_output]: also small enough for 14 bytes
    more. *)
Definition outgoing (F : list pchain) (q : Z) : Prop :=
  exists b l, ((q, b) :: l) ∈ F /\ no_ref ((q, b) :: l) /\ ref b < 65535 /\ tot_len b + 14 <= 65535 /\
    flags b ∈ [PBUF_FLAG_RAM; PBUF_FLAG_ROM; PBUF_FLAG_POOL; PBUF_FLAG_REF].

(** The same, said of the heap. *)
Definition may_queue (h : pstate) (q : Z) : Prop :=
  exists b l, chain (pbufs h) q ((q, b) :: l) /\ no_ref ((q, b) :: l) /\ ref b < 65535.

Definition may_output (h : pstate) (q : Z) : Prop :=
  exists b l, chain (pbufs h) q ((q, b) :: l) /\ no_ref ((q, b) :: l) /\ ref b < 65535 /\ tot_len b + 14 <= 65535 /\
    flags b ∈ [PBUF_FLAG_RAM; PBUF_FLAG_ROM; PBUF_FLAG_POOL; PBUF_FLAG_REF].

Lemma may_queue_sendable h F H q : own h F H -> q ∈ H -> may_queue h q -> sendable F q.
Proof. intros O Hq (b & l & C & K). exists b, l. split; [now apply (own_chain h F H q)|exact K]. Qed.

Lemma may_output_outgoing h F H q : own h F H -> q ∈ H -> may_output h q -> outgoing F q.
Proof. intros O Hq (b & l & C & K). exists b, l. split; [now apply (own_chain h F H q)|exact K]. Qed.

Lemma output_ok n a q st F X : ether n -> table_ok (arp_table st) -> own (heap st) F (queued (arp_table st) ++ X) ->
  q ∈ X -> outgoing F q ->
  exists r st' F', etharp_output n a q st = Some (r, st') /\ table_ok (arp_table st') /\
    own (heap st') F' (queued (arp_table st') ++ X).
Proof.
  intros En K O Hq (b & l & Hl & NR & Hr & Ht & Hf). unfold etharp_output.
  apply elem_of_Permutation in Hl as [F0 P].
  pose proof (own_perm _ F _ _ _ P (Permutation_refl _) O) as O1.
  destruct (own_header _ q b l F0 _ O1 Ht Hf) as [[EH _]|(_ & _ & h' & EH & Eh & O2)].
  { erewrite sm_bind_some by (apply on_heap_run; exact EH). exists ERR_BUF, st, F. split; [now destruct st|]. auto. }
  erewrite sm_bind_some by (apply on_heap_run; exact EH). cbn [Z.eqb negb].
  set (F1 := ((q, moved 14 b) :: l) :: F0) in *. set (st1 := with_heap h' st).
  assert (Hq' : q ∈ queued (arp_table st) ++ X) by (apply elem_of_app; auto).
  assert (Eb : pbufs (heap st1) !! q = Some (moved 14 b)) by (cbn; rewrite Eh; cbn; apply lookup_insert_eq).
  assert (DIR : forall mac, length mac = 6%nat -> exists r st' F', output_direct n mac q st1 = Some (r, st') /\
    table_ok (arp_table st') /\ own (heap st') F' (queued (arp_table st') ++ X)).
  { intros mac LM. destruct (send_direct n mac q st1 F1 _ _ En LM O2 Hq' Eb) as (r & h2 & out & E & O3 & _).
    eexists _, _, F1. split; [exact E|]. split; [exact K|exact O3]. }
  destruct (ip_addr_isbroadcast a (eth_net n)); [now apply DIR|].
  destruct (ip_addr_ismulticast a); [now apply DIR|].
  assert (QRY : forall d, exists r st' F', etharp_query n d q st1 = Some (r, st') /\
    table_ok (arp_table st') /\ own (heap st') F' (queued (arp_table st') ++ X)).
  { intros d. apply (query_ok n d q st1 F1 X En K O2). right. split; [exact Hq|]. exists (moved 14 b), l.
    split; [apply list_elem_of_here|]. split; [|exact Hr]. inversion_clear NR. constructor; assumption. }
  destruct (ip_addr_netcmp _ _ _); cbn [negb]; [apply QRY|].
  destruct (eth_gw n =? 0); cbn [negb]; [|apply QRY]. exists ERR_RTE, st1, F1. auto.
Qed.

Lemma ld16_run a h : exists v, ld16 a h = Some (v, h).
Proof. eexists. reflexivity. Qed.

Lemma ip_input_ok n p b st F X : ether n -> table_ok (arp_table st) -> own (heap st) F (queued (arp_table st) ++ X) ->
  pbufs (heap st) !! p = Some b -> 30 <= len b ->
  exists st' F', etharp_ip_input n p st = Some (tt, st') /\ table_ok (arp_table st') /\
    own (heap st') F' (queued (arp_table st') ++ X).
Proof.
  intros En K O Eb Lb. unfold etharp_ip_input.
  rewrite (sm_bind_some _ _ _ _ _ (on_heap_run _ st _ _ (header_of_ok p 30 b _ Eb Lb))).
  erewrite sm_bind_some by (apply on_heap_run; reflexivity).
  set (st1 := with_heap _ _). assert (Est : st1 = st) by now destruct st. rewrite Est.
  destruct (negb _); [exists st, F; auto|].
  match goal with |- context [update_arp_entry n ?a ?d 0] =>
    destruct (etharp_update_ok n a d 0 st X F En K O) as (r & st' & F' & E & K' & O' & _) end.
  rewrite (sm_bind_some _ _ _ _ _ E). eauto.
Qed.

(** The answer to a request: written over it and sent. *)
Lemma reply_ok n mac p hdr st F H : hwaddr_len n = 6 -> length mac = 6%nat -> own (heap st) F H -> p ∈ H ->
  exists h' b l F0, (F ≡ₚ ((p, b) :: l) :: F0) /\ make_reply n mac hdr (heap st) = Some (tt, h') /\
    touched hdr 42 (heap st) h' /\ own h' F H /\
    (on_heap (make_reply n mac hdr) ;; linkoutput n p ;; sm_ret tt) st
    = Some (tt, mkArp (arp_table st) h' (sent st ++ [(eth_num n, packet_bytes h' ((p, b) :: l))])).
Proof.
  intros E6 LM O Hp. destruct (own_pick _ _ _ p O Hp) as (a & b & l & F0 & P & O1 & -> & _).
  destruct (make_reply_runs n mac hdr (heap st) (peek (heap st) hdr 42) (heap st)
    (fun _ h' => touched hdr 42 (heap st) h') E6 LM (peek_length _ _ _) (wrote_refl _ _ _)) as ([] & h' & E & T); [auto|].
  pose proof (touched_own _ _ _ h' _ _ T O1) as O2.
  exists h', b, l, F0. split; [exact P|]. split; [exact E|]. split; [exact T|].
  split; [exact (touched_own _ _ _ h' _ _ T O)|].
  erewrite sm_bind_some by (apply on_heap_run; exact E).
  erewrite sm_bind_some by (eapply linkoutput_ok; [exact O2|reflexivity]). reflexivity.
Qed.

Lemma drop_holder st F p X : own (heap st) F (queued (arp_table st) ++ p :: X) ->
  exists m h' F', pbuf_free p (heap st) = Some (m, h') /\ mem h' = mem (heap st) /\ own h' F' (queued (arp_table st) ++ X).
Proof.
  intros O. assert (O1 : own (heap st) F (p :: queued (arp_table st) ++ X)).
  { eapply own_perm; [reflexivity| |exact O]. symmetry. apply Permutation_middle. }
  destruct (own_pick _ _ _ p O1 (list_elem_of_here _ _)) as (a & b & l & F0 & _ & O2 & Ea & _).
  destruct (own_free _ p _ F0 _ O2 Ea) as (m & h' & E & Em & O3). eauto 10.
Qed.

Lemma arp_input_ok n mac p b st F X : ether n -> length mac = 6%nat -> table_ok (arp_table st) ->
  own (heap st) F (queued (arp_table st) ++ p :: X) ->
  pbufs (heap st) !! p = Some b -> 42 <= len b \/ tot_len b < 42 ->
  exists st' F', etharp_arp_input n mac p st = Some (tt, st') /\ table_ok (arp_table st') /\
    own (heap st') F' (queued (arp_table st') ++ X).
Proof.
  intros En LM K O Eb Lb. unfold etharp_arp_input.
  rewrite (sm_bind_some _ _ _ _ _ (on_heap_run _ st _ _ (load_ok p b _ Eb))).
  assert (Est : with_heap (heap st) st = st) by now destruct st. rewrite Est.
  unfold sizeof_etharp_hdr. destruct (Z.ltb_spec (tot_len b) 42) as [Hs|Hs].
  { destruct (drop_holder st F p X O) as (m & h' & F' & E & _ & O').
    erewrite sm_bind_some by (apply on_heap_run; exact E). exists (with_heap h' st), F'. auto. }
  rewrite (sm_bind_some _ _ _ _ _ (on_heap_run _ st _ _ (header_of_ok p 42 b _ Eb ltac:(lia)))). rewrite Est.
  erewrite sm_bind_some by (apply on_heap_run; reflexivity). rewrite Est.
  erewrite sm_bind_some by (apply on_heap_run; reflexivity). rewrite Est. cbv zeta.
  match goal with |- context [word32 ?x ?y ?z ?w =? eth_ip n] => set (us := if eth_ip n =? 0 then false else word32 x y z w =? eth_ip n) end.
  match goal with |- context [update_arp_entry n ?a ?d ETHARP_TRY_HARD] =>
    assert (UPD : exists r st1 F1, (if us then update_arp_entry n a d ETHARP_TRY_HARD else update_arp_entry n a d 0) st = Some (r, st1) /\
      table_ok (arp_table st1) /\ own (heap st1) F1 (queued (arp_table st1) ++ p :: X));
    [destruct us; [destruct (etharp_update_ok n a d ETHARP_TRY_HARD st (p :: X) F En K O) as (r & st1 & F1 & E & K1 & O1 & _)|
                   destruct (etharp_update_ok n a d 0 st (p :: X) F En K O) as (r & st1 & F1 & E & K1 & O1 & _)]; eauto 10|] end.
  destruct UPD as (r & st1 & F1 & EU & K1 & O1). rewrite (sm_bind_some _ _ _ _ _ EU).
  erewrite sm_bind_some by (apply on_heap_run; reflexivity).
  assert (Est1 : with_heap (heap st1) st1 = st1) by now destruct st1. rewrite Est1.
  match goal with |- context [if ?c then ?x else sm_ret tt] =>
    assert (ACT : exists h2 out, (if c then x else sm_ret tt) st1 = Some (tt, mkArp (arp_table st1) h2 (sent st1 ++ out)) /\
      own h2 F1 (queued (arp_table st1) ++ p :: X)) end.
  { assert (NOP : exists h2 out, sm_ret tt st1 = Some (tt, mkArp (arp_table st1) h2 (sent st1 ++ out)) /\
      own h2 F1 (queued (arp_table st1) ++ p :: X)).
    { exists (heap st1), []. rewrite app_nil_r. split; [now destruct st1|exact O1]. }
    destruct (_ =? ARP_REQUEST); [|exact NOP]. destruct us; [|exact NOP].
    destruct (reply_ok n mac p (payload b) st1 F1 _ (proj1 En) LM O1) as (h2 & b2 & l & F0 & _ & _ & _ & O2 & E).
    { apply elem_of_app. right. apply list_elem_of_here. }
    eauto. }
  destruct ACT as (h2 & out & EA & O2). rewrite (sm_bind_some _ _ _ _ _ EA).
  destruct (drop_holder (mkArp (arp_table st1) h2 (sent st1 ++ out)) F1 p X O2) as (m & h' & F' & EF & _ & O').
  erewrite sm_bind_some by (apply on_heap_run; exact EF). eexists _, F'. split; [reflexivity|]. auto.
Qed.

(** ** Runs *)

Inductive arp_call :=
| CTmr
| CIpInput (n : eth_if) (p : Z)
| CArpInput (n : eth_if) (ethaddr : list Z) (p : Z)
| COutput (n : eth_if) (ipaddr q : Z)
| CQuery (n : eth_if) (ipaddr q : Z).

Definition arp_run (c : arp_call) : AM unit :=
  match c with
  | CTmr => etharp_tmr
  | CIpInput n p => etharp_ip_input n p
  | CArpInput n ethaddr p => etharp_arp_input n ethaddr p
  | COutput n a q => etharp_output n a q ;; sm_ret tt
  | CQuery n a q => etharp_query n a q ;; sm_ret tt
  end.

(** What a call needs of a caller that holds [X]; and the packets it holds then.
    [etharp_ip_input] and [etharp_arp_input] check no [len]. *)
Inductive may_call (st : arp) : arp_call -> list Z -> list Z -> Prop :=
| can_tick X : may_call st CTmr X X
| can_ip_input n p b X : ether n -> pbufs (heap st) !! p = Some b -> 30 <= len b -> may_call st (CIpInput n p) X X
| can_arp_input n mac p b X : ether n -> length mac = 6%nat -> pbufs (heap st) !! p = Some b ->
    42 <= len b \/ tot_len b < 42 -> may_call st (CArpInput n mac p) (p :: X) X
| can_output n a q X : ether n -> q ∈ X -> may_output (heap st) q -> may_call st (COutput n a q) X X
| can_query n a q X : ether n -> q = 0 \/ (q ∈ X /\ may_queue (heap st) q) -> may_call st (CQuery n a q) X X.

(** States of the table and the memory, with the packets the rest of the stack
    holds: after [etharp_init]; after a call; after anything that leaves the
    packets that wait alone. *)
Inductive arp_reach : arp -> list Z -> Prop :=
| reach_init st st' F X : length (arp_table st) = 10%nat -> Forall (fun e => length (e_eth e) = 6%nat) (arp_table st) ->
    own (heap st) F X -> etharp_init st = Some (tt, st') -> arp_reach st' X
| reach_call st st' c X X' : arp_reach st X -> may_call st c X X' -> arp_run c st = Some (tt, st') -> arp_reach st' X'
| reach_other st h F X X' : arp_reach st X -> own h F (queued (arp_table st) ++ X') -> arp_reach (with_heap h st) X'.

Lemma etharp_init_ok st : length (arp_table st) = 10%nat ->
  etharp_init st = Some (tt, with_table (map (fun e => mkEntry 0 (e_ip e) (e_eth e) ETHARP_STATE_EMPTY 0)) st).
Proof.
  intros Hl. set (clr := fun e => mkEntry 0 (e_ip e) (e_eth e) ETHARP_STATE_EMPTY 0). set (t := arp_table st).
  destruct (for_k_ok init_entry (fun k s => s = with_table (fun _ => map clr (take k t) ++ drop k t) st) 10 st) as (s & E & ->).
  - intros k s Hk ->. destruct (lookup_lt_is_Some_2 t k) as [e He]; [unfold t; lia|].
    assert (Lk : length (map clr (take k t)) = k) by (rewrite length_map, length_take; unfold t; lia).
    set (s1 := with_table _ st).
    assert (Hs : arp_table s1 !! k = Some e).
    { cbn. rewrite lookup_app_r by lia. rewrite Lk, Nat.sub_diag, lookup_drop, Nat.add_0_r. exact He. }
    eexists. split; [|reflexivity]. unfold init_entry. rewrite (sm_bind_some _ _ _ _ _ (set_entry_run k _ s1 e Hs)).
    erewrite sm_bind_some by (eapply set_entry_run; cbn; eapply lookup_set; exact Hs).
    erewrite set_entry_run by (cbn; eapply lookup_set, lookup_set; exact Hs).
    unfold s1, with_table. cbn. rewrite !list_insert_insert_eq. do 3 f_equal.
    rewrite insert_app_r_alt by lia. rewrite Lk, Nat.sub_diag, (drop_S t e k He). cbn [insert list_insert].
    rewrite Nat.add_1_r, (take_S_r t k e He), map_app, <- app_assoc. reflexivity.
  - now destruct st.
  - unfold etharp_init. change (Z.to_nat ARP_TABLE_SIZE) with 10%nat. rewrite E.
    rewrite take_ge, drop_ge, app_nil_r by (unfold t; lia). reflexivity.
Qed.

(** A call that is allowed runs, and keeps the invariant. *)
Lemma arp_call_ok st c X X' : arp_inv st X -> may_call st c X X' ->
  exists st', arp_run c st = Some (tt, st') /\ arp_inv st' X'.
Proof.
  intros [K [F O]] M. destruct M as [X|n p b X En Eb Lb|n mac p b X En LM Eb Lb|n a q X En Hq HO|n a q X En HQ]; cbn [arp_run].
  - destruct (etharp_tmr_ok st X) as (st' & E & _ & _ & _ & I); [split; eauto|]. eauto.
  - destruct (ip_input_ok n p b st F X En K O Eb Lb) as (st' & F' & E & K' & O'). exists st'. split; [exact E|]. split; eauto.
  - destruct (arp_input_ok n mac p b st F X En LM K O Eb Lb) as (st' & F' & E & K' & O'). exists st'. split; [exact E|]. split; eauto.
  - destruct (output_ok n a q st F X En K O Hq) as (r & st' & F' & E & K' & O').
    { apply (may_output_outgoing (heap st) F (queued (arp_table st) ++ X)); auto. apply elem_of_app. auto. }
    exists st'. rewrite (sm_bind_some _ _ _ _ _ E). split; [reflexivity|]. split; eauto.
  - assert (HS : q = 0 \/ (q ∈ X /\ sendable F q)).
    { destruct HQ as [|[Hq HS]]; [auto|]. right. split; [exact Hq|].
      apply (may_queue_sendable (heap st) F (queued (arp_table st) ++ X)); auto. apply elem_of_app. auto. }
    destruct (query_ok n a q st F X En K O HS) as (r & st' & F' & E & K' & O').
    exists st'. rewrite (sm_bind_some _ _ _ _ _ E). split; [reflexivity|]. split; eauto.
Qed.

Lemma reach_inv st X : arp_reach st X -> arp_inv st X.
Proof.
  induction 1 as [st st' F X Hl HE O E|st st' c X X' _ IH M E|st h F X X' _ [K _] O].
  - rewrite (etharp_init_ok st Hl) in E. injection E as <-. split; cbn [arp_table with_table heap].
    + constructor.
      * now rewrite length_map.
      * apply Forall_map. eapply Forall_impl; [exact HE|]. intros e He. cbn. unfold entry_ok, age_ok. cbn.
        repeat split; try discriminate; auto; congruence.
      * intros i j e f Hi _ Le. rewrite list_lookup_fmap in Hi. destruct (arp_table st !! i); [|discriminate].
        cbn in Hi. injection Hi as <-. discriminate.
    + exists F. replace (queued _) with (@nil Z); [exact O|]. unfold queued. symmetry. apply concat_nil_Forall.
      rewrite map_map. apply Forall_map, Forall_true. reflexivity.
  - destruct (arp_call_ok st c X X' IH M) as (st2 & E2 & I). rewrite E in E2. now injection E2 as <-.
  - split; [exact K|]. now exists F.
Qed.

(** C7: address resolution is safe for whole runs of calls, the timer and the
    rest of the stack in between: no call faults (no access outside the table or
    a pbuf, no use of a packet that was freed, no reference counted twice), and
    afterwards the table has ten entries, at most one live entry for each
    address, none in the transitional state, packets waiting in pending entries
    only, ages below their limits, addresses of single hosts only; and one
    reference is held for each packet that waits, besides those of the callers. *)
Theorem etharp_runs_safe st X : arp_reach st X ->
  table_ok (arp_table st) /\ (exists F, own (heap st) F (queued (arp_table st) ++ X)) /\
  forall c X', may_call st c X X' -> exists st', arp_run c st = Some (tt, st') /\ arp_reach st' X'.
Proof.
  intros R. destruct (reach_inv st X R) as [K O]. split; [exact K|]. split; [exact O|]. intros c X' M.
  destruct (arp_call_ok st c X X' (conj K O) M) as (st' & E & _). exists st'. split; [exact E|].
  exact (reach_call st st' c X X' R M E).
Qed.

(** ** Where the code is not what its comments say *)

(** [update_arp_entry] without [ETHARP_TRY_HARD], as [etharp_ip_input] and
    messages for others call it, makes a new resolved entry for an address that
    has none whenever an entry is empty, although its comment says that only
    existing entries are updated: any frame puts the address it claims to come
    from into the table. *)
Theorem etharp_inserts_strangers n a ethaddr st X : ether n -> arp_inv st X -> not_unicast n a = false ->
  (forall e, e ∈ arp_table st -> is_live e = true -> e_ip e <> a) ->
  (exists e, e ∈ arp_table st /\ e_state e = ETHARP_STATE_EMPTY) ->
  exists st' i, update_arp_entry n a ethaddr 0 st = Some (ERR_OK, st') /\ arp_inv st' X /\
    arp_table st' !! i = Some (mkEntry 0 a (peek (heap st) ethaddr 6) ETHARP_STATE_STABLE 0).
Proof.
  intros En [K [F O]] NU NL (e0 & He0 & Es0).
  destruct (etharp_update_ok n a ethaddr 0 st X F En K O) as (r & st' & F' & E & K' & O' & U).
  destruct U as [(_ & NU' & _)|[(_ & -> & -> & FD)|(_ & -> & i & t1 & out & FD & ET' & _)]]; [congruence| |].
  - exfalso. destruct FD as [(i & e & _ & Hi & Le & Ea & _)|(_ & [(_ & _ & _ & N0)|(i & e & Ei & _)])].
    + apply (NL e); auto. apply list_elem_of_lookup. eauto.
    + apply (N0 e0 He0). unfold rank. now rewrite Es0.
    + unfold ERR_MEM in Ei. lia.
  - exists st', i. split; [exact E|]. split; [split; eauto|]. rewrite ET'.
    destruct (found_entry _ a 0 i t1 K FD) as (e & Hi & _). eapply lookup_set. exact Hi.
Qed.

(** [etharp_query] with a packet for an address that is pending and has a
    packet already: it returns [ERR_OK], but the packet is not queued, as its
    comment says, nor sent: the table is as before, the caller's packet has no
    reference more, and what goes out is at most one more request. *)
Theorem etharp_query_drops n a q st X e : ether n -> arp_inv st X -> q ∈ X -> may_queue (heap st) q ->
  not_unicast n a = false -> e ∈ arp_table st -> e_state e = ETHARP_STATE_PENDING -> e_ip e = a -> e_p e <> 0 ->
  exists h' out, etharp_query n a q st = Some (ERR_OK, mkArp (arp_table st) h' (sent st ++ out)) /\
    Forall (fun f => length f.2 = 42%nat) out /\ (length out <= 1)%nat /\
    exists F, own (heap st) F (queued (arp_table st) ++ X) /\ own h' F (queued (arp_table st) ++ X).
Proof.
  intros En [K [F O]] Hq MQ NU He Hs Ea Hp.
  assert (Hq' : q ∈ queued (arp_table st) ++ X) by (apply elem_of_app; auto).
  destruct (find_known st a X F e K O He) as (i & Hi & EFi); [unfold is_live; now rewrite Hs|exact Ea|].
unfold etharp_query.
  unfold not_unicast in NU. apply orb_false_iff in NU as [NU HM']. apply orb_false_iff in NU as [HA' HB'].
  rewrite HA', HB', HM'. cbn [orb]. rewrite (sm_bind_some _ _ _ _ _ EFi). rewrite index_ok.
  rewrite (sm_bind_some _ _ _ _ _ (entry_run i st e Hi)). rewrite Hs, bool_decide_false by discriminate.
  unfold sm_bind at 1, sm_ret at 1. rewrite (sm_bind_some _ _ _ _ _ (entry_run i st e Hi)).
  rewrite Hs, (bool_decide_true _ eq_refl). cbn [orb].
  assert (REQ : exists r h' out, etharp_request n a st = Some (r, mkArp (arp_table st) h' (sent st ++ out)) /\
    own h' F (queued (arp_table st) ++ X) /\ Forall (fun f => length f.2 = 42%nat) out /\ (length out <= 1)%nat).
  { destruct (request_run n a st F _ En O) as [[_ E]|(p & h0 & h2 & h3 & _ & _ & _ & _ & _ & O2 & E)].
    - exists ERR_MEM, (heap st), []. rewrite E, app_nil_r. split; [now destruct st|]. split; [exact O|]. split; [constructor|cbn; lia].
    - eexists _, _, _. split; [exact E|]. split; [exact O2|]. split; [|cbn; lia]. constructor; [apply peek_length|constructor]. }
  destruct REQ as (r' & h' & out & ER & O2 & L42 & L1). rewrite (sm_bind_some _ _ _ _ _ ER).
  destruct (sendable_pick _ _ _ q O2 (may_queue_sendable _ F _ q O Hq' MQ)) as (b & l & F0 & P & O3 & NR & _ & _ & _ & Hq0).
  replace (q =? 0) with false by lia. cbn [negb]. unfold query_packet.
  set (st2 := mkArp (arp_table st) h' _). rewrite (sm_bind_some _ _ _ _ _ (entry_run i st2 e Hi)). rewrite Hs.
  erewrite sm_bind_some by (apply on_heap_run; eapply own_take; [exact O3|reflexivity|exact NR]).
  replace (q =? 0) with false by lia. replace (e_p e =? 0) with false by lia. cbn [negb].
  exists h', out. split; [reflexivity|]. split; [exact L42|]. split; [exact L1|]. exists F. auto.
Qed.

End Calls.
