(* ===== verification/EtharpPath.v ===== *)
(** * EtharpPath: packets find their way

    Theorems about what [Etharp] sends, byte for byte: a packet for a broadcast,
    a multicast or a resolved address goes out at once; and two hosts that do not
    know each other exchange a request and a reply, after which the packet that
    waited is sent to the right machine; no C code. *)
From Stdlib Require Import ZArith Lia List Bool.
From stdpp Require Import base gmap list.
From S2P Require Import Tcp IpFrag IpOut Prelude Inet IpAddr Pbuf Etharp EtharpHeap EtharpTable EtharpMem EtharpSafe EtharpRun.
Import ListNotations.
#[local] Open Scope Z_scope.
#[local] Open Scope sm_scope.

Section Content.
Context {PF : Platform} {ET : Ether}.

(** No payload of [l] meets the [n] bytes at [a]. *)
Definition clear_of (a n : Z) (l : pchain) : Prop :=
  Forall (fun x => payload x.2 + len x.2 <= a \/ a + n <= payload x.2) l.

Lemma packet_bytes_touched a n h h' l : touched a n h h' -> clear_of a n l -> Forall (fun x => 0 <= len x.2) l ->
  packet_bytes h' l = packet_bytes h l.
Proof.
  intros T C L. unfold packet_bytes. f_equal. apply map_ext_in. intros x Hx%list_elem_of_In.
  unfold clear_of in C. rewrite Forall_forall in C, L. specialize (C x Hx). specialize (L x Hx).
  apply peek_eq. intros c Hc. apply (touched_byte a n h h' c T). lia.
Qed.

Lemma packet_bytes_mem h h' l : mem h' = mem h -> packet_bytes h' l = packet_bytes h l.
Proof. intros E. unfold packet_bytes. f_equal. apply map_ext. intros x. now apply peek_mem. Qed.

Lemma packet_bytes_cons h a b l : packet_bytes h ((a, b) :: l) = peek h (payload b) (Z.to_nat (len b)) ++ packet_bytes h l.
Proof. reflexivity. Qed.

(** The frame: a header written over the first 14 bytes. *)
Lemma frame_bytes n dest D h h1 q b l : ether n -> length D = 6%nat ->
  (forall k v h2, D !! k = Some v -> touched (payload b) 14 h h2 -> dest k h2 = Some (v, h2)) ->
  fill_eth n (payload b) dest h = Some (tt, h1) -> 14 <= len b -> clear_of (payload b) 14 l ->
  Forall (fun x => 0 <= len x.2) l ->
  packet_bytes h1 ((q, b) :: l) = eth_bytes D (hwaddr n) ETHTYPE_IP ++ drop 14 (packet_bytes h ((q, b) :: l)).
Proof.
  intros En LD HD EF Lb C L.
  assert (W : wrote h (payload b) (eth_bytes D (hwaddr n) ETHTYPE_IP) h1).
  { refine (wp_det (fill_eth n (payload b) dest) (fun _ h1 => wrote h (payload b) (eth_bytes D (hwaddr n) ETHTYPE_IP) h1) h tt h1 _ EF).
    apply (fill_eth_wp n (payload b) dest D h (peek h (payload b) 14) h); auto using peek_length, wrote_refl. }
  assert (LE : length (eth_bytes D (hwaddr n) ETHTYPE_IP) = 14%nat).
  { unfold eth_bytes. rewrite !length_app, LD, (proj2 En). reflexivity. }
  pose proof (wrote_peek _ _ _ _ W) as EP. destruct W as [T _]. rewrite LE in EP, T. change (Z.of_nat 14) with 14 in T.
  rewrite !packet_bytes_cons. rewrite (packet_bytes_touched _ _ _ _ _ T C L).
  replace (Z.to_nat (len b)) with (14 + Z.to_nat (len b - 14))%nat by lia. rewrite !peek_app, EP.
  rewrite <- !app_assoc. f_equal. rewrite drop_app_ge by (rewrite peek_length; lia).
  rewrite peek_length, Nat.sub_diag, drop_0. f_equal.
  apply peek_eq. intros c Hc. apply (touched_byte (payload b) 14 h h1 c T). lia.
Qed.

(** Room for a header in front of a packet. *)
Lemma moved_bytes h h' q b l : mem h' = mem h -> fits 16 (len b) -> len b + 14 <= 65535 ->
  drop 14 (packet_bytes h' ((q, moved 14 b) :: l)) = packet_bytes h ((q, b) :: l).
Proof.
  intros E Hf Hl. rewrite (packet_bytes_mem h h' _ E), !packet_bytes_cons. cbn [len payload moved].
  unfold fits in Hf. rewrite wrap_small by (unfold fits; pow2; lia).
  replace (Z.to_nat (len b + 14)) with (14 + Z.to_nat (len b))%nat by lia. rewrite peek_app, <- app_assoc.
  rewrite drop_app_ge by (rewrite peek_length; lia). rewrite peek_length, Nat.sub_diag, drop_0. f_equal. f_equal. lia.
Qed.

End Content.

Section Output.
Context {PF : Platform} {ET : Ether}.

(** ** Packets that go out at once *)

(** Where the packet for [a] goes: [a] itself, or the gateway. *)
Definition next_hop (n : eth_if) (a : Z) : option Z :=
  if ip_addr_netcmp a (eth_ip n) (netmask (eth_net n)) then Some a
  else if eth_gw n =? 0 then None else Some (eth_gw n).

(** The Ethernet address of the next hop, when it is known. *)
Inductive known (n : eth_if) (t : list etharp_entry) (a : Z) : list Z -> Prop :=
| known_broadcast : ip_addr_isbroadcast a (eth_net n) = true -> known n t a ethbroadcast
| known_multicast : ip_addr_isbroadcast a (eth_net n) = false -> ip_addr_ismulticast a = true -> known n t a (mcastaddr a)
| known_host d e : ip_addr_isbroadcast a (eth_net n) = false -> ip_addr_ismulticast a = false ->
    next_hop n a = Some d -> not_unicast n d = false -> e ∈ t -> e_state e = ETHARP_STATE_STABLE -> e_ip e = d ->
    known n t a (e_eth e).

Lemma mcastaddr_bytes b0 b1 b2 b3 : fits 8 b0 -> fits 8 b1 -> fits 8 b2 -> fits 8 b3 ->
  mcastaddr (word32 b0 b1 b2 b3) = [1; 0; 94; b1 mod 128; b2; b3].
Proof.
  intros H0 H1 H2 H3. unfold mcastaddr, ntohl. rewrite htonl_word32 by assumption. unfold fits in *. pow2.
  change 255 with (2 ^ 8 - 1). change 127 with (2 ^ 7 - 1). rewrite !land_ones_mod, !shiftr_div by lia.
  unfold word32. change (2 ^ 16) with 65536. change (2 ^ 8) with 256. change (2 ^ 7) with 128.
  repeat (f_equal; try zmod_lia).
Qed.

Lemma known_length n t a m : table_ok t -> known n t a m -> length m = 6%nat.
Proof.
  intros K [H|H H'|d e _ _ _ _ He _ _]; [reflexivity|reflexivity|].
  apply list_elem_of_lookup in He as [i Hi]. now destruct (entry_at t i e K Hi) as [(_ & _ & L & _) _].
Qed.

(** A packet of the caller, with room for the header in its first pbuf, and
    nothing of it inside that room. *)
Definition ready (h : pstate) (q : Z) (b : pbuf) (l : pchain) : Prop :=
  chain (pbufs h) q ((q, b) :: l) /\ holds_data b /\ q + sizeof_pbuf <= payload b - 14 /\ tot_len b + 14 <= 65535 /\
  clear_of (payload b - 14) 14 l.

(** After [pbuf_header]. *)
Lemma ready_header st q b l F H : own (heap st) F H -> q ∈ H -> ready (heap st) q b l ->
  exists h F0, (F ≡ₚ ((q, b) :: l) :: F0) /\ pbuf_header q 14 (heap st) = Some (0, h) /\
    h = with_pbufs <[q := moved 14 b]> (heap st) /\ own h (((q, moved 14 b) :: l) :: F0) H /\
    fits 16 (len b) /\ len b + 14 <= 65535 /\ len (moved 14 b) = len b + 14 /\ Forall (fun x => 0 <= len x.2) l.
Proof.
  intros O Hq (C & HD & Hr & Ht & _). pose proof (own_chain _ F H q _ O Hq C) as Hl.
  destruct (ow_packet _ _ _ O _ Hl) as (_ & ((HT & _) & HLn & _) & HL & _).
  apply elem_of_Permutation in Hl as [F0 P]. exists (with_pbufs <[q := moved 14 b]> (heap st)), F0. split; [exact P|].
  pose proof (own_perm _ F _ _ _ P (Permutation_refl _) O) as O1.
  assert (Hfl : flags b ∈ [PBUF_FLAG_RAM; PBUF_FLAG_ROM; PBUF_FLAG_POOL; PBUF_FLAG_REF]).
  { rewrite !elem_of_cons. unfold holds_data in HD. tauto. }
  destruct (own_header _ q b l F0 H O1 Ht Hfl) as [[_ N]|(_ & _ & h' & E & -> & O2)]; [specialize (N HD); lia|].
  split; [exact E|]. split; [reflexivity|]. split; [exact O2|].
  inversion_clear HL as [|? ? (_ & _ & Hf) _]. cbn [snd] in Hf. split; [exact Hf|].
  rewrite sum_len_cons in HT. cbn [snd] in HT. inversion_clear HLn as [|? ? _ HLl].
  pose proof (sum_len_nonneg _ HLl) as B. split; [lia|]. split; [|exact HLl].
  unfold moved. cbn [len]. apply wrap_small. unfold fits in *. pow2. lia.
Qed.

(** A frame with the header for [m], in memory and out. *)
Lemma direct_ok n m q b l st F H : ether n -> length m = 6%nat -> own (heap st) F H -> q ∈ H ->
  chain (pbufs (heap st)) q ((q, b) :: l) -> clear_of (payload b) 14 l ->
  exists h', output_direct n m q st =
      Some (link_result n (eth_bytes m (hwaddr n) ETHTYPE_IP ++ drop 14 (packet_bytes (heap st) ((q, b) :: l))),
        mkArp (arp_table st) h' (sent st ++ [(eth_num n, eth_bytes m (hwaddr n) ETHTYPE_IP ++ drop 14 (packet_bytes (heap st) ((q, b) :: l)))])) /\
    own h' F H.
Proof.
  intros En LM O Hq C HC. pose proof (own_chain _ F H q _ O Hq C) as Hl.
  destruct (ow_packet _ _ _ O _ Hl) as (_ & (_ & HLn & _) & _ & Lb).
  apply elem_of_Permutation in Hl as [F0 P]. pose proof (own_perm _ F _ _ _ P (Permutation_refl _) O) as O1.
  assert (Eb : pbufs (heap st) !! q = Some b) by (now destruct C as (_ & _ & ? & _)).
  destruct (fill_eth_runs n (payload b) (octet m) (heap st) (fun _ h1 => touched (payload b) 14 (heap st) h1) En)
    as ([] & h1 & EF & T); [intros k h2 Hk; apply octet_ok; lia|auto|].
  pose proof (touched_own _ _ _ h1 _ _ T O1) as O2.
  assert (FB : packet_bytes h1 ((q, b) :: l) = eth_bytes m (hwaddr n) ETHTYPE_IP ++ drop 14 (packet_bytes (heap st) ((q, b) :: l))).
  { apply (frame_bytes n (octet m) m (heap st)); auto.
    - intros k v h2 Hk _. unfold octet. now rewrite Hk.
    - now inversion_clear HLn. }
  exists h1. split; [|exact (touched_own _ _ _ h1 _ _ T O)]. unfold output_direct.
  rewrite (sm_bind_some _ _ _ _ _ (on_heap_run _ st _ _ (header_of_ok q 14 b _ Eb Lb))).
  erewrite sm_bind_some by (apply on_heap_run; exact EF).
  erewrite linkoutput_ok by (exact O2 || reflexivity). cbn [heap with_heap]. rewrite FB. reflexivity.
Qed.

(** C13: [etharp_output] of a packet whose next hop is known: the packet leaves at
    once, as one frame with the 14 bytes of the Ethernet header in front: the
    address of the next hop, the interface's own, type IP, and then the packet
    unchanged.  The address is all ones for an IP broadcast, [01:00:5e] and the
    low 23 bits for a multicast, and the one in the table for a host of the
    network or, for others, of the gateway; the table does not change. *)
Theorem etharp_output_known n a q b l m st X : ether n -> arp_inv st X -> q ∈ X -> ready (heap st) q b l ->
  known n (arp_table st) a m ->
  let f := eth_bytes m (hwaddr n) ETHTYPE_IP ++ packet_bytes (heap st) ((q, b) :: l) in
  exists h', etharp_output n a q st = Some (link_result n f, mkArp (arp_table st) h' (sent st ++ [(eth_num n, f)])) /\
    arp_inv (mkArp (arp_table st) h' (sent st ++ [(eth_num n, f)])) X /\
    forall b0 b1 b2 b3, fits 8 b0 -> fits 8 b1 -> fits 8 b2 -> fits 8 b3 ->
      mcastaddr (word32 b0 b1 b2 b3) = [1; 0; 94; b1 mod 128; b2; b3].
Proof.
  intros En [K [F O]] Hq R KN f.
  assert (Hq' : q ∈ queued (arp_table st) ++ X) by (apply elem_of_app; auto).
  destruct (ready_header st q b l F _ O Hq' R) as (h & F0 & P & EH & Eh & O1 & Ff & L14 & Elen & HLl).
  destruct R as (C & _ & _ & _ & HC). set (st1 := with_heap h st).
  assert (C1 : chain (pbufs (heap st1)) q ((q, moved 14 b) :: l)).
  { now destruct (ow_packet _ _ _ O1 _ (list_elem_of_here _ _)) as (C1 & _). }
  destruct (direct_ok n m q (moved 14 b) l st1 _ _ En (known_length _ _ _ _ K KN) O1 Hq' C1 HC) as (h' & ED & O2).
  cbn [heap st1 with_heap] in ED. rewrite (moved_bytes (heap st) h) in ED by (rewrite ?Eh; auto). fold f in ED.
  exists h'. split; [|split; [split; [exact K|eauto]|apply mcastaddr_bytes]].
  unfold etharp_output. erewrite sm_bind_some by (apply on_heap_run; exact EH). cbn [Z.eqb negb]. fold st1.
  destruct KN as [HB|HB HM|d e HB HM ND NU He Hs Hd]; [rewrite HB; exact ED|rewrite HB, HM; exact ED|].
  rewrite HB, HM.
  assert (QRY : etharp_query n d q st1 = Some (link_result n f, mkArp (arp_table st) h' (sent st ++ [(eth_num n, f)]))).
  { assert (Le : is_live e = true) by (unfold is_live; now rewrite Hs).
    destruct (find_known st1 d X _ e K O1 He Le Hd) as (i & Hi & EF). unfold etharp_query.
    unfold not_unicast in NU. apply orb_false_iff in NU as [NU HM']. apply orb_false_iff in NU as [HA' HB'].
    rewrite HA', HB', HM'. cbn [orb]. rewrite (sm_bind_some _ _ _ _ _ EF). rewrite index_ok.
    rewrite (sm_bind_some _ _ _ _ _ (entry_run i st1 e Hi)). rewrite Hs, bool_decide_false by discriminate.
    unfold sm_bind at 1, sm_ret at 1. rewrite (sm_bind_some _ _ _ _ _ (entry_run i st1 e Hi)).
    rewrite Hs, bool_decide_false by discriminate. cbn [orb].
    assert (Hq0 : q <> 0) by (now destruct C as (_ & ? & _)). replace (q =? 0) with false by lia.
    unfold sm_bind at 1, sm_ret at 1. cbn [negb]. unfold query_packet.
    rewrite (sm_bind_some _ _ _ _ _ (entry_run i st1 e Hi)). rewrite Hs. exact ED. }
  unfold next_hop in ND. destruct (ip_addr_netcmp _ _ _); cbn [negb].
  - now injection ND as ->.
  - destruct (eth_gw n =? 0); cbn [negb]; [discriminate|]. now injection ND as ->.
Qed.

End Output.

(** ** Resolution *)

Section Resolution.
Context {PF : Platform} {ET : Ether} {ML : MallocLaw}.

(** The request of [n] for [d], and the reply of the machine [mac] at [ip] to
    [tha] at [tip]. *)
Definition request_frame (n : eth_if) (d : Z) : list Z :=
  arp_bytes ethbroadcast (hwaddr n) ARP_REQUEST (hwaddr n) (eth_ip n) zeros6 d.
Definition reply_frame (mac : list Z) (ip : Z) (tha : list Z) (tip : Z) : list Z :=
  arp_bytes tha mac ARP_REPLY mac ip tha tip.

Definition bytes_ok (h : pstate) : Prop := forall c, fits 8 (byte_at h c).

Lemma peek_bytes h a n : bytes_ok h -> Forall (fits 8) (peek h a n).
Proof. intros B. unfold peek. apply Forall_map, Forall_true. intros k. apply B. Qed.

(** A packet for a next hop that has no entry: a request goes out, and the packet
    waits in a new entry. *)
Lemma output_unknown n a d q b l st X p : ether n -> arp_inv st X -> q ∈ X -> ready (heap st) q b l ->
  no_ref ((q, b) :: l) -> ref b < 65535 -> bytes_ok (heap st) ->
  ip_addr_isbroadcast a (eth_net n) = false -> ip_addr_ismulticast a = false -> next_hop n a = Some d ->
  not_unicast n d = false -> (forall e, e ∈ arp_table st -> is_live e = true -> e_ip e <> d) ->
  (exists e, e ∈ arp_table st /\ rank e < 3) ->
  malloc_addr (blocks (heap st)) 72 = Some p -> clear_of p 72 ((q, moved 14 b) :: l) ->
  exists i m h' b', etharp_output n a q st = Some (ERR_OK,
      mkArp (<[i := mkEntry q d m ETHARP_STATE_PENDING 0]> (arp_table st)) h' (sent st ++ [(eth_num n, request_frame n d)])) /\
    (i < 10)%nat /\ arp_inv (mkArp (<[i := mkEntry q d m ETHARP_STATE_PENDING 0]> (arp_table st)) h' (sent st ++ [(eth_num n, request_frame n d)])) X /\
    chain (pbufs h') q ((q, b') :: l) /\ payload b' = payload b - 14 /\ len b' = len b + 14 /\
    drop 14 (packet_bytes h' ((q, b') :: l)) = packet_bytes (heap st) ((q, b) :: l).
Proof.
  intros En [K [F O]] Hq R NR Hr HB EB EM ND NU NL RK EA CP.
  assert (Hq' : q ∈ queued (arp_table st) ++ X) by (apply elem_of_app; auto).
  destruct (ready_header st q b l F _ O Hq' R) as (h & F0 & P & EH & Eh & O1 & Ff & L14 & Elen & HLl).
  set (b1 := moved 14 b) in *. set (st1 := with_heap h st). set (F1 := ((q, b1) :: l) :: F0) in *.
  assert (Hq0 : q <> 0) by (destruct R as (C & _); now destruct C as (_ & ? & _)).
  destruct (find_entry_ok st1 d ETHARP_TRY_HARD X F1 K O1) as (r & t1 & h1 & F2 & EF & FD & O2 & Em & _ & Eh1).
  destruct (Eh1 (or_intror RK)) as [-> ->]. cbn [arp_table heap sent st1 with_heap] in *.
  pose proof FD as FD0.
  destruct FD as [(i & e & -> & Hi & Le & Ed & _)|(_ & [(_ & _ & E & _)|(i & e & -> & Hi & _ & _ & Et)])];
    [exfalso; apply (NL e); auto; apply list_elem_of_lookup; eauto|discriminate|].
  destruct (entry_at _ i e K Hi) as [(_ & _ & Lm & _) Hi10].
  set (e1 := mkEntry 0 d (e_eth e) ETHARP_STATE_EMPTY 0) in *.
  assert (H1 : t1 !! i = Some e1) by (rewrite Et; eapply lookup_set; exact Hi).
  set (e2 := mkEntry 0 d (e_eth e) ETHARP_STATE_PENDING 0). set (t2 := <[i := e2]> t1).
  assert (H2 : t2 !! i = Some e2) by (eapply lookup_set; exact H1).
  assert (O3 : own h F1 (queued t2 ++ X)).
  { eapply own_perm; [reflexivity| |exact O2]. f_equiv. symmetry. now apply (queued_same t1 i e1 e2). }
  destruct (request_run n d (mkArp t2 h (sent st)) F1 _ En O3) as [[EN _]|(p' & h2 & h3 & h4 & Ep & E2 & T & ER & E4 & O4 & EQ)].
  { cbn in EN. rewrite Eh in EN. cbn in EN. congruence. }
  cbn [heap arp_table sent] in *. assert (p' = p) as -> by (rewrite Eh in Ep; cbn in Ep; congruence). clear Ep.
  assert (Emh : mem h = mem (heap st)) by now rewrite Eh.
  assert (FR : peek h3 (p + 30) 42 = request_frame n d).
  { refine (wp_det (make_request n d (p + 30)) (fun _ h3 => peek h3 (p + 30) 42 = request_frame n d) h2 tt h3 _ ER).
    apply (make_request_wp n d (p + 30) h2 (peek h2 (p + 30) 42) h2); auto using peek_length, wrote_refl.
    - apply peek_bytes. intros c. unfold byte_at. rewrite E2, Emh. apply HB.
    - intros h5 W5. pose proof (wrote_peek _ _ _ _ W5) as E5. destruct En as [E6 LH].
      replace (length _) with 42%nat in E5; [exact E5|]. unfold arp_bytes, eth_bytes. rewrite !length_app, LH. reflexivity. }
  rewrite FR in EQ. set (fr := request_frame n d) in *.
  destruct (own_ref h4 q b1 l F0 _ O4 Hr) as (h5 & E5 & Eh5 & O5).
  set (b' := set_ref (ref b1 + 1) b1) in *.
  destruct (queued_insert t2 i e2 (set_p q e2) H2) as (rest & Q1 & Q2).
  assert (TT : <[i := set_p q e2]> t2 = <[i := mkEntry q d (e_eth e) ETHARP_STATE_PENDING 0]> (arp_table st)).
  { unfold t2. rewrite Et, !list_insert_insert_eq. reflexivity. }
  exists i, (e_eth e), h5, b'. split; [|split; [exact Hi10|split; [|split; [|split; [reflexivity|split; [exact Elen|]]]]]].
  - unfold etharp_output. erewrite sm_bind_some by (apply on_heap_run; exact EH). cbn [Z.eqb negb]. fold st1. rewrite EB, EM.
    assert (QRY : etharp_query n d q st1 = Some (ERR_OK, mkArp (<[i := mkEntry q d (e_eth e) ETHARP_STATE_PENDING 0]> (arp_table st)) h5 (sent st ++ [(eth_num n, fr)]))).
    { unfold etharp_query. unfold not_unicast in NU. apply orb_false_iff in NU as [NU HM']. apply orb_false_iff in NU as [HA' HB'].
      rewrite HA', HB', HM'. cbn [orb]. rewrite (sm_bind_some _ _ _ _ _ EF). rewrite index_ok.
      set (s1 := mkArp t1 h (sent st)). rewrite (sm_bind_some _ _ _ _ _ (entry_run i s1 e1 H1)).
      rewrite (bool_decide_true _ eq_refl). rewrite (sm_bind_some _ _ _ _ _ (set_entry_run i _ s1 e1 H1)).
      change (with_table _ s1) with (mkArp t2 h (sent st)). set (s2 := mkArp t2 h (sent st)) in *.
      rewrite (sm_bind_some _ _ _ _ _ (entry_run i s2 e2 H2)). rewrite (bool_decide_true _ eq_refl). cbn [orb].
      rewrite (sm_bind_some _ _ _ _ _ EQ). replace (q =? 0) with false by lia. cbn [negb]. unfold query_packet.
      set (s3 := mkArp t2 h4 _). rewrite (sm_bind_some _ _ _ _ _ (entry_run i s3 e2 H2)). cbn [e_state e2].
      erewrite sm_bind_some by (apply on_heap_run; eapply own_take; [exact O4|reflexivity|]; inversion_clear NR; constructor; assumption).
      replace (q =? 0) with false by lia. cbn [negb]. cbn [e_p e2 Z.eqb]. unfold sm_bind at 1.
      erewrite sm_bind_some by (apply on_heap_run; exact E5). erewrite set_entry_run by exact H2.
      unfold s3, with_table, with_heap, sm_ret. cbn [arp_table heap sent]. now rewrite TT. }
    unfold next_hop in ND. destruct (ip_addr_netcmp _ _ _); cbn [negb].
    + now injection ND as ->.
    + destruct (eth_gw n =? 0); cbn [negb]; [discriminate|]. now injection ND as ->.
  - split; cbn [arp_table heap].
    + rewrite <- TT. unfold t2. rewrite list_insert_insert_eq.
      apply (found_table (arp_table st) d ETHARP_TRY_HARD i t1 _ K FD0); [|reflexivity].
      pose proof (not_unicast_host n d NU) as HA. unfold entry_ok, age_ok, ARP_MAXPENDING. cbn. repeat split; auto; try lia; apply HA.
    + eexists. eapply own_perm; [reflexivity| |exact O5]. rewrite <- TT, Q2, Q1. unfold queue_of. cbn [e_p set_p e2 Z.eqb].
      replace (q =? 0) with false by lia. reflexivity.
  - destruct (ow_packet _ _ _ O5 _ (list_elem_of_here _ _)) as (C & _). exact C.
  - rewrite <- (moved_bytes (heap st) (heap st) q b l eq_refl Ff L14). fold b1. f_equal.
    change (packet_bytes h5 ((q, b') :: l)) with (packet_bytes h5 ((q, b1) :: l)).
    rewrite Eh5. change (packet_bytes (with_pbufs _ h4)) with (packet_bytes h4).
    rewrite (packet_bytes_mem h3 h4 _ E4). rewrite (packet_bytes_touched (p + 30) 42 h2 h3 _ T).
    + apply packet_bytes_mem. now rewrite E2.
    + eapply Forall_impl; [exact CP|]. intros x. cbn. lia.
    + constructor; [cbn [snd]; unfold fits in Ff; lia|exact HLl].
Qed.

(** *** Reading a message *)

(** There is an ARP message at [hdr]: operation, sender, whom it is for. *)
Definition message (h : pstate) (hdr op : Z) (sha : list Z) (sip tip : Z) : Prop :=
  exists dst src tha, peek h hdr 42 = arp_bytes dst src op sha sip tha tip /\
    length dst = 6%nat /\ length src = 6%nat /\ length tha = 6%nat /\ length sha = 6%nat /\
    fits 16 op /\ fits 32 sip /\ fits 32 tip.

Lemma message_read h hdr op sha sip tip : message h hdr op sha sip tip ->
  ld32 (hdr + 28) h = Some (sip, h) /\ ld32 (hdr + 38) h = Some (tip, h) /\ ld16 (hdr + 20) h = Some (htons op, h) /\
  peek h (hdr + 22) 6 = sha.
Proof.
  intros (dst & src & tha & E & LD & LS & LT & LA & F1 & F2 & F3). pose proof (wrote_refl h hdr 42) as W. rewrite E in W.
  assert (EO : Z.land (htons op) 255 + 256 * Z.shiftr (htons op) 8 = htons op) by (now apply word_bytes, htons_fits).
  destruct (word32_split sip F2) as (i0 & i1 & i2 & i3 & -> & I0 & I1 & I2 & I3).
  destruct (word32_split tip F3) as (j0 & j1 & j2 & j3 & -> & J0 & J1 & J2 & J3).
  unfold arp_bytes in W, E. rewrite !bytes32_word32 in W, E by assumption. set (o := htons op) in *.
  destruct (list6 _ LD) as (? & ? & ? & ? & ? & ? & ->). destruct (list6 _ LS) as (? & ? & ? & ? & ? & ? & ->).
  destruct (list6 _ LT) as (? & ? & ? & ? & ? & ? & ->). destruct (list6 _ LA) as (a0 & a1 & a2 & a3 & a4 & a5 & ->).
  unfold eth_bytes, bytes16 in W, E. cbn [app] in W, E.
  assert (RD : forall T (m : M T) v, wp m (fun x h' => x = v /\ h' = h) h -> m h = Some (v, h)).
  { intros T m v (v' & h' & Em & -> & ->). exact Em. }
  split; [|split; [|split]].
  - apply RD. repeat wstep. auto.
  - apply RD. repeat wstep. auto.
  - apply RD. repeat wstep. auto.
  - destruct W as [_ W]. unfold peek. cbn [seq map].
    assert (Wb : forall k v, byte_at h (hdr + Z.of_nat (22 + k)) = v -> byte_at h (hdr + 22 + Z.of_nat k) = v).
    { intros k v <-. f_equal. lia. }
    rewrite (Wb 0%nat a0), (Wb 1%nat a1), (Wb 2%nat a2), (Wb 3%nat a3), (Wb 4%nat a4), (Wb 5%nat a5);
      [reflexivity|apply W; reflexivity..].
Qed.

(** *** The calls of [etharp_arp_input] *)

(** The head of a chain keeps its place when references are given up. *)
Lemma fewer_head h F H h' F' H' r b : own h F H -> own h' F' H' -> fewer F F' -> r ∈ H -> r ∈ H' ->
  pbufs h !! r = Some b -> exists b' l, ((r, b') :: l) ∈ F' /\ payload b' = payload b /\ len b' = len b.
Proof.
  intros O O' HF Hr Hr' Eb. destruct (own_pick _ _ _ r O Hr) as (a & c & l & F0 & P & _ & -> & _ & Ec & _).
  rewrite Eb in Ec. injection Ec as <-.
  assert (Hl : ((r, b) :: l) ∈ F) by (rewrite P; apply list_elem_of_here).
  destruct (ow_held _ _ _ O' r Hr') as (m & Hm & E). destruct (HF m Hm) as (k & Hk & [->|Hu]).
  - assert (k = (r, b) :: l) as -> by (apply (own_unique h F H); auto). eauto.
  - assert (k = (r, b) :: l) as ->.
    { apply (own_unique h F H); auto. rewrite <- E. destruct k as [|[d c] k]; [now apply elem_of_nil in Hu|].
      cbn in Hu. destruct (ref c =? 1); [now apply elem_of_nil in Hu|]. apply list_elem_of_singleton in Hu as ->. reflexivity. }
    cbn in Hu. destruct (ref b =? 1); [now apply elem_of_nil in Hu|]. apply list_elem_of_singleton in Hu as ->. eauto.
Qed.

(** A message for us: the table is updated, then the message acted on. *)
Lemma arp_input_ours n mac r b st op sha sip st1 : pbufs (heap st) !! r = Some b -> 42 <= len b -> 42 <= tot_len b ->
  message (heap st) (payload b) op sha sip (eth_ip n) -> eth_ip n <> 0 ->
  update_arp_entry n sip (payload b + 22) ETHARP_TRY_HARD st = Some (ERR_OK, st1) ->
  ld16 (payload b + 20) (heap st1) = Some (htons op, heap st1) -> fits 16 op ->
  etharp_arp_input n mac r st =
    ((if op =? ARP_REQUEST then on_heap (make_reply n mac (payload b)) ;; linkoutput n r ;; sm_ret tt else sm_ret tt) ;;
     on_heap (pbuf_free r) ;; sm_ret tt) st1.
Proof.
  intros Eb Lb Tb MS Hn EU EO Fo. destruct (message_read _ _ _ _ _ _ MS) as (R1 & R2 & _).
  unfold etharp_arp_input. assert (Est : forall s, with_heap (heap s) s = s) by now intros [].
  rewrite (sm_bind_some _ _ _ _ _ (on_heap_run _ st _ _ (load_ok r b _ Eb))), Est.
  unfold sizeof_etharp_hdr. replace (tot_len b <? 42) with false by lia.
  rewrite (sm_bind_some _ _ _ _ _ (on_heap_run _ st _ _ (header_of_ok r 42 b _ Eb Lb))), Est.
  rewrite (sm_bind_some _ _ _ _ _ (on_heap_run _ st _ _ R1)), Est.
  rewrite (sm_bind_some _ _ _ _ _ (on_heap_run _ st _ _ R2)), Est. cbv zeta.
  replace (eth_ip n =? 0) with false by lia. rewrite Z.eqb_refl. rewrite (sm_bind_some _ _ _ _ _ EU).
  rewrite (sm_bind_some _ _ _ _ _ (on_heap_run _ st1 _ _ EO)), Est. now rewrite htons_htons.
Qed.

Lemma head_tot h F H r b l : own h F H -> ((r, b) :: l) ∈ F -> len b <= tot_len b.
Proof.
  intros O Hl. destruct (ow_packet _ _ _ O _ Hl) as (_ & ((HT & _) & HL & _) & _).
  rewrite sum_len_cons in HT. cbn [snd] in HT. inversion_clear HL as [|? ? _ HL']. pose proof (sum_len_nonneg _ HL'). lia.
Qed.

(** A request for us is answered, and its sender is known afterwards. *)
Lemma answer_ok n mac r b st X sha sip : ether n -> length mac = 6%nat -> arp_inv st (r :: X) ->
  pbufs (heap st) !! r = Some b -> 42 <= len b -> message (heap st) (payload b) ARP_REQUEST sha sip (eth_ip n) ->
  eth_ip n <> 0 -> not_unicast n sip = false ->
  (forall e, e ∈ arp_table st -> e_ip e = sip -> e_p e = 0) ->
  exists st' i rest, etharp_arp_input n mac r st = Some (tt, st') /\ arp_inv st' X /\
    arp_table st' !! i = Some (mkEntry 0 sip sha ETHARP_STATE_STABLE 0) /\
    sent st' = sent st ++ [(eth_num n, reply_frame mac (eth_ip n) sha sip ++ rest)].
Proof.
  intros En LM [K [F O]] Eb Lb MS Hn NU NQ.
  assert (Hr : r ∈ queued (arp_table st) ++ r :: X) by (apply elem_of_app; right; apply list_elem_of_here).
  destruct (message_read _ _ _ _ _ _ MS) as (_ & _ & RO & RS).
  destruct (find_entry_ok st sip ETHARP_TRY_HARD (r :: X) F K O) as (k & t1 & h1 & F1 & EF & FD & O1 & Em & HF & _).
  assert (exists i, k = Z.of_nat i) as [i ->].
  { destruct FD as [(i & e & -> & _)|(_ & [(_ & _ & E & _)|(i & e & -> & _)])]; [eauto|discriminate|eauto]. }
  destruct (found_entry _ sip _ i t1 K FD) as (e & Hi & Ea & Ll & _ & _ & _ & Hc).
  assert (Ep : e_p e = 0).
  { destruct Hc as [[_ ->]|[Ep _]]; [|exact Ep]. apply NQ; [|exact Ea]. apply list_elem_of_lookup. eauto. }
  pose proof (update_run n sip (payload b + 22) ETHARP_TRY_HARD st i t1 h1 e En NU EF Hi Ll) as EU.
  rewrite Ep, Ea, (peek_mem _ _ _ _ Em), RS in EU. set (e1 := mkEntry 0 sip sha ETHARP_STATE_STABLE 0) in *.
  set (st1 := mkArp (<[i := e1]> t1) h1 (sent st)) in *.
  assert (H1 : arp_table st1 !! i = Some e1) by (cbn; eapply lookup_set; exact Hi).
  assert (EU' : update_arp_entry n sip (payload b + 22) ETHARP_TRY_HARD st = Some (ERR_OK, st1)).
  { rewrite EU. unfold heap_fuel. cbn [send_queue]. unfold sm_bind at 1. rewrite (sm_bind_some _ _ _ _ _ (entry_run i st1 e1 H1)). reflexivity. }
  assert (Q1 : own (heap st1) F1 (queued (arp_table st1) ++ r :: X)).
  { eapply own_perm; [reflexivity| |exact O1]. f_equiv. symmetry. apply (queued_same t1 i e); [exact Hi|now rewrite Ep]. }
  assert (K1 : table_ok (arp_table st1)).
  { apply (found_table (arp_table st) sip ETHARP_TRY_HARD i t1 _ K FD); [|reflexivity].
    apply stable_ok; [now apply (not_unicast_host n)|]. rewrite <- RS. apply peek_length. }
  assert (Hr1 : r ∈ queued (arp_table st1) ++ r :: X) by (apply elem_of_app; right; apply list_elem_of_here).
  destruct (reply_ok n mac r (payload b) st1 F1 _ (proj1 En) LM Q1 Hr1) as (h2 & b1 & l & F0 & P & ER & T & O2 & EA).
  destruct (fewer_head _ _ _ _ _ _ r b O Q1 HF Hr Hr1 Eb) as (b2 & l2 & Hl2 & Epl & Eln).
  assert (E12 : (r, b2) :: l2 = (r, b1) :: l).
  { apply (own_unique _ _ _ _ _ Q1 Hl2); [rewrite P; apply list_elem_of_here|reflexivity]. }
  injection E12 as -> ->.
  assert (MB : peek (heap st1) (payload b) 42 = peek (heap st) (payload b) 42) by now apply peek_mem.
  assert (FRM : peek h2 (payload b) 42 = reply_frame mac (eth_ip n) sha sip).
  { destruct MS as (dst & src & tha & E & LD & LS & LT & LA & _ & Fs & _).
    refine (wp_det (make_reply n mac (payload b)) (fun _ h => peek h (payload b) 42 = reply_frame mac (eth_ip n) sha sip) (heap st1) tt h2 _ ER).
    apply (make_reply_wp n mac (payload b) (heap st1) (peek (heap st1) (payload b) 42) (heap st1) dst src
      (Z.land (htons ETHTYPE_ARP) 255) (Z.shiftr (htons ETHTYPE_ARP) 8) (Z.land (htons HWTYPE_ETHERNET) 255)
      (Z.shiftr (htons HWTYPE_ETHERNET) 8) (Z.land (htons ETHTYPE_IP) 255) (Z.shiftr (htons ETHTYPE_IP) 8) 6 4
      (Z.land (htons ARP_REQUEST) 255) (Z.shiftr (htons ARP_REQUEST) 8) sha sip tha (eth_ip n)); auto using wrote_refl.
    - apply En.
    - split; [discriminate|reflexivity].
    - split; [discriminate|reflexivity].
    - rewrite MB, E. unfold arp_bytes, eth_bytes, bytes16. now rewrite <- !app_assoc.
    - intros h W. pose proof (wrote_peek _ _ _ _ W) as EW. replace (length _) with 42%nat in EW; [exact EW|].
      unfold arp_bytes, eth_bytes. rewrite !length_app, LM, LA. reflexivity. }
  assert (Tb : 42 <= tot_len b).
  { destruct (own_pick _ _ _ r O Hr) as (a & c & l3 & F3 & P3 & _ & -> & _ & Ec & _). rewrite Eb in Ec. injection Ec as <-.
    assert (B : len b <= tot_len b); [|lia]. apply (head_tot (heap st) F _ r b l3 O). rewrite P3. apply list_elem_of_here. }
  destruct (drop_holder (mkArp (arp_table st1) h2 (sent st ++ [(eth_num n, packet_bytes h2 ((r, b1) :: l))])) F1 r X O2) as (m & h3 & F3 & EFr & _ & O3).
  eexists (mkArp (arp_table st1) h3 _), i, _. split; [|split; [split; [exact K1|eauto]|split; [exact H1|]]].
  - rewrite (arp_input_ours n mac r b st ARP_REQUEST sha sip st1 Eb Lb Tb MS Hn EU').
    + rewrite Z.eqb_refl. rewrite (sm_bind_some _ _ _ _ _ EA).
      erewrite sm_bind_some by (apply on_heap_run; exact EFr). reflexivity.
    + destruct (message_read (heap st1) (payload b) ARP_REQUEST sha sip (eth_ip n)) as (_ & _ & R & _); [|exact R].
      destruct MS as (dst & src & tha & E & MS). exists dst, src, tha. split; [now rewrite MB|exact MS].
    + split; [discriminate|reflexivity].
  - cbn [sent]. rewrite packet_bytes_cons, Epl, Eln.
    replace (Z.to_nat (len b)) with (42 + Z.to_nat (len b - 42))%nat by lia. rewrite peek_app, FRM, <- app_assoc. reflexivity.
Qed.

(** A reply to us, when a packet waits for it. *)
Lemma learn_ok n mac r b st X sha sip i e bq l : ether n -> arp_inv st (r :: X) ->
  pbufs (heap st) !! r = Some b -> 42 <= len b -> message (heap st) (payload b) ARP_REPLY sha sip (eth_ip n) ->
  eth_ip n <> 0 -> not_unicast n sip = false ->
  arp_table st !! i = Some e -> e_state e = ETHARP_STATE_PENDING -> e_ip e = sip -> e_p e <> 0 ->
  chain (pbufs (heap st)) (e_p e) ((e_p e, bq) :: l) -> clear_of (payload bq) 14 l ->
  payload b + 42 <= payload bq \/ payload bq + 14 <= payload b ->
  exists st', etharp_arp_input n mac r st = Some (tt, st') /\ arp_inv st' X /\
    arp_table st' = <[i := mkEntry 0 sip sha ETHARP_STATE_STABLE 0]> (arp_table st) /\
    sent st' = sent st ++ [(eth_num n, eth_bytes sha (hwaddr n) ETHTYPE_IP ++ drop 14 (packet_bytes (heap st) ((e_p e, bq) :: l)))].
Proof.
  intros En [K [F O]] Eb Lb MS Hn NU Hi Hs Ea Hp C HC HA.
  assert (Hr : r ∈ queued (arp_table st) ++ r :: X) by (apply elem_of_app; right; apply list_elem_of_here).
  destruct (message_read _ _ _ _ _ _ MS) as (_ & _ & RO & RS).
  assert (Le : is_live e = true) by (unfold is_live; now rewrite Hs).
  destruct (find_known st sip (r :: X) F e K O) as (j & Hj & EF); [apply list_elem_of_lookup; eauto|exact Le|exact Ea|].
  assert (j = i) as -> by (apply (to_distinct _ K j i e e); auto).
  assert (EF1 : find_entry (Some sip) ETHARP_TRY_HARD st = Some (Z.of_nat i, mkArp (arp_table st) (heap st) (sent st))) by (rewrite EF; now destruct st).
  destruct (entry_at _ i e K Hi) as [(_ & _ & Ll & _) _].
  pose proof (update_run n sip (payload b + 22) ETHARP_TRY_HARD st i _ _ e En NU EF1 Hi Ll) as EU.
  rewrite RS in EU. set (e1 := mkEntry (e_p e) (e_ip e) sha ETHARP_STATE_STABLE 0) in *.
  set (s1 := mkArp (<[i := e1]> (arp_table st)) (heap st) (sent st)) in *.
  assert (H1 : arp_table s1 !! i = Some e1) by (cbn; eapply lookup_set; exact Hi).
  assert (O1 : own (heap s1) F (queued (arp_table s1) ++ r :: X)).
  { eapply own_perm; [reflexivity| |exact O]. f_equiv. symmetry. now apply (queued_same _ i e). }
  destruct (send_queue_ok s1 i e1 n (payload b + 22) F (r :: X) (size (pbufs (heap st))) En H1 Hp O1)
    as (c & m & F0 & h1 & h2 & P & Ec & EFl & T & ES & E2 & O2).
  cbn [e_p e1 heap s1 arp_table sent] in *.
  assert (E12 : (e_p e, c) :: m = (e_p e, bq) :: l).
  { apply (own_unique _ _ _ _ _ O); [rewrite P; apply list_elem_of_here| |reflexivity].
    apply (own_chain _ F _ (e_p e) _ O); [|exact C]. apply elem_of_app. left.
    destruct (queued_insert _ i e e Hi) as (rest & Q & _). rewrite Q. unfold queue_of.
    replace (e_p e =? 0) with false by lia. apply list_elem_of_here. }
  injection E12 as -> ->.
  assert (Hl : ((e_p e, bq) :: l) ∈ F) by (rewrite P; apply list_elem_of_here).
  destruct (ow_packet _ _ _ O _ Hl) as (_ & (_ & HL & _) & _ & Lq).
  assert (LS : length sha = 6%nat) by (rewrite <- RS; apply peek_length).
  assert (FB : packet_bytes h1 ((e_p e, bq) :: l) = eth_bytes sha (hwaddr n) ETHTYPE_IP ++ drop 14 (packet_bytes (heap st) ((e_p e, bq) :: l))).
  { apply (frame_bytes n (fun k => ld8 (payload b + 22 + Z.of_nat k)) sha (heap st)); auto.
    - intros k v h3 Hk Th. unfold ld8. do 2 f_equal. pose proof Hk as Lk%lookup_lt_Some.
      rewrite (touched_byte _ _ _ _ _ Th) by lia. rewrite <- RS, peek_lookup in Hk by lia. congruence.
    - now inversion_clear HL. }
  set (tab := <[i := mkEntry 0 sip sha ETHARP_STATE_STABLE 0]> (arp_table st)).
  assert (TT : <[i := set_p 0 e1]> (<[i := e1]> (arp_table st)) = tab) by (unfold tab; rewrite list_insert_insert_eq; unfold set_p, e1; cbn; now rewrite Ea).
  rewrite TT, FB in *. set (out := sent st ++ [_]) in *. set (st1 := mkArp tab h2 out).
  assert (EU' : update_arp_entry n sip (payload b + 22) ETHARP_TRY_HARD st = Some (ERR_OK, st1)).
  { rewrite EU. unfold heap_fuel. now rewrite (sm_bind_some _ _ _ _ _ ES). }
  assert (MB : peek (heap st1) (payload b) 42 = peek (heap st) (payload b) 42).
  { cbn [heap st1]. rewrite (peek_mem h1 h2 _ _ E2). apply peek_eq. intros a Hb. apply (touched_byte _ _ _ _ _ T). lia. }
  assert (Tb : 42 <= tot_len b).
  { destruct (own_pick _ _ _ r O Hr) as (a & d & l3 & F3 & P3 & _ & -> & _ & Ed & _). rewrite Eb in Ed. injection Ed as <-.
    assert (B : len b <= tot_len b); [|lia]. apply (head_tot (heap st) F _ r b l3 O). rewrite P3. apply list_elem_of_here. }
  destruct (drop_holder st1 _ r X O2) as (k & h3 & F3 & EFr & _ & O3).
  exists (mkArp tab h3 out). split; [|split; [split; [|eauto]|split; reflexivity]].
  - rewrite (arp_input_ours n mac r b st ARP_REPLY sha sip st1 Eb Lb Tb MS Hn EU').
    + change (ARP_REPLY =? ARP_REQUEST) with false. cbv iota. unfold sm_bind at 1, sm_ret at 1.
      erewrite sm_bind_some by (apply on_heap_run; exact EFr). reflexivity.
    + destruct (message_read (heap st1) (payload b) ARP_REPLY sha sip (eth_ip n)) as (_ & _ & R & _); [|exact R].
      destruct MS as (dst & src & tha & E & MS). exists dst, src, tha. split; [now rewrite MB|exact MS].
    + split; [discriminate|reflexivity].
  - cbn [arp_table]. apply (table_update _ i e); auto.
    + apply stable_ok; [now apply (not_unicast_host n)|exact LS].
Qed.

(** *** The exchange *)

(** A pbuf that was given the bytes of a frame by the driver. *)
Definition received (h : pstate) (r : Z) (b : pbuf) (f : list Z) : Prop :=
  pbufs h !! r = Some b /\ 42 <= len b /\ peek h (payload b) 42 = f.

(** C6: two hosts [na], [nb] of a network, of which [na] does not know the
    other.  [etharp_output] of a packet for [nb] returns [ERR_OK], broadcasts one
    request, and the packet waits.  The request, received by [nb], makes it know
    [na], and one frame goes back, which begins with the reply (and may have
    padding behind it).  The reply, received by [na] after anything else has
    happened there that left the waiting packet alone, makes one frame: the
    packet that waited, unchanged, behind an Ethernet header from [na] to [nb];
    [na] then knows [nb], and does not hold the packet any more.  No step faults. *)
Theorem etharp_resolves na nb q b l st X p :
  ether na -> ether nb -> eth_ip na <> 0 -> eth_ip nb <> 0 -> fits 32 (eth_ip na) -> fits 32 (eth_ip nb) ->
  not_unicast na (eth_ip nb) = false -> not_unicast nb (eth_ip na) = false ->
  ip_addr_netcmp (eth_ip nb) (eth_ip na) (netmask (eth_net na)) = true ->
  (* the sender: a packet with room for the header, a free entry, memory *)
  arp_inv st X -> q ∈ X -> ready (heap st) q b l -> no_ref ((q, b) :: l) -> ref b < 65535 -> bytes_ok (heap st) ->
  (forall e, e ∈ arp_table st -> is_live e = true -> e_ip e <> eth_ip nb) ->
  (exists e, e ∈ arp_table st /\ rank e < 3) ->
  malloc_addr (blocks (heap st)) 72 = Some p -> clear_of p 72 ((q, moved 14 b) :: l) ->
  exists st1 b1 i, etharp_output na (eth_ip nb) q st = Some (ERR_OK, st1) /\ arp_inv st1 X /\
    sent st1 = sent st ++ [(eth_num na, request_frame na (eth_ip nb))] /\
    chain (pbufs (heap st1)) q ((q, b1) :: l) /\ (exists e, arp_table st1 !! i = Some e /\ e_p e = q) /\
    (* the peer *)
    forall sb Xb r br, arp_inv sb (r :: Xb) -> received (heap sb) r br (request_frame na (eth_ip nb)) ->
    (forall e, e ∈ arp_table sb -> e_ip e = eth_ip na -> e_p e = 0) ->
    exists sb1 j rest, etharp_arp_input nb (hwaddr nb) r sb = Some (tt, sb1) /\ arp_inv sb1 Xb /\
      arp_table sb1 !! j = Some (mkEntry 0 (eth_ip na) (hwaddr na) ETHARP_STATE_STABLE 0) /\
      sent sb1 = sent sb ++ [(eth_num nb, reply_frame (hwaddr nb) (eth_ip nb) (hwaddr na) (eth_ip na) ++ rest)] /\
      (* the sender again *)
      forall st2 X2 r2 b2 bq, arp_inv st2 (r2 :: X2) -> arp_table st2 !! i = arp_table st1 !! i ->
      received (heap st2) r2 b2 (reply_frame (hwaddr nb) (eth_ip nb) (hwaddr na) (eth_ip na)) ->
      chain (pbufs (heap st2)) q ((q, bq) :: l) -> payload bq = payload b1 ->
      packet_bytes (heap st2) ((q, bq) :: l) = packet_bytes (heap st1) ((q, b1) :: l) ->
      payload b2 + 42 <= payload bq \/ payload bq + 14 <= payload b2 ->
      exists st3, etharp_arp_input na (hwaddr na) r2 st2 = Some (tt, st3) /\ arp_inv st3 X2 /\
        arp_table st3 !! i = Some (mkEntry 0 (eth_ip nb) (hwaddr nb) ETHARP_STATE_STABLE 0) /\
        sent st3 = sent st2 ++ [(eth_num na, eth_bytes (hwaddr nb) (hwaddr na) ETHTYPE_IP ++ packet_bytes (heap st) ((q, b) :: l))].
Proof.
  intros Ena Enb Ha Hb Fa Fb NUa NUb NET I Hq R NR Hr HB NL RK EA CP.
  pose proof NUa as NU. unfold not_unicast in NU. apply orb_false_iff in NU as [NU HM]. apply orb_false_iff in NU as [_ HBc].
  destruct (output_unknown na (eth_ip nb) (eth_ip nb) q b l st X p) as (i & m & h' & b1 & E & Hi & I1 & C1 & Ep1 & El1 & EB1); auto.
  { unfold next_hop. now rewrite NET. }
  pose proof I as [K _]. pose proof I1 as [K1 _]. cbn [arp_table] in K1.
  assert (Hq0 : q <> 0) by (now destruct C1 as (_ & ? & _)).
  set (e1 := mkEntry q (eth_ip nb) m ETHARP_STATE_PENDING 0) in *.
  assert (H1 : <[i := e1]> (arp_table st) !! i = Some e1) by (apply list_lookup_insert_eq; rewrite (to_length _ K); exact Hi).
  eexists _, b1, i. split; [exact E|]. split; [exact I1|]. split; [reflexivity|]. split; [exact C1|]. split; [eauto|].
  intros sb Xb r br Ib (Er & Lr & Br) NQ.
  destruct (answer_ok nb (hwaddr nb) r br sb Xb (hwaddr na) (eth_ip na) Enb (proj2 Enb) Ib Er Lr) as (sb1 & j & rest & E2 & I2 & H2 & S2); auto.
  { exists ethbroadcast, (hwaddr na), zeros6. split; [exact Br|]. destruct Ena as [_ LA]. repeat split; auto; try apply Fa; try apply Fb; discriminate. }
  exists sb1, j, rest. split; [exact E2|]. split; [exact I2|]. split; [exact H2|]. split; [exact S2|].
  intros st2 X2 r2 b2 bq I3 Et (Er2 & Lr2 & Br2) C3 Eq3 EB3 HA. cbn [arp_table heap] in Et, EB3. rewrite H1 in Et.
  destruct (learn_ok na (hwaddr na) r2 b2 st2 X2 (hwaddr nb) (eth_ip nb) i e1 bq l Ena I3 Er2 Lr2) as (st3 & E3 & I4 & T3 & S3); auto.
  - exists (hwaddr na), (hwaddr nb), (hwaddr na). split; [exact Br2|]. destruct Ena as [_ LA], Enb as [_ LB].
    repeat split; auto; try apply Fa; try apply Fb; discriminate.
  - rewrite Eq3, Ep1. now destruct R as (_ & _ & _ & _ & HC).
  - exists st3. split; [exact E3|]. split; [exact I4|]. split.
    + rewrite T3. eapply lookup_set. exact Et.
    + rewrite S3. cbn [e_p e1]. now rewrite EB3, EB1.
Qed.

End Resolution.
