(* ===== verification/EtharpDemo.v ===== *)
(** * EtharpDemo: address resolution on concrete states

    Two hosts, their first packets, and the theorems about address resolution
    applied to them; no C code. *)
From Stdlib Require Import ZArith Lia List Bool.
From stdpp Require Import base gmap list.
From S2P Require Import Tcp IpFrag IpOut Prelude Inet IpAddr Pbuf Etharp EtharpHeap EtharpTable EtharpMem EtharpSafe EtharpRun EtharpPath.
Import ListNotations.
#[local] Open Scope Z_scope.
#[local] Open Scope sm_scope.

(** ** A heap *)

(** The first address behind all blocks. *)
Definition heap_top (B : gmap Z Z) : Z := map_fold (fun a n m => Z.max (a + Z.abs n + 1) m) 65536 B.

#[local] Instance tidy : Platform := {
  pool_base := 4096;
  malloc_addr B n := Some (heap_top B);
  realloc_addr B p n := Some p
}.

Lemma heap_top_above B : 65536 <= heap_top B /\ forall a n, B !! a = Some n -> a < heap_top B.
Proof.
  unfold heap_top. induction B as [|a n B Ha HF IH] using map_first_key_ind.
  { rewrite map_fold_empty. split; [lia|]. intros a n H. discriminate. }
  rewrite map_fold_insert_first_key by assumption. destruct IH as [I1 I2]. split; [lia|].
  intros c m [[<- _]|[_ Hc]]%lookup_insert_Some; [lia|]. specialize (I2 c m Hc). lia.
Qed.

#[local] Instance tidy_law : MallocLaw.
Proof.
  intros B n a [= <-]. destruct (heap_top_above B) as [H1 H2]. split; [lia|]. split.
  - destruct (B !! heap_top B) as [m|] eqn:E; [|reflexivity]. specialize (H2 _ _ E). lia.
  - unfold in_pool. cbn [pool_base tidy]. unfold PBUF_POOL_SIZE, PBUF_POOL_BUFSIZE, sizeof_pbuf. lia.
Qed.

#[local] Instance quiet : Ether := { link_result _ _ := 0; dirt _ := 0; dirt_fits a := conj (Z.le_refl 0) eq_refl }.

(** ** Two hosts *)

Definition ip_a : Z := word32 10 0 0 1.
Definition ip_b : Z := word32 10 0 0 2.
Definition mac_a : list Z := [2; 0; 0; 0; 0; 1].
Definition mac_b : list Z := [2; 0; 0; 0; 0; 2].
Definition host (k : nat) (ip : Z) (mac : list Z) : eth_if :=
  mkEthIf k (mkNetif ip (word32 255 255 255 0) NETIF_FLAG_BROADCAST) 0 6 mac.
Definition host_a : eth_if := host 1 ip_a mac_a.
Definition host_b : eth_if := host 2 ip_b mac_b.

Definition blank : etharp_entry := mkEntry 0 0 zeros6 ETHARP_STATE_EMPTY 0.

(** A state with one packet of 42 bytes, which the caller holds. *)
Definition one_packet : Z * pstate :=
  match pbuf_alloc PBUF_LINK 42 PBUF_RAM pbuf_init with Some r => r | None => (0, pbuf_init) end.
Definition pkt : Z := fst one_packet.
Definition start : arp := mkArp (repeat blank 10) (snd one_packet) [].

(** The driver has put a frame into that packet. *)
Definition with_frame (f : list Z) : arp :=
  match on_heap (st_bytes (pkt + 30) f) start with Some (_, st) => st | None => start end.

(** The exchange, as a program: the packet is sent, the peer gets the request,
    the sender the reply; the frames of all three steps. *)
Definition exchange : option (list (nat * list Z)) :=
  match etharp_output host_a ip_b pkt start with
  | Some (0, st1) =>
      match sent st1 with
      | [(_, req)] =>
          match etharp_arp_input host_b mac_b pkt (with_frame req) with
          | Some (_, sb) =>
              match sent sb with
              | [(_, rep)] =>
                  match (r <- on_heap (pbuf_alloc PBUF_LINK 42 PBUF_RAM) ;;
                         on_heap (st_bytes (r + 30) rep) ;; etharp_arp_input host_a mac_a r) st1 with
                  | Some (_, st2) => Some (sent sb ++ sent st2)
                  | None => None
                  end
              | _ => None
              end
          | None => None
          end
      | _ => None
      end
  | _ => None
  end.

Example exchange_run : exchange = Some
  [(2%nat, reply_frame mac_b ip_b mac_a ip_a);
   (1%nat, request_frame host_a ip_b);
   (1%nat, eth_bytes mac_b mac_a ETHTYPE_IP ++ repeat 0 42)].
Proof. vm_compute. reflexivity. Qed.

(** ** The invariant of the first state *)

Lemma own_init : own pbuf_init [] [].
Proof.
  constructor.
  - intros l Hl. now apply elem_of_nil in Hl.
  - constructor.
  - intros p Hp. now apply elem_of_nil in Hp.
  - intros l Hl. now apply elem_of_nil in Hl.
  - exists (demo_pool pbuf_init). split; [apply pool_of_walk; concrete_chain|]. split.
    + apply Forall_forall. intros a Ha. unfold in_pool. revert a Ha. apply Forall_forall.
      vm_compute. repeat (constructor; [split; [discriminate|reflexivity]|]). constructor.
    + intros a Ha. now apply elem_of_nil in Ha.
  - split; [discriminate|reflexivity].
Qed.

Definition pkt_pbuf : pbuf := mkPbuf 0 (pkt + 30) 42 42 PBUF_FLAG_RAM 1.

Lemma own_start : own (heap start) [[(pkt, pkt_pbuf)]] [pkt].
Proof.
  destruct (own_alloc pbuf_init [] [] own_init) as [[E _]|(p & h & _ & _ & E & _ & _ & _ & O)]; [discriminate|].
  unfold start, pkt_pbuf, pkt, one_packet. cbn [heap]. rewrite E. exact O.
Qed.

Lemma reach_start : arp_reach start [pkt].
Proof.
  apply (reach_init start start [[(pkt, pkt_pbuf)]]); [reflexivity| |exact own_start|vm_compute; reflexivity].
  apply Forall_forall. intros e He. apply list_elem_of_In, repeat_spec in He as ->. reflexivity.
Qed.

Lemma inv_start : arp_inv start [pkt].
Proof. exact (reach_inv start [pkt] reach_start). Qed.

(** The state in which the packet waits. *)
Definition waiting : arp :=
  match arp_run (COutput host_a ip_b pkt) start with Some (_, st) => st | None => start end.

Lemma ether_host k ip mac : length mac = 6%nat -> ether (host k ip mac).
Proof. now split. Qed.

Lemma pkt_chain : chain (pbufs (heap start)) pkt [(pkt, pkt_pbuf)].
Proof. now destruct (ow_packet _ _ _ own_start _ (list_elem_of_here _ _)) as (C & _). Qed.

Lemma pkt_no_ref : no_ref [(pkt, pkt_pbuf)].
Proof. constructor; [discriminate|constructor]. Qed.

Lemma pkt_allowed : may_call start (COutput host_a ip_b pkt) [pkt] [pkt].
Proof.
  apply can_output; [now apply ether_host|apply list_elem_of_here|]. exists pkt_pbuf, [].
  split; [exact pkt_chain|]. split; [exact pkt_no_ref|]. split; [reflexivity|]. split; [discriminate|apply list_elem_of_here].
Qed.

Lemma inv_waiting : arp_inv waiting [pkt].
Proof.
  destruct (arp_call_ok start _ _ _ inv_start pkt_allowed) as (st & E & I). unfold waiting. now rewrite E.
Qed.

(** ** The theorems *)

Lemma etharp_runs_safe_witness : exists st, arp_run (COutput host_a ip_b pkt) start = Some (tt, st) /\
  arp_reach st [pkt] /\ queued (arp_table st) = [pkt].
Proof.
  destruct (etharp_runs_safe start [pkt] reach_start) as (_ & _ & S).
  destruct (S _ _ pkt_allowed) as (st & E & R). exists st. split; [exact E|]. split; [exact R|].
  change st with (snd (default (tt, start) (Some (tt, st)))). rewrite <- E. vm_compute. reflexivity.
Defined.

Lemma etharp_entries_expire_witness : exists st, for_k 2 (fun _ => etharp_tmr) waiting = Some (tt, st) /\
  queued (arp_table waiting) = [pkt] /\ queued (arp_table st) = [] /\ arp_inv st [pkt].
Proof.
  destruct (etharp_entries_expire 2 waiting [pkt] inv_waiting) as (st & E & _ & Q & _ & _ & _ & I).
  exists st. split; [exact E|]. split; [vm_compute; reflexivity|]. split; [apply Q; lia|exact I].
Defined.

(** The pending entry is found; for another address the second entry is taken. *)
Lemma find_entry_chooses_witness : exists st1 st2, find_entry (Some ip_b) 0 waiting = Some (0, st1) /\
  find_entry (Some ip_a) 0 waiting = Some (1, st2) /\ found (arp_table waiting) ip_a 0 1 (arp_table st2).
Proof.
  destruct (find_entry_chooses waiting ip_b 0 [pkt] inv_waiting) as (r1 & st1 & E1 & _).
  destruct (find_entry_chooses waiting ip_a 0 [pkt] inv_waiting) as (r2 & st2 & E2 & F2 & _).
  assert (R1 : r1 = 0).
  { change r1 with (fst (default (9, start) (Some (r1, st1)))). rewrite <- E1. vm_compute. reflexivity. }
  assert (R2 : r2 = 1).
  { change r2 with (fst (default (9, start) (Some (r2, st2)))). rewrite <- E2. vm_compute. reflexivity. }
  subst r1 r2. exists st1, st2. auto.
Defined.

Lemma pkt_ready : ready (heap start) pkt pkt_pbuf [].
Proof.
  split; [exact pkt_chain|]. split; [now left|]. split; [vm_compute; discriminate|]. split; [discriminate|constructor].
Qed.

(** A broadcast. *)
Lemma etharp_output_known_witness : exists st, etharp_output host_a (word32 10 0 0 255) pkt start = Some (0, st) /\
  sent st = [(1%nat, eth_bytes ethbroadcast mac_a ETHTYPE_IP ++ packet_bytes (heap start) [(pkt, pkt_pbuf)])].
Proof.
  destruct (etharp_output_known host_a (word32 10 0 0 255) pkt pkt_pbuf [] ethbroadcast start [pkt]
    ltac:(now apply ether_host) inv_start (list_elem_of_here _ _) pkt_ready
    ltac:(apply known_broadcast; reflexivity)) as (h & E & _).
  eexists. split; [exact E|reflexivity].
Defined.

Lemma empty_start e : e ∈ arp_table start -> e = blank.
Proof. intros He. now apply list_elem_of_In, repeat_spec in He. Qed.

Lemma bytes_start : bytes_ok (heap start).
Proof.
  intros c. unfold byte_at. change (mem (heap start)) with (∅ : gmap Z Z). rewrite lookup_empty. exact (dirt_fits c).
Qed.

Lemma st_bytes_run l : forall a h, exists h', st_bytes a l h = Some (tt, h') /\ h' = with_mem (fun _ => mem h') h.
Proof.
  induction l as [|v l IH]; intros a h; [exists h; split; [reflexivity|now destruct h]|].
  destruct (IH (a + 1) (with_mem <[a := v]> h)) as (h' & E & Eh). exists h'. split; [exact E|]. rewrite Eh. reflexivity.
Qed.

Lemma inv_with_frame f : arp_inv (with_frame f) [pkt].
Proof.
  destruct (st_bytes_run f (pkt + 30) (heap start)) as (h & E & Eh). unfold with_frame, on_heap. rewrite E.
  destruct inv_start as [K _]. split; [exact K|]. exists [[(pkt, pkt_pbuf)]]. cbn [heap with_heap]. rewrite Eh.
  apply own_mem. exact own_start.
Qed.

Lemma etharp_resolves_witness : exists st1 sb1 j rest,
  etharp_output host_a ip_b pkt start = Some (ERR_OK, st1) /\ sent st1 = [(1%nat, request_frame host_a ip_b)] /\
  etharp_arp_input host_b mac_b pkt (with_frame (request_frame host_a ip_b)) = Some (tt, sb1) /\
  arp_table sb1 !! j = Some (mkEntry 0 ip_a mac_a ETHARP_STATE_STABLE 0) /\
  sent sb1 = [(2%nat, reply_frame mac_b ip_b mac_a ip_a ++ rest)].
Proof.
  destruct (etharp_resolves host_a host_b pkt pkt_pbuf [] start [pkt] (heap_top (blocks (heap start))))
    as (st1 & b1 & i & E1 & _ & S1 & _ & _ & R).
  - now apply ether_host.
  - now apply ether_host.
  - discriminate.
  - discriminate.
  - split; [discriminate|reflexivity].
  - split; [discriminate|reflexivity].
  - reflexivity.
  - reflexivity.
  - reflexivity.
  - exact inv_start.
  - apply list_elem_of_here.
  - exact pkt_ready.
  - exact pkt_no_ref.
  - reflexivity.
  - exact bytes_start.
  - intros e He Le. rewrite (empty_start e He) in Le. discriminate.
  - exists blank. split; [apply list_elem_of_here|reflexivity].
  - reflexivity.
  - constructor; [|constructor]. vm_compute. left. discriminate.
  - destruct (R (with_frame (request_frame host_a ip_b)) [] pkt pkt_pbuf (inv_with_frame _))
      as (sb1 & j & rest & E2 & _ & H2 & S2 & _).
    + split; [|split; [discriminate|vm_compute; reflexivity]]. vm_compute. reflexivity.
    + intros e He _. change (e ∈ arp_table start) in He. rewrite (empty_start e He). reflexivity.
    + exists st1, sb1, j, rest. auto.
Defined.

(** A frame from a stranger. *)
Lemma etharp_inserts_strangers_witness : exists st i,
  update_arp_entry host_a ip_b (pkt + 30) 0 start = Some (ERR_OK, st) /\
  arp_table st !! i = Some (mkEntry 0 ip_b (peek (heap start) (pkt + 30) 6) ETHARP_STATE_STABLE 0).
Proof.
  destruct (etharp_inserts_strangers host_a ip_b (pkt + 30) start [pkt]) as (st & i & E & _ & H).
  - now apply ether_host.
  - exact inv_start.
  - reflexivity.
  - intros e He Le. rewrite (empty_start e He) in Le. discriminate.
  - exists blank. split; [apply list_elem_of_here|reflexivity].
  - eauto.
Defined.

(** The packet that waits is given a second time. *)
Lemma etharp_query_drops_witness : exists h out,
  etharp_query host_a ip_b pkt waiting = Some (ERR_OK, mkArp (arp_table waiting) h (sent waiting ++ out)) /\
  Forall (fun f => length f.2 = 42%nat) out.
Proof.
  destruct (etharp_query_drops host_a ip_b pkt waiting [pkt] (mkEntry pkt ip_b zeros6 ETHARP_STATE_PENDING 0))
    as (h & out & E & L & _).
  - now apply ether_host.
  - exact inv_waiting.
  - apply list_elem_of_here.
  - exists (default pkt_pbuf (pbufs (heap waiting) !! pkt)), []. split; [concrete_chain|]. split.
    + constructor; [vm_compute; discriminate|constructor].
    + vm_compute. reflexivity.
  - reflexivity.
  - apply list_elem_of_lookup. exists 0%nat. vm_compute. reflexivity.
  - reflexivity.
  - reflexivity.
  - discriminate.
  - exists h, out. auto.
Defined.
