(* ===== verification/Mem.v ===== *)
(** * The heap: [src/nsc-0.5.3/lwip-HEAD/src/core/mem.c]

    lwIP's own allocator: first fit on one array of bytes, [ram], in which every
    block starts with a [struct mem] that holds the offsets of the block behind
    it and of the block before it, and whether it is in use.  The headers are
    bytes of [ram], between the bytes of the application.

    [MEM_SIZE] and [MEM_ALIGNMENT] are the options of [opt.h], [NO_SYS] chooses
    between the empty semaphores of [sys.h] and real ones; [MEM_STATS] is 1 and
    [LWIP_ASSERT] has no effect.  Numbers in memory are little endian, a struct is
    laid out as the usual C ABIs do, pointers into [ram] are offsets from its
    start, and [NULL] is [None].  A fault is an access outside of [ram], or a
    semaphore that is waited for and that nobody can signal any more. *)
From Stdlib Require Import ZArith Lia List Bool.
From stdpp Require Import base gmap list numbers option.
From S2P Require Import Prelude.
#[local] Open Scope Z_scope.
#[local] Open Scope sm_scope.

(** ** The options *)

Class MemConfig := { MEM_SIZE : Z; MEM_ALIGNMENT : Z; NO_SYS : bool }.

Section Types.
Context `{MemConfig}.

(** The bytes of a [mem_size_t], and conversion to it. *)
Definition sizeof_mem_size_t : Z := if 64000 <? MEM_SIZE then 4 else 2.
Definition mem_size_t (x : Z) : Z := wrap (8 * sizeof_mem_size_t) x.

Definition round_up (x a : Z) : Z := (x + a - 1) / a * a.

(** [struct mem]: [next], [prev] and [used], which has [MEM_ALIGNMENT] bytes. *)
Definition off_prev : Z := sizeof_mem_size_t.
Definition off_used : Z := round_up (2 * sizeof_mem_size_t) MEM_ALIGNMENT.
Definition sizeof_mem : Z :=
  round_up (off_used + MEM_ALIGNMENT) (Z.max sizeof_mem_size_t MEM_ALIGNMENT).

Definition SIZEOF_STRUCT_MEM : Z :=
  sizeof_mem + (if sizeof_mem mod MEM_ALIGNMENT =? 0 then 0
                else 4 - sizeof_mem mod MEM_ALIGNMENT).
Definition MIN_SIZE : Z := 12.

(** The bytes of the array [ram]. *)
Definition ram_bytes : Z := MEM_SIZE + sizeof_mem + MEM_ALIGNMENT.
End Types.

(** ** The state *)

(** [lwip_stats.mem]. *)
Record stats_mem := mkMemStats { avail : Z; used_bytes : Z; max : Z; err : Z }.

Record heap := mkHeap {
  ram : gmap Z Z;             (* the bytes of the array *)
  ram_end : Z;
  lfree : Z;
  mem_sem : Z;
  mem_stats : stats_mem
}.

Definition with_ram (m : gmap Z Z) (st : heap) : heap :=
  mkHeap m (ram_end st) (lfree st) (mem_sem st) (mem_stats st).
Definition with_ram_end (e : Z) (st : heap) : heap :=
  mkHeap (ram st) e (lfree st) (mem_sem st) (mem_stats st).
Definition with_lfree (l : Z) (st : heap) : heap :=
  mkHeap (ram st) (ram_end st) l (mem_sem st) (mem_stats st).
Definition with_sem (s : Z) (st : heap) : heap :=
  mkHeap (ram st) (ram_end st) (lfree st) s (mem_stats st).
Definition with_mem_stats (f : stats_mem -> stats_mem) (st : heap) : heap :=
  mkHeap (ram st) (ram_end st) (lfree st) (mem_sem st) (f (mem_stats st)).

(** ** Bytes and numbers in memory *)

(** The number in the [n] bytes from [a]. *)
Fixpoint rd (m : gmap Z Z) (n : nat) (a : Z) : option Z :=
  match n with
  | O => Some 0
  | S n' => match m !! a, rd m n' (a + 1) with
            | Some b, Some v => Some (b + 256 * v)
            | _, _ => None
            end
  end.

Fixpoint wr (m : gmap Z Z) (n : nat) (a v : Z) : option (gmap Z Z) :=
  match n with
  | O => Some m
  | S n' => match m !! a with
            | Some _ => wr (<[a := v mod 256]> m) n' (a + 1) (v / 256)
            | None => None
            end
  end.

(** [n] bytes of zeros from [a]. *)
Fixpoint zeros (n : nat) (a : Z) (m : gmap Z Z) : gmap Z Z :=
  match n with
  | O => m
  | S n' => <[a := 0]> (zeros n' (a + 1) m)
  end.

Abbreviation M := (SM heap).

Section Ops.
Context `{MemConfig}.

Definition ld_n (n a : Z) : M Z :=
  fun st => match rd (ram st) (Z.to_nat n) a with Some v => Some (v, st) | None => None end.
Definition st_n (n a v : Z) : M unit :=
  fun st => match wr (ram st) (Z.to_nat n) a v with
            | Some m => Some (tt, with_ram m st)
            | None => None
            end.

(** The fields of the [struct mem] at an offset of [ram]. *)
Definition get_next (p : Z) : M Z := ld_n sizeof_mem_size_t p.
Definition get_prev (p : Z) : M Z := ld_n sizeof_mem_size_t (p + off_prev).
Definition get_used (p : Z) : M Z := ld_n MEM_ALIGNMENT (p + off_used).
Definition set_next (p v : Z) : M unit := st_n sizeof_mem_size_t p v.
Definition set_prev (p v : Z) : M unit := st_n sizeof_mem_size_t (p + off_prev) v.
Definition set_used (p v : Z) : M unit := st_n MEM_ALIGNMENT (p + off_used) v.

(** libc's [memcpy]: [while (n--) *dst++ = *src++]. *)
Definition copy_byte (dst src : Z) : M unit :=
  fun st => match ram st !! src, ram st !! dst with
            | Some b, Some _ => Some (tt, with_ram (<[dst := b]> (ram st)) st)
            | _, _ => None
            end.
Fixpoint memcpy (n : nat) (dst src : Z) : M unit :=
  match n with
  | O => sm_ret tt
  | S n' => copy_byte dst src ;; memcpy n' (dst + 1) (src + 1)
  end.

(** [sys_sem_wait] of a system with threads does not return while the count is
    0; here nobody else runs. *)
Definition sys_sem_wait : M unit :=
  fun st => if NO_SYS then Some (tt, st)
            else if mem_sem st =? 0 then None else Some (tt, with_sem (mem_sem st - 1) st).
Definition sys_sem_signal : M unit :=
  sm_modify (fun st => if NO_SYS then st else with_sem (mem_sem st + 1) st).

Definition count_mem (n : Z) (s : stats_mem) : stats_mem :=
  mkMemStats (avail s) (mem_size_t (used_bytes s + n)) (max s) (err s).
Definition count_max (p : Z) (s : stats_mem) : stats_mem :=
  mkMemStats (avail s) (used_bytes s) (if max s <? p then p else max s) (err s).
Definition count_err (s : stats_mem) : stats_mem :=
  mkMemStats (avail s) (used_bytes s) (max s) (mem_size_t (err s + 1)).
Definition set_avail (n : Z) (s : stats_mem) : stats_mem :=
  mkMemStats (mem_size_t n) (used_bytes s) (max s) (err s).

(** ** [plug_holes] *)

Definition plug_forward (mem : Z) : M unit :=
  nmem <- get_next mem ;;
  c <- (if negb (mem =? nmem) then
          u <- get_used nmem ;; st <- sm_get ;; sm_ret ((u =? 0) && negb (nmem =? ram_end st))
        else sm_ret false) ;;
  if c : bool then
    st <- sm_get ;;
    (if lfree st =? nmem then sm_modify (with_lfree mem) else sm_ret tt) ;;
    n <- get_next nmem ;; set_next mem n ;;
    n <- get_next nmem ;; set_prev n mem
  else sm_ret tt.

Definition plug_backward (mem : Z) : M unit :=
  pmem <- get_prev mem ;;
  c <- (if negb (pmem =? mem) then u <- get_used pmem ;; sm_ret (u =? 0) else sm_ret false) ;;
  if c : bool then
    st <- sm_get ;;
    (if lfree st =? mem then sm_modify (with_lfree pmem) else sm_ret tt) ;;
    n <- get_next mem ;; set_next pmem n ;;
    n <- get_next mem ;; set_prev n pmem
  else sm_ret tt.

Definition plug_holes (mem : Z) : M unit := plug_forward mem ;; plug_backward mem.

(** ** [mem_init] *)

(** The state of the static variables before the first call. *)
Definition heap0 : heap :=
  mkHeap (zeros (Z.to_nat ram_bytes) 0 ∅) 0 0 0 (mkMemStats 0 0 0 0).

Definition mem_init : M unit :=
  sm_modify (fun st => with_ram (zeros (Z.to_nat MEM_SIZE) 0 (ram st)) st) ;;
  set_next 0 MEM_SIZE ;;
  set_prev 0 0 ;;
  set_used 0 0 ;;
  sm_modify (with_ram_end MEM_SIZE) ;;
  set_used MEM_SIZE 1 ;;
  set_next MEM_SIZE MEM_SIZE ;;
  set_prev MEM_SIZE MEM_SIZE ;;
  sm_modify (with_sem 1) ;;
  sm_modify (with_lfree 0) ;;
  sm_modify (with_mem_stats (set_avail MEM_SIZE)).

(** ** [mem_free] *)

Definition mem_free (rmem : option Z) : M unit :=
  match rmem with
  | None => sm_ret tt
  | Some r =>
      sys_sem_wait ;;
      st <- sm_get ;;
      if (r <? 0) || (ram_end st <=? r) then
        sm_modify (with_mem_stats count_err) ;;
        sys_sem_signal
      else
        let mem := r - SIZEOF_STRUCT_MEM in
        set_used mem 0 ;;
        st <- sm_get ;;
        (if mem <? lfree st then sm_modify (with_lfree mem) else sm_ret tt) ;;
        n <- get_next mem ;;
        sm_modify (with_mem_stats (count_mem (- (n - mem)))) ;;
        plug_holes mem ;;
        sys_sem_signal
  end.

(** ** [mem_malloc] *)

(** "Expand the size of the allocated memory region so that we can adjust for
    alignment." *)
Definition adjust_size (size : Z) : Z :=
  if negb (size mod MEM_ALIGNMENT =? 0) then
    mem_size_t (size + (MEM_ALIGNMENT - (size + SIZEOF_STRUCT_MEM) mod MEM_ALIGNMENT))
  else size.

(** [while (lfree->used && lfree != ram_end)]. *)
Fixpoint skip_used (fuel : nat) : M unit :=
  st <- sm_get ;;
  u <- get_used (lfree st) ;;
  if negb (u =? 0) && negb (lfree st =? ram_end st) then
    match fuel with
    | O => sm_fail
    | S f => n <- get_next (lfree st) ;; sm_modify (with_lfree n) ;; skip_used f
    end
  else sm_ret tt.

(** More turns than there are blocks. *)
Definition heap_fuel : nat := Z.to_nat MEM_SIZE.

(** The block at [ptr] is split and its front given out. *)
Definition take_block (ptr size : Z) : M (option Z) :=
  let ptr2 := mem_size_t (ptr + SIZEOF_STRUCT_MEM + size) in
  set_prev ptr2 ptr ;;
  n <- get_next ptr ;; set_next ptr2 n ;;
  set_next ptr ptr2 ;;
  n <- get_next ptr2 ;;
  (if negb (n =? MEM_SIZE) then n <- get_next ptr2 ;; set_prev n ptr2 else sm_ret tt) ;;
  set_used ptr2 0 ;;
  set_used ptr 1 ;;
  sm_modify (with_mem_stats (count_mem (size + SIZEOF_STRUCT_MEM))) ;;
  sm_modify (with_mem_stats (count_max ptr2)) ;;
  st <- sm_get ;;
  (if ptr =? lfree st then skip_used heap_fuel else sm_ret tt) ;;
  sys_sem_signal ;;
  sm_ret (Some (ptr + SIZEOF_STRUCT_MEM)).

(** The condition of the loop; the difference is one of [size_t]s. *)
Definition block_fits (ptr size : Z) : M bool :=
  u <- get_used ptr ;;
  if u =? 0 then
    n <- get_next ptr ;;
    sm_ret (u32 (size + SIZEOF_STRUCT_MEM) <=? u32 (n - (ptr + SIZEOF_STRUCT_MEM)))
  else sm_ret false.

Fixpoint find_block (fuel : nat) (ptr size : Z) : M (option Z) :=
  if ptr <? MEM_SIZE then
    match fuel with
    | O => sm_fail
    | S f =>
        c <- block_fits ptr size ;;
        if c : bool then take_block ptr size
        else n <- get_next ptr ;; find_block f n size
    end
  else
    sm_modify (with_mem_stats count_err) ;;
    sys_sem_signal ;;
    sm_ret None.

Definition mem_malloc (size : Z) : M (option Z) :=
  let size := mem_size_t size in
  if size =? 0 then sm_ret None
  else
    let size := adjust_size size in
    if MEM_SIZE <? size then sm_ret None
    else
      sys_sem_wait ;;
      st <- sm_get ;;
      find_block heap_fuel (mem_size_t (lfree st)) size.

(** ** [mem_realloc] and [mem_reallocm] *)

(** The end of the block at [ptr] is made a block of its own. *)
Definition cut_block (ptr newsize : Z) : M unit :=
  let ptr2 := mem_size_t (ptr + SIZEOF_STRUCT_MEM + newsize) in
  set_used ptr2 0 ;;
  n <- get_next ptr ;; set_next ptr2 n ;;
  set_prev ptr2 ptr ;;
  set_next ptr ptr2 ;;
  n <- get_next ptr2 ;;
  (if negb (n =? MEM_SIZE) then n <- get_next ptr2 ;; set_prev n ptr2 else sm_ret tt) ;;
  plug_holes ptr2.

Definition mem_realloc (rmem : option Z) (newsize : Z) : M (option Z) :=
  let newsize := adjust_size (mem_size_t newsize) in
  if MEM_SIZE <? newsize then sm_ret None
  else
    sys_sem_wait ;;
    st <- sm_get ;;
    match rmem with
    | None => sm_ret rmem
    | Some r =>
        if (r <? 0) || (ram_end st <=? r) then sm_ret rmem
        else
          let mem := r - SIZEOF_STRUCT_MEM in
          let ptr := mem_size_t mem in
          n <- get_next mem ;;
          let size := mem_size_t (n - ptr - SIZEOF_STRUCT_MEM) in
          sm_modify (with_mem_stats (count_mem (- (size - newsize)))) ;;
          (if newsize + SIZEOF_STRUCT_MEM + MIN_SIZE <? size then cut_block ptr newsize
           else sm_ret tt) ;;
          sys_sem_signal ;;
          sm_ret rmem
    end.

Definition mem_reallocm (rmem : option Z) (newsize : Z) : M (option Z) :=
  nmem <- mem_malloc newsize ;;
  match nmem with
  | None => mem_realloc rmem newsize
  | Some n =>
      match rmem with
      | None => sm_fail
      | Some r => memcpy (Z.to_nat (mem_size_t newsize)) n r ;; mem_free rmem ;; sm_ret nmem
      end
  end.
End Ops.
