(* ===== verification/MemBytes.v ===== *)
(** * The bytes of the heap and its headers

    Numbers written to [ram] are read back; a header that is written leaves the
    bytes outside of it alone.  [held] says that a state holds the headers of a
    map, which lie outside of some bytes [P], and that these are the ones of a
    memory given before: the calls of [Mem] run on the map. *)
From Stdlib Require Import ZArith Lia List Bool.
From stdpp Require Import base gmap list numbers option.
From S2P Require Import Prelude Mem.
#[local] Open Scope Z_scope.
#[local] Open Scope sm_scope.

(** ** Numbers in memory *)

Lemma rd_total m n a : (forall i, a <= i < a + Z.of_nat n -> is_Some (m !! i)) -> exists v, rd m n a = Some v.
Proof.
  revert a. induction n as [|n IH]; intros a D; cbn [rd]; [eauto|].
  destruct (D a ltac:(lia)) as [b ->]. destruct (IH (a + 1)) as [v ->]; [intros; apply D; lia|]. eauto.
Qed.

Lemma rd_ext m m' n a : (forall i, a <= i < a + Z.of_nat n -> m' !! i = m !! i) -> rd m' n a = rd m n a.
Proof.
  revert a. induction n as [|n IH]; intros a E; cbn [rd]; [reflexivity|].
  rewrite E, IH by (lia || (intros; apply E; lia)). reflexivity.
Qed.

Lemma wr_total m n a v : (forall i, a <= i < a + Z.of_nat n -> is_Some (m !! i)) -> exists m', wr m n a v = Some m'.
Proof.
  revert m a v. induction n as [|n IH]; intros m a v D; cbn [wr]; [eauto|].
  destruct (D a ltac:(lia)) as [b ->]. apply IH. intros i Hi.
  rewrite lookup_insert_ne by lia. apply D. lia.
Qed.

Lemma wr_other m n a v m' i : wr m n a v = Some m' -> i < a \/ a + Z.of_nat n <= i -> m' !! i = m !! i.
Proof.
  revert m a v. induction n as [|n IH]; intros m a v E Hi; cbn [wr] in E; [now injection E as <-|].
  destruct (m !! a); [|discriminate]. rewrite (IH _ _ _ E) by lia. apply lookup_insert_ne. lia.
Qed.

Lemma wr_dom m n a v m' i : wr m n a v = Some m' -> is_Some (m' !! i) <-> is_Some (m !! i).
Proof.
  revert m a v. induction n as [|n IH]; intros m a v E; cbn [wr] in E; [now injection E as <-|].
  destruct (m !! a) eqn:Ea; [|discriminate]. rewrite (IH _ _ _ E).
  destruct (Z.eq_dec i a) as [-> | Ne]; [rewrite lookup_insert_eq, Ea; split; eauto | now rewrite lookup_insert_ne].
Qed.

Lemma rd_wr m n a v m' : wr m n a v = Some m' -> rd m' n a = Some (v mod 2 ^ (8 * Z.of_nat n)).
Proof.
  revert m a v. induction n as [|n IH]; intros m a v E; cbn [wr rd] in *.
  { now rewrite Z.mod_1_r. }
  destruct (m !! a); [|discriminate].
  rewrite (wr_other _ _ _ _ _ a E), lookup_insert_eq, (IH _ _ _ E) by lia. f_equal.
  replace (8 * Z.of_nat (S n)) with (8 + 8 * Z.of_nat n) by lia.
  rewrite Z.pow_add_r by lia. change (2 ^ 8) with 256. rewrite Z.rem_mul_r by lia. reflexivity.
Qed.

Lemma zeros_lookup n a m i : zeros n a m !! i = if (a <=? i) && (i <? a + Z.of_nat n) then Some 0 else m !! i.
Proof.
  revert a. induction n as [|n IH]; intros a; cbn [zeros].
  - destruct (Z.leb_spec a i), (Z.ltb_spec i (a + Z.of_nat 0)); cbn [andb]; reflexivity || lia.
  - destruct (Z.eq_dec i a) as [-> | Ne].
    + rewrite lookup_insert_eq.
      destruct (Z.leb_spec a a), (Z.ltb_spec a (a + Z.of_nat (S n))); cbn [andb]; reflexivity || lia.
    + rewrite lookup_insert_ne, IH by congruence.
      destruct (Z.leb_spec a i), (Z.leb_spec (a + 1) i), (Z.ltb_spec i (a + Z.of_nat (S n))),
        (Z.ltb_spec i (a + 1 + Z.of_nat n)); cbn [andb]; reflexivity || lia.
Qed.

(** ** The layout of a header *)

(** What the options may be. *)
Class MemLaws `{MemConfig} := {
  alignment_ok : MEM_ALIGNMENT = 1 \/ MEM_ALIGNMENT = 2 \/ MEM_ALIGNMENT = 4 \/ MEM_ALIGNMENT = 8;
  size_ok : 2 * SIZEOF_STRUCT_MEM <= MEM_SIZE <= 2 ^ 31
}.

Section Layout.
Context {MC : MemConfig} {ML : MemLaws}.
#[local] Abbreviation SZ := SIZEOF_STRUCT_MEM.

Lemma layout : (sizeof_mem_size_t = 2 \/ sizeof_mem_size_t = 4) /\ 2 * sizeof_mem_size_t <= off_used /\
  off_used + MEM_ALIGNMENT <= SZ /\ SZ mod MEM_ALIGNMENT = 0 /\ sizeof_mem = SZ /\ 6 <= SZ <= 16.
Proof.
  unfold SZ, sizeof_mem, off_used, round_up, sizeof_mem_size_t.
  destruct alignment_ok as [-> | [-> | [-> | ->]]]; destruct (64000 <? MEM_SIZE); vm_compute; intuition discriminate.
Qed.

(** What fits in a [mem_size_t]. *)
Lemma mem_size_t_small x : 0 <= x <= MEM_SIZE -> mem_size_t x = x.
Proof.
  intros Hx. apply wrap_small. unfold fits, sizeof_mem_size_t. pose proof size_ok as Z1.
  destruct (Z.ltb_spec 64000 MEM_SIZE); pow2; lia.
Qed.

Lemma mem_size_t_range x : 0 <= mem_size_t x.
Proof. apply wrap_range. destruct layout as ([-> | ->] & _); lia. Qed.

Lemma align_pos : 0 < MEM_ALIGNMENT <= 8.
Proof. destruct alignment_ok as [-> | [-> | [-> | ->]]]; lia. Qed.

(** ** Headers *)

Record hdr := mkHdr { h_next : Z; h_prev : Z; h_used : Z }.

Definition header_at (m : gmap Z Z) (p : Z) (h : hdr) : Prop :=
  rd m (Z.to_nat sizeof_mem_size_t) p = Some (h_next h) /\
  rd m (Z.to_nat sizeof_mem_size_t) (p + off_prev) = Some (h_prev h) /\
  rd m (Z.to_nat MEM_ALIGNMENT) (p + off_used) = Some (h_used h).

(** No byte of the header at [p] is a byte of the header at [q]. *)
Definition apart (p q : Z) : Prop := p + SZ <= q \/ q + SZ <= p.

Record held (P : Z -> Prop) (m0 : gmap Z Z) (st : heap) (H : gmap Z hdr) : Prop := {
  held_dom a : is_Some (ram st !! a) <-> 0 <= a < ram_bytes;
  held_hdr p h : H !! p = Some h -> header_at (ram st) p h;
  held_in p h : H !! p = Some h -> 0 <= p /\ p + SZ <= ram_bytes;
  held_apart p q h h' : H !! p = Some h -> H !! q = Some h' -> p <> q -> apart p q;
  held_free p h a : H !! p = Some h -> p <= a < p + SZ -> ~ P a;
  held_rest a : P a -> ram st !! a = m0 !! a
}.

Lemma held_other P m0 st st' H : ram st' = ram st -> held P m0 st H -> held P m0 st' H.
Proof. intros E [A B C D F G]. split; rewrite ?E; assumption. Qed.

Lemma header_total m p : (forall a, is_Some (m !! a) <-> 0 <= a < ram_bytes) -> 0 <= p -> p + SZ <= ram_bytes ->
  exists h, header_at m p h.
Proof.
  intros D H0 H1. destruct layout as (Lm & Lu & Ls & _). pose proof align_pos as La.
  assert (T : forall n o, 0 <= n -> 0 <= o -> o + n <= SZ -> exists v, rd m (Z.to_nat n) (p + o) = Some v).
  { intros n o Hn Ho Ho'. apply rd_total. intros i Hi. apply D. lia. }
  destruct (T sizeof_mem_size_t 0) as [n En]; [lia.. |]. rewrite Z.add_0_r in En.
  destruct (T sizeof_mem_size_t off_prev) as [pr Ep]; [unfold off_prev; lia.. |].
  destruct (T MEM_ALIGNMENT off_used) as [u Eu]; [lia.. |].
  now exists (mkHdr n pr u).
Qed.

(** A place that is to become a header. *)
Lemma held_add P m0 st H p : held P m0 st H -> 0 <= p -> p + SZ <= ram_bytes ->
  (forall q h, H !! q = Some h -> apart p q) -> (forall a, p <= a < p + SZ -> ~ P a) ->
  exists h, held P m0 st (<[p := h]> H).
Proof.
  intros K H0 H1 S Hp. destruct (header_total (ram st) p (held_dom _ _ _ _ K) H0 H1) as [h Hh]. exists h.
  pose proof K as [A B C D F G]. split; [exact A | | | | | exact G].
  - intros q h'. rewrite lookup_insert_Some. intros [[-> ->] | [_ Hq]]; auto.
  - intros q h'. rewrite lookup_insert_Some. intros [[-> ->] | [_ Hq]]; eauto.
  - intros q q' h1 h2. rewrite !lookup_insert_Some. unfold apart in *.
    intros [[-> ->] | [_ H2]] [[-> ->] | [_ H3]] Hn; [now destruct Hn | eauto | | eauto].
    destruct (S _ _ H2); lia.
  - intros q h' a. rewrite lookup_insert_Some. intros [[-> ->] | [_ Hq]]; eauto.
Qed.

(** Fewer headers; other bytes of interest. *)
Lemma held_subset P m0 st H H' : H' ⊆ H -> held P m0 st H -> held P m0 st H'.
Proof.
  intros Sub [A B C D F G].
  split; [exact A | intros p h Hp | intros p h Hp | intros p q h h' Hp Hq | intros p h a Hp | exact G].
  - apply B, (lookup_weaken _ _ _ _ Hp Sub).
  - apply (C p h), (lookup_weaken _ _ _ _ Hp Sub).
  - apply (D p q h h'); eapply lookup_weaken; eassumption.
  - apply (F p h), (lookup_weaken _ _ _ _ Hp Sub).
Qed.

Lemma held_protect P P' m0 st H : held P m0 st H ->
  (forall p h a, H !! p = Some h -> p <= a < p + SZ -> ~ P' a) -> held P' (ram st) st H.
Proof. intros [A B C D F G] HP. now split. Qed.

(** ** Reading and writing the fields *)

Lemma get_next_ok P m0 st H p h : held P m0 st H -> H !! p = Some h -> get_next p st = Some (h_next h, st).
Proof. intros K E. unfold get_next, ld_n. destruct (held_hdr _ _ _ _ K p h E) as (-> & _). reflexivity. Qed.

Lemma get_prev_ok P m0 st H p h : held P m0 st H -> H !! p = Some h -> get_prev p st = Some (h_prev h, st).
Proof. intros K E. unfold get_prev, ld_n. destruct (held_hdr _ _ _ _ K p h E) as (_ & -> & _). reflexivity. Qed.

Lemma get_used_ok P m0 st H p h : held P m0 st H -> H !! p = Some h -> get_used p st = Some (h_used h, st).
Proof. intros K E. unfold get_used, ld_n. destruct (held_hdr _ _ _ _ K p h E) as (_ & _ & ->). reflexivity. Qed.

(** A field of the header at [p]: the [n] bytes from [p + o]. *)
Lemma set_field_ok P m0 st H p h h' n o v : held P m0 st H -> H !! p = Some h -> 0 <= n -> 0 <= o -> o + n <= SZ ->
  (forall m', (forall i, i < p + o \/ p + o + n <= i -> m' !! i = ram st !! i) ->
     rd m' (Z.to_nat n) (p + o) = Some (v mod 2 ^ (8 * n)) -> header_at m' p h') ->
  exists m', st_n n (p + o) v st = Some (tt, with_ram m' st) /\ held P m0 (with_ram m' st) (<[p := h']> H).
Proof.
  intros K E Hn Ho Hs Hh. pose proof K as [A B C D F G]. destruct (C _ _ E) as [P0 P1].
  destruct (wr_total (ram st) (Z.to_nat n) (p + o) v) as [m' Em]; [intros i Hi; apply A; lia|].
  assert (Oth : forall i, i < p + o \/ p + o + n <= i -> m' !! i = ram st !! i).
  { intros i Hi. apply (wr_other _ _ _ _ _ _ Em). lia. }
  pose proof (rd_wr _ _ _ _ _ Em) as Erd. rewrite Z2Nat.id in Erd by lia. specialize (Hh m' Oth Erd).
  exists m'. split; [unfold st_n; now rewrite Em|]. split; cbn [with_ram ram].
  - intros a. rewrite (wr_dom _ _ _ _ _ _ Em). apply A.
  - intros q hq. rewrite lookup_insert_Some. intros [[-> ->] | [Nq Hq]]; [exact Hh|].
    destruct (B _ _ Hq) as (B1 & B2 & B3). destruct layout as (Lm & Lu & Ls & _).
    pose proof align_pos. pose proof (D _ _ _ _ E Hq Nq) as S. unfold apart in S.
    unfold header_at, off_prev in *. rewrite <- B1, <- B2, <- B3.
    split_and!; apply rd_ext; intros i Hi; apply Oth; lia.
  - intros q hq. rewrite lookup_insert_Some. intros [[-> ->] | [_ Hq]]; eauto.
  - intros q q' h1 h2. rewrite !lookup_insert_Some.
    intros [[-> ->] | [_ H2]] [[-> ->] | [_ H3]] Hd; [now destruct Hd | eauto..].
  - intros q hq a. rewrite lookup_insert_Some. intros [[-> ->] | [_ Hq]]; eauto.
  - intros a Ha. rewrite Oth; [now apply G|].
    destruct (Z.lt_ge_cases a (p + o)); [tauto|]. destruct (Z.le_gt_cases (p + o + n) a); [tauto|].
    exfalso. apply (F p h a E); [lia | exact Ha].
Qed.

Lemma mem_field_fits v : 0 <= v <= MEM_SIZE -> v mod 2 ^ (8 * sizeof_mem_size_t) = v.
Proof. intros Hv. apply (mem_size_t_small v Hv). Qed.

Lemma set_next_ok P m0 st H p h v : held P m0 st H -> H !! p = Some h -> 0 <= v <= MEM_SIZE ->
  exists m', set_next p v st = Some (tt, with_ram m' st) /\
    held P m0 (with_ram m' st) (<[p := mkHdr v (h_prev h) (h_used h)]> H).
Proof.
  intros K E Hv. destruct layout as (Lm & Lu & Ls & _). pose proof align_pos.
  destruct (held_hdr _ _ _ _ K p h E) as (_ & E2 & E3). unfold set_next.
  pose proof (set_field_ok P m0 st H p h (mkHdr v (h_prev h) (h_used h)) sizeof_mem_size_t 0 v K E) as X.
  rewrite !Z.add_0_r in X. apply X; [lia.. |].
  intros m' Oth Erd. rewrite mem_field_fits in Erd by exact Hv. unfold header_at, off_prev in *. cbn [h_next h_prev h_used].
  rewrite <- E2, <- E3. split_and!; [exact Erd | apply rd_ext; intros i Hi; apply Oth; lia..].
Qed.

Lemma set_prev_ok P m0 st H p h v : held P m0 st H -> H !! p = Some h -> 0 <= v <= MEM_SIZE ->
  exists m', set_prev p v st = Some (tt, with_ram m' st) /\
    held P m0 (with_ram m' st) (<[p := mkHdr (h_next h) v (h_used h)]> H).
Proof.
  intros K E Hv. destruct layout as (Lm & Lu & Ls & _). pose proof align_pos.
  destruct (held_hdr _ _ _ _ K p h E) as (E1 & _ & E3). unfold set_prev.
  apply (set_field_ok P m0 st H p h); [assumption.. | lia | unfold off_prev; lia | unfold off_prev; lia |].
  intros m' Oth Erd. rewrite mem_field_fits in Erd by exact Hv. unfold header_at, off_prev in *. cbn [h_next h_prev h_used].
  rewrite <- E1, <- E3. split_and!; [| exact Erd |]; apply rd_ext; intros i Hi; apply Oth; lia.
Qed.

Lemma set_used_ok P m0 st H p h v : held P m0 st H -> H !! p = Some h -> 0 <= v < 256 ->
  exists m', set_used p v st = Some (tt, with_ram m' st) /\
    held P m0 (with_ram m' st) (<[p := mkHdr (h_next h) (h_prev h) v]> H).
Proof.
  intros K E Hv. destruct layout as (Lm & Lu & Ls & _). pose proof align_pos.
  destruct (held_hdr _ _ _ _ K p h E) as (E1 & E2 & _). unfold set_used.
  apply (set_field_ok P m0 st H p h); [assumption.. | lia | lia | lia |].
  intros m' Oth Erd. rewrite Z.mod_small in Erd.
  2:{ split; [lia|]. pose proof (Z.pow_le_mono_r 2 8 (8 * MEM_ALIGNMENT)). lia. }
  unfold header_at, off_prev in *. cbn [h_next h_prev h_used].
  rewrite <- E1, <- E2. split_and!; [apply rd_ext; intros i Hi; apply Oth; lia.. | exact Erd].
Qed.
End Layout.
