(* ===== verification/MemChain.v ===== *)
(** * The blocks of the heap

    A heap is a list of blocks that lie one behind another from 0 to [MEM_SIZE].
    [chain] says that a map of headers is that list; [place] gives every block
    its offset; [plug] is what [plug_holes] does to the list.  [heap_ok] is the
    invariant of the calls of [Mem]. *)
From Stdlib Require Import ZArith Lia List Bool.
From stdpp Require Import base gmap list numbers option.
From S2P Require Import Prelude Mem MemBytes.
#[local] Open Scope Z_scope.

(** [blen]: the bytes behind the header. *)
Record block := mkBlock { blen : Z; inuse : bool }.

Section Blocks.
Context {MC : MemConfig}.
#[local] Abbreviation SZ := SIZEOF_STRUCT_MEM.

Fixpoint place (p : Z) (bs : list block) : list (Z * block) :=
  match bs with [] => [] | b :: r => (p, b) :: place (p + SZ + blen b) r end.

Fixpoint span (bs : list block) : Z := match bs with [] => 0 | b :: r => SZ + blen b + span r end.

(** The last block from [p] on, when the one before [p] is [pr]. *)
Fixpoint last_start (pr p : Z) (bs : list block) : Z :=
  match bs with [] => pr | b :: r => last_start p (p + SZ + blen b) r end.

Fixpoint seg (H : gmap Z hdr) (pr p : Z) (bs : list block) : Prop :=
  match bs with
  | [] => True
  | b :: r => H !! p = Some (mkHdr (p + SZ + blen b) pr (c_bool (inuse b))) /\
              seg H p (p + SZ + blen b) r
  end.

(** The blocks up to the end of the heap; nothing reads [prev] there. *)
Fixpoint chain (H : gmap Z hdr) (pr p : Z) (bs : list block) : Prop :=
  match bs with
  | [] => p = MEM_SIZE /\ exists n pr', H !! p = Some (mkHdr n pr' 1)
  | b :: r => H !! p = Some (mkHdr (p + SZ + blen b) pr (c_bool (inuse b))) /\
              chain H p (p + SZ + blen b) r
  end.

Definition lens (bs : list block) : Prop := Forall (fun b => 0 <= blen b) bs.

(** No two free blocks touch. *)
Fixpoint norm (bs : list block) : Prop :=
  match bs with
  | b :: (c :: _) as r => (inuse b = true \/ inuse c = true) /\ norm r
  | _ => True
  end.

(** The block at the end is free: the front of a block is given out only when
    there is room for another header behind it. *)
Fixpoint ends_free (bs : list block) : Prop :=
  match bs with
  | [] => False
  | [b] => inuse b = false
  | _ :: r => ends_free r
  end.

(** A free block joined with the free blocks around it. *)
Definition plug_fwd (b : block) (r : list block) : list block :=
  match r with
  | c :: r' => if inuse c then b :: r else mkBlock (blen b + SZ + blen c) (inuse b) :: r'
  | [] => [b]
  end.

Fixpoint plug (bs : list block) (b : block) (r : list block) : list block :=
  match bs with
  | [] => plug_fwd b r
  | [a] => if inuse a then a :: plug_fwd b r
           else match plug_fwd b r with
                | c :: r' => mkBlock (blen a + SZ + blen c) false :: r'
                | [] => [a]
                end
  | a :: bs' => a :: plug bs' b r
  end.

(** ** Lists *)

Lemma place_app p bs r : place p (bs ++ r) = place p bs ++ place (p + span bs) r.
Proof.
  revert p. induction bs as [|b bs IH]; intros p; cbn [place span app]; [now rewrite Z.add_0_r|].
  rewrite IH. do 3 f_equal. lia.
Qed.

Lemma span_app bs r : span (bs ++ r) = span bs + span r.
Proof. induction bs as [|b bs IH]; cbn [span app]; lia. Qed.

Lemma last_start_app pr p bs b : last_start pr p (bs ++ [b]) = p + span bs.
Proof. revert pr p. induction bs as [|c bs IH]; intros pr p; cbn [last_start span app]; [lia|]. rewrite IH. lia. Qed.

Lemma seg_app H pr p bs r : seg H pr p (bs ++ r) <-> seg H pr p bs /\ seg H (last_start pr p bs) (p + span bs) r.
Proof.
  revert pr p. induction bs as [|b bs IH]; intros pr p; cbn [seg app last_start span].
  - rewrite Z.add_0_r. tauto.
  - rewrite IH. replace (p + (SZ + blen b + span bs)) with (p + SZ + blen b + span bs) by lia. tauto.
Qed.

Lemma chain_app H pr p bs r : chain H pr p (bs ++ r) <-> seg H pr p bs /\ chain H (last_start pr p bs) (p + span bs) r.
Proof.
  revert pr p. induction bs as [|b bs IH]; intros pr p; cbn [seg chain app last_start span].
  - rewrite Z.add_0_r. tauto.
  - rewrite IH. replace (p + (SZ + blen b + span bs)) with (p + SZ + blen b + span bs) by lia. tauto.
Qed.

Lemma chain_span H pr p bs : chain H pr p bs -> p + span bs = MEM_SIZE.
Proof. revert pr p. induction bs as [|b bs IH]; intros pr p; cbn [chain span]; [lia|]. intros [_ C%IH]. lia. Qed.

Lemma lens_app bs r : lens (bs ++ r) <-> lens bs /\ lens r.
Proof. apply Forall_app. Qed.

Lemma norm_app bs b r : norm (bs ++ b :: r) <-> norm (bs ++ [b]) /\ norm (b :: r).
Proof.
  induction bs as [|a [|c bs] IH]; cbn [app norm] in *; [destruct r; tauto | destruct r; cbn; tauto |]. tauto.
Qed.

Lemma ends_free_app bs b r : ends_free (bs ++ b :: r) <-> ends_free (b :: r).
Proof. induction bs as [|a [|c bs] IH]; cbn [app ends_free] in *; [tauto..|]. exact IH. Qed.

Lemma norm_same b c r : inuse b = inuse c -> norm (b :: r) -> norm (c :: r).
Proof. destruct r; cbn; [tauto|]. intros ->. tauto. Qed.

Lemma norm_same_last bs b c : inuse b = inuse c -> norm (bs ++ [b]) -> norm (bs ++ [c]).
Proof. intros E. induction bs as [|a [|d bs] IH]; cbn [app norm] in *; rewrite ?E; tauto. Qed.

Lemma plug_snoc bs a b r : plug (bs ++ [a]) b r =
  bs ++ (if inuse a then a :: plug_fwd b r
         else match plug_fwd b r with c :: r' => mkBlock (blen a + SZ + blen c) false :: r' | [] => [a] end).
Proof.
  induction bs as [|d [|e bs] IH]; cbn [plug app] in *; [reflexivity..|].
  destruct (bs ++ [a]) eqn:E; [now destruct bs|]. f_equal. exact IH.
Qed.

Context {ML : MemLaws}.

Lemma sz_pos : 6 <= SZ <= 16.
Proof. apply layout. Qed.

Lemma span_nonneg bs : lens bs -> 0 <= span bs.
Proof. pose proof sz_pos. induction 1; cbn [span]; lia. Qed.

(** A block of a list, and its neighbours. *)
Lemma place_split p bs q b : (q, b) ∈ place p bs -> exists bs1 bs2, bs = bs1 ++ b :: bs2 /\ q = p + span bs1.
Proof.
  revert p. induction bs as [|c bs IH]; intros p; cbn [place]; [now intros ?%elem_of_nil|].
  rewrite elem_of_cons. intros [E | (bs1 & bs2 & -> & ->)%IH].
  - injection E as -> ->. exists [], bs. cbn. split; [reflexivity | lia].
  - exists (c :: bs1), bs2. cbn [app span]. split; [reflexivity | lia].
Qed.

Lemma place_in p bs1 b bs2 : (p + span bs1, b) ∈ place p (bs1 ++ b :: bs2).
Proof. rewrite place_app, elem_of_app. right. now left. Qed.

Lemma place_range p bs q b : lens bs -> (q, b) ∈ place p bs -> p <= q /\ q + SZ + blen b <= p + span bs /\ 0 <= blen b.
Proof.
  intros L (bs1 & bs2 & -> & ->)%place_split. apply lens_app in L as [L1 L2].
  inversion L2 as [|? ? Lb L3]; subst. rewrite span_app. cbn [span].
  pose proof (span_nonneg _ L1). pose proof (span_nonneg _ L3). lia.
Qed.

(** Two blocks are the same or do not meet. *)
Lemma place_apart p bs q b r c : lens bs -> (q, b) ∈ place p bs -> (r, c) ∈ place p bs ->
  (q = r /\ b = c) \/ q + SZ + blen b <= r \/ r + SZ + blen c <= q.
Proof.
  pose proof sz_pos as Hsz. revert p. induction bs as [|d bs IH]; intros p L; cbn [place]; [now intros ?%elem_of_nil|].
  inversion L as [|? ? Ld L']; subst. rewrite !elem_of_cons. intros [E1 | H1] [E2 | H2].
  - left. split; congruence.
  - injection E1 as -> ->. pose proof (place_range _ _ _ _ L' H2). lia.
  - injection E2 as -> ->. pose proof (place_range _ _ _ _ L' H1). lia.
  - now apply (IH (p + SZ + blen d)).
Qed.

(** ** Frames *)

Lemma seg_ext H H' pr p bs : lens bs -> (forall k, p <= k < p + span bs -> H' !! k = H !! k) ->
  seg H pr p bs -> seg H' pr p bs.
Proof.
  pose proof sz_pos as Hsz. revert pr p. induction bs as [|b bs IH]; intros pr p L E; cbn [seg span] in *; [auto|].
  inversion L as [|? ? Lb L']; subst. pose proof (span_nonneg _ L').
  intros [Ep S]. rewrite E by lia. split; [exact Ep|]. apply IH; [assumption | intros; apply E; lia | assumption].
Qed.

Lemma chain_ext H H' pr p bs : lens bs -> (forall k, p <= k -> H' !! k = H !! k) ->
  chain H pr p bs -> chain H' pr p bs.
Proof.
  pose proof sz_pos as Hsz. revert pr p. induction bs as [|b bs IH]; intros pr p L E; cbn [chain]; [|inversion L as [|? ? Lb L']; subst].
  - rewrite E by lia. auto.
  - intros [Ep S]. rewrite E by lia. split; [exact Ep|]. apply IH; [assumption | intros; apply E; lia | assumption].
Qed.

(** The header at the start of a chain, and a new [prev] in it. *)
Lemma chain_head H pr p bs : chain H pr p bs -> exists h, H !! p = Some h /\
  h_used h = match bs with b :: _ => c_bool (inuse b) | [] => 1 end /\
  match bs with b :: _ => h_next h = p + SZ + blen b | [] => p = MEM_SIZE end.
Proof.
  destruct bs as [|b bs]; cbn [chain].
  - intros (E & n & pr' & Eh). eauto 10.
  - intros [E _]. eauto 10.
Qed.

Lemma chain_insert H pr p bs k h : lens bs -> k < p -> chain H pr p bs -> chain (<[k := h]> H) pr p bs.
Proof. intros L Hk. apply (chain_ext _ _ _ _ _ L). intros j Hj. apply lookup_insert_ne. lia. Qed.

Lemma chain_set_prev H pr pr' p bs h : lens bs -> chain H pr p bs -> H !! p = Some h ->
  chain (<[p := mkHdr (h_next h) pr' (h_used h)]> H) pr' p bs.
Proof.
  pose proof sz_pos. destruct bs as [|b bs]; cbn [chain]; intros L C E.
  - destruct C as (E' & n & pr2 & E2). rewrite E in E2. injection E2 as ->. split; [exact E'|].
    rewrite lookup_insert_eq. cbn. eauto.
  - destruct C as [E2 C]. rewrite E in E2. injection E2 as ->. rewrite lookup_insert_eq. cbn. split; [reflexivity|].
    inversion L; subst. apply chain_insert; [assumption | lia | exact C].
Qed.

(** ** The invariant *)

(** [H] is the headers of the blocks and the one at the end. *)
Definition only_blocks (H : gmap Z hdr) (bs : list block) : Prop :=
  forall k h, H !! k = Some h -> k = MEM_SIZE \/ exists b, (k, b) ∈ place 0 bs.

(** [lfree] is a free block. *)
Definition free_at (bs : list block) (l : Z) : Prop := exists b, (l, b) ∈ place 0 bs /\ inuse b = false.

(** "pointer to the lowest free block". *)
Definition lowest (bs : list block) (l : Z) : Prop :=
  forall q b, (q, b) ∈ place 0 bs -> inuse b = false -> l <= q.

(** The bytes of the blocks in use. *)
Definition data (bs : list block) (a : Z) : Prop :=
  exists q b, (q, b) ∈ place 0 bs /\ inuse b = true /\ q + SZ <= a < q + SZ + blen b.

(** What a change of the list and of [lfree] must keep. *)
Definition lfree_follows (bs : list block) (l : Z) (bs' : list block) (l' : Z) : Prop :=
  (free_at bs l -> free_at bs' l') /\ (lowest bs l -> lowest bs' l').

Record heap_ok (st : heap) (bs : list block) : Prop := {
  ok_hdrs : exists H, held (fun _ => False) (ram st) st H /\ chain H 0 0 bs /\ only_blocks H bs;
  ok_lens : lens bs;
  ok_norm : norm bs;
  ok_last : ends_free bs;
  ok_lfree : free_at bs (lfree st);
  ok_end : ram_end st = MEM_SIZE;
  ok_sem : mem_sem st = 1
}.

Lemma end_in : 0 <= MEM_SIZE /\ MEM_SIZE + SZ <= ram_bytes.
Proof. pose proof size_ok. pose proof sz_pos. pose proof align_pos. unfold ram_bytes. destruct layout as (_ & _ & _ & _ & -> & _). lia. Qed.

Lemma blocks_total H bs : chain H 0 0 bs -> span bs = MEM_SIZE.
Proof. intros C%chain_span. lia. Qed.

(** A header of the map does not meet the inside of a block. *)
Lemma only_blocks_apart H bs1 b bs2 k h : lens (bs1 ++ b :: bs2) -> chain H 0 0 (bs1 ++ b :: bs2) -> only_blocks H (bs1 ++ b :: bs2) ->
  H !! k = Some h -> k = span bs1 \/ k + SZ <= span bs1 \/ span bs1 + SZ + blen b <= k.
Proof.
  intros L C X E. pose proof sz_pos. pose proof (place_in 0 bs1 b bs2) as P.
  pose proof (place_range _ _ _ _ L P) as R. rewrite (blocks_total _ _ C) in R.
  destruct (X _ _ E) as [-> | [c Hc]]; [lia|]. pose proof (place_range _ _ _ _ L Hc).
  destruct (place_apart _ _ _ _ _ _ L P Hc) as [[Ep _] | ]; lia.
Qed.

(** ** Joining two free blocks *)

Lemma lens_join bs a b r : lens (bs ++ a :: b :: r) -> lens (bs ++ mkBlock (blen a + SZ + blen b) (inuse a) :: r).
Proof.
  pose proof sz_pos. rewrite !lens_app. intros [L1 L2]. split; [exact L1|].
  inversion L2 as [|? ? La L3]; subst. inversion L3 as [|? ? Lb L4]; subst. constructor; cbn; [lia | exact L4].
Qed.

(** The blocks of the joined list are those of the old one but for the two. *)
Lemma place_join bs a b r i q c : let p := span bs in
  (q, c) ∈ place 0 (bs ++ mkBlock (blen a + SZ + blen b) i :: r) <->
  (q = p /\ c = mkBlock (blen a + SZ + blen b) i) \/
  (q, c) ∈ place 0 bs \/ (q, c) ∈ place (p + SZ + blen a + SZ + blen b) r.
Proof.
  intros p. rewrite place_app, elem_of_app. cbn [place blen]. rewrite elem_of_cons.
  replace (0 + span bs + SZ + (blen a + SZ + blen b)) with (p + SZ + blen a + SZ + blen b) by (subst p; lia).
  split; intros [? | ?]; [tauto | | | tauto].
  - destruct H as [E | ?]; [left; injection E as -> ->; subst p; split; [lia | reflexivity] | tauto].
  - destruct H as [-> ->]. right. left. f_equal.
Qed.

Lemma place_two bs a b r q c : let p := span bs in
  (q, c) ∈ place 0 (bs ++ a :: b :: r) <->
  (q = p /\ c = a) \/ (q = p + SZ + blen a /\ c = b) \/
  (q, c) ∈ place 0 bs \/ (q, c) ∈ place (p + SZ + blen a + SZ + blen b) r.
Proof.
  intros p. rewrite place_app, elem_of_app. cbn [place]. rewrite !elem_of_cons.
  replace (0 + span bs) with p by (subst p; lia).
  split.
  - intros [? | [E | [E | ?]]]; [tauto | injection E as -> ->; tauto | injection E as -> ->; tauto | tauto].
  - intros [[-> ->] | [[-> ->] | [? | ?]]]; tauto.
Qed.

Lemma join_used bs a b r q c : inuse a = false -> inuse b = false -> inuse c = true ->
  (q, c) ∈ place 0 (bs ++ mkBlock (blen a + SZ + blen b) false :: r) <-> (q, c) ∈ place 0 (bs ++ a :: b :: r).
Proof.
  intros Fa Fb Uc. rewrite place_join, place_two. split.
  - intros [[_ ->] | ?]; [discriminate | tauto].
  - intros [[_ ->] | [[_ ->] | ?]]; [congruence | congruence | tauto].
Qed.

Lemma join_lfree bs a b r l : lens (bs ++ a :: b :: r) -> span (bs ++ a :: b :: r) = MEM_SIZE ->
  inuse a = false -> inuse b = false ->
  lfree_follows (bs ++ a :: b :: r) l (bs ++ mkBlock (blen a + SZ + blen b) false :: r)
    (if l =? span bs + SZ + blen a then span bs else l).
Proof.
  intros L T Fa Fb. pose proof sz_pos. apply lens_app in L as [L1 L2].
  inversion L2 as [|? ? La L3]; subst. inversion L3 as [|? ? Lb L4]; subst.
  pose proof (span_nonneg _ L1). pose proof (span_nonneg _ L4). rewrite span_app in T. cbn [span] in T.
  split_and!.
  - intros (c & Hc & Fc). destruct (Z.eqb_spec l (span bs + SZ + blen a)).
    + eexists. rewrite place_join. split; [left; split; reflexivity | reflexivity].
    + rewrite place_two in Hc. destruct Hc as [[-> ->] | [[-> ->] | Hc]]; [| lia |].
      * eexists. rewrite place_join. split; [left; split; reflexivity | reflexivity].
      * exists c. rewrite place_join. tauto.
  - intros Lo q c Hc Fc. assert (l <= q).
    { rewrite place_join in Hc. destruct Hc as [[-> _] | Hc]; [apply (Lo _ a) | apply (Lo q c)];
        rewrite ?place_two; tauto. }
    destruct (Z.eqb_spec l (span bs + SZ + blen a)); lia.
Qed.

(** ** Splitting a block *)

Lemma place_two' bs a b r q c n : n = blen a + SZ + blen b ->
  (q, c) ∈ place 0 (bs ++ a :: b :: r) <->
  (q = span bs /\ c = a) \/ (q = span bs + SZ + blen a /\ c = b) \/
  (q, c) ∈ place 0 bs \/ (q, c) ∈ place (span bs + SZ + n) r.
Proof.
  intros ->. pose proof (place_two bs a b r q c) as E. cbv zeta in E. rewrite E.
  now replace (span bs + SZ + blen a + SZ + blen b) with (span bs + SZ + (blen a + SZ + blen b)) by lia.
Qed.

Lemma place_one bs b r q c : (q, c) ∈ place 0 (bs ++ b :: r) <->
  (q = span bs /\ c = b) \/ (q, c) ∈ place 0 bs \/ (q, c) ∈ place (span bs + SZ + blen b) r.
Proof.
  rewrite place_app, elem_of_app. cbn [place]. rewrite elem_of_cons, Z.add_0_l.
  split; [intros [? | [E | ?]]; [tauto | injection E as -> ->; tauto | tauto] | intros [[-> ->] | [? | ?]]; tauto].
Qed.

Lemma chain_split H H' bs b r s u p q n : lens (bs ++ b :: r) -> chain H 0 0 (bs ++ b :: r) -> only_blocks H (bs ++ b :: r) ->
  0 <= s -> s + SZ <= blen b -> p = span bs -> q = p + SZ + s -> n = p + SZ + blen b ->
  (forall k, k <> p -> k <> q -> k <> n -> H' !! k = H !! k) ->
  H' !! p = Some (mkHdr q (last_start 0 0 bs) (c_bool u)) -> H' !! q = Some (mkHdr n p 0) ->
  (forall h, H !! n = Some h -> H' !! n = Some (mkHdr (h_next h) (if n =? MEM_SIZE then h_prev h else q) (h_used h))) ->
  let bs' := bs ++ mkBlock s u :: mkBlock (blen b - s - SZ) false :: r in
  lens bs' /\ chain H' 0 0 bs' /\ only_blocks H' bs'.
Proof.
  intros L C X Hs Hb Dp Dq Dn Same Ep Eq En bs'. pose proof sz_pos.
  pose proof (chain_span _ _ _ _ C) as T. rewrite span_app in T. cbn [span] in T.
  apply chain_app in C as [S [Eb C]]. rewrite Z.add_0_l, <- Dp in *. rewrite <- Dn in *.
  pose proof L as L'. apply lens_app in L' as [L1 L2]. inversion L2 as [|? ? Lb L3]. subst x l.
  pose proof (span_nonneg _ L1). pose proof (span_nonneg _ L3). split_and!.
  - apply lens_app. split; [exact L1|]. repeat constructor; cbn [blen]; [lia | lia | exact L3].
  - apply chain_app. rewrite Z.add_0_l, <- Dp. split.
    + apply (seg_ext H); [exact L1 | intros; apply Same; lia | exact S].
    + cbn [chain blen inuse]. rewrite <- Dq. replace (q + SZ + (blen b - s - SZ)) with n by lia.
      split_and!; [exact Ep | exact Eq |]. destruct r as [|c r]; cbn [chain span] in *.
      * destruct C as (EM & n' & pr' & Eh). split; [exact EM|]. rewrite (En _ Eh). cbn. eauto.
      * destruct C as [Eh C]. inversion L3 as [|? ? Lc L4]. subst x l. pose proof (span_nonneg _ L4). rewrite (En _ Eh). cbn.
        replace (n =? MEM_SIZE) with false by lia. split; [reflexivity|].
        apply (chain_ext H); [exact L4 | intros; apply Same; lia | exact C].
  - intros k h Hk. subst bs'. setoid_rewrite place_two'; [|reflexivity]. cbn [blen]. rewrite <- Dp.
    destruct (decide (k = p)) as [-> | N1]; [right; eexists; left; split; reflexivity|].
    destruct (decide (k = q)) as [-> | N2]; [right; eexists; right; left; split; [lia | reflexivity]|].
    assert (Ek : exists h', H !! k = Some h').
    { destruct (decide (k = n)) as [-> | N3]; [|rewrite Same in Hk by assumption; eauto].
      destruct (chain_head _ _ _ _ C) as (h' & Eh & _). eauto. }
    destruct Ek as [h' Ek]. destruct (X _ _ Ek) as [-> | [c Hc]]; [now left | right].
    rewrite place_one, <- Dp in Hc. destruct Hc as [[-> _] | Hc]; [lia|]. exists c. right. right.
    replace (s + SZ + (blen b - s - SZ)) with (blen b) by lia. exact Hc.
Qed.

(** ** What [plug] keeps *)

Lemma plug_fwd_cons b r : exists c r', plug_fwd b r = c :: r' /\ inuse c = inuse b.
Proof. destruct r as [|c r]; cbn; [|destruct (inuse c)]; eauto. Qed.

Lemma plug_used bs b r q c : inuse b = false -> inuse c = true ->
  (q, c) ∈ place 0 (plug bs b r) <-> (q, c) ∈ place 0 (bs ++ b :: r).
Proof.
  intros Fb Uc.
  assert (Fw : (q, c) ∈ place 0 (bs ++ plug_fwd b r) <-> (q, c) ∈ place 0 (bs ++ b :: r)).
  { destruct r as [|d r]; cbn [plug_fwd]; [tauto|]. destruct (inuse d) eqn:Ud; [tauto|]. rewrite Fb. now apply join_used. }
  rewrite <- Fw. destruct (plug_fwd_cons b r) as (d & r' & Ed & Ud).
  destruct bs as [|a bs _] using rev_ind; [reflexivity|]. rewrite plug_snoc, <- app_assoc, Ed. cbn [app].
  destruct (inuse a) eqn:Ua; [reflexivity|]. apply join_used; congruence.
Qed.

Lemma plug_norm bs b r : inuse b = false -> norm bs -> norm r -> norm (plug bs b r).
Proof.
  intros Fb Nb Nr. assert (Nf : norm (plug_fwd b r)).
  { destruct r as [|c r]; cbn [plug_fwd]; [exact I|]. destruct (inuse c) eqn:Uc; [cbn [norm]; tauto|].
    rewrite Fb. now apply (norm_same c). }
  destruct (plug_fwd_cons b r) as (d & r' & Ed & Ud). rewrite Ed in Nf.
  destruct bs as [|a bs _] using rev_ind; [cbn; now rewrite Ed|]. rewrite plug_snoc, Ed.
  destruct (inuse a) eqn:Ua.
  - apply norm_app. split; [exact Nb|]. cbn [norm]. tauto.
  - apply norm_app. split; [now apply (norm_same_last _ a) | apply (norm_same d); [cbn; congruence | exact Nf]].
Qed.

Lemma plug_lens bs b r : lens (bs ++ b :: r) -> lens (plug bs b r).
Proof.
  intros L. pose proof sz_pos. assert (Lf : lens (bs ++ plug_fwd b r)).
  { destruct r as [|c r]; cbn [plug_fwd]; [exact L|]. destruct (inuse c); [exact L | now apply lens_join]. }
  destruct (plug_fwd_cons b r) as (d & r' & Ed & _). rewrite Ed in Lf.
  destruct bs as [|a bs _] using rev_ind; [cbn; now rewrite Ed|]. rewrite plug_snoc, Ed. rewrite <- app_assoc in Lf.
  destruct (inuse a) eqn:Ua; [exact Lf|]. rewrite <- Ua. now apply lens_join.
Qed.

Lemma plug_ends bs b r : inuse b = false -> ends_free (b :: r) -> ends_free (plug bs b r).
Proof.
  intros Fb En. assert (Ef : ends_free (plug_fwd b r)).
  { destruct r as [|c r]; cbn [plug_fwd]; [exact En|]. destruct (inuse c); [exact En|]. destruct r; cbn in *; assumption. }
  destruct (plug_fwd_cons b r) as (d & r' & Ed & _). rewrite Ed in Ef.
  destruct bs as [|a bs _] using rev_ind; [cbn; now rewrite Ed|]. rewrite plug_snoc, Ed. destruct (inuse a).
  - now apply ends_free_app.
  - apply ends_free_app. destruct r'; cbn in *; [reflexivity | exact Ef].
Qed.

Lemma lfree_follows_refl bs l : lfree_follows bs l bs l.
Proof. unfold lfree_follows. tauto. Qed.

Lemma lfree_follows_trans bs1 l1 bs2 l2 bs3 l3 :
  lfree_follows bs1 l1 bs2 l2 -> lfree_follows bs2 l2 bs3 l3 -> lfree_follows bs1 l1 bs3 l3.
Proof. unfold lfree_follows. tauto. Qed.
End Blocks.
