(* ===== verification/MemOps.v ===== *)
(** * The calls of the heap on its list of blocks

    What [plug_holes], [mem_free], [mem_malloc] and [mem_realloc] do to the list
    of [MemChain], one lemma per function; no C code. *)
From Stdlib Require Import ZArith Lia List Bool.
From stdpp Require Import base gmap list numbers option.
From S2P Require Import Prelude Mem MemBytes MemChain.
#[local] Open Scope Z_scope.
#[local] Open Scope sm_scope.

(** Look an updated map up. *)
Ltac ins := repeat (rewrite lookup_insert_eq || rewrite lookup_insert_ne by lia).

Section Plug.
Context {MC : MemConfig} {ML : MemLaws}.
#[local] Abbreviation SZ := SIZEOF_STRUCT_MEM.

(** A state within a call: the headers, the list, and the bytes [P] of [m0]. *)
Record working (P : Z -> Prop) (m0 : gmap Z Z) (st : heap) (H : gmap Z hdr) (bs : list block) : Prop := {
  w_held : held P m0 st H;
  w_chain : chain H 0 0 bs;
  w_only : only_blocks H bs;
  w_lens : lens bs;
  w_end : ram_end st = MEM_SIZE
}.

Lemma working_other P m0 st st' H bs : ram st' = ram st -> ram_end st' = ram_end st ->
  working P m0 st H bs -> working P m0 st' H bs.
Proof. intros E1 E2 [A B C D F]. split; [now apply (held_other _ _ st) | assumption.. | congruence]. Qed.

(** The header of a block, and the one behind it. *)
Lemma working_at P m0 st H bs1 b r p q : working P m0 st H (bs1 ++ b :: r) ->
  p = span bs1 -> q = p + SZ + blen b ->
  H !! p = Some (mkHdr q (last_start 0 0 bs1) (c_bool (inuse b))) /\
  seg H 0 0 bs1 /\ chain H p q r /\ lens bs1 /\ 0 <= blen b /\ lens r /\ 0 <= p /\ q + span r = MEM_SIZE.
Proof.
  intros [_ C _ L _] -> ->. pose proof (chain_span _ _ _ _ C) as T. apply chain_app in C as [S [Eh C]]. rewrite Z.add_0_l in *.
  apply lens_app in L as [L1 L2]. inversion L2 as [|? ? Lb L3]; subst.
  pose proof (span_nonneg _ L1). split_and!; try assumption.
  rewrite span_app in T. cbn [span] in T. lia.
Qed.

(** The common end of the two halves of [plug_holes]. *)
Definition join_code (p q : Z) : SM heap unit :=
  st <- sm_get ;;
  (if lfree st =? q then sm_modify (with_lfree p) else sm_ret tt) ;;
  n <- get_next q ;; set_next p n ;;
  n <- get_next q ;; set_prev n p.

Lemma join_ok P m0 st H bs a b r p q : working P m0 st H (bs ++ a :: b :: r) -> inuse a = false -> inuse b = false ->
  p = span bs -> q = p + SZ + blen a ->
  exists m' H', join_code p q st = Some (tt, with_ram m' (if lfree st =? q then with_lfree p st else st)) /\
    working P m0 (with_ram m' (if lfree st =? q then with_lfree p st else st)) H'
      (bs ++ mkBlock (blen a + SZ + blen b) false :: r).
Proof.
  intros W Fa Fb Dp Dq. pose proof sz_pos as Hsz. pose proof size_ok as Hsize.
  destruct (working_at _ _ _ _ _ _ _ _ _ W Dp Dq) as (Ep & S & [Eq C] & L1 & La & Lbr & Hp & T).
  inversion Lbr as [|? ? Lb Lr]. subst x l. set (n := q + SZ + blen b) in *. cbn [span] in T.
  pose proof (span_nonneg _ Lr) as Hr.
  set (st1 := if lfree st =? q then with_lfree p st else st).
  assert (K1 : held P m0 st1 H) by (apply (held_other _ _ st), W; subst st1; now destruct (lfree st =? q)).
  assert (En1 : ram_end st1 = MEM_SIZE) by (subst st1; destruct (lfree st =? q); apply W).
  destruct (set_next_ok P m0 st1 H p _ n K1 Ep ltac:(lia)) as (m1 & E1 & K2). cbn [h_prev h_used] in K2.
  set (H1 := <[p := _]> H) in K2.
  assert (Eq1 : H1 !! q = H !! q) by (unfold H1; rewrite lookup_insert_ne by lia; reflexivity). rewrite Eq in Eq1.
  assert (C1 : chain H1 q n r) by (apply chain_insert; [exact Lr | lia | exact C]).
  destruct (chain_head _ _ _ _ C1) as (h & Eh & _).
  destruct (set_prev_ok P m0 _ H1 n h p K2 Eh ltac:(lia)) as (m2 & E2 & K3).
  set (H2 := <[n := _]> H1) in K3.
  exists m2, (delete q H2). fold st1. split.
  - unfold join_code. unfold sm_bind at 1, sm_get. rewrite (sm_bind_some _ _ st tt st1).
    2:{ subst st1. destruct (lfree st =? q); reflexivity. }
    rewrite (sm_bind_some _ _ _ n st1) by exact (get_next_ok _ _ _ _ _ _ K1 Eq).
    rewrite (sm_bind_some _ _ _ _ _ E1).
    rewrite (sm_bind_some _ _ _ n (with_ram m1 st1)) by exact (get_next_ok _ _ _ _ _ _ K2 Eq1).
    exact E2.
  - split; [apply (held_subset _ _ _ H2), K3; apply delete_subseteq | | | pose proof (lens_join _ _ _ _ (w_lens _ _ _ _ _ W)) as L; now rewrite Fa in L | exact En1].
    + rewrite chain_app. split.
      * apply (seg_ext H); [exact L1 | | exact S]. intros k Hk. unfold H2, H1.
        rewrite lookup_delete_ne, !lookup_insert_ne by lia. reflexivity.
      * rewrite Z.add_0_l, <- Dp. cbn [chain blen inuse].
        replace (p + SZ + (blen a + SZ + blen b)) with n by lia. split.
        -- rewrite lookup_delete_ne by lia. unfold H2. rewrite lookup_insert_ne by lia.
           unfold H1. rewrite lookup_insert_eq. now rewrite Fa.
        -- apply (chain_ext H2); [exact Lr | intros; apply lookup_delete_ne; lia |]. apply (chain_set_prev _ q); assumption.
    + intros k hk. rewrite lookup_delete_Some. intros [Nk Hk]. unfold H2, H1 in Hk.
      assert (Ek : is_Some (H !! k)).
      { rewrite !lookup_insert_Some in Hk. destruct Hk as [[<- _] | [_ [[<- _] | [_ ->]]]]; [|eauto..].
        unfold H1 in Eh. rewrite lookup_insert_ne in Eh by lia. eauto. }
      destruct Ek as [hk' Ek]. destruct (w_only _ _ _ _ _ W _ _ Ek) as [-> | [c Hc]]; [now left | right].
      rewrite place_two, <- Dp in Hc.
      destruct Hc as [[-> _] | [[-> _] | Hc]]; [| lia |].
      * eexists. apply place_join. left. split; [exact Dp | reflexivity].
      * exists c. apply place_join. right. rewrite <- Dp. exact Hc.
Qed.

(** The list after the first half of [plug_holes], and after both. *)
Lemma plug_forward_ok P m0 st H bs b r p : working P m0 st H (bs ++ b :: r) -> inuse b = false -> p = span bs ->
  exists st' H', plug_forward p st = Some (tt, st') /\ working P m0 st' H' (bs ++ plug_fwd b r) /\
    mem_sem st' = mem_sem st /\ lfree_follows (bs ++ b :: r) (lfree st) (bs ++ plug_fwd b r) (lfree st') /\
    (lfree st <> p + SZ + blen b -> lfree st' = lfree st).
Proof.
  intros W Fb Dp. pose proof sz_pos. remember (p + SZ + blen b) as q eqn:Dq.
  destruct (working_at _ _ _ _ _ _ _ _ _ W Dp Dq) as (Ep & _ & C & _ & Lb & Lr & Hp & T).
  pose proof (w_held _ _ _ _ _ W) as K. pose proof (span_nonneg _ Lr). destruct (chain_head _ _ _ _ C) as (h & Eh & Uh & _).
  unfold plug_forward. erewrite (sm_bind_some (get_next p)) by exact (get_next_ok _ _ _ _ _ _ K Ep). cbn [h_next].
  replace (p =? q) with false by lia. cbn [negb].
  assert (Es : forall k, sm_bind (u <- get_used q ;; st <- sm_get ;; sm_ret ((u =? 0) && negb (q =? ram_end st))) k st
                 = k ((h_used h =? 0) && negb (q =? MEM_SIZE)) st :> option (unit * heap)).
  { intros k. unfold sm_bind at 1 2. rewrite (get_used_ok _ _ _ _ _ _ K Eh). unfold sm_bind, sm_get, sm_ret. now rewrite (w_end _ _ _ _ _ W). }
  rewrite Es. clear Es. destruct r as [|c r]; [|destruct (inuse c) eqn:Uc]; cbn [plug_fwd]; rewrite ?Uc.
  - rewrite Uh. cbn [Z.eqb andb]. exists st, H. unfold sm_ret. auto 6 using lfree_follows_refl.
  - rewrite Uh. cbn [c_bool Z.eqb andb]. exists st, H. unfold sm_ret. auto 6 using lfree_follows_refl.
  - cbn [span] in T. inversion Lr; subst x l. pose proof (span_nonneg r ltac:(assumption)).
    rewrite Uh. replace (q =? MEM_SIZE) with false by lia. cbn [c_bool Z.eqb andb negb].
    destruct (join_ok _ _ _ _ _ _ _ _ _ _ W Fb Uc Dp Dq) as (m' & H' & E & W').
    rewrite Fb. eexists _, H'. split; [exact E|]. split; [exact W'|].
    pose proof (join_lfree bs b c r (lfree st) (w_lens _ _ _ _ _ W) (blocks_total _ _ (w_chain _ _ _ _ _ W)) Fb Uc) as J.
    rewrite <- Dp, <- Dq in J. destruct (Z.eqb_spec (lfree st) q); (split; [reflexivity | split; [exact J | now intros N || reflexivity]]).
Qed.

Lemma plug_backward_ok P m0 st H bs b r p : working P m0 st H (bs ++ b :: r) -> inuse b = false -> p = span bs ->
  let bs' := match rev bs with
             | a :: t => rev t ++ if inuse a then a :: b :: r else mkBlock (blen a + SZ + blen b) false :: r
             | [] => b :: r
             end in
  exists st' H', plug_backward p st = Some (tt, st') /\ working P m0 st' H' bs' /\
    mem_sem st' = mem_sem st /\ lfree_follows (bs ++ b :: r) (lfree st) bs' (lfree st') /\
    (lfree st <> p -> lfree st' = lfree st).
Proof.
  intros W Fb Dp bs'. pose proof sz_pos. remember (p + SZ + blen b) as q eqn:Dq.
  destruct (working_at _ _ _ _ _ _ _ _ _ W Dp Dq) as (Ep & _ & _ & L1 & _ & _ & Hp & _).
  pose proof (w_held _ _ _ _ _ W) as K.
  unfold plug_backward. erewrite (sm_bind_some (get_prev p)) by exact (get_prev_ok _ _ _ _ _ _ K Ep). cbn [h_prev].
  destruct bs as [|a t _] using rev_ind.
  - cbn [span] in Dp. subst p bs'. cbn. exists st, H. auto 6 using lfree_follows_refl.
  - rewrite last_start_app, Z.add_0_l in *. subst bs'. rewrite rev_app_distr. cbn [rev app]. rewrite rev_involutive.
    rewrite <- app_assoc in *. cbn [app] in *. rewrite span_app in Dp. cbn [span] in Dp.
    destruct (working_at _ _ _ _ _ _ _ _ _ W eq_refl eq_refl) as (Ea & _ & _ & _ & La & _).
    replace (span t =? p) with false by lia. cbn [negb].
    unfold sm_bind at 1 2. rewrite (get_used_ok _ _ _ _ _ _ K Ea). unfold sm_ret at 1. cbn [h_used].
    destruct (inuse a) eqn:Ua; cbn [c_bool Z.eqb].
    + exists st, H. unfold sm_ret. auto 6 using lfree_follows_refl.
    + destruct (join_ok _ _ _ _ _ _ _ _ _ p W Ua Fb eq_refl ltac:(lia)) as (m' & H' & E & W').
      eexists _, H'. split; [exact E|]. split; [exact W'|].
      pose proof (join_lfree t a b r (lfree st) (w_lens _ _ _ _ _ W) (blocks_total _ _ (w_chain _ _ _ _ _ W)) Ua Fb) as J.
      replace (span t + SZ + blen a) with p in J by lia. destruct (Z.eqb_spec (lfree st) p); (split; [reflexivity | split; [exact J | now intros N || reflexivity]]).
Qed.

Lemma plug_holes_ok P m0 st H bs b r p : working P m0 st H (bs ++ b :: r) -> inuse b = false -> p = span bs ->
  exists st' H', plug_holes p st = Some (tt, st') /\ working P m0 st' H' (plug bs b r) /\
    mem_sem st' = mem_sem st /\ lfree_follows (bs ++ b :: r) (lfree st) (plug bs b r) (lfree st') /\
    (lfree st <> p -> lfree st <> p + SZ + blen b -> lfree st' = lfree st).
Proof.
  intros W Fb Dp. destruct (plug_forward_ok _ _ _ _ _ _ _ _ W Fb Dp) as (st1 & H1 & E1 & W1 & S1 & F1 & K1).
  destruct (plug_fwd_cons b r) as (c & r' & Ec & Uc). rewrite Ec in W1, F1. rewrite Fb in Uc.
  destruct (plug_backward_ok _ _ _ _ _ _ _ _ W1 Uc Dp) as (st2 & H2 & E2 & W2 & S2 & F2 & K2).
  assert (El : match rev bs with
               | a :: t => rev t ++ if inuse a then a :: c :: r' else mkBlock (blen a + SZ + blen c) false :: r'
               | [] => c :: r'
               end = plug bs b r).
  { destruct bs as [|a t _] using rev_ind; [cbn; now rewrite Ec|].
    rewrite plug_snoc, Ec, rev_app_distr. cbn [rev app]. now rewrite rev_involutive. }
  rewrite El in W2, F2. exists st2, H2. split.
  - unfold plug_holes. rewrite (sm_bind_some _ _ _ _ _ E1). exact E2.
  - split_and!; [exact W2 | congruence | eapply lfree_follows_trans; eassumption |].
    intros N1 N2. specialize (K1 N2). rewrite K2; congruence.
Qed.
End Plug.

(** ** The calls *)

Section Calls.
Context {MC : MemConfig} {ML : MemLaws}.
#[local] Abbreviation SZ := SIZEOF_STRUCT_MEM.

(** The state inside [sys_sem_wait] and [sys_sem_signal]. *)
Definition taken : Z := if NO_SYS then 1 else 0.

Lemma sem_wait_ok st : mem_sem st = 1 -> sys_sem_wait st = Some (tt, with_sem taken st).
Proof.
  intros E. unfold sys_sem_wait, taken. destruct st as [m e l s w]. cbn in E. subst s.
  destruct NO_SYS; reflexivity.
Qed.

Lemma signal_ok st : mem_sem st = taken -> sys_sem_signal st = Some (tt, with_sem 1 st).
Proof.
  intros E. unfold sys_sem_signal, taken, sm_modify in *. destruct st as [m e l s w]. cbn in E. subst s.
  destruct NO_SYS; reflexivity.
Qed.

Lemma heap_working P st bs : heap_ok st bs ->
  (forall k b a, (k, b) ∈ place 0 bs -> k <= a < k + SZ -> ~ P a) -> (forall a, P a -> a < MEM_SIZE) ->
  exists H, working P (ram st) st H bs.
Proof.
  intros [(H & K & C & X) L _ _ _ E _] HP HE. exists H. split; [|assumption..].
  apply (held_protect _ _ _ _ _ K). intros k h a Ek Ha Pa.
  destruct (X _ _ Ek) as [-> | [b Hb]]; [specialize (HE _ Pa); lia | exact (HP _ _ _ Hb Ha Pa)].
Qed.

Lemma working_heap P m0 st H bs : working P m0 st H bs -> norm bs -> ends_free bs -> free_at bs (lfree st) ->
  mem_sem st = 1 -> heap_ok st bs.
Proof.
  intros [K C X L E] N En F S. split; try assumption. exists H. split_and!; [|assumption..].
  apply (held_protect _ _ _ _ _ K). tauto.
Qed.

(** The bytes in use are no header's. *)
Lemma data_no_header bs k b a : lens bs -> (k, b) ∈ place 0 bs -> k <= a < k + SZ -> ~ data bs a.
Proof.
  intros L Hk Ha (q & c & Hq & _ & Hc). pose proof (place_range _ _ _ _ L Hk). pose proof (place_range _ _ _ _ L Hq).
  destruct (place_apart _ _ _ _ _ _ L Hk Hq) as [[-> _] | ]; lia.
Qed.

Lemma data_below bs a : lens bs -> span bs = MEM_SIZE -> data bs a -> a < MEM_SIZE.
Proof. intros L T (q & c & Hq & _ & Hc). pose proof (place_range _ _ _ _ L Hq). lia. Qed.

Lemma heap_span st bs : heap_ok st bs -> span bs = MEM_SIZE.
Proof. intros [(H & _ & C & _) _ _ _ _ _ _]. exact (blocks_total _ _ C). Qed.

(** A flag. *)
Lemma set_used_working P m0 st H bs b r p u : working P m0 st H (bs ++ b :: r) -> p = span bs ->
  exists m' H', set_used p (c_bool u) st = Some (tt, with_ram m' st) /\
    working P m0 (with_ram m' st) H' (bs ++ mkBlock (blen b) u :: r).
Proof.
  intros W Dp. pose proof sz_pos. destruct (working_at _ _ _ _ _ _ _ _ _ W Dp eq_refl) as (Ep & S & C & L1 & Lb & Lr & Hp & T).
  destruct (set_used_ok _ _ _ _ _ _ (c_bool u) (w_held _ _ _ _ _ W) Ep) as (m' & E & K); [destruct u; cbn; lia|].
  eexists m', _. split; [exact E|]. cbn [h_next h_prev] in K. split; [exact K | | | | exact (w_end _ _ _ _ _ W)].
  - apply chain_app. rewrite Z.add_0_l, <- Dp. split.
    + apply (seg_ext H); [exact L1 | intros; apply lookup_insert_ne; lia | exact S].
    + cbn [chain blen inuse]. rewrite lookup_insert_eq. split; [reflexivity|].
      apply chain_insert; [exact Lr | lia | exact C].
  - intros k h. rewrite lookup_insert_Some, Dp. setoid_rewrite place_one. cbn [blen]. intros [[<- _] | [Nk Ek]]; [right; eauto|].
    destruct (w_only _ _ _ _ _ W _ _ Ek) as [-> | [c Hc]]; [now left|]. right. rewrite place_one in Hc.
    destruct Hc as [[-> _] | Hc]; [now destruct Nk | eauto].
  - pose proof (w_lens _ _ _ _ _ W) as L. apply lens_app in L as [_ L]. apply lens_app. split; [exact L1|].
    inversion L. now constructor.
Qed.

(** *** [mem_free] *)

Lemma mem_free_ok st bs b r : heap_ok st (bs ++ b :: r) -> inuse b = true ->
  let bs' := plug bs (mkBlock (blen b) false) r in
  exists st', mem_free (Some (span bs + SZ)) st = Some (tt, st') /\ heap_ok st' bs' /\
    (forall a, data (bs ++ b :: r) a -> ram st' !! a = ram st !! a) /\
    (lowest (bs ++ b :: r) (lfree st) -> lowest bs' (lfree st')).
Proof.
  intros K Ub bs'. pose proof sz_pos. pose proof K as [_ L N En Fl Eend Sem].
  destruct (heap_working (data (bs ++ b :: r)) _ _ K) as [H0 W0].
  { intros k c a Hk Ha. exact (data_no_header _ _ _ _ L Hk Ha). }
  { intros a. apply (data_below _ _ L (heap_span _ _ K)). }
  destruct (working_at _ _ _ _ _ _ _ _ _ W0 eq_refl eq_refl) as (_ & _ & _ & L1 & Lb & Lr & Hp & T).
  assert (Er : ends_free r). { apply ends_free_app in En. destruct r; [cbn in En; congruence | exact En]. }
  destruct r as [|c r]; [destruct Er|]. inversion Lr as [|? ? Lc Lr']. subst x l. cbn [span] in T. pose proof (span_nonneg _ Lr').
  unfold mem_free. rewrite (sm_bind_some _ _ _ _ _ (sem_wait_ok _ Sem)).
  set (st0 := with_sem taken st). unfold sm_bind at 1, sm_get at 1. cbn [ram_end st0 with_sem]. rewrite Eend.
  replace ((span bs + SZ <? 0) || (MEM_SIZE <=? span bs + SZ)) with false
    by (destruct (Z.ltb_spec (span bs + SZ) 0), (Z.leb_spec MEM_SIZE (span bs + SZ)); cbn; lia).
  cbv zeta. replace (span bs + SZ - SZ) with (span bs) by lia.
  assert (W1 : working (data (bs ++ b :: c :: r)) (ram st) st0 H0 (bs ++ b :: c :: r)) by (now apply (working_other _ _ st)).
  destruct (set_used_working _ _ _ _ _ _ _ _ false W1 eq_refl) as (m1 & Hm1 & E1 & W2). cbn [c_bool] in E1.
  rewrite (sm_bind_some _ _ _ _ _ E1). unfold sm_bind at 1, sm_get at 1. cbn [lfree with_ram st0 with_sem].
  set (b' := mkBlock (blen b) false) in *.
  set (l := if span bs <? lfree st then span bs else lfree st).
  set (st2 := with_lfree l (with_ram m1 st0)).
  rewrite (sm_bind_some _ _ _ tt st2).
  2:{ subst st2 l. destruct (span bs <? lfree st); [reflexivity|]. unfold sm_ret. now destruct st. }
  assert (W3 : working (data (bs ++ b :: c :: r)) (ram st) st2 Hm1 (bs ++ b' :: c :: r)) by (now apply (working_other _ _ (with_ram m1 st0))).
  destruct (working_at _ _ _ _ _ _ _ _ _ W3 eq_refl eq_refl) as (Ep & _).
  rewrite (sm_bind_some _ _ _ _ _ (get_next_ok _ _ _ _ _ _ (w_held _ _ _ _ _ W3) Ep)). cbn [h_next].
  unfold sm_bind at 1, sm_modify at 1.
  set (st3 := with_mem_stats _ st2).
  assert (W4 : working (data (bs ++ b :: c :: r)) (ram st) st3 Hm1 (bs ++ b' :: c :: r)) by (now apply (working_other _ _ st2)).
  destruct (plug_holes_ok _ _ _ _ _ _ _ _ W4 eq_refl eq_refl) as (st4 & Hm4 & E4 & W5 & S4 & F4 & _).
  rewrite (sm_bind_some _ _ _ _ _ E4). rewrite (signal_ok st4) by (rewrite S4; reflexivity).
  assert (Fl3 : free_at (bs ++ b' :: c :: r) l).
  { subst l. destruct (span bs <? lfree st); [exists b'; split; [apply (place_in 0) | reflexivity]|].
    destruct Fl as (d & Hd & Fd). exists d. rewrite place_one in Hd |- *. split; [|exact Fd].
    destruct Hd as [[_ ->] | Hd]; [congruence | now right]. }
  eexists. split; [reflexivity|]. split_and!.
  - apply (working_heap (data (bs ++ b :: c :: r)) (ram st) _ Hm4); [now apply (working_other _ _ st4) | | | | reflexivity].
    + apply norm_app in N as [N1 N2]. apply plug_norm; [reflexivity | | destruct N2; assumption].
      destruct bs as [|d t _] using rev_ind; [exact I|]. rewrite <- app_assoc in N1. apply norm_app in N1. apply N1.
    + apply plug_ends; [reflexivity | exact Er].
    + apply F4. exact Fl3.
  - exact (held_rest _ _ _ _ (w_held _ _ _ _ _ W5)).
  - intros Lo. apply F4. change (lfree st3) with l. intros q d Hd Fd. rewrite place_one in Hd.
    destruct Hd as [[-> _] | Hd]; [subst l; destruct (Z.ltb_spec (span bs) (lfree st)); lia|].
    assert (lfree st <= q) by (apply (Lo q d); [rewrite place_one; now right | exact Fd]).
    subst l. destruct (Z.ltb_spec (span bs) (lfree st)); lia.
Qed.

(** *** [mem_malloc] *)

(** A block from which [size] bytes can be given out. *)
Definition can_take (size : Z) (b : block) : Prop := inuse b = false /\ size + SZ <= blen b.

#[export] Instance can_take_dec size b : Decision (can_take size b).
Proof. unfold can_take. apply _. Defined.

Lemma block_fits_ok P m0 st H bs b r p size : working P m0 st H (bs ++ b :: r) -> p = span bs -> 0 <= size <= MEM_SIZE ->
  block_fits p size st = Some (bool_decide (can_take size b), st).
Proof.
  intros W Dp Hs. pose proof sz_pos. pose proof size_ok as Hz. destruct (working_at _ _ _ _ _ _ _ _ _ W Dp eq_refl) as (Ep & _ & _ & _ & Lb & Lr & Hp & T).
  pose proof (span_nonneg _ Lr). pose proof (w_held _ _ _ _ _ W) as K. unfold block_fits.
  rewrite (sm_bind_some _ _ _ _ _ (get_used_ok _ _ _ _ _ _ K Ep)). cbn [h_used].
  destruct (inuse b) eqn:Ub; cbn [c_bool Z.eqb].
  - unfold sm_ret. rewrite bool_decide_false; [reflexivity|]. intros [F _]. congruence.
  - rewrite (sm_bind_some _ _ _ _ _ (get_next_ok _ _ _ _ _ _ K Ep)). cbn [h_next]. unfold sm_ret. do 2 f_equal.
    rewrite !wrap_small by (unfold fits; pow2; lia). unfold can_take.
    destruct (Z.leb_spec (size + SZ) (p + SZ + blen b - (p + SZ))), (bool_decide_reflect (inuse b = false /\ size + SZ <= blen b)); first [reflexivity | exfalso; intuition lia].
Qed.

(** The loop stops at the first block that fits, or at the end. *)
Lemma find_block_ok P m0 st H bs r size : working P m0 st H (bs ++ r) -> 0 <= size <= MEM_SIZE -> forall fuel, (length r < fuel)%nat ->
  (exists f b r', r = f ++ b :: r' /\ can_take size b /\ Forall (fun c => ~ can_take size c) f /\
     find_block fuel (span bs) size st = take_block (span (bs ++ f)) size st) \/
  (Forall (fun c => ~ can_take size c) r /\
     find_block fuel (span bs) size st
       = (sm_modify (with_mem_stats count_err) ;; sys_sem_signal ;; sm_ret None) st).
Proof.
  intros W Hs fuel. revert bs fuel W. induction r as [|b r IH]; intros bs fuel W Hf.
  - right. split; [constructor|]. pose proof (chain_span _ _ _ _ (w_chain _ _ _ _ _ W)) as T. rewrite app_nil_r in T.
    destruct fuel; cbn [find_block]; now replace (span bs <? MEM_SIZE) with false by lia.
  - destruct fuel as [|fuel]; [cbn in Hf; lia|]. cbn [length] in Hf. pose proof sz_pos.
    destruct (working_at _ _ _ _ _ _ _ _ _ W eq_refl eq_refl) as (Ep & _ & _ & _ & Lb & Lr & Hp & T). pose proof (span_nonneg _ Lr).
    cbn [find_block]. replace (span bs <? MEM_SIZE) with true by lia.
    rewrite (sm_bind_some _ _ _ _ _ (block_fits_ok _ _ _ _ _ _ _ _ _ W eq_refl Hs)).
    destruct (bool_decide_reflect (can_take size b)) as [Hb | Hb].
    + left. exists [], b, r. split_and!; [reflexivity | exact Hb | constructor | now rewrite app_nil_r].
    + assert (W' : working P m0 st H ((bs ++ [b]) ++ r)) by (now rewrite <- app_assoc).
      rewrite (sm_bind_some _ _ _ _ _ (get_next_ok _ _ _ _ _ _ (w_held _ _ _ _ _ W) Ep)). cbn [h_next].
      assert (Es : span bs + SZ + blen b = span (bs ++ [b])) by (rewrite span_app; cbn [span]; lia). rewrite Es.
      destruct (IH _ fuel W' ltac:(lia)) as [(f & c & r' & -> & Hc & Hff & ->) | [Hr ->]].
      * left. exists (b :: f), c, r'. split_and!; [reflexivity | exact Hc | now constructor |]. now rewrite <- app_assoc.
      * right. split; [now constructor | reflexivity].
Qed.

(** The loop over the blocks in use ends at the first free one. *)
Lemma skip_used_ok P m0 st H bs r : working P m0 st H (bs ++ r) -> ends_free r -> forall fuel, (length r < fuel)%nat -> lfree st = span bs ->
  exists f b r', r = f ++ b :: r' /\ inuse b = false /\ Forall (fun c => inuse c = true) f /\
    skip_used fuel st = Some (tt, with_lfree (span (bs ++ f)) st).
Proof.
  intros W En fuel. revert bs fuel st W En. induction r as [|b r IH]; intros bs fuel st W En Hf El; [destruct En|].
  destruct fuel as [|fuel]; [cbn in Hf; lia|]. cbn [length] in Hf. pose proof sz_pos.
  destruct (working_at _ _ _ _ _ _ _ _ _ W eq_refl eq_refl) as (Ep & _ & _ & _ & Lb & Lr & Hp & T). pose proof (span_nonneg _ Lr).
  cbn [skip_used]. unfold sm_bind at 1, sm_get at 1. rewrite El.
  rewrite (sm_bind_some _ _ _ _ _ (get_used_ok _ _ _ _ _ _ (w_held _ _ _ _ _ W) Ep)). cbn [h_used].
  destruct (inuse b) eqn:Ub; cbn [c_bool Z.eqb andb negb].
  - rewrite (w_end _ _ _ _ _ W). replace (span bs =? MEM_SIZE) with false by lia. cbn [negb].
    assert (W' : working P m0 (with_lfree (span (bs ++ [b])) st) H ((bs ++ [b]) ++ r))
      by (rewrite <- app_assoc; now apply (working_other _ _ st)).
    rewrite (sm_bind_some _ _ _ _ _ (get_next_ok _ _ _ _ _ _ (w_held _ _ _ _ _ W) Ep)). cbn [h_next].
    assert (Es : span bs + SZ + blen b = span (bs ++ [b])) by (rewrite span_app; cbn [span]; lia). rewrite Es.
    unfold sm_bind at 1, sm_modify at 1.
    assert (Er : ends_free r) by (destruct r; [cbn in En; congruence | exact En]).
    destruct (IH _ fuel _ W' Er ltac:(lia) eq_refl) as (f & c & r' & -> & Hc & Hff & ->).
    exists (b :: f), c, r'. rewrite <- app_assoc. split_and!; [reflexivity | exact Hc | now constructor | reflexivity].
  - exists [], b, r. rewrite app_nil_r. split_and!; [reflexivity | exact Ub | constructor |].
    unfold sm_ret. rewrite <- El. now destruct st.
Qed.

(** More fuel than blocks. *)
Lemma length_span bs : lens bs -> 6 * Z.of_nat (length bs) <= span bs.
Proof. pose proof sz_pos. induction 1; cbn [span length] in *; lia. Qed.

Lemma heap_fuel_ok P m0 st H bs r : working P m0 st H (bs ++ r) -> (length r < heap_fuel)%nat.
Proof.
  intros W. pose proof (length_span _ (w_lens _ _ _ _ _ W)) as L. rewrite (blocks_total _ _ (w_chain _ _ _ _ _ W)) in L.
  rewrite length_app in L. pose proof sz_pos. pose proof size_ok. unfold heap_fuel. lia.
Qed.

(** The new block becomes the one before its successor. *)
Lemma link_next_ok {A} P m0 st H q n h hn (k : SM heap A) : held P m0 st H -> H !! q = Some h -> h_next h = n ->
  H !! n = Some hn -> 0 <= q <= MEM_SIZE ->
  exists m',
    (n <- get_next q ;;
     (if negb (n =? MEM_SIZE) then n <- get_next q ;; set_prev n q else sm_ret tt) ;; k) st = k (with_ram m' st) /\
    held P m0 (with_ram m' st) (<[n := mkHdr (h_next hn) (if n =? MEM_SIZE then h_prev hn else q) (h_used hn)]> H).
Proof.
  intros K Eq En Ehn Hq. rewrite (sm_bind_some _ _ _ _ _ (get_next_ok _ _ _ _ _ _ K Eq)), En.
  destruct (Z.eqb_spec n MEM_SIZE) as [En' | Ne]; cbn [negb].
  - exists (ram st). assert (Es : with_ram (ram st) st = st) by (now destruct st). rewrite Es. split; [reflexivity|].
    rewrite insert_id; [exact K|]. rewrite Ehn. now destruct hn.
  - destruct (set_prev_ok _ _ _ _ _ _ q K Ehn Hq) as (m' & E & K'). exists m'. split; [|exact K'].
    rewrite (sm_bind_some _ _ st tt (with_ram m' st)); [reflexivity|].
    rewrite (sm_bind_some _ _ _ _ _ (get_next_ok _ _ _ _ _ _ K Eq)), En. exact E.
Qed.

(** Room for a header inside of a block. *)
Lemma split_room P m0 st H bs b r s p q : working P m0 st H (bs ++ b :: r) -> p = span bs -> q = p + SZ + s -> 0 <= s -> s + SZ <= blen b ->
  (forall a, q <= a < q + SZ -> ~ P a) -> exists h, held P m0 st (<[q := h]> H).
Proof.
  intros W Dp Dq Hs Hb HP. pose proof sz_pos. pose proof end_in. pose proof W as [K C X L E].
  destruct (working_at _ _ _ _ _ _ _ _ _ W Dp eq_refl) as (_ & _ & _ & _ & _ & Lr & Hp & T). pose proof (span_nonneg _ Lr).
  apply held_add; [exact K | lia | lia | | exact HP]. intros k h Hk.
  pose proof (only_blocks_apart _ _ _ _ _ _ L C X Hk). unfold apart. rewrite <- Dp in *. lia.
Qed.

(** The headers after a block is split, in [mem_malloc]. *)
Lemma take_headers_ok P m0 st H bs b r p q size : working P m0 st H (bs ++ b :: r) -> p = span bs -> q = p + SZ + size ->
  0 <= size -> can_take size b -> (forall a, p <= a < p + SZ + blen b -> ~ P a) ->
  let bs' := bs ++ mkBlock size true :: mkBlock (blen b - size - SZ) false :: r in
  forall A (k : SM heap A), exists m' H', working P m0 (with_ram m' st) H' bs' /\
    (set_prev q p ;; n <- get_next p ;; set_next q n ;; set_next p q ;; n <- get_next q ;;
     (if negb (n =? MEM_SIZE) then n <- get_next q ;; set_prev n q else sm_ret tt) ;;
     set_used q 0 ;; set_used p 1 ;; k) st = k (with_ram m' st).
Proof.
  intros W Dp Dq Hs [Fb Hb] HP bs' A k. pose proof sz_pos. pose proof size_ok.
  remember (p + SZ + blen b) as n eqn:Dn. destruct (working_at _ _ _ _ _ _ _ _ _ W Dp Dn) as (Ep & _ & C & _ & Lb & Lr & Hp & T).
  pose proof (span_nonneg _ Lr). destruct (chain_head _ _ _ _ C) as (hn & En & _).
  destruct (split_room _ _ _ _ _ _ _ size _ q W Dp Dq Hs Hb) as [h0 K0]; [intros a Ha; apply HP; lia|].
  destruct (set_prev_ok _ _ _ _ q h0 p K0 ltac:(ins; reflexivity) ltac:(lia)) as (m1 & E1 & K1).
  assert (Ep1 : <[q := mkHdr (h_next h0) p (h_used h0)]> (<[q := h0]> H) !! p = H !! p) by (ins; reflexivity). rewrite Ep in Ep1.
  destruct (set_next_ok _ _ _ _ q _ n K1 ltac:(ins; reflexivity) ltac:(lia)) as (m2 & E2 & K2). cbn [h_prev h_used] in K2.
  destruct (set_next_ok _ _ _ _ p _ q K2 ltac:(ins; exact Ep) ltac:(lia)) as (m3 & E3 & K3). cbn [h_prev h_used] in K3.
  edestruct (link_next_ok P m0 _ _ q n (mkHdr n p (h_used h0)) hn (set_used q 0 ;; set_used p 1 ;; k) K3) as (m4 & E4 & K4);
    [ins; reflexivity | reflexivity | ins; exact En | lia |].
  destruct (set_used_ok _ _ _ _ q (mkHdr n p (h_used h0)) 0 K4 ltac:(ins; reflexivity) ltac:(lia)) as (m5 & E5 & K5).
  destruct (set_used_ok _ _ _ _ p (mkHdr q (last_start 0 0 bs) (c_bool (inuse b))) 1 K5 ltac:(ins; reflexivity) ltac:(lia)) as (m6 & E6 & K6).
  exists m6. eexists. split.
  - edestruct chain_split as (L' & C' & X'); [exact (w_lens _ _ _ _ _ W) | exact (w_chain _ _ _ _ _ W) | exact (w_only _ _ _ _ _ W)
      | exact Hs | exact Hb | exact Dp | exact Dq | exact Dn | | | | |].
    5:{ split; [exact K6 | exact C' | exact X' | exact L' | exact (w_end _ _ _ _ _ W)]. }
    + intros j N1 N2 N3. ins. reflexivity.
    + ins. reflexivity.
    + ins. reflexivity.
    + intros h Eh. rewrite En in Eh. injection Eh as <-. ins. reflexivity.
  - rewrite (sm_bind_some _ _ _ _ _ E1). rewrite (sm_bind_some _ _ _ _ _ (get_next_ok _ _ _ _ _ _ K1 Ep1)). cbn [h_next].
    rewrite (sm_bind_some _ _ _ _ _ E2), (sm_bind_some _ _ _ _ _ E3), E4, (sm_bind_some _ _ _ _ _ E5), (sm_bind_some _ _ _ _ _ E6).
    reflexivity.
Qed.

(** [lfree] when a free block in front of or at it is split. *)
Lemma split_lfree bs b r s u l : inuse b = false -> lens (bs ++ b :: r) -> 0 <= s -> s + SZ <= blen b -> l <> span bs \/ u = false ->
  let bs' := bs ++ mkBlock s u :: mkBlock (blen b - s - SZ) false :: r in
  (free_at (bs ++ b :: r) l -> free_at bs' l) /\ (lowest (bs ++ b :: r) l -> lowest bs' l).
Proof.
  intros Fb L Hs Hb Hl bs'. pose proof sz_pos. split.
  - intros (c & Hc & Fc). unfold free_at, bs'. setoid_rewrite place_two'; [|reflexivity]. rewrite place_one in Hc. cbn [blen].
    replace (s + SZ + (blen b - s - SZ)) with (blen b) by lia.
    destruct Hc as [[-> _] | Hc]; [|exists c; tauto]. destruct Hl as [? | ->]; [tauto|].
    eexists. split; [left; split; reflexivity | reflexivity].
  - intros Lo q c Hc Fc. unfold bs' in Hc. rewrite place_two' in Hc by reflexivity. cbn [blen] in Hc.
    replace (s + SZ + (blen b - s - SZ)) with (blen b) in Hc by lia.
    assert (Lb : l <= span bs) by (apply (Lo _ b); [rewrite place_one; tauto | exact Fb]).
    destruct Hc as [[-> _] | [[-> _] | Hc]]; [exact Lb | lia |]. apply (Lo q c); [rewrite place_one; tauto | exact Fc].
Qed.

(** [lfree] after the loop has passed the blocks in use. *)
Lemma skip_lowest bs b r0 f c r : lowest (bs ++ b :: r0) (span bs) -> lens (bs ++ f ++ c :: r) ->
  Forall (fun c => inuse c = true) f -> lowest (bs ++ f ++ c :: r) (span (bs ++ f)).
Proof.
  intros Lo L Uf q d Hd Fd. pose proof sz_pos. rewrite app_assoc in Hd, L. rewrite place_one in Hd.
  destruct Hd as [[-> _] | [Hd | Hd]]; [lia | |].
  - exfalso. rewrite place_app, elem_of_app in Hd. destruct Hd as [Hd | Hd].
    + assert (Hq : span bs <= q) by (apply (Lo q d); [rewrite place_one; tauto | exact Fd]).
      apply lens_app in L as [L _]. apply lens_app in L as [L _]. pose proof (place_range _ _ _ _ L Hd). lia.
    + destruct (place_split _ _ _ _ Hd) as (f1 & f2 & -> & _). apply Forall_app in Uf as [_ Uf]. inversion Uf. congruence.
  - apply lens_app in L as [_ L]. inversion L as [|? ? Lc Lr]. subst x l. pose proof (place_range _ _ _ _ Lr Hd). lia.
Qed.

Lemma take_block_ok P m0 st H bs b r p size : working P m0 st H (bs ++ b :: r) -> p = span bs ->
  0 <= size -> can_take size b -> (forall a, p <= a < p + SZ + blen b -> ~ P a) -> ends_free (b :: r) -> mem_sem st = taken ->
  let bs' := bs ++ mkBlock size true :: mkBlock (blen b - size - SZ) false :: r in
  exists st' H', take_block p size st = Some (Some (p + SZ), st') /\ working P m0 st' H' bs' /\ mem_sem st' = 1 /\
    (free_at (bs ++ b :: r) (lfree st) -> free_at bs' (lfree st')) /\
    (lowest (bs ++ b :: r) (lfree st) -> lowest bs' (lfree st')).
Proof.
  intros W Dp Hs Hc HP En Sem bs'. pose proof sz_pos. pose proof size_ok.
  destruct (working_at _ _ _ _ _ _ _ _ _ W Dp eq_refl) as (_ & _ & _ & _ & _ & Lr & Hp & T). pose proof (span_nonneg _ Lr).
  pose proof (w_lens _ _ _ _ _ W) as L. pose proof Hc as [Fb Hb]. unfold take_block.
  rewrite mem_size_t_small by lia. cbv zeta.
  edestruct (take_headers_ok P m0 st H bs b r p _ size W Dp eq_refl Hs Hc HP) as (m' & H' & W' & E). rewrite E. clear E.
  unfold sm_bind at 1 2, sm_modify at 1 2. fold bs' in W'.
  set (st1 := with_mem_stats _ (with_mem_stats _ (with_ram m' st))).
  assert (W1 : working P m0 st1 H' bs') by (now apply (working_other _ _ (with_ram m' st))).
  unfold sm_bind at 1, sm_get at 1. change (lfree st1) with (lfree st).
  destruct (Z.eqb_spec p (lfree st)) as [El | Nl].
  - assert (En' : ends_free (mkBlock size true :: mkBlock (blen b - size - SZ) false :: r)) by (destruct r; [reflexivity | exact En]).
    destruct (skip_used_ok _ _ _ _ _ _ W1 En' heap_fuel (heap_fuel_ok _ _ _ _ _ _ W1) (eq_trans (eq_sym El) Dp))
      as (f & c & r' & Ef & Fc & Uf & Esk). clear En'.
    exists (with_sem 1 (with_lfree (span (bs ++ f)) st1)), H'. split_and!.
    + rewrite (sm_bind_some _ _ _ _ _ Esk), (sm_bind_some _ _ _ _ _ (signal_ok (with_lfree (span (bs ++ f)) st1) Sem)). reflexivity.
    + now apply (working_other _ _ st1).
    + reflexivity.
    + intros _. cbn [lfree with_sem with_lfree]. exists c. split; [|exact Fc]. unfold bs'. rewrite Ef, app_assoc. apply (place_in 0).
    + intros Lo. cbn [lfree with_sem with_lfree]. unfold bs'. rewrite Ef. rewrite <- El, Dp in Lo. apply (skip_lowest _ b r); [exact Lo | | exact Uf].
      pose proof (w_lens _ _ _ _ _ W1) as L1. unfold bs' in L1. now rewrite Ef in L1.
  - exists (with_sem 1 st1), H'. split_and!.
    + rewrite (sm_bind_some _ _ st1 tt st1 eq_refl), (sm_bind_some _ _ _ _ _ (signal_ok st1 Sem)). reflexivity.
    + now apply (working_other _ _ st1).
    + reflexivity.
    + apply split_lfree; [assumption.. | left; intros E; apply Nl; now rewrite Dp, <- E].
    + apply split_lfree; [assumption.. | left; intros E; apply Nl; now rewrite Dp, <- E].
Qed.

(** The size asked for, rounded up; [0] when there is no such size. *)
Lemma mem_malloc_ok st bs size : heap_ok st bs -> let s := adjust_size (mem_size_t size) in
  mem_size_t size <> 0 -> 0 <= s <= MEM_SIZE -> exists st', mem_sem st' = 1 /\
  (forall a, data bs a -> ram st' !! a = ram st !! a) /\
  ((exists f b r, bs = f ++ b :: r /\ can_take s b /\
      (lowest bs (lfree st) -> Forall (fun c => ~ can_take s c) f) /\ lfree st <= span f /\
      let bs' := f ++ mkBlock s true :: mkBlock (blen b - s - SZ) false :: r in
      mem_malloc size st = Some (Some (span f + SZ), st') /\ heap_ok st' bs' /\
      (lowest bs (lfree st) -> lowest bs' (lfree st'))) \/
   ((lowest bs (lfree st) -> Forall (fun c => ~ can_take s c) bs) /\
      mem_malloc size st = Some (None, st') /\ heap_ok st' bs /\ lfree st' = lfree st)).
Proof.
  intros K s Hn Hs. pose proof K as [_ L N En Fl Eend Sem]. pose proof sz_pos. pose proof size_ok.
  destruct (heap_working (data bs) _ _ K) as [Hm0 W0].
  { intros k c a Hk Ha. exact (data_no_header _ _ _ _ L Hk Ha). }
  { intros a. apply (data_below _ _ L (heap_span _ _ K)). }
  destruct Fl as (b0 & Hl & Fb0). destruct (place_split _ _ _ _ Hl) as (bs0 & r0 & Eb & El). cbn [Z.add] in El.
  set (st0 := with_sem taken st). assert (W : working (data bs) (ram st) st0 Hm0 (bs0 ++ b0 :: r0)) by (rewrite <- Eb; now apply (working_other _ _ st)).
  assert (Em : mem_malloc size st = find_block heap_fuel (span bs0) s st0).
  { unfold mem_malloc. replace (mem_size_t size =? 0) with false by lia. fold s. replace (MEM_SIZE <? s) with false by lia.
    rewrite (sm_bind_some _ _ _ _ _ (sem_wait_ok _ Sem)). unfold sm_bind at 1, sm_get at 1. fold st0. change (lfree st0) with (lfree st).
    pose proof (place_range _ _ _ _ L Hl) as R. rewrite (heap_span _ _ K) in R. rewrite mem_size_t_small by lia. rewrite El. f_equal. }
  assert (Used0 : lowest bs (lfree st) -> Forall (fun c => ~ can_take s c) bs0).
  { intros Lo. apply Forall_forall. intros c Hc [Fc _]. apply in_split in Hc as (x & y & ->).
    pose proof (place_in 0 x c (y ++ b0 :: r0)) as Hp. rewrite Z.add_0_l in Hp.
    assert (Hq : (span x, c) ∈ place 0 bs) by (rewrite Eb, <- app_assoc; exact Hp).
    pose proof (Lo _ _ Hq Fc) as Hle. rewrite El, span_app in Hle. cbn [span] in Hle.
    rewrite Eb in L. apply lens_app in L as [L _]. apply lens_app in L as [_ L]. inversion L as [|? ? Lc Ly]. subst x0 l. pose proof (span_nonneg _ Ly). lia. }
  rewrite Em. clear Em. destruct (find_block_ok _ _ _ _ _ _ s W Hs _ (heap_fuel_ok _ _ _ _ _ _ W)) as [(f & b & r & Er & Hc & Nf & ->) | [Nr ->]].
  - rewrite Er, app_assoc in W.
    assert (Ebs : bs = (bs0 ++ f) ++ b :: r) by (rewrite Eb, Er; apply app_assoc).
    edestruct (take_block_ok _ _ _ _ _ _ _ _ s W eq_refl) as (st' & H' & E & W' & S' & F' & Lo'); [lia | exact Hc | | | reflexivity |].
    { intros a Ha (q & c & Hq & Uc & Ha'). pose proof (place_in 0 (bs0 ++ f) b r) as Hp. rewrite Z.add_0_l, <- Ebs in Hp.
      destruct Hc as [Fb _]. destruct (place_apart _ _ _ _ _ _ L Hp Hq) as [[_ ->] | ]; [congruence | lia]. }
    { rewrite Ebs in En. now apply ends_free_app in En. }
    exists st'. split_and!; [exact S' | exact (held_rest _ _ _ _ (w_held _ _ _ _ _ W')) |]. left. exists (bs0 ++ f), b, r.
    change (lfree st0) with (lfree st) in F', Lo'. rewrite <- Ebs in F', Lo'. cbv zeta. split_and!; try assumption.
    + intros Lo. apply Forall_app. auto.
    + pose proof (w_lens _ _ _ _ _ W) as L'. rewrite <- app_assoc in L'.
      apply lens_app in L' as [_ L']. apply lens_app in L' as [L' _]. pose proof (span_nonneg _ L'). rewrite span_app, El. lia.
    + apply (working_heap _ _ _ _ _ W'); [| | apply F'; now exists b0 | exact S'].
      * rewrite Ebs in N. apply norm_app in N as [N1 N2]. apply norm_app. split; [|cbn [norm]; split; [now left|]].
        -- clear - N1. set (fs := bs0 ++ f) in *. clearbody fs. induction fs as [|d [|e t] IH]; cbn [app norm] in *; tauto.
        -- apply (norm_same b); [apply Hc | exact N2].
      * rewrite Ebs in En. apply ends_free_app in En. apply ends_free_app. destruct r; [reflexivity | exact En].
  - exists (with_sem 1 (with_mem_stats count_err st0)). split_and!; [reflexivity | reflexivity |]. right. split_and!.
    + intros Lo. rewrite Eb. apply Forall_app. auto.
    + unfold sm_bind at 1 2, sm_modify at 1. rewrite signal_ok by reflexivity. reflexivity.
    + rewrite <- Eb in W. apply (working_heap (data bs) (ram st) _ Hm0); [now apply (working_other _ _ st0) | exact N | exact En | now exists b0 | reflexivity].
    + reflexivity.
Qed.

(** *** [mem_realloc] *)

(** The headers after a block is split, in [mem_realloc]. *)
Lemma cut_headers_ok P m0 st H bs b r p q size : working P m0 st H (bs ++ b :: r) -> p = span bs -> q = p + SZ + size ->
  0 <= size -> size + SZ <= blen b -> (forall a, q <= a < q + SZ -> ~ P a) ->
  let bs' := bs ++ mkBlock size (inuse b) :: mkBlock (blen b - size - SZ) false :: r in
  forall A (k : SM heap A), exists m' H', working P m0 (with_ram m' st) H' bs' /\
    (set_used q 0 ;; n <- get_next p ;; set_next q n ;; set_prev q p ;; set_next p q ;; n <- get_next q ;;
     (if negb (n =? MEM_SIZE) then n <- get_next q ;; set_prev n q else sm_ret tt) ;; k) st = k (with_ram m' st).
Proof.
  intros W Dp Dq Hs Hb HP bs' A k. pose proof sz_pos. pose proof size_ok.
  remember (p + SZ + blen b) as n eqn:Dn. destruct (working_at _ _ _ _ _ _ _ _ _ W Dp Dn) as (Ep & _ & C & _ & Lb & Lr & Hp & T).
  pose proof (span_nonneg _ Lr). destruct (chain_head _ _ _ _ C) as (hn & En & _).
  destruct (split_room _ _ _ _ _ _ _ size _ q W Dp Dq Hs Hb HP) as [h0 K0].
  destruct (set_used_ok _ _ _ _ q h0 0 K0 ltac:(ins; reflexivity) ltac:(lia)) as (m1 & E1 & K1).
  assert (Ep1 : <[q := mkHdr (h_next h0) (h_prev h0) 0]> (<[q := h0]> H) !! p = H !! p) by (ins; reflexivity). rewrite Ep in Ep1.
  destruct (set_next_ok _ _ _ _ q _ n K1 ltac:(ins; reflexivity) ltac:(lia)) as (m2 & E2 & K2). cbn [h_prev h_used] in K2.
  destruct (set_prev_ok _ _ _ _ q _ p K2 ltac:(ins; reflexivity) ltac:(lia)) as (m3 & E3 & K3). cbn [h_next h_used] in K3.
  destruct (set_next_ok _ _ _ _ p _ q K3 ltac:(ins; exact Ep) ltac:(lia)) as (m4 & E4 & K4). cbn [h_prev h_used] in K4.
  edestruct (link_next_ok P m0 _ _ q n (mkHdr n p 0) hn k K4) as (m5 & E5 & K5);
    [ins; reflexivity | reflexivity | ins; exact En | lia |].
  exists m5. eexists. split.
  - edestruct chain_split as (L' & C' & X'); [exact (w_lens _ _ _ _ _ W) | exact (w_chain _ _ _ _ _ W) | exact (w_only _ _ _ _ _ W)
      | exact Hs | exact Hb | exact Dp | exact Dq | exact Dn | | | | |].
    5:{ split; [exact K5 | exact C' | exact X' | exact L' | exact (w_end _ _ _ _ _ W)]. }
    + intros j N1 N2 N3. ins. reflexivity.
    + ins. reflexivity.
    + ins. reflexivity.
    + intros h Eh. rewrite En in Eh. injection Eh as <-. ins. reflexivity.
  - rewrite (sm_bind_some _ _ _ _ _ E1). rewrite (sm_bind_some _ _ _ _ _ (get_next_ok _ _ _ _ _ _ K1 Ep1)). cbn [h_next].
    rewrite (sm_bind_some _ _ _ _ _ E2), (sm_bind_some _ _ _ _ _ E3), (sm_bind_some _ _ _ _ _ E4). exact E5.
Qed.

Definition cut (s : Z) (b : block) (r : list block) : list block :=
  mkBlock s true :: plug_fwd (mkBlock (blen b - s - SZ) false) r.

Lemma cut_block_ok P m0 st H bs b r p s : working P m0 st H (bs ++ b :: r) -> p = span bs -> inuse b = true ->
  0 <= s -> s + SZ <= blen b -> (forall a, p + SZ + s <= a < p + SZ + s + SZ -> ~ P a) -> free_at (bs ++ b :: r) (lfree st) ->
  exists st' H', cut_block p s st = Some (tt, st') /\ working P m0 st' H' (bs ++ cut s b r) /\ mem_sem st' = mem_sem st /\
    free_at (bs ++ cut s b r) (lfree st') /\ (lfree st <> p + SZ + blen b -> lfree st' = lfree st).
Proof.
  intros W Dp Ub Hs Hb HP Fl. pose proof sz_pos. pose proof size_ok.
  destruct (working_at _ _ _ _ _ _ _ _ _ W Dp eq_refl) as (_ & _ & _ & _ & _ & Lr & Hp & T). pose proof (span_nonneg _ Lr).
  unfold cut_block. rewrite mem_size_t_small by lia. cbv zeta.
  edestruct (cut_headers_ok P m0 st H bs b r p _ s W Dp eq_refl Hs Hb HP) as (m' & H' & W' & E). rewrite E. clear E. rewrite Ub in W'.
  change (bs ++ mkBlock s true :: mkBlock (blen b - s - SZ) false :: r) with (bs ++ [mkBlock s true] ++ mkBlock (blen b - s - SZ) false :: r) in W'.
  rewrite app_assoc in W'. destruct (plug_holes_ok _ _ _ _ _ _ _ (p + SZ + s) W' eq_refl) as (st' & Hm2 & E2 & W2 & S2 & F2 & K2).
  { rewrite span_app. cbn [span blen]. lia. }
  assert (Ec : plug (bs ++ [mkBlock s true]) (mkBlock (blen b - s - SZ) false) r = bs ++ cut s b r) by (rewrite plug_snoc; reflexivity).
  rewrite Ec in W2, F2. exists st', Hm2. split_and!; [exact E2 | exact W2 | exact S2 | |].
  2:{ intros N. change (lfree st) with (lfree (with_ram m' st)) in N. apply K2; cbn [blen lfree with_ram] in *; [|lia]. destruct Fl as (c & Hc & _). pose proof (place_in 0 bs b r) as Hb0. rewrite Z.add_0_l in Hb0.
      pose proof (place_range _ _ _ _ (w_lens _ _ _ _ _ W) Hc). destruct (place_apart _ _ _ _ _ _ (w_lens _ _ _ _ _ W) Hb0 Hc) as [[Eq _] | ]; lia. }
  apply F2. rewrite <- app_assoc. destruct Fl as (c & Hc & Fc). exists c. split; [|exact Fc]. cbn [app].
  rewrite place_one in Hc. rewrite place_two' by reflexivity. cbn [blen]. replace (s + SZ + (blen b - s - SZ)) with (blen b) by lia.
  destruct Hc as [[_ ->] | Hc]; [congruence | cbn; tauto].
Qed.

(** Where the blocks in use are after a cut: one of them is shorter. *)
Lemma cut_used bs b r s q c : inuse b = true -> inuse c = true -> s + SZ <= blen b ->
  (q, c) ∈ place 0 (bs ++ cut s b r) <->
  (q = span bs /\ c = mkBlock s true) \/ (q, c) ∈ place 0 bs \/ (q, c) ∈ place (span bs + SZ + blen b) r.
Proof.
  intros Ub Uc Hb. pose proof (plug_used (bs ++ [mkBlock s true]) (mkBlock (blen b - s - SZ) false) r q c eq_refl Uc) as Pl.
  rewrite plug_snoc, <- app_assoc in Pl. cbn [inuse app] in Pl. unfold cut. rewrite Pl, place_two' by reflexivity. cbn [blen].
  replace (s + SZ + (blen b - s - SZ)) with (blen b) by lia. split; [|tauto].
  intros [? | [[_ ->] | ?]]; [tauto | discriminate | tauto].
Qed.

Lemma cut_norm bs b r s : inuse b = true -> norm (bs ++ b :: r) -> norm (bs ++ cut s b r).
Proof.
  intros Ub N. apply norm_app in N as [N1 N2].
  pose proof (plug_norm (bs ++ [mkBlock s true]) (mkBlock (blen b - s - SZ) false) r eq_refl) as Pl.
  rewrite plug_snoc in Pl. apply Pl; [now apply (norm_same_last _ b) | destruct r; [exact I | apply N2]].
Qed.

Lemma cut_ends bs b r s : inuse b = true -> ends_free (bs ++ b :: r) -> ends_free (bs ++ cut s b r).
Proof.
  intros Ub En. apply ends_free_app in En. pose proof (plug_ends (bs ++ [mkBlock s true]) (mkBlock (blen b - s - SZ) false) r eq_refl) as Pl.
  rewrite plug_snoc in Pl. apply Pl. destruct r; [reflexivity | exact En].
Qed.

(** The call gives the pointer back, or [NULL] for a size above that of the
    heap; the block is cut when the rest has room for a block of its own. *)
Lemma mem_realloc_ok st bs b r size : heap_ok st (bs ++ b :: r) -> inuse b = true -> let s := adjust_size (mem_size_t size) in
  0 <= s -> exists st', mem_realloc (Some (span bs + SZ)) size st = Some (if MEM_SIZE <? s then None else Some (span bs + SZ), st') /\
  let bs' := if (MEM_SIZE <? s) || (blen b <=? s + SZ + MIN_SIZE) then bs ++ b :: r else bs ++ cut s b r in
  heap_ok st' bs' /\ (forall a, data bs' a -> ram st' !! a = ram st !! a) /\
  (lfree st <> span bs + SZ + blen b -> lfree st' = lfree st).
Proof.
  intros K Ub s Hs. pose proof K as [_ L N En Fl Eend Sem]. pose proof sz_pos. pose proof size_ok. unfold mem_realloc. fold s.
  destruct (Z.ltb_spec MEM_SIZE s) as [Big | Hs']; [now exists st|]. cbn [orb].
  set (bs' := if blen b <=? s + SZ + MIN_SIZE then bs ++ b :: r else bs ++ cut s b r).
  assert (Sub : forall a, data bs' a -> data (bs ++ b :: r) a).
  { intros a (q & d & Hq & Ud & Hd). subst bs'. unfold MIN_SIZE in Hq. destruct (Z.leb_spec (blen b) (s + SZ + 12)); [now exists q, d|].
    apply cut_used in Hq; [|assumption || lia..]. destruct Hq as [[-> ->] | Hq].
    - exists (span bs), b. cbn [blen] in Hd. rewrite place_one. split_and!; [tauto | exact Ub | lia | lia].
    - exists q, d. rewrite place_one. tauto. }
  destruct (heap_working (data bs') _ _ K) as [Hm0 W0].
  { intros k c a Hk Ha Ha'. exact (data_no_header _ _ _ _ L Hk Ha (Sub _ Ha')). }
  { intros a Ha. exact (data_below _ _ L (heap_span _ _ K) (Sub _ Ha)). }
  destruct (working_at _ _ _ _ _ _ _ _ _ W0 eq_refl eq_refl) as (Ep & _ & _ & L1 & Lb & Lr & Hp & T). pose proof (span_nonneg _ Lr).
  assert (Er : r <> []) by (intros ->; apply ends_free_app in En; cbn in En; congruence).
  assert (Hr : 6 <= span r). { destruct r as [|c r]; [easy|]. inversion Lr as [|? ? Lc Lr']. subst x l. pose proof (span_nonneg _ Lr'). cbn [span]. lia. }
  rewrite (sm_bind_some _ _ _ _ _ (sem_wait_ok _ Sem)). unfold sm_bind at 1, sm_get at 1. cbn [ram_end with_sem]. rewrite Eend.
  replace ((span bs + SZ <? 0) || (MEM_SIZE <=? span bs + SZ)) with false
    by (destruct (Z.ltb_spec (span bs + SZ) 0), (Z.leb_spec MEM_SIZE (span bs + SZ)); cbn; lia).
  cbv zeta. replace (span bs + SZ - SZ) with (span bs) by lia.
  set (st0 := with_sem taken st). assert (W1 : working (data bs') (ram st) st0 Hm0 (bs ++ b :: r)) by (now apply (working_other _ _ st)).
  rewrite (sm_bind_some _ _ _ _ _ (get_next_ok _ _ _ _ _ _ (w_held _ _ _ _ _ W1) Ep)). cbn [h_next].
  rewrite (mem_size_t_small (span bs)) by lia. rewrite mem_size_t_small by lia.
  replace (span bs + SZ + blen b - span bs - SZ) with (blen b) by lia. unfold sm_bind at 1, sm_modify at 1.
  set (st1 := with_mem_stats _ st0). assert (W2 : working (data bs') (ram st) st1 Hm0 (bs ++ b :: r)) by (now apply (working_other _ _ st0)).
  subst bs'. unfold MIN_SIZE in *. destruct (Z.leb_spec (blen b) (s + SZ + 12)) as [Hc | Hc].
  - replace (s + SZ + 12 <? blen b) with false by lia. exists (with_sem 1 st1).
    rewrite (sm_bind_some _ _ st1 tt st1 eq_refl), (sm_bind_some _ _ _ _ _ (signal_ok st1 eq_refl)). split; [reflexivity|]. split; [|now split].
    apply (working_heap _ _ _ _ _ (working_other _ _ st1 (with_sem 1 st1) _ _ eq_refl eq_refl W2)); [assumption.. | reflexivity].
  - replace (s + SZ + 12 <? blen b) with true by lia.
    destruct (cut_block_ok _ _ _ _ _ _ _ _ s W2 eq_refl Ub Hs ltac:(lia)) as (st2 & H2' & E2 & W3 & S3 & F3 & K3); [| exact Fl |].
    { intros a Ha (q & d & Hq & Ud & Hd). apply cut_used in Hq; [|assumption || lia..].
      pose proof (place_in 0 bs b r) as Hp'. rewrite Z.add_0_l in Hp'. destruct Hq as [[-> ->] | Hq]; [cbn [blen] in Hd; lia|].
      assert (Hq' : (q, d) ∈ place 0 (bs ++ b :: r)) by (rewrite place_one; tauto).
      destruct (place_apart _ _ _ _ _ _ L Hp' Hq') as [[Eq _] | ]; [|lia]. subst q.
      destruct Hq as [Hq | Hq]; [pose proof (place_range _ _ _ _ L1 Hq) | pose proof (place_range _ _ _ _ Lr Hq)]; lia. }
    exists (with_sem 1 st2). rewrite (sm_bind_some _ _ _ _ _ E2), (sm_bind_some _ _ _ _ _ (signal_ok st2 S3)). split; [reflexivity|]. split.
    + apply (working_heap _ _ _ _ _ (working_other _ _ st2 (with_sem 1 st2) _ _ eq_refl eq_refl W3));
        [now apply cut_norm | now apply cut_ends | exact F3 | reflexivity].
    + split; [exact (held_rest _ _ _ _ (w_held _ _ _ _ _ W3)) | exact K3].
Qed.
End Calls.
