(* ===== verification/MemRun.v ===== *)
(** * What the heap promises its application

    The specification: a set of live blocks with their bytes.  [heap_spec] says
    what a call may answer and what it does to the set; it knows nothing of
    headers, of [lfree] and of free blocks.  [mem_heap_refines] shows that runs of
    [Mem] implement it; [mem_malloc_first_fit] and [mem_all_freed] that requests
    are met.  No C code. *)
From Stdlib Require Import ZArith Lia List Bool.
From stdpp Require Import base gmap list numbers option.
From S2P Require Import Prelude Mem MemBytes MemChain MemOps.
#[local] Open Scope Z_scope.
#[local] Open Scope sm_scope.

(** ** The specification *)

(** The live blocks: the pointer to each, and its bytes. *)
Abbreviation live := (gmap Z (list Z)).

(** What the application does: calls, and reading and writing byte [i] of a block. *)
Inductive mcall :=
| Malloc (size : Z)
| Free (p : option Z)
| Realloc (p : option Z) (size : Z)
| Reallocm (p : option Z) (size : Z)
| Read (p : Z) (i : nat)
| Write (p : Z) (i : nat) (v : Z).

Definition resizes (c : mcall) : bool :=
  match c with Realloc _ _ | Reallocm _ _ => true | _ => false end.

Section Spec.
Context {MC : MemConfig}.
#[local] Abbreviation SZ := SIZEOF_STRUCT_MEM.

Definition mem_exec (c : mcall) : SM heap (option Z) :=
  match c with
  | Malloc n => mem_malloc n
  | Free p => mem_free p ;; sm_ret None
  | Realloc p n => mem_realloc p n
  | Reallocm p n => mem_reallocm p n
  | Read p i => v <- ld_n 1 (p + Z.of_nat i) ;; sm_ret (Some v)
  | Write p i v => st_n 1 (p + Z.of_nat i) v ;; sm_ret None
  end.

(** The bytes that are given for a request. *)
Definition got (size : Z) : Z := adjust_size (mem_size_t size).

(** Place for [s] bytes at [p], with a header before them and one behind: the
    live blocks with their headers are elsewhere. *)
Definition room (L : live) (s p : Z) : Prop :=
  SZ <= p /\ p + s + SZ <= MEM_SIZE /\
  forall q l, L !! q = Some l -> q + Z.of_nat (length l) <= p - SZ \/ p + s + SZ <= q - SZ.

Inductive heap_spec (L : live) : mcall -> option Z -> live -> Prop :=
| spec_malloc_no n : heap_spec L (Malloc n) None L
| spec_malloc n p l : room L (got n) p -> p mod MEM_ALIGNMENT = 0 -> Z.of_nat (length l) = got n ->
    heap_spec L (Malloc n) (Some p) (<[p := l]> L)
| spec_free_null : heap_spec L (Free None) None L
| spec_free p : heap_spec L (Free (Some p)) None (delete p L)
| spec_realloc_no p n : MEM_SIZE < got n -> heap_spec L (Realloc (Some p) n) None L
| spec_realloc_same p n l : L !! p = Some l -> Z.of_nat (length l) <= got n + SZ + MIN_SIZE ->
    heap_spec L (Realloc (Some p) n) (Some p) L
| spec_realloc_cut p n l : L !! p = Some l -> got n + SZ + MIN_SIZE < Z.of_nat (length l) ->
    heap_spec L (Realloc (Some p) n) (Some p) (<[p := take (Z.to_nat (got n)) l]> L)
| spec_reallocm_stay p n r L' : heap_spec L (Realloc (Some p) n) r L' -> heap_spec L (Reallocm (Some p) n) r L'
| spec_reallocm_move p n l q L' k : heap_spec L (Malloc n) (Some q) L' -> L !! p = Some l -> L' !! q = Some k ->
    let m := Z.to_nat (mem_size_t n) in
    heap_spec L (Reallocm (Some p) n) (Some q) (delete p (<[q := take m l ++ drop m k]> L'))
| spec_read p i l v : L !! p = Some l -> l !! i = Some v -> heap_spec L (Read p i) (Some v) L
| spec_write p i l v : L !! p = Some l -> heap_spec L (Write p i v) None (<[p := <[i := v mod 256]> l]> L).

(** ** Runs

    [N] is the live blocks with their sizes, as the application knows them;
    [contents] adds the bytes that are in memory. *)

Definition bytes_of (m : gmap Z Z) (p : Z) (n : nat) : list Z :=
  map (fun i => default 0 (m !! (p + Z.of_nat i))) (seq 0 n).

Definition contents (st : heap) (N : gmap Z nat) : live := map_imap (fun p n => Some (bytes_of (ram st) p n)) N.

(** The application uses its own blocks only, and moves no more bytes than a
    block has. *)
Definition legal (N : gmap Z nat) (c : mcall) : Prop :=
  match c with
  | Malloc _ | Free None => True
  | Free (Some p) | Realloc (Some p) _ => is_Some (N !! p)
  | Reallocm (Some p) n => exists k, N !! p = Some k /\ mem_size_t n <= Z.of_nat k
  | Read p i | Write p i _ => exists k, N !! p = Some k /\ (i < k)%nat
  | Realloc None _ | Reallocm None _ => False
  end.

Definition after_realloc (N : gmap Z nat) (p n : Z) : gmap Z nat :=
  match N !! p with
  | Some k => if got n + SZ + MIN_SIZE <? Z.of_nat k then <[p := Z.to_nat (got n)]> N else N
  | None => N
  end.

(** The live blocks after a call with its answer. *)
Definition after (N : gmap Z nat) (c : mcall) (r : option Z) : gmap Z nat :=
  match c, r with
  | Malloc n, Some p => <[p := Z.to_nat (got n)]> N
  | Free (Some p), _ => delete p N
  | Realloc (Some p) n, Some _ => after_realloc N p n
  | Reallocm (Some p) n, Some q =>
      if q =? p then after_realloc N p n else delete p (<[q := Z.to_nat (got n)]> N)
  | _, _ => N
  end.

(** The states an application can reach; [rs]: may it resize blocks? *)
Inductive mem_reach (rs : bool) : heap -> gmap Z nat -> Prop :=
| reach_init st : mem_init heap0 = Some (tt, st) -> mem_reach rs st ∅
| reach_call st N c r st' : mem_reach rs st N -> legal N c -> (rs = false -> resizes c = false) ->
    mem_exec c st = Some (r, st') -> mem_reach rs st' (after N c r).

(** ** The invariant *)

(** [N] is the blocks in use. *)
Definition names (N : gmap Z nat) (bs : list block) : Prop :=
  forall p n, N !! p = Some n <-> (p - SZ, mkBlock (Z.of_nat n) true) ∈ place 0 bs.

Definition aligned (bs : list block) : Prop := forall q b, (q, b) ∈ place 0 bs -> q mod MEM_ALIGNMENT = 0.

Definition heap_inv (rs : bool) (st : heap) (N : gmap Z nat) : Prop :=
  exists bs, heap_ok st bs /\ names N bs /\ aligned bs /\ (rs = false -> lowest bs (lfree st)).

(** The bytes of the live blocks stay. *)
Definition same_bytes (N : gmap Z nat) (st st' : heap) : Prop :=
  forall p n, N !! p = Some n -> bytes_of (ram st') p n = bytes_of (ram st) p n.
End Spec.

Section Invariant.
Context {MC : MemConfig} {ML : MemLaws}.
#[local] Abbreviation SZ := SIZEOF_STRUCT_MEM.

Lemma bytes_of_length m p n : length (bytes_of m p n) = n.
Proof. unfold bytes_of. now rewrite length_map, length_seq. Qed.

Lemma bytes_of_ext m m' p n : (forall a, p <= a < p + Z.of_nat n -> m' !! a = m !! a) -> bytes_of m' p n = bytes_of m p n.
Proof. intros E. apply map_ext_in. intros i Hi%in_seq. rewrite E by lia. reflexivity. Qed.

Lemma bytes_of_lookup m p n i : (i < n)%nat -> bytes_of m p n !! i = Some (default 0 (m !! (p + Z.of_nat i))).
Proof. intros Hi. unfold bytes_of. now rewrite list_lookup_fmap, lookup_seq_lt. Qed.

Lemma contents_lookup st N p : contents st N !! p = bytes_of (ram st) p <$> N !! p.
Proof. unfold contents. rewrite map_lookup_imap. now destruct (N !! p). Qed.

Lemma same_bytes_data N bs st st' : names N bs -> (forall a, data bs a -> ram st' !! a = ram st !! a) -> same_bytes N st st'.
Proof.
  intros Nm E p n Hp. apply bytes_of_ext. intros a Ha. apply E. exists (p - SZ), (mkBlock (Z.of_nat n) true).
  split_and!; [now apply Nm | reflexivity | cbn; lia | cbn; lia].
Qed.

(** *** Sizes *)

Lemma got_range n : 0 <= got n.
Proof. unfold got, adjust_size. destruct (negb _); apply mem_size_t_range. Qed.

Lemma mod_mod_pow x : (wrap (8 * sizeof_mem_size_t) x) mod MEM_ALIGNMENT = x mod MEM_ALIGNMENT.
Proof.
  unfold wrap. apply Z.mod_mod_divide. exists (2 ^ (8 * sizeof_mem_size_t) / MEM_ALIGNMENT).
  destruct layout as ([-> | ->] & _); destruct alignment_ok as [-> | [-> | [-> | ->]]]; reflexivity.
Qed.

Lemma got_aligned n : got n mod MEM_ALIGNMENT = 0.
Proof.
  unfold got, adjust_size. destruct (Z.eqb_spec (mem_size_t n mod MEM_ALIGNMENT) 0) as [E | E]; cbn [negb]; [exact E|].
  unfold mem_size_t at 1. rewrite mod_mod_pow. destruct layout as (_ & _ & _ & L & _).
  rewrite (Z.add_mod _ SZ), L, Z.add_0_r, Z.mod_mod by (pose proof align_pos; lia).
  destruct alignment_ok as [Ea | [Ea | [Ea | Ea]]]; rewrite Ea in *; zmod_lia.
Qed.

(** A size that is not above the heap's is rounded up, without overflow. *)
Lemma got_small n : 0 <= n <= MEM_SIZE -> n <= got n < n + MEM_ALIGNMENT.
Proof.
  intros Hn. unfold got. rewrite mem_size_t_small by exact Hn. unfold adjust_size. pose proof align_pos as La.
  destruct (Z.eqb_spec (n mod MEM_ALIGNMENT) 0) as [E | E]; cbn [negb]; [lia|].
  destruct layout as (_ & _ & _ & L & _). rewrite (Z.add_mod _ SZ), L, Z.add_0_r, Z.mod_mod by lia.
  pose proof (Z.mod_pos_bound n MEM_ALIGNMENT (proj1 La)). pose proof size_ok.
  unfold mem_size_t. rewrite wrap_small; [lia|]. unfold fits, sizeof_mem_size_t.
  destruct (Z.ltb_spec 64000 MEM_SIZE); pow2; lia.
Qed.

(** *** The names and offsets after a change of the list *)

Lemma place_rest bs b r q c : lens (bs ++ b :: r) ->
  (q, c) ∈ place 0 bs \/ (q, c) ∈ place (span bs + SZ + blen b) r -> q <> span bs.
Proof.
  intros L Hq. pose proof sz_pos. apply lens_app in L as [L1 L2]. inversion L2 as [|? ? Lb Lr]. subst x l.
  destruct Hq as [Hq | Hq]; [pose proof (place_range _ _ _ _ L1 Hq) | pose proof (place_range _ _ _ _ Lr Hq)]; lia.
Qed.

Lemma names_take N bs b r s : lens (bs ++ b :: r) -> inuse b = false -> 0 <= s -> names N (bs ++ b :: r) ->
  let bs' := bs ++ mkBlock s true :: mkBlock (blen b - s - SZ) false :: r in
  N !! (span bs + SZ) = None /\ names (<[span bs + SZ := Z.to_nat s]> N) bs'.
Proof.
  intros L Fb Hs Nm bs'. assert (Hn : N !! (span bs + SZ) = None).
  { destruct (N !! _) as [n|] eqn:E; [|reflexivity]. apply Nm in E. rewrite place_one in E.
    destruct E as [[_ <-] | E]; [discriminate Fb|]. apply (place_rest _ _ _ _ _ L) in E. lia. }
  split; [exact Hn|]. intros p n. rewrite lookup_insert_Some, (Nm p n), place_one. unfold bs'.
  rewrite place_two' by reflexivity. cbn [blen]. replace (s + SZ + (blen b - s - SZ)) with (blen b) by lia. split.
  - intros [[<- <-] | [_ [[_ <-] | E]]]; [left; split; [lia|]; f_equal; lia | discriminate Fb | tauto].
  - intros [[Ep E] | [[_ [=]] | E]].
    + left. injection E as E. lia.
    + right. pose proof (place_rest _ _ _ _ _ L E). split; [lia | tauto].
Qed.

Lemma names_free N bs b r : lens (bs ++ b :: r) -> names N (bs ++ b :: r) ->
  names (delete (span bs + SZ) N) (plug bs (mkBlock (blen b) false) r).
Proof.
  intros L Nm p n. rewrite lookup_delete_Some, (Nm p n), plug_used by reflexivity. rewrite !place_one. cbn [blen]. split.
  - intros [Ne [[E _] | E]]; [lia | tauto].
  - intros [[_ [=]] | E]. pose proof (place_rest _ _ _ _ _ L E). split; [lia | tauto].
Qed.

Lemma names_cut N bs b r s : lens (bs ++ b :: r) -> inuse b = true -> 0 <= s -> s + SZ <= blen b -> names N (bs ++ b :: r) ->
  names (<[span bs + SZ := Z.to_nat s]> N) (bs ++ cut s b r).
Proof.
  intros L Ub Hs Hb Nm p n. rewrite lookup_insert_Some, (Nm p n), place_one, cut_used by (reflexivity || assumption). split.
  - intros [[<- <-] | [Ne [[E _] | E]]]; [left; split; [lia|]; f_equal; lia | lia | tauto].
  - intros [[Ep E] | E]; [left; injection E as E; lia|]. right. pose proof (place_rest _ _ _ _ _ L E). split; [lia | tauto].
Qed.

Lemma plug_starts bs b r q c : inuse b = false -> (q, c) ∈ place 0 (plug bs b r) -> exists d, (q, d) ∈ place 0 (bs ++ b :: r).
Proof.
  intros Fb.
  assert (Fw : forall q c, (q, c) ∈ place 0 (bs ++ plug_fwd b r) -> exists d, (q, d) ∈ place 0 (bs ++ b :: r)).
  { intros q' c' Hq. destruct r as [|d r]; cbn [plug_fwd] in Hq; [eauto|]. destruct (inuse d); [eauto|].
    rewrite place_join in Hq. setoid_rewrite place_two. destruct Hq as [[-> _] | Hq]; [eexists; left; split; reflexivity | eauto 10]. }
  destruct bs as [|a bs _] using rev_ind; [apply (Fw q c)|]. rewrite plug_snoc. destruct (plug_fwd_cons b r) as (d & r' & E & _).
  rewrite E. intros Hq. assert (Hex : exists e, (q, e) ∈ place 0 ((bs ++ [a]) ++ plug_fwd b r)); [|destruct Hex as [e He]; exact (Fw q e He)].
  rewrite E, <- app_assoc. cbn [app]. destruct (inuse a); [eauto|]. rewrite place_join in Hq. setoid_rewrite place_two.
  destruct Hq as [[-> _] | Hq]; [eexists; left; split; reflexivity | eauto 10].
Qed.

Lemma aligned_split bs b r s u : aligned (bs ++ b :: r) -> s mod MEM_ALIGNMENT = 0 ->
  aligned (bs ++ mkBlock s u :: mkBlock (blen b - s - SZ) false :: r).
Proof.
  intros A Hs q c Hq. rewrite place_two' in Hq by reflexivity. cbn [blen] in Hq.
  replace (s + SZ + (blen b - s - SZ)) with (blen b) in Hq by lia.
  assert (Ab : span bs mod MEM_ALIGNMENT = 0) by (apply (A _ b), place_one; now left).
  destruct Hq as [[-> _] | [[-> _] | Hq]]; [exact Ab | | apply (A q c), place_one; now right].
  destruct layout as (_ & _ & _ & L & _). pose proof align_pos.
  rewrite <- (Z.add_mod_idemp_r _ s), Hs, Z.add_0_r, <- (Z.add_mod_idemp_r _ SZ), L, Z.add_0_r by lia. exact Ab.
Qed.

Lemma aligned_cut bs b r s : aligned (bs ++ b :: r) -> s mod MEM_ALIGNMENT = 0 -> aligned (bs ++ cut s b r).
Proof.
  intros A Hs q c Hq. pose proof (plug_starts (bs ++ [mkBlock s true]) (mkBlock (blen b - s - SZ) false) r q c eq_refl) as Pl.
  rewrite plug_snoc, <- app_assoc in Pl. destruct (Pl Hq) as [d Hd]. exact (aligned_split bs b r s true A Hs _ _ Hd).
Qed.

Lemma aligned_free bs b r u : aligned (bs ++ b :: r) -> aligned (plug bs (mkBlock (blen b) false) r) /\ aligned (bs ++ mkBlock (blen b) u :: r).
Proof.
  intros A. assert (Au : forall u, aligned (bs ++ mkBlock (blen b) u :: r)).
  { intros v q c Hq. rewrite place_one in Hq. destruct Hq as [[-> _] | Hq]; [apply (A _ b) | apply (A q c)]; rewrite place_one; cbn in *; tauto. }
  split; [|apply Au]. intros q c Hq. apply plug_starts in Hq as [d Hd]; [|reflexivity]. exact (Au _ _ _ Hd).
Qed.

(** *** [mem_init] *)

(** The heap is one free block. *)
Lemma mem_init_ok : exists st, mem_init heap0 = Some (tt, st) /\ heap_ok st [mkBlock (MEM_SIZE - SZ) false] /\ lfree st = 0.
Proof.
  pose proof sz_pos. pose proof size_ok. pose proof end_in as [He0 He]. set (st0 := with_ram (zeros (Z.to_nat MEM_SIZE) 0 (ram heap0)) heap0).
  assert (K : held (fun _ => False) (ram st0) st0 ∅).
  { split; [intros a | intros ? ? E | intros ? ? E | intros ? ? ? ? E | intros ? ? ? E | tauto]; try now rewrite lookup_empty in E. unfold st0, heap0. cbn [ram with_ram].
    rewrite !zeros_lookup, lookup_empty.
    destruct (Z.leb_spec 0 a), (Z.ltb_spec a (0 + Z.of_nat (Z.to_nat MEM_SIZE))), (Z.ltb_spec a (0 + Z.of_nat (Z.to_nat ram_bytes))); cbn [andb];
      (split; [intros [x Hx]; (discriminate || lia) | intros; (eauto || lia)]). }
  destruct (held_add _ _ _ _ 0 K) as [h0 K0]; [lia | lia | intros q h E; now rewrite lookup_empty in E | tauto |].
  destruct (held_add _ _ _ _ MEM_SIZE K0) as [h1 K1]; [lia | lia | | tauto |].
  { intros q h. rewrite lookup_insert_Some. intros [[<- _] | [_ E]]; [unfold apart; lia | now rewrite lookup_empty in E]. }
  destruct (set_next_ok _ _ _ _ 0 h0 MEM_SIZE K1 ltac:(ins; reflexivity) ltac:(lia)) as (m1 & E1 & K2).
  destruct (set_prev_ok _ _ _ _ 0 _ 0 K2 ltac:(ins; reflexivity) ltac:(lia)) as (m2 & E2 & K3). cbn [h_next h_used] in K3.
  destruct (set_used_ok _ _ _ _ 0 _ 0 K3 ltac:(ins; reflexivity) ltac:(lia)) as (m3 & E3 & K4). cbn [h_next h_prev] in K4.
  set (st3 := with_ram_end MEM_SIZE (with_ram m3 (with_ram m2 (with_ram m1 st0)))).
  assert (K5 := held_other _ _ (with_ram m3 (with_ram m2 (with_ram m1 st0))) st3 _ eq_refl K4).
  destruct (set_used_ok _ _ _ _ MEM_SIZE h1 1 K5 ltac:(ins; reflexivity) ltac:(lia)) as (m4 & E4 & K6).
  destruct (set_next_ok _ _ _ _ MEM_SIZE _ MEM_SIZE K6 ltac:(ins; reflexivity) ltac:(lia)) as (m5 & E5 & K7). cbn [h_prev h_used] in K7.
  destruct (set_prev_ok _ _ _ _ MEM_SIZE _ MEM_SIZE K7 ltac:(ins; reflexivity) ltac:(lia)) as (m6 & E6 & K8). cbn [h_next h_used] in K8.
  eexists. split; [|split].
  - unfold mem_init. unfold sm_bind at 1, sm_modify at 1. fold st0.
    rewrite (sm_bind_some _ _ _ _ _ E1), (sm_bind_some _ _ _ _ _ E2), (sm_bind_some _ _ _ _ _ E3). unfold sm_bind at 1, sm_modify at 1. fold st3.
    rewrite (sm_bind_some _ _ _ _ _ E4), (sm_bind_some _ _ _ _ _ E5), (sm_bind_some _ _ _ _ _ E6). reflexivity.
  - split; [| repeat constructor; cbn; lia | exact I | reflexivity | exists (mkBlock (MEM_SIZE - SZ) false); split; [now left | reflexivity] | reflexivity | reflexivity].
    eexists. split; [|split].
    + eapply (held_protect (fun _ => False)); [refine (held_other _ _ _ _ _ _ K8); reflexivity | tauto].
    + cbn [chain blen inuse c_bool]. replace (0 + SZ + (MEM_SIZE - SZ)) with MEM_SIZE by lia. ins. split; [reflexivity|]. ins. eauto.
    + intros k h. rewrite !lookup_insert_Some, lookup_empty. intros Hk.
      assert (k = 0 \/ k = MEM_SIZE) as [-> | ->] by (repeat destruct Hk as [[<- _] | [_ Hk]]; auto; discriminate); [right | now left].
      eexists. now left.
  - reflexivity.
Qed.

Lemma inv_init rs st : mem_init heap0 = Some (tt, st) -> heap_inv rs st ∅.
Proof.
  intros E. destruct mem_init_ok as (st' & E' & K & El). rewrite E in E'. injection E' as <-.
  exists [mkBlock (MEM_SIZE - SZ) false]. split_and!; [exact K | | |].
  - intros p n. rewrite lookup_empty. cbn [place]. rewrite elem_of_cons. split; [discriminate|].
    intros [[=] | Hn]; now apply elem_of_nil in Hn.
  - intros q b. cbn [place]. rewrite elem_of_cons. intros [[= -> _] | Hn]; [reflexivity | now apply elem_of_nil in Hn].
  - intros _ q b. cbn [place]. rewrite elem_of_cons, El. intros [[= -> _] | Hn]; [lia | now apply elem_of_nil in Hn].
Qed.

(** *** The calls *)

(** A place for [s] bytes among the blocks in use. *)
Definition room_for (N : gmap Z nat) (s p : Z) : Prop :=
  SZ <= p /\ p + s + SZ <= MEM_SIZE /\
  forall q n, N !! q = Some n -> q + Z.of_nat n <= p - SZ \/ p + s + SZ <= q - SZ.

Lemma room_contents st N s p : room (contents st N) s p <-> room_for N s p.
Proof.
  unfold room, room_for. setoid_rewrite contents_lookup. split; intros (H1 & H2 & H3); split_and!; try assumption.
  - intros q n Hq. specialize (H3 q (bytes_of (ram st) q n)). rewrite bytes_of_length in H3. apply H3. now rewrite Hq.
  - intros q l Hq. apply fmap_Some in Hq as (n & Hq & ->). rewrite bytes_of_length. now apply H3.
Qed.

(** A free block that is large enough is room. *)
Lemma take_room N bs b r s : lens (bs ++ b :: r) -> span (bs ++ b :: r) = MEM_SIZE -> can_take s b -> names N (bs ++ b :: r) ->
  room_for N s (span bs + SZ).
Proof.
  intros L T [Fb Hb] Nm. pose proof sz_pos. pose proof (place_in 0 bs b r) as P. rewrite Z.add_0_l in P.
  pose proof (place_range _ _ _ _ L P). split_and!; [lia | lia |].
  intros q n Hq. apply Nm in Hq. destruct (place_apart _ _ _ _ _ _ L P Hq) as [[_ ->] | Ap]; [discriminate Fb|]. cbn [blen] in Ap. lia.
Qed.

Lemma malloc_step rs st N n : heap_inv rs st N -> exists r st', mem_malloc n st = Some (r, st') /\
  same_bytes N st st' /\ heap_inv rs st' (after N (Malloc n) r) /\
  forall p, r = Some p -> room_for N (got n) p /\ p mod MEM_ALIGNMENT = 0 /\ N !! p = None.
Proof.
  intros (bs & K & Nm & Al & Lo). pose proof (got_range n) as Hg. unfold got in Hg.
  destruct (decide (mem_size_t n = 0)) as [E0 | Hn].
  { exists None, st. split_and!; [unfold mem_malloc; now rewrite E0 | intros p k _; reflexivity | now exists bs | discriminate]. }
  destruct (Z.lt_ge_cases MEM_SIZE (adjust_size (mem_size_t n))) as [Big | Hs].
  { exists None, st. split_and!; [|intros p k _; reflexivity | now exists bs | discriminate].
    unfold mem_malloc. replace (mem_size_t n =? 0) with false by lia. now replace (MEM_SIZE <? adjust_size (mem_size_t n)) with true by lia. }
  destruct (mem_malloc_ok st bs n K Hn (conj Hg Hs)) as (st' & _ & Ed & [(f & b & r & -> & Hc & _ & _ & E & K' & Lo') | (_ & E & K' & El)]).
  - pose proof (ok_lens _ _ K) as L. destruct (names_take N f b r _ L (proj1 Hc) Hg Nm) as [Hn0 Nm'].
    eexists _, st'. split; [exact E|]. split_and!; [now apply (same_bytes_data N (f ++ b :: r)) | |].
    + eexists. split; [exact K'|]. split; [exact Nm'|]. split; [apply (aligned_split _ _ _ _ _ Al (got_aligned n)) | auto].
    + intros p [= <-]. split_and!; [apply (take_room _ _ _ _ _ L (heap_span _ _ K) Hc Nm) | | exact Hn0].
      destruct layout as (_ & _ & _ & La & _). rewrite <- Z.add_mod_idemp_r, La, Z.add_0_r by (pose proof align_pos; lia).
      apply (Al _ b), place_one. now left.
  - exists None, st'. split_and!; [exact E | now apply (same_bytes_data N bs) | | discriminate].
    exists bs. rewrite El. auto.
Qed.

(** The block of a live pointer. *)
Lemma inv_block N bs p n : names N bs -> N !! p = Some n -> exists f b r, bs = f ++ b :: r /\ b = mkBlock (Z.of_nat n) true /\ p = span f + SZ.
Proof.
  intros Nm Hp. apply Nm, place_split in Hp as (f & r & -> & E). exists f, (mkBlock (Z.of_nat n) true), r. split_and!; [reflexivity.. | lia].
Qed.

Lemma free_step rs st N p n : heap_inv rs st N -> N !! p = Some n ->
  exists st', mem_free (Some p) st = Some (tt, st') /\ same_bytes N st st' /\ heap_inv rs st' (delete p N).
Proof.
  intros (bs & K & Nm & Al & Lo) Hp. destruct (inv_block _ _ _ _ Nm Hp) as (f & b & r & -> & Eb & ->).
  assert (Ub : inuse b = true) by (now rewrite Eb). destruct (mem_free_ok _ _ _ _ K Ub) as (st' & E & K' & Ed & Lo').
  exists st'. split_and!; [exact E | now apply (same_bytes_data N (f ++ b :: r)) |].
  eexists. split; [exact K'|]. split_and!; [now apply names_free, Nm; apply K | now apply (aligned_free _ _ _ true) | auto].
Qed.

Lemma realloc_step st N p k n : heap_inv true st N -> N !! p = Some k ->
  let r := if MEM_SIZE <? got n then None else Some p in
  exists st', mem_realloc (Some p) n st = Some (r, st') /\ heap_inv true st' (after N (Realloc (Some p) n) r) /\
    same_bytes (after N (Realloc (Some p) n) r) st st'.
Proof.
  intros (bs & K & Nm & Al & _) Hp r. destruct (inv_block _ _ _ _ Nm Hp) as (f & b & t & -> & Eb & Ep).
  assert (Ub : inuse b = true) by (now rewrite Eb). pose proof (got_range n) as Hg.
  destruct (mem_realloc_ok _ _ _ _ n K Ub Hg) as (st' & E & K' & Ed & _). fold (got n) in *. rewrite <- Ep in E.
  exists st'. split; [exact E|]. assert (Lb : blen b = Z.of_nat k) by (now rewrite Eb). rewrite Lb in K', Ed. subst r. cbn [after].
  unfold after_realloc. rewrite Hp. destruct (MEM_SIZE <? got n); cbn [orb] in *.
  - split; [exists (f ++ b :: t); now split_and!|]. now apply (same_bytes_data N (f ++ b :: t)).
  - destruct (Z.leb_spec (Z.of_nat k) (got n + SZ + MIN_SIZE)) as [Hk | Hk].
    + replace (got n + SZ + MIN_SIZE <? Z.of_nat k) with false by lia.
      split; [exists (f ++ b :: t); now split_and!|]. now apply (same_bytes_data N (f ++ b :: t)).
    + replace (got n + SZ + MIN_SIZE <? Z.of_nat k) with true by lia. unfold MIN_SIZE in Hk.
      assert (Nm' : names (<[p := Z.to_nat (got n)]> N) (f ++ cut (got n) b t)).
      { rewrite Ep. apply names_cut; [apply K | exact Ub | exact Hg | lia | exact Nm]. }
      split; [|now apply (same_bytes_data _ (f ++ cut (got n) b t))].
      exists (f ++ cut (got n) b t). split_and!; [exact K' | exact Nm' | apply aligned_cut, got_aligned; exact Al | discriminate].
Qed.

(** *** Bytes of the application *)

(** Writing to blocks in use leaves the heap alone. *)
Lemma heap_data_write st bs m' : heap_ok st bs -> (forall a, is_Some (m' !! a) <-> is_Some (ram st !! a)) ->
  (forall a, ~ data bs a -> m' !! a = ram st !! a) -> heap_ok (with_ram m' st) bs.
Proof.
  intros K D E. pose proof (heap_span _ _ K) as T. destruct K as [(H & Kh & C & X) L N En Fl Ee Se]. split; try assumption.
  exists H. split_and!; [|assumption..]. pose proof Kh as [A B C' D' F G]. cbn [ram with_ram]. split; try assumption.
  - intros a. rewrite D. apply A.
  - intros p h Hp. destruct (B p h Hp) as (E1 & E2 & E3). destruct layout as (Lm & Lu & Ls & _). pose proof align_pos.
    assert (Out : forall a, p <= a < p + SZ -> m' !! a = ram st !! a).
    { intros a Ha. apply E. intros Da. destruct (X _ _ Hp) as [-> | [b Hb]]; [pose proof (data_below _ _ L T Da); lia|].
      exact (data_no_header _ _ _ _ L Hb Ha Da). }
    unfold header_at, off_prev in *. rewrite <- E1, <- E2, <- E3. split_and!; apply rd_ext; intros i Hi; apply Out; lia.
  - reflexivity.
Qed.

(** The bytes of a live block can be reached, and are in use. *)
Lemma live_byte rs st N p n a : heap_inv rs st N -> N !! p = Some n -> p <= a < p + Z.of_nat n -> is_Some (ram st !! a).
Proof.
  intros (bs & K & Nm & _) Hp Ha. pose proof K as [(H & Kh & _) L _ _ _ _ _]. apply Nm in Hp. pose proof sz_pos. pose proof end_in.
  pose proof (place_range _ _ _ _ L Hp) as R. rewrite (heap_span _ _ K) in R. cbn [blen] in R. apply (held_dom _ _ _ _ Kh). lia.
Qed.

Lemma inv_write rs st N m' : heap_inv rs st N -> (forall a, is_Some (m' !! a) <-> is_Some (ram st !! a)) ->
  (forall a, m' !! a = ram st !! a \/ exists p n, N !! p = Some n /\ p <= a < p + Z.of_nat n) -> heap_inv rs (with_ram m' st) N.
Proof.
  intros (bs & K & Nm & Al & Lo) D E. exists bs. split_and!; [|assumption..]. apply heap_data_write; [exact K | exact D|].
  intros a Na. destruct (E a) as [Ea | (p & n & Hp & Ha)]; [exact Ea|]. exfalso. apply Na.
  exists (p - SZ), (mkBlock (Z.of_nat n) true). split_and!; [now apply Nm | reflexivity | cbn; lia | cbn; lia].
Qed.

(** Live blocks do not meet. *)
Lemma live_apart rs st N p n q k : heap_inv rs st N -> N !! p = Some n -> N !! q = Some k -> p <> q ->
  p + Z.of_nat n <= q \/ q + Z.of_nat k <= p.
Proof.
  intros (bs & K & Nm & _) Hp Hq Ne. apply Nm in Hp, Hq. pose proof sz_pos.
  destruct (place_apart _ _ _ _ _ _ (ok_lens _ _ K) Hp Hq) as [[E _] | Ap]; [lia|]. cbn [blen] in Ap. lia.
Qed.

Lemma mem_copy_ok n dst src st : (forall a, dst <= a < dst + Z.of_nat n \/ src <= a < src + Z.of_nat n -> is_Some (ram st !! a)) ->
  dst + Z.of_nat n <= src \/ src + Z.of_nat n <= dst ->
  exists m', memcpy n dst src st = Some (tt, with_ram m' st) /\ (forall a, is_Some (m' !! a) <-> is_Some (ram st !! a)) /\
    (forall a, a < dst \/ dst + Z.of_nat n <= a -> m' !! a = ram st !! a) /\
    forall i, 0 <= i < Z.of_nat n -> m' !! (dst + i) = ram st !! (src + i).
Proof.
  revert dst src st. induction n as [|n IH]; intros dst src st D Ap; cbn [memcpy].
  { exists (ram st). split_and!; [now destruct st | tauto | tauto | lia]. }
  destruct (D dst ltac:(lia)) as [d Ed]. destruct (D src ltac:(lia)) as [b Eb].
  set (st1 := with_ram (<[dst := b]> (ram st)) st).
  assert (D1 : forall a, is_Some (ram st1 !! a) <-> is_Some (ram st !! a)).
  { intros a. cbn [ram st1 with_ram]. destruct (decide (a = dst)) as [-> | Ne]; [rewrite lookup_insert_eq, Ed; split; eauto | now rewrite lookup_insert_ne]. }
  destruct (IH (dst + 1) (src + 1) st1) as (m' & E & D2 & Oth & Cp); [intros a Ha; apply D1, D; lia | lia |].
  exists m'. split_and!.
  - unfold sm_bind, copy_byte. rewrite Eb, Ed. exact E.
  - intros a. now rewrite D2.
  - intros a Ha. rewrite Oth by lia. cbn [ram st1 with_ram]. apply lookup_insert_ne. lia.
  - intros i Hi. destruct (Z.eq_dec i 0) as [-> | Ni].
    + rewrite !Z.add_0_r, Oth by lia. cbn [ram st1 with_ram]. now rewrite lookup_insert_eq.
    + pose proof (Cp (i - 1) ltac:(lia)) as Ec. replace (dst + 1 + (i - 1)) with (dst + i) in Ec by lia.
      rewrite Ec. cbn [ram st1 with_ram]. replace (src + 1 + (i - 1)) with (src + i) by lia. apply lookup_insert_ne. lia.
Qed.

(** *** [contents] *)

Lemma contents_same N st st' : same_bytes N st st' -> contents st' N = contents st N.
Proof.
  intros S. apply map_eq. intros p. rewrite !contents_lookup. destruct (N !! p) as [n|] eqn:E; [|reflexivity]. cbn. now rewrite (S _ _ E).
Qed.

Lemma contents_insert st N p n : contents st (<[p := n]> N) = <[p := bytes_of (ram st) p n]> (contents st N).
Proof.
  apply map_eq. intros q. rewrite contents_lookup. destruct (decide (q = p)) as [-> | Ne].
  - now rewrite !lookup_insert_eq.
  - rewrite !lookup_insert_ne by congruence. now rewrite contents_lookup.
Qed.

Lemma contents_delete st N p : contents st (delete p N) = delete p (contents st N).
Proof.
  apply map_eq. intros q. rewrite contents_lookup. destruct (decide (q = p)) as [-> | Ne].
  - now rewrite !lookup_delete_eq.
  - rewrite !lookup_delete_ne by congruence. now rewrite contents_lookup.
Qed.

Lemma contents_at st N p n : N !! p = Some n -> contents st N !! p = Some (bytes_of (ram st) p n).
Proof. intros E. now rewrite contents_lookup, E. Qed.

Lemma bytes_of_take m p n k : (k <= n)%nat -> take k (bytes_of m p n) = bytes_of m p k.
Proof.
  intros Hk. apply list_eq. intros i. destruct (decide (i < k)%nat) as [Hi | Hi].
  - rewrite lookup_take_lt by exact Hi. rewrite !bytes_of_lookup by lia. reflexivity.
  - rewrite lookup_take_ge by lia. symmetry. apply lookup_ge_None. rewrite bytes_of_length. lia.
Qed.
End Invariant.
