(* ===== verification/MemHeap.v ===== *)
(** * Theorems about runs of the heap

    [mem_heap_refines]: every call that the application may make returns, and
    answers as the specification says.  [mem_malloc_first_fit]: which address
    [mem_malloc] gives, and when it gives none.  [mem_all_freed]: a heap whose
    blocks are all freed is whole again.  No C code. *)
From Stdlib Require Import ZArith Lia List Bool.
From stdpp Require Import base gmap list numbers option.
From S2P Require Import Prelude Mem MemBytes MemChain MemOps MemRun.
#[local] Open Scope Z_scope.
#[local] Open Scope sm_scope.

Section Heap.
Context {MC : MemConfig} {ML : MemLaws}.
#[local] Abbreviation SZ := SIZEOF_STRUCT_MEM.

(** ** One call *)

(** What a call must do: return, answer as specified, keep the invariant. *)
Definition call_ok (rs : bool) (st : heap) (N : gmap Z nat) (c : mcall) : Prop :=
  exists r st', mem_exec c st = Some (r, st') /\ heap_spec (contents st N) c r (contents st' (after N c r)) /\
    heap_inv rs st' (after N c r).

Lemma malloc_spec st st' N n r : same_bytes N st st' ->
  (forall p, r = Some p -> room_for N (got n) p /\ p mod MEM_ALIGNMENT = 0 /\ N !! p = None) ->
  heap_spec (contents st N) (Malloc n) r (contents st' (after N (Malloc n) r)).
Proof.
  intros S R. destruct r as [p|]; cbn [after].
  - destruct (R p eq_refl) as (Rm & Al & Np). rewrite contents_insert, (contents_same _ _ _ S). constructor; [now apply room_contents | exact Al |].
    rewrite bytes_of_length. pose proof (got_range n). lia.
  - rewrite (contents_same _ _ _ S). constructor.
Qed.

Lemma malloc_call rs st N n : heap_inv rs st N -> call_ok rs st N (Malloc n).
Proof. intros K. destruct (malloc_step rs st N n K) as (r & st' & E & S & K' & R). exists r, st'. split_and!; [exact E | now apply malloc_spec | exact K']. Qed.

Lemma free_call rs st N p n : heap_inv rs st N -> N !! p = Some n -> call_ok rs st N (Free (Some p)).
Proof.
  intros K Hp. destruct (free_step rs st N p n K Hp) as (st' & E & S & K'). exists None, st'. cbn [mem_exec after]. split_and!; [| |exact K'].
  - now rewrite (sm_bind_some _ _ _ _ _ E).
  - rewrite contents_delete, (contents_same _ _ _ S). constructor.
Qed.

Lemma realloc_call st N p n k : heap_inv true st N -> N !! p = Some k -> call_ok true st N (Realloc (Some p) n).
Proof.
  intros K Hp. destruct (realloc_step st N p k n K Hp) as (st' & E & K' & S). eexists _, st'. split_and!; [exact E | | exact K'].
  rewrite (contents_same _ _ _ S). clear E S K'. cbn [after]. unfold after_realloc. rewrite Hp.
  destruct (Z.ltb_spec MEM_SIZE (got n)); [now constructor|]. pose proof (contents_at st N p k Hp) as Ec. pose proof sz_pos. pose proof (got_range n).
  destruct (Z.ltb_spec (got n + SZ + MIN_SIZE) (Z.of_nat k)).
  - rewrite contents_insert. unfold MIN_SIZE in *. rewrite <- (bytes_of_take _ _ k) by lia.
    apply (spec_realloc_cut _ _ _ _ Ec). now rewrite bytes_of_length.
  - apply (spec_realloc_same _ _ _ _ Ec). rewrite bytes_of_length. lia.
Qed.

Lemma read_call rs st N p i k : heap_inv rs st N -> N !! p = Some k -> (i < k)%nat -> call_ok rs st N (Read p i).
Proof.
  intros K Hp Hi. destruct (live_byte _ _ _ _ _ (p + Z.of_nat i) K Hp ltac:(lia)) as [b Eb].
  exists (Some b), st. split_and!; [| |exact K].
  - cbn [mem_exec]. unfold sm_bind, ld_n. change (Z.to_nat 1) with 1%nat. cbn [rd]. rewrite Eb. unfold sm_ret. do 3 f_equal. lia.
  - apply (spec_read _ _ _ _ _ (contents_at st N p k Hp)). rewrite bytes_of_lookup by exact Hi. now rewrite Eb.
Qed.

Lemma write_call rs st N p i v k : heap_inv rs st N -> N !! p = Some k -> (i < k)%nat -> call_ok rs st N (Write p i v).
Proof.
  intros K Hp Hi. destruct (live_byte _ _ _ _ _ (p + Z.of_nat i) K Hp ltac:(lia)) as [b Eb].
  set (m' := <[p + Z.of_nat i := v mod 256]> (ram st)). exists None, (with_ram m' st). split_and!.
  - cbn [mem_exec]. unfold sm_bind, st_n. change (Z.to_nat 1) with 1%nat. cbn [wr]. now rewrite Eb.
  - cbn [after]. replace (contents (with_ram m' st) N) with (<[p := <[i := v mod 256]> (bytes_of (ram st) p k)]> (contents st N));
      [constructor; now apply contents_at|].
    apply map_eq. intros q. destruct (decide (q = p)) as [-> | Ne].
    + rewrite lookup_insert_eq, contents_lookup, Hp. cbn [fmap option_fmap option_map ram with_ram]. f_equal. apply list_eq. intros j.
      destruct (decide (j < k)%nat) as [Hj | Hj].
      * rewrite bytes_of_lookup by exact Hj. subst m'. destruct (decide (j = i)) as [-> | Nj].
        -- rewrite lookup_insert_eq, list_lookup_insert_eq by (rewrite bytes_of_length; exact Hi). reflexivity.
        -- rewrite lookup_insert_ne, list_lookup_insert_ne, bytes_of_lookup by (lia || exact Hj). reflexivity.
      * rewrite !(proj2 (lookup_ge_None _ _)); rewrite ?length_insert, ?bytes_of_length; (reflexivity || lia).
    + rewrite lookup_insert_ne, !contents_lookup by congruence. destruct (N !! q) as [n|] eqn:Eq; [|reflexivity]. cbn. f_equal. symmetry.
      apply bytes_of_ext. intros a Ha. apply lookup_insert_ne. destruct (live_apart _ _ _ _ _ _ _ K Hp Eq); [congruence | lia | lia].
  - cbn [after]. apply inv_write; [exact K | |].
    + intros a. subst m'. destruct (decide (a = p + Z.of_nat i)) as [-> | Ne]; [rewrite lookup_insert_eq, Eb; split; eauto | now rewrite lookup_insert_ne by congruence].
    + intros a. destruct (decide (a = p + Z.of_nat i)) as [-> | Ne]; [right; exists p, k; split; [exact Hp | lia] | left; now apply lookup_insert_ne].
Qed.

(** *** [mem_reallocm] *)

Lemma got_ge n : mem_size_t n <= MEM_SIZE -> mem_size_t n <= got n.
Proof.
  intros Hn. pose proof (got_small (mem_size_t n) (conj (mem_size_t_range n) Hn)) as Hg.
  replace (got (mem_size_t n)) with (got n) in Hg; [lia|]. unfold got, mem_size_t. now rewrite wrap_wrap.
Qed.

Lemma live_size rs st N p k : heap_inv rs st N -> N !! p = Some k -> Z.of_nat k <= MEM_SIZE.
Proof.
  intros (bs & K & Nm & _) Hp. apply Nm in Hp. pose proof (place_range _ _ _ _ (ok_lens _ _ K) Hp) as R.
  rewrite (heap_span _ _ K) in R. cbn [blen] in R. pose proof sz_pos. lia.
Qed.

(** The bytes of the blocks after the front of one is copied to another. *)
Lemma contents_copy rs st N m' p k q n m : heap_inv rs st N -> N !! q = Some n -> (m <= k)%nat -> (m <= n)%nat ->
  (forall a, a < q \/ q + Z.of_nat m <= a -> m' !! a = ram st !! a) ->
  (forall i, 0 <= i < Z.of_nat m -> m' !! (q + i) = ram st !! (p + i)) ->
  contents (with_ram m' st) N = <[q := take m (bytes_of (ram st) p k) ++ drop m (bytes_of (ram st) q n)]> (contents st N).
Proof.
  intros K Hq Hk Hn Oth Cp. apply map_eq. intros x. destruct (decide (x = q)) as [-> | Nx].
  - rewrite lookup_insert_eq, (contents_at _ _ _ _ Hq). cbn [ram with_ram]. f_equal. apply list_eq. intros j.
    destruct (decide (j < m)%nat) as [Hj | Hj].
    + rewrite lookup_app_l, lookup_take_lt by (rewrite ?length_take, ?bytes_of_length; lia). rewrite !bytes_of_lookup by lia.
      rewrite Cp by lia. reflexivity.
    + rewrite lookup_app_r by (rewrite length_take, bytes_of_length; lia). rewrite lookup_drop, length_take, bytes_of_length.
      replace (m + (j - m `min` k))%nat with j by lia. destruct (decide (j < n)%nat) as [Hj' | Hj'].
      * rewrite !bytes_of_lookup by exact Hj'. rewrite Oth by lia. reflexivity.
      * rewrite !(proj2 (lookup_ge_None _ _)); rewrite ?bytes_of_length; (reflexivity || lia).
  - rewrite lookup_insert_ne, !contents_lookup by congruence. destruct (N !! x) as [y|] eqn:Ex; [|reflexivity]. cbn. f_equal.
    apply bytes_of_ext. intros a Ha. apply Oth. destruct (live_apart _ _ _ _ _ _ _ K Ex Hq Nx); lia.
Qed.

Lemma reallocm_call st N p n k : heap_inv true st N -> N !! p = Some k -> mem_size_t n <= Z.of_nat k -> call_ok true st N (Reallocm (Some p) n).
Proof.
  intros K Hp Hk. pose proof (live_size _ _ _ _ _ K Hp). pose proof (mem_size_t_range n) as Hn. pose proof (got_ge n ltac:(lia)) as Hg.
  destruct (malloc_step true st N n K) as (r & st1 & E1 & S1 & K1 & R1). unfold call_ok. cbn [mem_exec]. unfold mem_reallocm.
  rewrite (sm_bind_some _ _ _ _ _ E1). destruct r as [q|].
  - destruct (R1 q eq_refl) as (Rm & Al & Nq). cbn [after] in K1. set (N1 := <[q := Z.to_nat (got n)]> N) in K1.
    assert (Nqp : q <> p) by congruence. assert (Hp1 : N1 !! p = Some k) by (unfold N1; now rewrite lookup_insert_ne).
    assert (Hq1 : N1 !! q = Some (Z.to_nat (got n))) by (unfold N1; now rewrite lookup_insert_eq).
    set (m := Z.to_nat (mem_size_t n)). destruct (mem_copy_ok m q p st1) as (m' & E2 & D2 & Oth & Cp).
    { intros a [Ha | Ha]; [apply (live_byte _ _ _ _ _ _ K1 Hq1) | apply (live_byte _ _ _ _ _ _ K1 Hp1)]; lia. }
    { destruct (live_apart _ _ _ _ _ _ _ K1 Hq1 Hp1 Nqp); [left | right]; lia. }
    set (st2 := with_ram m' st1) in *. assert (K2 : heap_inv true st2 N1).
    { apply inv_write; [exact K1 | exact D2 |]. intros a.
      destruct (Z.lt_ge_cases a q); [left; apply Oth; lia|]. destruct (Z.le_gt_cases (q + Z.of_nat m) a); [left; apply Oth; lia|].
      right. exists q, (Z.to_nat (got n)). split; [exact Hq1 | lia]. }
    destruct (free_step true st2 N1 p k K2 Hp1) as (st3 & E3 & S3 & K3).
    exists (Some q), st3. cbn [after]. replace (q =? p) with false by lia. fold N1. split_and!; [| | exact K3].
    { rewrite (sm_bind_some _ _ _ _ _ E2), (sm_bind_some _ _ _ _ _ E3). reflexivity. }
    rewrite contents_delete, (contents_same _ _ _ S3).
    assert (Ec : contents st2 N1 = <[q := take m (bytes_of (ram st) p k) ++ drop m (bytes_of (ram st1) q (Z.to_nat (got n)))]> (contents st1 N1)).
    { rewrite <- (S1 p k Hp). apply (contents_copy true); [exact K1 | exact Hq1 | lia | lia | exact Oth | exact Cp]. }
    rewrite Ec. apply (spec_reallocm_move _ p n (bytes_of (ram st) p k) q (contents st1 N1)).
    + exact (malloc_spec st st1 N n (Some q) S1 R1).
    + now apply contents_at.
    + now apply contents_at.
  - cbn [after] in K1. destruct (realloc_call st1 N p n k K1 Hp) as (r & st' & E & Sp & K'). cbn [mem_exec] in E.
    rewrite (contents_same _ _ _ S1) in Sp. exists r, st'.
    assert (Ea : after N (Reallocm (Some p) n) r = after N (Realloc (Some p) n) r).
    { cbn [after]. destruct r as [q|]; [|reflexivity]. inversion Sp; subst; now rewrite Z.eqb_refl. }
    rewrite Ea. split_and!; [exact E | now apply spec_reallocm_stay | exact K'].
Qed.

Lemma any_call rs st N c : heap_inv rs st N -> legal N c -> (rs = false -> resizes c = false) -> call_ok rs st N c.
Proof.
  intros K Lg G. destruct c as [n | [p|] | [p|] n | [p|] n | p i | p i v]; cbn [legal] in Lg; try contradiction.
  - now apply malloc_call.
  - destruct Lg as [k Hp]. now apply (free_call _ _ _ _ k).
  - exists None, st. split_and!; [reflexivity | constructor | exact K].
  - destruct rs; [|now specialize (G eq_refl)]. destruct Lg as [k Hp]. now apply (realloc_call _ _ _ _ k).
  - destruct rs; [|now specialize (G eq_refl)]. destruct Lg as (k & Hp & Hk). now apply (reallocm_call _ _ _ _ k).
  - destruct Lg as (k & Hp & Hi). now apply (read_call _ _ _ _ _ k).
  - destruct Lg as (k & Hp & Hi). now apply (write_call _ _ _ _ _ _ k).
Qed.

Lemma mem_reach_inv rs st N : mem_reach rs st N -> heap_inv rs st N.
Proof.
  induction 1 as [st E | st N c r st' Hr IH Lg G E]; [now apply inv_init|].
  destruct (any_call rs st N c IH Lg G) as (r' & st'' & E' & _ & K). rewrite E in E'. injection E' as <- <-. exact K.
Qed.

(** ** Free room *)

(** An interval that meets no block in use lies in one free block. *)
Lemma gap_in_block p bs x y : lens bs -> norm bs -> p <= x -> x < y -> y <= p + span bs ->
  (forall q b, (q, b) ∈ place p bs -> inuse b = true -> q + SZ + blen b <= x \/ y <= q) ->
  exists q b, (q, b) ∈ place p bs /\ inuse b = false /\ q <= x /\ y <= q + SZ + blen b.
Proof.
  pose proof sz_pos. revert p. induction bs as [|b bs IH]; intros p L Nb Hx Hxy Hy Hfree; cbn [span] in Hy; [lia|].
  inversion L as [|? ? Lb L']. subst x0 l. destruct (Z.le_gt_cases (p + SZ + blen b) x) as [Hge | Hlt].
  - destruct (IH (p + SZ + blen b) L') as (q & c & Hq & Hc); [destruct bs; [exact I | apply Nb] | lia | lia | lia | |].
    + intros q c Hq. apply Hfree. now right.
    + exists q, c. split; [now right | exact Hc].
  - assert (Fb : inuse b = false).
    { destruct (inuse b) eqn:Ub; [|reflexivity]. destruct (Hfree p b ltac:(now left) Ub); lia. }
    exists p, b. split; [now left|]. split_and!; [exact Fb | lia |]. destruct bs as [|c bs]; [cbn [span] in Hy; lia|].
    inversion L' as [|? ? Lc Lr]. subst x0 l. destruct Nb as [[Ub | Uc] _]; [congruence|].
    destruct (Hfree (p + SZ + blen b) c ltac:(right; now left) Uc); lia.
Qed.

(** Room is room in a free block. *)
Lemma room_block N bs s p : lens bs -> norm bs -> span bs = MEM_SIZE -> names N bs -> 0 <= s -> room_for N s p ->
  exists q b, (q, b) ∈ place 0 bs /\ can_take s b /\ q + SZ <= p.
Proof.
  intros L Nb T Nm Hs (H1 & H2 & H3). pose proof sz_pos.
  destruct (gap_in_block 0 bs (p - SZ) (p + s + SZ) L Nb) as (q & b & Hq & Fb & Hx & Hy); [lia | lia | lia | |].
  - intros q b Hq Ub. pose proof (place_range _ _ _ _ L Hq) as R.
    specialize (H3 (q + SZ) (Z.to_nat (blen b))). rewrite Z2Nat.id in H3 by lia. destruct H3 as [H3 | H3]; [|lia..].
    apply Nm. rewrite Z2Nat.id by lia. replace (q + SZ - SZ) with q by lia. destruct b; cbn in *. now subst.
  - exists q, b. split_and!; [exact Hq | split; [exact Fb | lia] | lia].
Qed.

Lemma malloc_first_fit_inv st N n : heap_inv false st N -> mem_size_t n <> 0 ->
  exists r st', mem_malloc n st = Some (r, st') /\
    match r with
    | Some p => room_for N (got n) p /\ forall p', room_for N (got n) p' -> p <= p'
    | None => forall p', ~ room_for N (got n) p'
    end.
Proof.
  intros (bs & K & Nm & _ & Lo) Hn0. specialize (Lo eq_refl). pose proof (got_range n) as Hg. pose proof sz_pos. pose proof (heap_span _ _ K) as T.
  pose proof K as [_ L Nb _ _ _ _]. unfold got in *. set (s := adjust_size (mem_size_t n)) in *.
  destruct (Z.lt_ge_cases MEM_SIZE s) as [Big | Hs].
  { exists None, st. split; [|intros p' (H1 & H2 & _); lia].
    unfold mem_malloc. fold s. replace (mem_size_t n =? 0) with false by lia. now replace (MEM_SIZE <? s) with true by lia. }
  assert (Hs0 : 0 <= s <= MEM_SIZE) by lia.
  destruct (mem_malloc_ok st bs n K Hn0 Hs0) as (st' & _ & _ & [(f & b & r & Eb & Hc & Nf & _ & E & _) | (Nt & E & _)]).
  - exists (Some (span f + SZ)), st'. split; [exact E|]. subst bs. split; [now apply (take_room _ _ _ _ _ L T Hc)|].
    intros p' Rp. destruct (room_block _ _ s _ L Nb T Nm (proj1 Hs0) Rp) as (q & c & Hq & Hcc & Hqp).
    specialize (Nf Lo). rewrite place_app, elem_of_app in Hq. destruct Hq as [Hq | Hq].
    + apply place_split in Hq as (f1 & f2 & -> & _). apply Forall_app in Nf as [_ Nf]. inversion Nf. contradiction.
    + apply lens_app in L as [_ L]. pose proof (place_range _ _ _ _ L Hq). lia.
  - exists None, st'. split; [exact E|]. intros p' Rp. destruct (room_block _ _ s _ L Nb T Nm (proj1 Hs0) Rp) as (q & c & Hq & Hcc & _).
    apply place_split in Hq as (f1 & f2 & -> & _). specialize (Nt Lo). apply Forall_app in Nt as [_ Nt]. inversion Nt. contradiction.
Qed.

(** Without a block in use there is one block. *)
Lemma one_block N bs : norm bs -> ends_free bs -> names N bs -> N = ∅ -> lens bs -> exists b, bs = [b] /\ inuse b = false.
Proof.
  intros Nb En Nm -> L. assert (F : forall q b, (q, b) ∈ place 0 bs -> inuse b = false).
  { intros q b Hq. destruct (inuse b) eqn:Ub; [|reflexivity]. pose proof (place_range _ _ _ _ L Hq).
    assert (X : (∅ : gmap Z nat) !! (q + SZ) = Some (Z.to_nat (blen b))); [|now rewrite lookup_empty in X].
    apply Nm. rewrite Z2Nat.id by lia. replace (q + SZ - SZ) with q by lia. destruct b; cbn in *. now subst. }
  destruct bs as [|b [|c r]]; [destruct En | exists b; split; [reflexivity | exact En] |].
  destruct Nb as [[Ub | Uc] _].
  - rewrite (F 0 b ltac:(now left)) in Ub. discriminate.
  - rewrite (F _ c ltac:(right; now left)) in Uc. discriminate.
Qed.

Lemma all_freed_inv rs st n : heap_inv rs st ∅ -> mem_size_t n <> 0 -> got n + 2 * SZ <= MEM_SIZE ->
  exists st', mem_malloc n st = Some (Some SZ, st').
Proof.
  intros (bs & K & Nm & Al & _) Hn Hg. pose proof K as [_ L Nb En Fl _ _]. destruct (one_block _ _ Nb En Nm eq_refl L) as (b & -> & Fb).
  destruct (malloc_first_fit_inv st ∅ n) as (r & st' & E & Hr); [|exact Hn|].
  - exists [b]. split_and!; [exact K | exact Nm | exact Al |]. intros _ q c Hq _. cbn [place] in Hq. rewrite elem_of_cons in Hq.
    destruct Hq as [[= -> ->] | Hq]; [|now apply elem_of_nil in Hq]. destruct Fl as (d & Hd & _). cbn [place] in Hd. rewrite elem_of_cons in Hd.
    destruct Hd as [[= -> ->] | Hd]; [lia | now apply elem_of_nil in Hd].
  - assert (Rm : room_for ∅ (got n) SZ) by (pose proof (got_range n); split_and!; [lia | lia | intros q k Hq; now rewrite lookup_empty in Hq]).
    destruct r as [p|]; [|destruct (Hr _ Rm)]. exists st'. rewrite E. do 3 f_equal. destruct Hr as [(H1 & _) H2]. specialize (H2 _ Rm). lia.
Qed.

(** ** The theorems *)

(** C14: The heap is what it promises to be.  In every state that an
    application reaches by [mem_init] and any calls on its own blocks, the next
    such call returns (it neither reads nor writes outside of the heap, nor loops,
    nor waits for the semaphore for ever), its answer is one of the
    specification, and so are the bytes of all live blocks afterwards: a new block
    has the size asked for (rounded up), is aligned, and lies apart from all
    others, and calls change no byte of a live block that the specification
    does not change. *)
Theorem mem_heap_refines rs st N c : mem_reach rs st N -> legal N c -> (rs = false -> resizes c = false) ->
  exists r st', mem_exec c st = Some (r, st') /\
    heap_spec (contents st N) c r (contents st' (after N c r)) /\ mem_reach rs st' (after N c r).
Proof.
  intros R Lg G. destruct (any_call rs st N c (mem_reach_inv _ _ _ R) Lg G) as (r & st' & E & Sp & _).
  exists r, st'. split_and!; [exact E | exact Sp | now apply (reach_call rs st N c r)].
Qed.

(** C15: While no block is resized, [mem_malloc] gives the lowest address at
    which the bytes fit between the live blocks, and [NULL] exactly when there is
    no such address. *)
Theorem mem_malloc_first_fit st N n : mem_reach false st N -> mem_size_t n <> 0 ->
  exists r st', mem_malloc n st = Some (r, st') /\
    match r with
    | Some p => room (contents st N) (got n) p /\ forall p', room (contents st N) (got n) p' -> p <= p'
    | None => forall p', ~ room (contents st N) (got n) p'
    end.
Proof.
  intros R Hn. destruct (malloc_first_fit_inv st N n (mem_reach_inv _ _ _ R) Hn) as (r & st' & E & Hr).
  exists r, st'. split; [exact E|]. destruct r as [p|].
  - destruct Hr as [H1 H2]. split; [now apply room_contents|]. intros p' Hp. apply H2. now apply room_contents in Hp.
  - intros p' Hp. apply (Hr p'). now apply room_contents in Hp.
Qed.

(** C17: Nothing is lost for good: whatever the calls before, when no block is
    live the whole heap can be had in one block again, at its start. *)
Theorem mem_all_freed rs st n : mem_reach rs st ∅ -> mem_size_t n <> 0 -> got n + 2 * SZ <= MEM_SIZE ->
  exists st', mem_malloc n st = Some (Some SZ, st').
Proof. intros R. apply (all_freed_inv rs), mem_reach_inv, R. Qed.

(** ** Where the code does not do what it says *)

(** C19: A call of [mem_realloc] with a pointer that is not into the heap gives
    the pointer back and keeps the semaphore: with threads, no later
    [mem_malloc] that looks for a block, and no later [mem_free], returns. *)
Theorem mem_realloc_locks st rmem n : NO_SYS = false -> mem_sem st = 1 -> got n <= MEM_SIZE ->
  (forall r, rmem = Some r -> r < 0 \/ ram_end st <= r) ->
  exists st', mem_realloc rmem n st = Some (rmem, st') /\
    (forall m, mem_size_t m <> 0 -> got m <= MEM_SIZE -> mem_malloc m st' = None) /\
    (forall p, mem_free (Some p) st' = None) /\
    (forall p m, got m <= MEM_SIZE -> mem_realloc p m st' = None).
Proof.
  intros NS Sem Hn Hr. exists (with_sem 0 st). assert (W : forall A (k : SM heap A), (sys_sem_wait ;; k) (with_sem 0 st) = None).
  { intros A k. unfold sm_bind, sys_sem_wait. now rewrite NS. }
  unfold got in *. split_and!.
  - unfold mem_realloc. replace (MEM_SIZE <? adjust_size (mem_size_t n)) with false by lia.
    rewrite (sm_bind_some _ _ _ _ _ (sem_wait_ok _ Sem)). unfold taken. rewrite NS. unfold sm_bind at 1, sm_get at 1. cbn [ram_end with_sem].
    destruct rmem as [r|]; [|reflexivity]. specialize (Hr r eq_refl).
    replace ((r <? 0) || (ram_end st <=? r)) with true by (destruct (Z.ltb_spec r 0), (Z.leb_spec (ram_end st) r); cbn; lia). reflexivity.
  - intros m Hm Hg. unfold mem_malloc. replace (mem_size_t m =? 0) with false by lia.
    replace (MEM_SIZE <? adjust_size (mem_size_t m)) with false by lia. apply W.
  - intros p. apply W.
  - intros p m Hg. unfold mem_realloc. replace (MEM_SIZE <? adjust_size (mem_size_t m)) with false by lia. apply W.
Qed.

(** Where [mem_malloc] looks, and what [mem_realloc] does to that place. *)
Lemma malloc_above rs st N n q st' : heap_inv rs st N -> mem_malloc n st = Some (Some q, st') -> lfree st + SZ <= q.
Proof.
  intros (bs & K & _) E. pose proof (got_range n) as Hg. unfold got in Hg. unfold mem_malloc in E.
  destruct (Z.eqb_spec (mem_size_t n) 0) as [|Hn]; [discriminate|].
  destruct (Z.ltb_spec MEM_SIZE (adjust_size (mem_size_t n))) as [|Hs]; [discriminate|].
  destruct (mem_malloc_ok st bs n K Hn (conj Hg Hs)) as (st1 & _ & _ & [(f & b & r & _ & _ & _ & Hl & E1 & _) | (_ & E1 & _)]);
    unfold mem_malloc in E1; rewrite (proj2 (Z.eqb_neq _ _) Hn), (proj2 (Z.ltb_ge _ _) Hs) in E1; rewrite E in E1; [|discriminate].
  injection E1 as -> _. lia.
Qed.

Lemma realloc_lfree st N p k n r st' : heap_inv true st N -> N !! p = Some k -> lfree st <> p + Z.of_nat k ->
  mem_realloc (Some p) n st = Some (r, st') -> lfree st' = lfree st.
Proof.
  intros (bs & K & Nm & _) Hp Nl E. destruct (inv_block _ _ _ _ Nm Hp) as (f & b & t & -> & -> & ->).
  destruct (mem_realloc_ok _ _ _ _ n K eq_refl (got_range n)) as (st1 & E1 & _ & _ & Kl).
  rewrite E in E1. injection E1 as _ ->. apply Kl. cbn [blen]. lia.
Qed.

(** The room that a shrunk block leaves. *)
Lemma shrunk_room N p k g s : SZ <= p -> p + Z.of_nat k + SZ <= MEM_SIZE -> 0 <= g -> 0 <= s -> g + s + 2 * SZ <= Z.of_nat k ->
  (forall q n, N !! q = Some n -> q <> p -> q + Z.of_nat n <= p - SZ \/ p + Z.of_nat k <= q - SZ) ->
  room_for (<[p := Z.to_nat g]> N) s (p + g + SZ).
Proof.
  intros Hp Hk Hg Hs H Ap. pose proof sz_pos. split_and!; [lia | lia |]. intros q n. rewrite lookup_insert_Some.
  intros [[<- <-] | [Nq Hq]]; [left; lia|]. destruct (Ap q n Hq ltac:(congruence)); [left | right]; lia.
Qed.

(** C18: [mem_realloc] does not lower [lfree] to the memory it frees.  A live block
    that lies below [lfree], and does not end there, is shrunk; then the bytes
    behind its new end are free, and hold any block that fits, but the next
    [mem_malloc] gives no address up to the block's old end: when nothing fits
    behind it, the call answers [NULL]. *)
Theorem mem_realloc_hides_memory st N p k n : mem_reach true st N -> N !! p = Some k ->
  got n + SZ + MIN_SIZE < Z.of_nat k -> p + Z.of_nat k < lfree st ->
  exists st', let N' := <[p := Z.to_nat (got n)]> N in
    mem_exec (Realloc (Some p) n) st = Some (Some p, st') /\ mem_reach true st' N' /\
    (forall m, got n + got m + 2 * SZ <= Z.of_nat k -> room (contents st' N') (got m) (p + got n + SZ)) /\
    (forall m, exists r st'', mem_exec (Malloc m) st' = Some (r, st'') /\ (forall q, r = Some q -> p + Z.of_nat k < q) /\
       ((forall q, room (contents st' N') (got m) q -> q <= p + Z.of_nat k) -> r = None)).
Proof.
  intros R Hp Hn Hl. pose proof (mem_reach_inv _ _ _ R) as K. pose proof (live_size _ _ _ _ _ K Hp) as Hk.
  pose proof (got_range n) as Hg. pose proof sz_pos. unfold MIN_SIZE in Hn.
  destruct (realloc_step st N p k n K Hp) as (st' & E & _). replace (MEM_SIZE <? got n) with false in E by lia.
  assert (Ea : after N (Realloc (Some p) n) (Some p) = <[p := Z.to_nat (got n)]> N).
  { cbn [after]. unfold after_realloc, MIN_SIZE. rewrite Hp. now replace (got n + SZ + 12 <? Z.of_nat k) with true by lia. }
  assert (R' : mem_reach true st' (<[p := Z.to_nat (got n)]> N)).
  { rewrite <- Ea. apply (reach_call true st N (Realloc (Some p) n) (Some p)); [exact R | now exists k | discriminate | exact E]. }
  pose proof (mem_reach_inv _ _ _ R') as K'. exists st'. cbv zeta. split_and!; [exact E | exact R' | |].
  - intros m Hm. apply room_contents. destruct K as (bs & K & Nm & _). pose proof (ok_lens _ _ K) as L.
    pose proof (proj1 (Nm p k) Hp) as Pp. pose proof (place_range _ _ _ _ L Pp) as Rp. cbn [blen] in Rp. pose proof (heap_span _ _ K) as T.
    destruct (ok_lfree _ _ K) as (c & Pc & _). pose proof (place_range _ _ _ _ L Pc).
    apply (shrunk_room N p k); try lia; [apply got_range|]. intros q j Hq Nq. pose proof (proj1 (Nm q j) Hq) as Pq.
    destruct (place_apart _ _ _ _ _ _ L Pp Pq) as [[Eq _] | Ap]; [lia|]. cbn [blen] in Ap. lia.
  - intros m. destruct (malloc_step true st' _ m K') as (r & st'' & Em & _ & _ & Rm). exists r, st''. split; [exact Em|].
    assert (Hb : forall q, r = Some q -> p + Z.of_nat k < q).
    { intros q ->. pose proof (malloc_above _ _ _ _ _ _ K' Em) as Hq. rewrite (realloc_lfree _ _ _ _ _ _ _ K Hp ltac:(lia) E) in Hq. lia. }
    split; [exact Hb|]. intros Hr. destruct r as [q|]; [|reflexivity]. specialize (Hb q eq_refl).
    pose proof (Hr q (proj2 (room_contents st' _ _ _) (proj1 (Rm q eq_refl)))). lia.
Qed.

(** A block does not grow: [mem_realloc] gives the pointer back as if it had. *)
Theorem mem_realloc_never_grows st N p k n : mem_reach true st N -> N !! p = Some k -> Z.of_nat k < n -> n <= MEM_SIZE -> got n <= MEM_SIZE ->
  exists st', mem_realloc (Some p) n st = Some (Some p, st') /\ mem_reach true st' N.
Proof.
  intros R Hp Hk Hn Hg. destruct (any_call true st N (Realloc (Some p) n) (mem_reach_inv _ _ _ R)) as (r & st' & E & Sp & _);
    [now exists k | discriminate |].
  pose proof (got_small n) as Hg'. pose proof sz_pos. assert (Er : r = Some p /\ after N (Realloc (Some p) n) r = N).
  { assert (r = Some p) as -> by (inversion Sp; subst; (lia || reflexivity)). split; [reflexivity|]. cbn [after]. unfold after_realloc, MIN_SIZE.
    rewrite Hp. now replace (got n + SZ + 12 <? Z.of_nat k) with false by lia. }
  destruct Er as [-> Ea]. exists st'. split; [exact E|]. rewrite <- Ea.
  apply (reach_call true st N (Realloc (Some p) n) (Some p)); [exact R | now exists k | discriminate | exact E].
Qed.

(** A size close to the largest [mem_size_t] is rounded up to 0. *)
Theorem mem_malloc_wraps st n : mem_init heap0 = Some (tt, st) -> MEM_SIZE <= 64000 -> 2 ^ 16 - MEM_ALIGNMENT < n < 2 ^ 16 ->
  got n = 0 /\ exists st', mem_malloc n st = Some (Some SZ, st').
Proof.
  intros E Hm Hn. pose proof align_pos as La. assert (Hw : sizeof_mem_size_t = 2) by (unfold sizeof_mem_size_t; now replace (64000 <? MEM_SIZE) with false by lia).
  assert (En : mem_size_t n = n) by (unfold mem_size_t; rewrite Hw; apply wrap_small; unfold fits; pow2; lia).
  assert (Eg : got n = 0).
  { unfold got. rewrite En. unfold adjust_size. destruct layout as (_ & _ & _ & L & _). rewrite (Z.add_mod n SZ), L, Z.add_0_r, Z.mod_mod by lia.
    unfold mem_size_t. rewrite Hw. unfold wrap. pow2.
    destruct alignment_ok as [Ea | [Ea | [Ea | Ea]]]; rewrite Ea in *; [lia | | |]; case_if; zmod_lia. }
  split; [exact Eg|]. apply (mem_all_freed false); [now constructor | lia |]. pose proof size_ok. lia.
Qed.
End Heap.
