(* ===== verification/MemDemo.v ===== *)
(** * Runs of the heap

    The heap with the [MEM_SIZE] of [opt.h] and an alignment of 4, and runs of it:
    the states at which the theorems are applied, and the runs in which
    [mem_realloc] and [mem_reallocm] do not do what they mean to. *)
From Stdlib Require Import ZArith Lia List Bool.
From stdpp Require Import base gmap list numbers option.
From S2P Require Import Prelude Mem MemBytes MemChain MemOps MemRun MemHeap.
#[local] Open Scope Z_scope.

#[local] Instance small : MemConfig := {| MEM_SIZE := 1600; MEM_ALIGNMENT := 4; NO_SYS := false |}.
#[local] Instance small_ok : MemLaws.
Proof. split; [auto | vm_compute; split; discriminate]. Defined.

(** The state after [mem_init], and after a call. *)
Definition st_init : heap := match mem_init heap0 with Some (_, st) => st | None => heap0 end.
Definition next (c : mcall) (st : heap) : heap := match mem_exec c st with Some (_, st') => st' | None => st end.
Definition reply (c : mcall) (st : heap) : option (option Z) := match mem_exec c st with Some (r, _) => Some r | None => None end.

Lemma reply_next c st r : reply c st = Some r -> mem_exec c st = Some (r, next c st).
Proof. unfold reply, next. destruct (mem_exec c st) as [[r' st']|]; [|discriminate]. now intros [= ->]. Qed.

Lemma next_state {A} (a b : A) (s t : heap) : Some (a, s) = Some (b, t) -> t = s.
Proof. now intros [= _ ->]. Qed.

Lemma next_reply {A} (a b : A) (s t : heap) : Some (a, s) = Some (b, t) -> a = b.
Proof. now intros [= -> _]. Qed.

Lemma mem_reach_start rs : mem_reach rs st_init ∅.
Proof.
  destruct mem_init_ok as (st & E & _). unfold st_init. rewrite E. now constructor.
Qed.

Lemma reach_next rs st N c r : mem_reach rs st N -> legal N c -> (rs = false -> resizes c = false) -> reply c st = Some r ->
  mem_reach rs (next c st) (after N c r).
Proof.
  intros R L G E. apply (reach_call rs st N c r); [assumption.. | now apply reply_next].
Qed.

(** Two blocks, of 100 and of 40 bytes, and a byte written to each. *)
#[local] Abbreviation two :=
  (next (Write 116 3 66) (next (Write 8 0 65) (next (Malloc 40) (next (Malloc 100) st_init)))).
Definition two_names : gmap Z nat := <[116 := 40%nat]> (<[8 := 100%nat]> ∅).

Lemma two_reached rs : mem_reach rs two two_names.
Proof.
  pose proof (mem_reach_start rs) as R0.
  pose proof (reach_next rs _ _ (Malloc 100) (Some 8) R0 I (fun _ => eq_refl) ltac:(vm_compute; reflexivity)) as R1.
  pose proof (reach_next rs _ _ (Malloc 40) (Some 116) R1 I (fun _ => eq_refl) ltac:(vm_compute; reflexivity)) as R2.
  pose proof (reach_next rs _ _ (Write 8 0 65) None R2 ltac:(exists 100%nat; vm_compute; split; [reflexivity | lia]) (fun _ => eq_refl) ltac:(vm_compute; reflexivity)) as R3.
  exact (reach_next rs _ _ (Write 116 3 66) None R3 ltac:(exists 40%nat; vm_compute; split; [reflexivity | lia]) (fun _ => eq_refl) ltac:(vm_compute; reflexivity)).
Qed.

(** The 100 bytes are cut to 50, in a new block. *)
Lemma mem_heap_refines_witness : exists r st', mem_exec (Reallocm (Some 8) 50) two = Some (r, st') /\
  heap_spec (contents two two_names) (Reallocm (Some 8) 50) r (contents st' (after two_names (Reallocm (Some 8) 50) r)) /\
  mem_reach true st' (after two_names (Reallocm (Some 8) 50) r).
Proof.
  apply (mem_heap_refines true two two_names (Reallocm (Some 8) 50)); [apply two_reached | | discriminate].
  exists 100%nat. split; [reflexivity | vm_compute; discriminate].
Defined.

Lemma mem_malloc_first_fit_witness : exists r st', mem_malloc 30 two = Some (r, st') /\
  match r with
  | Some p => room (contents two two_names) (got 30) p /\ forall p', room (contents two two_names) (got 30) p' -> p <= p'
  | None => forall p', ~ room (contents two two_names) (got 30) p'
  end.
Proof. apply (mem_malloc_first_fit two two_names 30); [apply two_reached | vm_compute; discriminate]. Defined.

(** Both blocks are freed. *)
#[local] Abbreviation freed := (next (Free (Some 116)) (next (Free (Some 8)) two)).

Lemma freed_reached rs : mem_reach rs freed ∅.
Proof.
  pose proof (reach_next rs _ _ (Free (Some 8)) None (two_reached rs) ltac:(exists 100%nat; vm_compute; reflexivity) (fun _ => eq_refl) ltac:(vm_compute; reflexivity)) as R1.
  exact (reach_next rs _ _ (Free (Some 116)) None R1 ltac:(exists 40%nat; vm_compute; reflexivity) (fun _ => eq_refl) ltac:(vm_compute; reflexivity)).
Qed.

Lemma mem_all_freed_witness : exists st', mem_malloc 1584 freed = Some (Some SIZEOF_STRUCT_MEM, st').
Proof. apply (mem_all_freed true freed 1584); [apply freed_reached | vm_compute; discriminate | vm_compute; discriminate]. Defined.

Lemma mem_realloc_locks_witness : exists st', mem_realloc None 10 two = Some (None, st') /\
  (forall m, mem_size_t m <> 0 -> got m <= MEM_SIZE -> mem_malloc m st' = None) /\
  (forall p, mem_free (Some p) st' = None) /\
  (forall p m, got m <= MEM_SIZE -> mem_realloc p m st' = None).
Proof. apply (mem_realloc_locks two None 10); [reflexivity | vm_compute; reflexivity | vm_compute; discriminate | discriminate]. Defined.

Lemma mem_realloc_never_grows_witness : exists st', mem_realloc (Some 116) 80 two = Some (Some 116, st') /\ mem_reach true st' two_names.
Proof. apply (mem_realloc_never_grows two two_names 116 40 80); [apply two_reached | reflexivity | lia | vm_compute; discriminate | vm_compute; discriminate]. Defined.

Lemma mem_malloc_wraps_witness : got 65534 = 0 /\ exists st', mem_malloc 65534 st_init = Some (Some SIZEOF_STRUCT_MEM, st').
Proof. apply (mem_malloc_wraps st_init 65534); [vm_compute; reflexivity | vm_compute; discriminate | vm_compute; auto]. Defined.

(** ** Runs that go wrong *)

(** A heap in which two blocks leave no room; the first is cut to 20 bytes. *)
Definition cut_names : gmap Z nat := <[8 := 20%nat]> (<[1016 := 576%nat]> (<[8 := 1000%nat]> ∅)).

Definition full_names : gmap Z nat := after (after ∅ (Malloc 1000) (Some 8)) (Malloc 576) (Some 1016).

Lemma full_reached : mem_reach true (next (Malloc 576) (next (Malloc 1000) st_init)) full_names.
Proof.
  pose proof (reach_next true _ _ (Malloc 1000) (Some 8) (mem_reach_start true) I (fun _ => eq_refl) ltac:(vm_compute; reflexivity)) as R1.
  exact (reach_next true _ _ (Malloc 576) (Some 1016) R1 I (fun _ => eq_refl) ltac:(vm_compute; reflexivity)).
Qed.

Lemma mem_realloc_hides_memory_witness : let full := next (Malloc 576) (next (Malloc 1000) st_init) in
  exists st', mem_exec (Realloc (Some 8) 20) full = Some (Some 8, st') /\ mem_reach true st' cut_names /\
    room (contents st' cut_names) (got 500) 36 /\ exists st'', mem_exec (Malloc 500) st' = Some (None, st'').
Proof.
  destruct (mem_realloc_hides_memory _ full_names 8 1000 20 full_reached) as (st' & E & R & Rm & M);
    [vm_compute; reflexivity.. |].
  assert (En : <[8 := Z.to_nat (got 20)]> full_names = cut_names) by (vm_compute; reflexivity). rewrite En in R, Rm, M.
  exists st'. split; [exact E|]. split; [exact R|]. split; [apply Rm; vm_compute; discriminate|].
  destruct (M 500) as (r & st'' & E2 & Hq & _). exists st''. rewrite E2. destruct r as [q|]; [|reflexivity]. exfalso.
  assert (D : reply (Realloc (Some 8) 20) (next (Malloc 576) (next (Malloc 1000) st_init)) = Some (Some 8)) by (vm_compute; reflexivity).
  apply (eq_trans (eq_sym (reply_next _ _ _ D))), next_state in E. subst st'.
  assert (F : reply (Malloc 500) (next (Realloc (Some 8) 20) (next (Malloc 576) (next (Malloc 1000) st_init))) = Some None) by (vm_compute; reflexivity).
  apply (eq_trans (eq_sym (reply_next _ _ _ F))), next_reply in E2. discriminate E2.
Defined.

(** The counter of used bytes: a block of 160 bytes, resized to 150 (nothing
    can be cut off) and freed, leaves 65528 of 65536 used. *)
#[local] Abbreviation resized := (next (Realloc (Some 8) 150) (next (Malloc 160) st_init)).

Theorem mem_stats_drift : exists st, mem_exec (Free (Some 8)) resized = Some (None, st) /\ used_bytes (mem_stats st) = 65528.
Proof.
  exists (next (Free (Some 8)) resized). split; [apply reply_next; vm_compute; reflexivity | vm_compute; reflexivity].
Qed.

(** A block that is to grow is moved with the bytes behind it: byte 3 of the
    second block is now also byte 111 of the first one's new place. *)
Theorem mem_reallocm_copies_too_much : exists st st',
  mem_exec (Reallocm (Some 8) 120) two = Some (Some 164, st) /\ mem_exec (Read 164 111) st = Some (Some 66, st').
Proof.
  eexists _, _. split; apply reply_next; vm_compute; reflexivity.
Qed.
