(* ===== verification/Memp.v ===== *)
(** * The pools: [src/nsc-0.5.3/lwip-HEAD/src/core/memp.c]

    lwIP's fixed-size pools: for each type of block a number of elements in one
    array, [memp_memory], the free ones of a type on a list through their first
    bytes, a [struct memp].

    The sizes of the C structs depend on the compiler and the address of the
    array on the linker: the class [MempConfig] has them, with the numbers of
    elements ([MEMP_NUM_PBUF] and so on) in the order of [memp_t].  [MEM_ALIGNMENT] and
    [NO_SYS] are those of [Mem]; [SYS_LIGHTWEIGHT_PROT] and [MEMP_SANITY_CHECK]
    are 0, [MEMP_STATS] is 1, a pointer has 4 bytes, [NULL] is 0. *)
From Stdlib Require Import ZArith Lia List Bool.
From stdpp Require Import base gmap list numbers option.
From S2P Require Import Prelude Mem.
#[local] Open Scope Z_scope.
#[local] Open Scope sm_scope.

Class MempConfig := { memp_memory : Z; memp_sizes : list Z; memp_num : list Z }.

(** [memp_t] has 11 values. *)
Definition MEMP_MAX : nat := 11.
Definition sizeof_memp : Z := 4.

Record pools := mkPools {
  pool_mem : gmap Z Z;           (* the bytes of the array, at their addresses *)
  memp_tab : list Z;
  mutex : Z;
  memp_stats : list stats_mem
}.

Definition with_pool_mem (m : gmap Z Z) (st : pools) : pools := mkPools m (memp_tab st) (mutex st) (memp_stats st).
Definition with_tab (t : list Z) (st : pools) : pools := mkPools (pool_mem st) t (mutex st) (memp_stats st).
Definition with_mutex (s : Z) (st : pools) : pools := mkPools (pool_mem st) (memp_tab st) s (memp_stats st).
Definition with_memp_stats (f : list stats_mem -> list stats_mem) (st : pools) : pools :=
  mkPools (pool_mem st) (memp_tab st) (mutex st) (f (memp_stats st)).

Section Ops.
Context `{MemConfig} `{MempConfig}.
#[local] Abbreviation M := (SM pools).

Definition MEM_ALIGN_SIZE (size : Z) : Z := Z.land (size + MEM_ALIGNMENT - 1) (Z.lnot (MEM_ALIGNMENT - 1)).
Definition MEM_ALIGN (addr : Z) : Z := u32 (Z.land (addr + MEM_ALIGNMENT - 1) (Z.lnot (MEM_ALIGNMENT - 1))).

(** [memp->next]. *)
Definition get_link (p : Z) : M Z :=
  fun st => match rd (pool_mem st) 4 p with Some v => Some (v, st) | None => None end.
Definition set_link (p v : Z) : M unit :=
  fun st => match wr (pool_mem st) 4 p v with Some m => Some (tt, with_pool_mem m st) | None => None end.

(** [memp_tab[i]]. *)
Definition get_tab (i : nat) : M Z :=
  fun st => match memp_tab st !! i with Some p => Some (p, st) | None => None end.
Definition set_tab (i : nat) (p : Z) : M unit :=
  fun st => match memp_tab st !! i with Some _ => Some (tt, with_tab (<[i := p]> (memp_tab st)) st) | None => None end.

Definition mutex_wait : M unit :=
  fun st => if NO_SYS then Some (tt, st)
            else if mutex st =? 0 then None else Some (tt, with_mutex (mutex st - 1) st).
Definition mutex_signal : M unit := sm_modify (fun st => if NO_SYS then st else with_mutex (mutex st + 1) st).

(** ** [memp_init] *)

(** The size of an element of type [i]. *)
Definition elem_size (i : nat) : Z := u16 (MEM_ALIGN_SIZE (nth i memp_sizes 0 + sizeof_memp)).

(** [sizeof(memp_memory)]. *)
Fixpoint array_bytes (n : nat) : Z :=
  match n with
  | O => 0
  | S i => array_bytes i + nth i memp_num 0 * MEM_ALIGN_SIZE (nth i memp_sizes 0 + sizeof_memp)
  end.
Definition memp_bytes : Z := array_bytes MEMP_MAX.

(** The static variables before the first call. *)
Definition pools0 : pools :=
  mkPools (zeros (Z.to_nat memp_bytes) memp_memory ∅) (replicate MEMP_MAX 0) 0 (replicate MEMP_MAX (mkMemStats 0 0 0 0)).

(** The inner loop: the values of [memp] and [m] at its end. *)
Fixpoint link_elems (n : nat) (memp m size : Z) : M (Z * Z) :=
  match n with
  | O => sm_ret (memp, m)
  | S n' =>
      set_link m (MEM_ALIGN (m + size)) ;;
      m' <- get_link m ;;
      link_elems n' m m' size
  end.

(** One turn of the outer loop: the value of [memp] at its end. *)
Definition memp_init_pool (i : nat) (memp : Z) : M Z :=
  if 0 <? nth i memp_num 0 then
    set_tab i memp ;;
    r <- link_elems (Z.to_nat (nth i memp_num 0)) memp memp (elem_size i) ;;
    set_link (fst r) 0 ;;
    sm_ret (snd r)
  else set_tab i 0 ;; sm_ret memp.

Fixpoint memp_init_pools (n i : nat) (memp : Z) : M Z :=
  match n with
  | O => sm_ret memp
  | S n' => memp <- memp_init_pool i memp ;; memp_init_pools n' (S i) memp
  end.

Definition memp_init : M unit :=
  sm_modify (with_memp_stats (fun s => zip_with (fun s n => mkMemStats (mem_size_t n) 0 0 0) s memp_num)) ;;
  memp_init_pools MEMP_MAX 0 memp_memory ;;
  sm_modify (with_mutex 1).

(** ** [memp_malloc] and [memp_free] *)

Definition memp_count_used (s : stats_mem) : stats_mem :=
  let u := mem_size_t (used_bytes s + 1) in
  mkMemStats (avail s) u (if max s <? u then u else max s) (err s).
Definition memp_count_free (s : stats_mem) : stats_mem :=
  mkMemStats (avail s) (mem_size_t (used_bytes s - 1)) (max s) (err s).
Definition memp_count_err (s : stats_mem) : stats_mem :=
  mkMemStats (avail s) (used_bytes s) (max s) (mem_size_t (err s + 1)).

Definition memp_malloc (i : nat) : M Z :=
  mutex_wait ;;
  memp <- get_tab i ;;
  if negb (memp =? 0) then
    n <- get_link memp ;;
    set_tab i n ;;
    set_link memp 0 ;;
    sm_modify (with_memp_stats (alter memp_count_used i)) ;;
    mutex_signal ;;
    sm_ret (MEM_ALIGN (memp + sizeof_memp))
  else
    sm_modify (with_memp_stats (alter memp_count_err i)) ;;
    mutex_signal ;;
    sm_ret 0.

Definition memp_free (i : nat) (mem : Z) : M unit :=
  if mem =? 0 then sm_ret tt
  else
    let memp := mem - sizeof_memp in
    mutex_wait ;;
    sm_modify (with_memp_stats (alter memp_count_free i)) ;;
    n <- get_tab i ;;
    set_link memp n ;;
    set_tab i memp ;;
    mutex_signal.
End Ops.
