(* ===== verification/MempSpec.v ===== *)
(** * What the pools promise

    The elements of the pools lie apart in the array; the free ones of each type
    are on its list, and the others are live.  [memp_pools_safe]: runs of an
    application get each block once, of its type's size, until it is freed, and
    nothing only when all blocks of the type are live.  No C code. *)
From Stdlib Require Import ZArith Lia List Bool.
From stdpp Require Import base gmap list numbers option.
From S2P Require Import Prelude Mem MemBytes Memp.
#[local] Open Scope Z_scope.
#[local] Open Scope sm_scope.

(** What the compiler and the linker must provide. *)
Class MempLaws `{MemConfig} `{MempConfig} := {
  memp_alignment : MEM_ALIGNMENT = 1 \/ MEM_ALIGNMENT = 2 \/ MEM_ALIGNMENT = 4;
  memp_lengths : length memp_sizes = MEMP_MAX /\ length memp_num = MEMP_MAX;
  memp_small i : 0 <= nth i memp_sizes 0 < 65520 /\ 0 <= nth i memp_num 0;
  memp_place : 0 < memp_memory /\ memp_memory mod MEM_ALIGNMENT = 0 /\ memp_memory + memp_bytes < 2 ^ 32 - 8
}.

Section Pools.
Context {MC : MemConfig} {PC : MempConfig} {ML : MempLaws}.

(** ** Alignment *)

Lemma memp_align_pos : 0 < MEM_ALIGNMENT <= 4.
Proof. destruct memp_alignment as [-> | [-> | ->]]; lia. Qed.

Lemma round_down x : Z.land x (Z.lnot (MEM_ALIGNMENT - 1)) = x - x mod MEM_ALIGNMENT.
Proof.
  assert (P : exists k, 0 <= k /\ MEM_ALIGNMENT = 2 ^ k) by (destruct memp_alignment as [-> | [-> | ->]]; [exists 0 | exists 1 | exists 2]; split; (lia || reflexivity)).
  destruct P as (k & Hk & ->). replace (2 ^ k - 1) with (Z.ones k) by (rewrite Z.ones_equiv; lia).
  rewrite <- Z.ldiff_land, Z.ldiff_ones_r, shiftl_mul, shiftr_div by exact Hk. pose proof (pow2_pos k Hk).
  pose proof (Z.div_mod x (2 ^ k)). lia.
Qed.

Lemma align_size_ok s : MEM_ALIGN_SIZE s mod MEM_ALIGNMENT = 0 /\ s <= MEM_ALIGN_SIZE s < s + MEM_ALIGNMENT.
Proof.
  unfold MEM_ALIGN_SIZE. rewrite round_down. destruct memp_alignment as [-> | [-> | ->]]; split; zmod_lia.
Qed.

Lemma align_fix a : 0 <= a < 2 ^ 32 - 8 -> a mod MEM_ALIGNMENT = 0 -> MEM_ALIGN a = a.
Proof.
  intros Ha Hm. unfold MEM_ALIGN. rewrite round_down. rewrite wrap_small.
  - destruct memp_alignment as [E | [E | E]]; rewrite E in *; zmod_lia.
  - unfold fits. pow2. pose proof memp_align_pos. pose proof (Z.mod_pos_bound (a + MEM_ALIGNMENT - 1) MEM_ALIGNMENT). lia.
Qed.

(** ** Elements *)

Lemma elem_size_eq i : elem_size i = MEM_ALIGN_SIZE (nth i memp_sizes 0 + sizeof_memp) /\
  elem_size i mod MEM_ALIGNMENT = 0 /\ nth i memp_sizes 0 + 4 <= elem_size i /\ 4 <= elem_size i.
Proof.
  destruct (memp_small i) as [Hs _]. destruct (align_size_ok (nth i memp_sizes 0 + sizeof_memp)) as [Hm Hr].
  pose proof memp_align_pos. unfold elem_size, sizeof_memp in *. rewrite wrap_small by (unfold fits; pow2; lia). split_and!; (exact Hm || lia).
Qed.

(** The first element of type [i], and an element of it. *)
Definition pool_start (i : nat) : Z := memp_memory + array_bytes i.

Definition is_elem (i : nat) (x : Z) : Prop :=
  (i < MEMP_MAX)%nat /\ exists j, 0 <= j < nth i memp_num 0 /\ x = pool_start i + j * elem_size i.

Lemma array_bytes_S i : array_bytes (S i) = array_bytes i + nth i memp_num 0 * elem_size i.
Proof. cbn [array_bytes]. destruct (elem_size_eq i) as (-> & _). reflexivity. Qed.

Lemma array_bytes_mono i k : (i <= k)%nat -> array_bytes i <= array_bytes k.
Proof.
  induction 1 as [|k Hk IH]; [lia|]. rewrite array_bytes_S. destruct (elem_size_eq k) as (_ & _ & _ & Hs). destruct (memp_small k). nia.
Qed.

Lemma pool_start_aligned i : pool_start i mod MEM_ALIGNMENT = 0.
Proof.
  unfold pool_start. destruct memp_place as (_ & Hb & _). pose proof memp_align_pos.
  assert (Ha : array_bytes i mod MEM_ALIGNMENT = 0).
  { induction i as [|i IH]; [reflexivity|]. rewrite array_bytes_S. destruct (elem_size_eq i) as (_ & Hm & _).
    rewrite <- Z.add_mod_idemp_l, IH, Z.add_0_l, <- Z.mul_mod_idemp_r, Hm, Z.mul_0_r by lia. reflexivity. }
  rewrite <- Z.add_mod_idemp_r, Ha, Z.add_0_r by lia. exact Hb.
Qed.

Lemma elem_range i x : is_elem i x -> pool_start i <= x /\ x + elem_size i <= pool_start (S i) /\
  memp_memory <= x /\ x + elem_size i <= memp_memory + memp_bytes /\ x mod MEM_ALIGNMENT = 0.
Proof.
  intros (Hi & j & Hj & ->). destruct (elem_size_eq i) as (_ & Hm & _ & Hs). pose proof memp_align_pos. unfold pool_start at 2 3 4.
  rewrite array_bytes_S. pose proof (array_bytes_mono 0 i ltac:(lia)) as M0. pose proof (array_bytes_mono (S i) MEMP_MAX ltac:(lia)) as M1.
  rewrite array_bytes_S in M1. cbn [array_bytes] in M0. unfold memp_bytes. unfold pool_start.
  split_and!; try nia. pose proof (pool_start_aligned i) as Hp. unfold pool_start in Hp.
  rewrite <- Z.add_mod_idemp_l, Hp, Z.add_0_l, <- Z.mul_mod_idemp_r, Hm, Z.mul_0_r by lia. reflexivity.
Qed.

(** Two elements are the same or lie apart. *)
Lemma elem_apart i x k y : is_elem i x -> is_elem k y -> (i = k /\ x = y) \/ x + elem_size i <= y \/ y + elem_size k <= x.
Proof.
  intros Hx Hy. pose proof (elem_range _ _ Hx) as Rx. pose proof (elem_range _ _ Hy) as Ry.
  destruct (Nat.lt_trichotomy i k) as [Lt | [-> | Lt]].
  - pose proof (array_bytes_mono (S i) k Lt). unfold pool_start in *. lia.
  - destruct Hx as (_ & j & Hj & ->), Hy as (_ & l & Hl & ->). destruct (elem_size_eq k) as (_ & _ & _ & Hs).
    destruct (Z.lt_trichotomy j l) as [H | [-> | H]]; [nia | auto | nia].
  - pose proof (array_bytes_mono (S k) i Lt). unfold pool_start in *. lia.
Qed.

(** ** Links *)

(** The free list that starts at [p]. *)
Fixpoint flist (m : gmap Z Z) (p : Z) (l : list Z) : Prop :=
  match l with
  | [] => p = 0
  | x :: r => p = x /\ x <> 0 /\ exists n, rd m 4 x = Some n /\ flist m n r
  end.

Lemma flist_ext m m' p l : (forall x a, x ∈ l -> x <= a < x + 4 -> m' !! a = m !! a) -> flist m p l -> flist m' p l.
Proof.
  revert p. induction l as [|x l IH]; intros p E; cbn [flist]; [auto|]. intros (-> & Hx & n & En & Hl).
  split_and!; [reflexivity | exact Hx |]. exists n. split.
  - rewrite (rd_ext m); [exact En|]. intros a Ha. apply (E x); [now left | lia].
  - apply IH; [|exact Hl]. intros y a Hy. apply E. now right.
Qed.

Lemma get_link_ok st p v : rd (pool_mem st) 4 p = Some v -> get_link p st = Some (v, st).
Proof. intros E. unfold get_link. now rewrite E. Qed.

Definition in_array (m : gmap Z Z) : Prop := forall a, is_Some (m !! a) <-> memp_memory <= a < memp_memory + memp_bytes.

Lemma set_link_ok st p v : in_array (pool_mem st) -> memp_memory <= p -> p + 4 <= memp_memory + memp_bytes -> 0 <= v < 2 ^ 32 ->
  exists m, set_link p v st = Some (tt, with_pool_mem m st) /\ in_array m /\ rd m 4 p = Some v /\
    forall a, a < p \/ p + 4 <= a -> m !! a = pool_mem st !! a.
Proof.
  intros D H1 H2 Hv. destruct (wr_total (pool_mem st) 4 p v) as [m E]; [intros i Hi; apply D; lia|].
  exists m. unfold set_link. rewrite E. split_and!; [reflexivity | | |].
  - intros a. rewrite (wr_dom _ _ _ _ _ _ E). apply D.
  - rewrite (rd_wr _ _ _ _ _ E). f_equal. apply Z.mod_small. exact Hv.
  - intros a Ha. apply (wr_other _ _ _ _ _ _ E). lia.
Qed.

(** ** The invariant *)

(** [N] is the live blocks with their types. *)
Definition pool_ok (st : pools) (N : gmap Z nat) (i : nat) : Prop :=
  exists p l, memp_tab st !! i = Some p /\ flist (pool_mem st) p l /\ NoDup l /\
    (forall x, is_elem i x <-> x ∈ l \/ N !! (x + 4) = Some i) /\ (forall x, x ∈ l -> N !! (x + 4) = None).

Record pools_ok (st : pools) (N : gmap Z nat) : Prop := {
  po_mem : in_array (pool_mem st);
  po_pool i : (i < MEMP_MAX)%nat -> pool_ok st N i;
  po_live p i : N !! p = Some i -> is_elem i (p - 4);
  po_mutex : mutex st = 1
}.

Definition mutex_taken : Z := if NO_SYS then 1 else 0.

Lemma mutex_wait_ok st : mutex st = 1 -> mutex_wait st = Some (tt, with_mutex mutex_taken st).
Proof. intros E. unfold mutex_wait, mutex_taken. destruct st as [m t s w]. cbn in E. subst s. destruct NO_SYS; reflexivity. Qed.

Lemma mutex_signal_ok st : mutex st = mutex_taken -> mutex_signal st = Some (tt, with_mutex 1 st).
Proof. intros E. unfold mutex_signal, mutex_taken, sm_modify in *. destruct st as [m t s w]. cbn in E. subst s. destruct NO_SYS; reflexivity. Qed.

(** The bytes of the live blocks. *)
Definition block_byte (N : gmap Z nat) (a : Z) : Prop := exists p i, N !! p = Some i /\ p <= a < p + nth i memp_sizes 0.

(** Writing a link leaves the lists of other elements, and live blocks, alone. *)
Lemma link_apart i x k y a : is_elem i x -> is_elem k y -> x <> y -> y <= a < y + elem_size k -> a < x \/ x + 4 <= a.
Proof.
  intros Hx Hy Ne Ha. destruct (elem_size_eq i) as (_ & _ & _ & Hs). destruct (elem_apart _ _ _ _ Hx Hy) as [[_ E] | ]; [contradiction | lia].
Qed.

Lemma pool_ok_other st st' N N' i x k : is_elem i x -> i <> k -> (k < MEMP_MAX)%nat -> memp_tab st' !! k = memp_tab st !! k ->
  (forall a, a < x \/ x + 4 <= a -> pool_mem st' !! a = pool_mem st !! a) -> (forall p, p <> x + 4 -> N' !! p = N !! p) -> N' !! (x + 4) <> Some k ->
  pool_ok st N k -> pool_ok st' N' k.
Proof.
  intros Hx Ne Hk Et Em En Ex (p & l & Ep & Hl & Nd & He & Hn).
  assert (Ney : forall y, is_elem k y -> y <> x).
  { intros y Hy ->. destruct (elem_size_eq i) as (_ & _ & _ & Hs). destruct (elem_size_eq k) as (_ & _ & _ & Hs').
    destruct (elem_apart _ _ _ _ Hx Hy) as [[E _] | ]; [contradiction | lia]. }
  exists p, l. split_and!; [now rewrite Et | | exact Nd | |].
  - apply (flist_ext (pool_mem st)); [|exact Hl]. intros y a Hy Ha. apply Em. assert (Hy' : is_elem k y) by (apply He; now left).
    destruct (elem_size_eq k) as (_ & _ & _ & Hs). apply (link_apart i x k y); [assumption.. | now apply not_eq_sym, Ney | lia].
  - intros y. split.
    + intros Hy. rewrite En by (intros E; apply (Ney y Hy); lia). now apply He.
    + intros [Hy | Hy]; [apply He; now left|]. destruct (decide (y + 4 = x + 4)) as [E | E].
      * rewrite E in Hy. contradiction.
      * apply He. right. now rewrite <- En.
  - intros y Hy. rewrite En; [now apply Hn|]. intros E. assert (Hy' : is_elem k y) by (apply He; now left). apply (Ney y Hy'). lia.
Qed.

(** ** The calls *)

Lemma get_tab_ok st i p : memp_tab st !! i = Some p -> get_tab i st = Some (p, st).
Proof. intros E. unfold get_tab. now rewrite E. Qed.

Lemma set_tab_ok st i p q : memp_tab st !! i = Some q -> set_tab i p st = Some (tt, with_tab (<[i := p]> (memp_tab st)) st).
Proof. intros E. unfold set_tab. now rewrite E. Qed.

(** A block starts behind the link of its element. *)
Lemma elem_block i x : is_elem i x -> MEM_ALIGNMENT <> 0 -> MEM_ALIGN (x + sizeof_memp) = x + 4 /\ x + 4 <> 0 /\ x <> 0.
Proof.
  intros Hx _. destruct (elem_range _ _ Hx) as (_ & _ & H1 & H2 & Hm). destruct memp_place as (H3 & _ & H4). destruct (elem_size_eq i) as (_ & _ & _ & Hs).
  split_and!; [|lia..]. apply align_fix; [unfold sizeof_memp; lia|]. unfold sizeof_memp.
  destruct memp_alignment as [E | [E | E]]; rewrite E in *; zmod_lia.
Qed.

Lemma memp_malloc_ok st N i : pools_ok st N -> (i < MEMP_MAX)%nat -> exists r st', memp_malloc i st = Some (r, st') /\
  (forall a, block_byte N a -> pool_mem st' !! a = pool_mem st !! a) /\
  if r =? 0 then pools_ok st' N /\ forall x, is_elem i x -> N !! (x + 4) = Some i
  else pools_ok st' (<[r := i]> N) /\ is_elem i (r - 4) /\ N !! r = None.
Proof.
  intros [D P Lv Mu] Hi. destruct (P i Hi) as (p & l & Ep & Hl & Nd & He & Hn). unfold memp_malloc.
  rewrite (sm_bind_some _ _ _ _ _ (mutex_wait_ok _ Mu)). set (st0 := with_mutex mutex_taken st).
  rewrite (sm_bind_some _ _ _ _ _ (get_tab_ok st0 i p Ep)). destruct l as [|x l]; cbn [flist] in Hl.
  - subst p. cbn [Z.eqb negb]. set (st1 := with_memp_stats (alter memp_count_err i) st0).
    exists 0, (with_mutex 1 st1). cbn [Z.eqb]. split_and!.
    + rewrite (sm_bind_some _ _ st0 tt st1 eq_refl), (sm_bind_some _ _ _ _ _ (mutex_signal_ok st1 eq_refl)). reflexivity.
    + reflexivity.
    + split; [exact D | exact P | exact Lv | reflexivity].
    + intros x Hx. apply He in Hx as [Hx | Hx]; [now apply elem_of_nil in Hx | exact Hx].
  - destruct Hl as (-> & Hx0 & n & En & Hl). assert (Hx : is_elem i x) by (apply He; left; now left).
    destruct (elem_block i x Hx) as (Ea & Hb & _); [pose proof memp_align_pos; lia|]. destruct (elem_range _ _ Hx) as (_ & _ & R1 & R2 & _).
    destruct (elem_size_eq i) as (_ & _ & _ & Hs). replace (x =? 0) with false by lia. cbn [negb].
    rewrite (sm_bind_some _ _ _ _ _ (get_link_ok st0 x n En)), (sm_bind_some _ _ _ _ _ (set_tab_ok st0 i n x Ep)).
    set (st1 := with_tab _ st0). destruct (set_link_ok st1 x 0 D) as (m & Em & Dm & _ & Om); [lia | lia | lia |].
    rewrite (sm_bind_some _ _ _ _ _ Em). set (st2 := with_pool_mem m st1). set (st3 := with_memp_stats (alter memp_count_used i) st2).
    exists (x + 4), (with_mutex 1 st3). replace (x + 4 =? 0) with false by lia.
    assert (Nx : N !! (x + 4) = None) by (apply Hn; now left). inversion Nd as [|? ? Nxl Nd']; subst x0 l0.
    split_and!.
    + rewrite (sm_bind_some _ _ st2 tt st3 eq_refl), (sm_bind_some _ _ _ _ _ (mutex_signal_ok st3 eq_refl)). unfold sm_ret. now rewrite Ea.
    + intros a (q & k & Hq & Ha). apply Om. pose proof (Lv _ _ Hq) as Hy. destruct (elem_size_eq k) as (_ & _ & Hk & _).
      apply (link_apart i x k (q - 4)); [exact Hx | exact Hy | | lia]. intros ->. replace (q - 4 + 4) with q in Nx by lia. congruence.
    + split; [exact Dm | | | reflexivity].
      * intros k Hk. destruct (decide (i = k)) as [<- | Ne].
        -- exists n, l. split_and!.
           ++ cbn [memp_tab with_mutex with_memp_stats with_pool_mem st3 st2 st1 with_tab st0]. apply list_lookup_insert_eq. apply lookup_lt_Some in Ep. exact Ep.
           ++ apply (flist_ext (pool_mem st)); [|exact Hl]. intros y a Hy Ha. apply Om. assert (Hy' : is_elem i y) by (apply He; left; now right).
              apply (link_apart i x i y); [exact Hx | exact Hy' | intros ->; contradiction | lia].
           ++ exact Nd'.
           ++ intros y. rewrite He, elem_of_cons, lookup_insert_Some. split.
              ** intros [[-> | Hy] | Hy]; [right; left; auto | now left |]. right. right. split; [|exact Hy]. congruence.
              ** intros [Hy | [[E _] | [_ Hy]]]; [left; now right | left; left; lia | now right].
           ++ intros y Hy. rewrite lookup_insert_ne; [apply Hn; now right|]. intros E. replace y with x in Hy by lia. contradiction.
        -- apply (pool_ok_other st _ N _ i x); try assumption.
           ++ apply list_lookup_insert_ne. congruence.
           ++ intros q Hq. apply lookup_insert_ne. congruence.
           ++ rewrite lookup_insert_eq. congruence.
           ++ now apply P.
      * intros q k. rewrite lookup_insert_Some. intros [[<- <-] | [_ Hq]]; [now replace (x + 4 - 4) with x by lia | now apply Lv].
    + now replace (x + 4 - 4) with x by lia.
    + exact Nx.
Qed.

Lemma flist_head m p l i : flist m p l -> (forall x, x ∈ l -> is_elem i x) -> 0 <= p < 2 ^ 32.
Proof.
  destruct l as [|x l]; cbn [flist]; [intros -> _; lia|]. intros (-> & _) He. destruct (elem_range _ _ (He x ltac:(now left))) as (_ & _ & R1 & R2 & _).
  destruct (elem_size_eq i) as (_ & _ & _ & Hs). destruct memp_place as (H3 & _ & H4). pow2. lia.
Qed.

Lemma memp_free_ok st N i p : pools_ok st N -> N !! p = Some i -> exists st', memp_free i p st = Some (tt, st') /\
  pools_ok st' (delete p N) /\ (forall a, block_byte N a -> pool_mem st' !! a = pool_mem st !! a).
Proof.
  intros [D P Lv Mu] Hp. pose proof (Lv _ _ Hp) as Hx. set (x := p - 4) in *. pose proof Hx as [Hi _].
  destruct (P i Hi) as (q & l & Eq & Hl & Nd & He & Hn). destruct (elem_block i x Hx) as (_ & Hb & Hx0); [pose proof memp_align_pos; lia|].
  destruct (elem_range _ _ Hx) as (_ & _ & R1 & R2 & _). destruct (elem_size_eq i) as (_ & _ & _ & Hs).
  assert (Exp : x + 4 = p) by (subst x; lia). rewrite Exp in Hb.
  assert (Nx : x ∉ l) by (intros Hxl; specialize (Hn x Hxl); rewrite Exp in Hn; congruence).
  unfold memp_free. replace (p =? 0) with false by lia. unfold sizeof_memp. fold x. cbv zeta.
  rewrite (sm_bind_some _ _ _ _ _ (mutex_wait_ok _ Mu)). set (st1 := with_memp_stats (alter memp_count_free i) (with_mutex mutex_taken st)).
  rewrite (sm_bind_some _ _ (with_mutex mutex_taken st) tt st1 eq_refl), (sm_bind_some _ _ _ _ _ (get_tab_ok st1 i q Eq)).
  destruct (set_link_ok st1 x q D) as (m & Em & Dm & Rm & Om); [lia | lia | apply (flist_head _ _ l i Hl); intros y Hy; apply He; now left |].
  rewrite (sm_bind_some _ _ _ _ _ Em), (sm_bind_some _ _ _ _ _ (set_tab_ok (with_pool_mem m st1) i x q Eq)).
  set (st2 := with_tab _ _). exists (with_mutex 1 st2). split_and!; [apply (mutex_signal_ok st2 eq_refl) | |].
  - split; [exact Dm | | | reflexivity].
    + intros k Hk. destruct (decide (i = k)) as [<- | Ne].
      * exists x, (x :: l). split_and!.
        -- apply list_lookup_insert_eq. apply lookup_lt_Some in Eq. exact Eq.
        -- cbn [flist]. split_and!; [reflexivity | exact Hx0 |]. exists q. split; [exact Rm|].
           apply (flist_ext (pool_mem st)); [|exact Hl]. intros y a Hy Ha. apply Om. assert (Hy' : is_elem i y) by (apply He; now left).
           apply (link_apart i x i y); [exact Hx | exact Hy' | intros ->; contradiction | lia].
        -- now constructor.
        -- intros y. rewrite He, elem_of_cons, lookup_delete_Some. split.
           ++ intros [Hy | Hy]; [left; now right|]. destruct (decide (y = x)) as [-> | Ne]; [left; now left|]. right. split; [lia | exact Hy].
           ++ intros [[-> | Hy] | [_ Hy]]; [right; now rewrite Exp | now left | now right].
        -- intros y. rewrite elem_of_cons. intros [-> | Hy]; [rewrite Exp; apply lookup_delete_eq|].
           rewrite lookup_delete_ne; [now apply Hn|]. intros E. replace y with x in Hy by lia. contradiction.
      * apply (pool_ok_other st _ N _ i x); try assumption.
        -- apply list_lookup_insert_ne. congruence.
        -- intros r Hr. apply lookup_delete_ne. congruence.
        -- rewrite Exp, lookup_delete_eq. discriminate.
        -- now apply P.
    + intros r k. rewrite lookup_delete_Some. intros [_ Hr]. now apply Lv.
  - intros a (r & k & Hr & Ha). apply Om. pose proof (Lv _ _ Hr) as Hy. destruct (elem_size_eq k) as (_ & _ & Hk & _).
    destruct (decide (r = p)) as [-> | Ne]; [fold x in Hy; lia|]. apply (link_apart i x k (r - 4)); [exact Hx | exact Hy | lia | lia].
Qed.

(** ** [memp_init] *)

(** The inner loop links [n] elements of [size] bytes from [m] on. *)
Lemma link_elems_ok size n : 4 <= size -> size mod MEM_ALIGNMENT = 0 -> forall memp m st, in_array (pool_mem st) -> memp_memory <= m ->
  m mod MEM_ALIGNMENT = 0 -> m + Z.of_nat n * size <= memp_memory + memp_bytes ->
  exists mem, link_elems n memp m size st = Some ((match n with O => memp | _ => m + (Z.of_nat n - 1) * size end, m + Z.of_nat n * size), with_pool_mem mem st) /\
    in_array mem /\ (forall a, a < m \/ m + Z.of_nat n * size <= a -> mem !! a = pool_mem st !! a) /\
    forall j, 0 <= j < Z.of_nat n -> rd mem 4 (m + j * size) = Some (m + (j + 1) * size).
Proof.
  intros Hs Hm. pose proof memp_align_pos. destruct memp_place as (Hb & _ & He). induction n as [|n IH]; intros memp m st D Hm0 Hma Hm1; cbn [link_elems].
  - exists (pool_mem st). split_and!; [|exact D | reflexivity | lia]. unfold sm_ret. destruct st. cbn. do 3 f_equal. lia.
  - assert (Ha : MEM_ALIGN (m + size) = m + size).
    { apply align_fix; [nia|]. rewrite <- Z.add_mod_idemp_l, Hma, Z.add_0_l by lia. exact Hm. }
    rewrite Ha. destruct (set_link_ok st m (m + size) D) as (m1 & E1 & D1 & R1 & O1); [lia | nia | pow2; nia |].
    rewrite (sm_bind_some _ _ _ _ _ E1), (sm_bind_some _ _ _ _ _ (get_link_ok (with_pool_mem m1 st) m _ R1)).
    destruct (IH m (m + size) (with_pool_mem m1 st) D1) as (m2 & E2 & D2 & O2 & R2); [lia | | lia |].
    { rewrite <- Z.add_mod_idemp_l, Hma, Z.add_0_l by lia. exact Hm. }
    cbn [pool_mem with_pool_mem] in O2. exists m2. split_and!; [| exact D2 | |].
    + rewrite E2. replace (m + size + Z.of_nat n * size) with (m + Z.of_nat (S n) * size) by lia. cbn [with_pool_mem memp_tab mutex memp_stats].
      do 3 f_equal. destruct n; [lia|]. lia.
    + intros a Ha'. rewrite O2, O1 by nia. reflexivity.
    + intros j Hj. destruct (Z.eq_dec j 0) as [-> | Nj].
      * rewrite Z.mul_0_l, Z.add_0_r. rewrite (rd_ext m1); [rewrite R1; f_equal; lia|]. intros a Ha'. apply O2. lia.
      * replace (m + j * size) with (m + size + (j - 1) * size) by lia. rewrite R2 by lia. f_equal. lia.
Qed.

Definition elems (i : nat) : list Z := map (fun j => pool_start i + Z.of_nat j * elem_size i) (seq 0 (Z.to_nat (nth i memp_num 0))).

Lemma elems_ok i : (i < MEMP_MAX)%nat -> NoDup (elems i) /\ forall x, is_elem i x <-> x ∈ elems i.
Proof.
  intros Hi. destruct (elem_size_eq i) as (_ & _ & _ & Hs). unfold elems. split.
  - apply NoDup_ListNoDup, Finite.Injective_map_NoDup; [intros j k E; nia | apply seq_NoDup].
  - intros x. rewrite list_elem_of_In, in_map_iff. setoid_rewrite in_seq. split.
    + intros (_ & j & Hj & ->). exists (Z.to_nat j). split; [lia | lia].
    + intros (j & <- & Hj). split; [exact Hi|]. exists (Z.of_nat j). split; [lia | reflexivity].
Qed.

(** The links in a row are a list that ends in the last element. *)
Lemma flist_row mem size n m k : 0 < m -> 4 <= size -> (k < n)%nat ->
  (forall j, 0 <= j < Z.of_nat n - 1 -> rd mem 4 (m + j * size) = Some (m + (j + 1) * size)) ->
  rd mem 4 (m + (Z.of_nat n - 1) * size) = Some 0 ->
  flist mem (m + Z.of_nat (n - 1 - k) * size) (map (fun j => m + Z.of_nat j * size) (seq (n - 1 - k) (S k))).
Proof.
  intros Hm Hs Hk Rj Rl. induction k as [|k IH].
  - cbn [seq map flist]. split_and!; [reflexivity | nia |]. exists 0. split; [|reflexivity]. rewrite <- Rl. do 2 f_equal. nia.
  - assert (Ea : (n - 1 - k)%nat = S (n - 1 - S k)) by lia.
    change (seq (n - 1 - S k) (S (S k))) with ((n - 1 - S k)%nat :: seq (S (n - 1 - S k)) (S k)). rewrite <- Ea.
    cbn [map flist]. split_and!; [reflexivity | nia |]. eexists. split; [apply Rj; lia|].
    replace (m + (Z.of_nat (n - 1 - S k) + 1) * size) with (m + Z.of_nat (n - 1 - k) * size) by (f_equal; lia). apply IH. lia.
Qed.

(** Pool [i] has all its elements on its list. *)
Definition pool_full (st : pools) (i : nat) : Prop := exists p, memp_tab st !! i = Some p /\ flist (pool_mem st) p (elems i).

Lemma memp_init_pool_ok i st : (i < MEMP_MAX)%nat -> in_array (pool_mem st) -> length (memp_tab st) = MEMP_MAX ->
  exists st', memp_init_pool i (pool_start i) st = Some (pool_start (S i), st') /\ in_array (pool_mem st') /\ pool_full st' i /\
    length (memp_tab st') = MEMP_MAX /\ (forall k, k <> i -> memp_tab st' !! k = memp_tab st !! k) /\
    forall a, a < pool_start i -> pool_mem st' !! a = pool_mem st !! a.
Proof.
  intros Hi D Lt. destruct (elem_size_eq i) as (_ & Hm & _ & Hs). destruct (memp_small i) as [_ Hn]. destruct memp_place as (Hb & _ & _).
  destruct (lookup_lt_is_Some_2 (memp_tab st) i) as [q Eq]; [lia|]. unfold memp_init_pool. set (n := Z.to_nat (nth i memp_num 0)).
  assert (Ep : pool_start (S i) = pool_start i + Z.of_nat n * elem_size i) by (unfold pool_start; rewrite array_bytes_S; subst n; nia).
  destruct (Z.ltb_spec 0 (nth i memp_num 0)) as [Pn | Zn].
  - rewrite (sm_bind_some _ _ _ _ _ (set_tab_ok st i _ q Eq)). set (st1 := with_tab _ st).
    pose proof (array_bytes_mono 0 i ltac:(lia)) as M0. pose proof (array_bytes_mono (S i) MEMP_MAX ltac:(lia)) as M1. cbn [array_bytes] in M0.
    destruct (link_elems_ok (elem_size i) n Hs Hm (pool_start i) (pool_start i) st1 D) as (m1 & E1 & D1 & O1 & R1);
      [unfold pool_start; lia | apply pool_start_aligned | rewrite <- Ep; unfold pool_start, memp_bytes; lia |].
    assert (Hn1 : n <> O) by lia.
    rewrite (sm_bind_some _ _ _ _ _ E1). cbn [fst snd]. replace (match n with O => _ | _ => _ end) with (pool_start i + (Z.of_nat n - 1) * elem_size i) by (clear - Hn1; clearbody n; destruct n; [contradiction | reflexivity]).
    assert (Hlast : pool_start i + (Z.of_nat n - 1) * elem_size i + elem_size i <= memp_memory + memp_bytes) by (unfold pool_start, memp_bytes in *; nia).
    destruct (set_link_ok (with_pool_mem m1 st1) (pool_start i + (Z.of_nat n - 1) * elem_size i) 0 D1) as (m2 & E2 & D2 & R2 & O2); [unfold pool_start; nia | lia | lia |].
    rewrite (sm_bind_some _ _ _ _ _ E2). cbn [pool_mem with_pool_mem] in O2. exists (with_pool_mem m2 st1). unfold sm_ret. rewrite <- Ep.
    split_and!; [reflexivity | exact D2 | | | |].
    + exists (pool_start i). cbn [with_pool_mem memp_tab pool_mem st1 with_tab]. split; [apply list_lookup_insert_eq; lia|].
      assert (N0 : (0 < n)%nat) by lia. pose proof (flist_row m2 (elem_size i) n (pool_start i) (n - 1)) as Fr.
      replace (n - 1 - (n - 1))%nat with O in Fr by lia. replace (S (n - 1)) with n in Fr by lia. rewrite Z.mul_0_l, Z.add_0_r in Fr. apply Fr;
        [unfold pool_start; lia | exact Hs | lia | | exact R2].
      intros j Hj. rewrite (rd_ext m1); [apply R1; lia|]. intros a Ha. apply O2. nia.
    + cbn [with_pool_mem memp_tab st1 with_tab]. now rewrite length_insert.
    + intros k Nk. apply list_lookup_insert_ne. congruence.
    + intros a Ha. cbn [with_pool_mem pool_mem]. rewrite O2, O1 by nia. reflexivity.
  - rewrite (sm_bind_some _ _ _ _ _ (set_tab_ok st i 0 q Eq)). exists (with_tab (<[i := 0]> (memp_tab st)) st).
    assert (n = O) as N0 by lia. unfold sm_ret. split_and!; [rewrite Ep, N0; do 2 f_equal; lia | exact D | | now cbn; rewrite length_insert | |].
    + exists 0. split; [apply list_lookup_insert_eq; lia|]. unfold elems. fold n. now rewrite N0.
    + intros k Nk. apply list_lookup_insert_ne. congruence.
    + reflexivity.
Qed.

Lemma pool_full_keep st st' k : (k < MEMP_MAX)%nat -> memp_tab st' !! k = memp_tab st !! k ->
  (forall a, a < pool_start (S k) -> pool_mem st' !! a = pool_mem st !! a) -> pool_full st k -> pool_full st' k.
Proof.
  intros Hk Et Em (p & Ep & Hl). exists p. split; [congruence|]. apply (flist_ext (pool_mem st)); [|exact Hl]. intros x a Hx Ha.
  apply Em. apply (elems_ok k Hk) in Hx. destruct (elem_range _ _ Hx) as (_ & R & _). destruct (elem_size_eq k) as (_ & _ & _ & Hs). lia.
Qed.

Lemma memp_init_pools_ok n i st : (i + n = MEMP_MAX)%nat -> in_array (pool_mem st) -> length (memp_tab st) = MEMP_MAX ->
  (forall k, (k < i)%nat -> pool_full st k) -> exists r st', memp_init_pools n i (pool_start i) st = Some (r, st') /\
    in_array (pool_mem st') /\ forall k, (k < MEMP_MAX)%nat -> pool_full st' k.
Proof.
  revert i st. induction n as [|n IH]; intros i st Hi D Lt Fl; cbn [memp_init_pools].
  - exists (pool_start i), st. split_and!; [reflexivity | exact D |]. intros k Hk. apply Fl. lia.
  - destruct (memp_init_pool_ok i st ltac:(lia) D Lt) as (st1 & E1 & D1 & F1 & L1 & T1 & O1). rewrite (sm_bind_some _ _ _ _ _ E1).
    apply IH; [lia | exact D1 | exact L1 |]. intros k Hk. destruct (decide (k = i)) as [-> | Nk]; [exact F1|].
    apply (pool_full_keep st); [lia | now apply T1 | | apply Fl; lia]. intros a Ha. apply O1.
    pose proof (array_bytes_mono (S k) i ltac:(lia)). unfold pool_start in *. lia.
Qed.

Lemma memp_init_ok : exists st, memp_init pools0 = Some (tt, st) /\ pools_ok st ∅.
Proof.
  unfold memp_init. unfold sm_bind at 1, sm_modify at 1. set (st0 := with_memp_stats _ pools0).
  pose proof (array_bytes_mono 0 MEMP_MAX ltac:(lia)) as Hb. cbn [array_bytes] in Hb. fold memp_bytes in Hb.
  assert (Es : memp_memory = pool_start 0) by (unfold pool_start; cbn [array_bytes]; lia).
  destruct (memp_init_pools_ok MEMP_MAX 0 st0 eq_refl) as (r & st1 & E1 & D1 & F1); [| reflexivity | lia |].
  { intros a. cbn [st0 with_memp_stats pool_mem pools0]. rewrite zeros_lookup, lookup_empty.
    destruct (Z.leb_spec memp_memory a), (Z.ltb_spec a (memp_memory + Z.of_nat (Z.to_nat memp_bytes))); cbn [andb];
      (split; [intros [x Hx]; (discriminate || lia) | intros; (eauto || lia)]). }
  rewrite Es. rewrite (sm_bind_some _ _ _ _ _ E1). eexists. split; [reflexivity|]. split; [exact D1 | | | reflexivity].
  - intros i Hi. destruct (F1 i Hi) as (p & Ep & Hl). destruct (elems_ok i Hi) as [Nd He]. exists p, (elems i). split_and!; [exact Ep | exact Hl | exact Nd | |].
    + intros x. rewrite He, lookup_empty. split; [now left | intros [? | [=]]; assumption].
    + intros x _. apply lookup_empty.
  - intros p i. rewrite lookup_empty. discriminate.
Qed.

(** ** Runs *)

(** What the application does: calls, and writing byte [k] of a block. *)
Inductive pcall :=
| PMalloc (i : nat)
| PFree (i : nat) (p : Z)
| PWrite (p k v : Z).

Definition memp_exec (c : pcall) : SM pools Z :=
  match c with
  | PMalloc i => memp_malloc i
  | PFree i p => memp_free i p ;; sm_ret 0
  | PWrite p k v => fun st => match pool_mem st !! (p + k) with
                              | Some _ => Some (0, with_pool_mem (<[p + k := v mod 256]> (pool_mem st)) st)
                              | None => None
                              end
  end.

(** Blocks are freed with the type they were asked for, and written inside. *)
Definition plegal (N : gmap Z nat) (c : pcall) : Prop :=
  match c with
  | PMalloc i => (i < MEMP_MAX)%nat
  | PFree i p => p = 0 \/ N !! p = Some i
  | PWrite p k _ => exists i, N !! p = Some i /\ 0 <= k < nth i memp_sizes 0
  end.

Definition pafter (N : gmap Z nat) (c : pcall) (r : Z) : gmap Z nat :=
  match c with
  | PMalloc i => if r =? 0 then N else <[r := i]> N
  | PFree _ p => delete p N
  | PWrite _ _ _ => N
  end.

(** The bytes a call may change. *)
Definition pwrites (c : pcall) (a : Z) : Prop := match c with PWrite p k _ => a = p + k | _ => False end.

Inductive memp_reach : pools -> gmap Z nat -> Prop :=
| preach_init st : memp_init pools0 = Some (tt, st) -> memp_reach st ∅
| preach_call st N c r st' : memp_reach st N -> plegal N c -> memp_exec c st = Some (r, st') -> memp_reach st' (pafter N c r).

(** The blocks of type [i]. *)
Definition slots (i : nat) : list Z := map (fun x => x + sizeof_memp) (elems i).

(** What the answer [r] to a request for a block of type [i] says. *)
Definition malloc_answer (N : gmap Z nat) (i : nat) (r : Z) : Prop :=
  if r =? 0 then forall p, p ∈ slots i -> N !! p = Some i
  else r ∈ slots i /\ r mod MEM_ALIGNMENT = 0 /\ memp_memory <= r /\ r + nth i memp_sizes 0 <= memp_memory + memp_bytes /\ N !! r = None /\
    forall q k, N !! q = Some k -> r + nth i memp_sizes 0 <= q \/ q + nth k memp_sizes 0 <= r.

Lemma slots_elem i p : (i < MEMP_MAX)%nat -> p ∈ slots i <-> is_elem i (p - 4).
Proof.
  intros Hi. unfold slots. rewrite list_elem_of_fmap. destruct (elems_ok i Hi) as [_ He]. setoid_rewrite <- He. unfold sizeof_memp. split.
  - intros (x & -> & Hx). now replace (x + 4 - 4) with x by lia.
  - intros Hx. exists (p - 4). split; [lia | exact Hx].
Qed.

Lemma malloc_call_ok st N i : pools_ok st N -> (i < MEMP_MAX)%nat -> exists r st', memp_malloc i st = Some (r, st') /\
  pools_ok st' (pafter N (PMalloc i) r) /\ malloc_answer N i r /\ (forall a, block_byte N a -> pool_mem st' !! a = pool_mem st !! a).
Proof.
  intros K Hi. destruct (memp_malloc_ok st N i K Hi) as (r & st' & E & B & R). exists r, st'. cbn [pafter]. unfold malloc_answer.
  destruct (Z.eqb_spec r 0) as [-> | Nr]; destruct R as [K' R]; (split; [exact E|]); (split; [exact K'|]); (split; [|exact B]).
  - intros p Hp. apply slots_elem in Hp; [|exact Hi]. specialize (R _ Hp). now replace (p - 4 + 4) with p in R by lia.
  - destruct R as [Hx Nn]. destruct (elem_range _ _ Hx) as (_ & _ & R1 & R2 & Rm). destruct (elem_size_eq i) as (_ & _ & Hs & _).
    pose proof memp_align_pos. destruct (elem_block i _ Hx ltac:(lia)) as (_ & _ & _). split_and!; [now apply slots_elem | | lia | lia | exact Nn |].
    + replace r with (r - 4 + 4) by lia. destruct memp_alignment as [Ea | [Ea | Ea]]; rewrite Ea in *; zmod_lia.
    + intros q k Hq. pose proof (po_live _ _ K _ _ Hq) as Hy. destruct (elem_size_eq k) as (_ & _ & Hk & _).
      destruct (elem_apart _ _ _ _ Hx Hy) as [[_ E2] | ]; [|lia]. replace q with r in Hq by lia. congruence.
Qed.

Lemma write_call_ok st N p k v : pools_ok st N -> plegal N (PWrite p k v) -> exists st', memp_exec (PWrite p k v) st = Some (0, st') /\
  pools_ok st' N /\ forall a, a <> p + k -> pool_mem st' !! a = pool_mem st !! a.
Proof.
  intros [D P Lv Mu] (i & Hp & Hk). pose proof (Lv _ _ Hp) as Hx. destruct (elem_range _ _ Hx) as (_ & _ & R1 & R2 & _).
  destruct (elem_size_eq i) as (_ & _ & Hs & _). destruct (proj2 (D (p + k)) ltac:(lia)) as [b Eb]. cbn [memp_exec]. rewrite Eb.
  eexists. split; [reflexivity|]. cbn [pool_mem with_pool_mem]. split; [|intros a Ha; apply lookup_insert_ne; congruence].
  split; cbn [pool_mem with_pool_mem memp_tab mutex]; [| | exact Lv | exact Mu].
  - intros a. rewrite <- (D a). destruct (decide (a = p + k)) as [-> | Ne]; [rewrite lookup_insert_eq, Eb; split; eauto | now rewrite lookup_insert_ne by congruence].
  - intros j Hj. destruct (P j Hj) as (q & l & Eq & Hl & Nd & He & Hn). exists q, l. split_and!; [exact Eq | | exact Nd | exact He | exact Hn].
    apply (flist_ext (pool_mem st)); [|exact Hl]. intros y a Hy Ha. apply lookup_insert_ne. intros <-.
    assert (Hy' : is_elem j y) by (apply He; now left). destruct (elem_size_eq j) as (_ & _ & Hsj & Hs4).
    destruct (elem_apart _ _ _ _ Hx Hy') as [[-> E] | ]; [|lia]. specialize (Hn y Hy). replace (y + 4) with p in Hn by lia. congruence.
Qed.

Lemma memp_reach_ok st N : memp_reach st N -> pools_ok st N.
Proof.
  induction 1 as [st E | st N c r st' _ K Lg E].
  - destruct memp_init_ok as (st' & E' & K). rewrite E in E'. now injection E' as <-.
  - destruct c as [i | i p | p k v]; cbn [memp_exec pafter] in *.
    + destruct (malloc_call_ok st N i K Lg) as (r' & st2 & E' & K' & _). rewrite E in E'. injection E' as -> ->. exact K'.
    + destruct Lg as [-> | Hp].
      * injection E as _ E2. subst st'. rewrite delete_id; [exact K|]. destruct (N !! 0) as [i0|] eqn:E0; [|reflexivity].
        pose proof (po_live _ _ K _ _ E0) as Hx. destruct (elem_range _ _ Hx) as (_ & _ & R1 & _). destruct memp_place. lia.
      * destruct (memp_free_ok st N i p K Hp) as (st2 & E' & K' & _). rewrite (sm_bind_some _ _ _ _ _ E') in E. injection E as _ E2. now subst st'.
    + destruct (write_call_ok st N p k v K Lg) as (st2 & E' & K' & _). cbn [memp_exec] in E'. rewrite E in E'. injection E' as _ E2. now subst st'.
Qed.

(** C16: from [memp_init] on, every call that an application may make on the
    pools returns.  [memp_malloc] answers [NULL] only when all blocks of the type
    are live; otherwise its answer is a block of the type that is not live, aligned,
    inside of the array and apart from all live blocks.  No call changes a byte of
    a live block; the application's writes change the byte they write. *)
Theorem memp_pools_safe st N c : memp_reach st N -> plegal N c -> exists r st', memp_exec c st = Some (r, st') /\
  memp_reach st' (pafter N c r) /\ (forall i, c = PMalloc i -> malloc_answer N i r) /\
  forall a, block_byte N a -> ~ pwrites c a -> pool_mem st' !! a = pool_mem st !! a.
Proof.
  intros R Lg. pose proof (memp_reach_ok _ _ R) as K. assert (G : exists r st', memp_exec c st = Some (r, st') /\
    (forall i, c = PMalloc i -> malloc_answer N i r) /\ forall a, block_byte N a -> ~ pwrites c a -> pool_mem st' !! a = pool_mem st !! a).
  { destruct c as [i | i p | p k v].
    - destruct (malloc_call_ok st N i K Lg) as (r & st' & E & _ & A & B). exists r, st'. split_and!; [exact E | intros j Ej; injection Ej as <-; exact A | auto].
    - destruct Lg as [-> | Hp]; [exists 0, st; split_and!; [reflexivity | discriminate | reflexivity]|].
      destruct (memp_free_ok st N i p K Hp) as (st' & E & _ & B). exists 0, st'. split_and!; [cbn [memp_exec]; now rewrite (sm_bind_some _ _ _ _ _ E) | discriminate | auto].
    - destruct (write_call_ok st N p k v K Lg) as (st' & E & _ & B). exists 0, st'. split_and!; [exact E | discriminate |].
      intros a _ Na. apply B. exact Na. }
  destruct G as (r & st' & E & A & B). exists r, st'. split_and!; [exact E | now apply (preach_call st N c) | exact A | exact B].
Qed.
End Pools.
