(* ===== verification/MempDemo.v ===== *)
(** * Runs of the pools

    The pools with the numbers of [opt.h] and sizes of a 32-bit compiler: a state
    at which [memp_pools_safe] is applied, and two configurations that [opt.h] allows
    and in which blocks lie where they must not. *)
From Stdlib Require Import ZArith Lia List Bool.
From stdpp Require Import base gmap list numbers option.
From S2P Require Import Prelude Mem Memp MempSpec.
#[local] Open Scope Z_scope.
#[local] Open Scope sm_scope.

(** An alignment, and the address at which the linker puts the array. *)
Definition with_alignment (a : Z) : MemConfig := {| MEM_SIZE := 1600; MEM_ALIGNMENT := a; NO_SYS := true |}.
Definition placed_at (base : Z) : MempConfig := {|
  memp_memory := base;
  memp_sizes := [16; 28; 32; 168; 48; 20; 16; 40; 28; 24; 16];
  memp_num := [16; 4; 4; 5; 8; 16; 2; 4; 8; 8; 3] |}.

(** The answers of two requests, and the list of the type after them. *)
Definition ask2 (i : nat) {MC : MemConfig} {PC : MempConfig} : option (Z * Z * option Z) :=
  match (memp_init ;; r <- memp_malloc i ;; q <- memp_malloc i ;; sm_ret (r, q)) pools0 with
  | Some (r, q, st) => Some (r, q, memp_tab st !! i)
  | None => None
  end.

(** *** A run *)

Section Good.
#[local] Instance al : MemConfig := with_alignment 4.
#[local] Instance pc : MempConfig := placed_at 4096.
#[local] Instance pc_ok : MempLaws.
Proof.
  split; [auto | split; reflexivity | | vm_compute; repeat split; discriminate].
  intros i. do 11 (destruct i as [|i]; [vm_compute; repeat split; discriminate|]).
  split; [destruct i; vm_compute; repeat split; discriminate | destruct i; vm_compute; discriminate].
Defined.

Definition pinit : pools := match memp_init pools0 with Some (_, st) => st | None => pools0 end.
Definition pnext : pools := match memp_malloc 3 pinit with Some (_, st) => st | None => pinit end.

Lemma one_reached : memp_reach pnext {[ 4692 := 3%nat ]}.
Proof.
  destruct memp_init_ok as (st & E & _). pose proof (preach_init st E) as R0. assert (Es : st = pinit) by (unfold pinit; now rewrite E).
  subst st. assert (X : (fst <$> memp_malloc 3 pinit) = Some 4692) by (vm_compute; reflexivity).
  destruct (memp_malloc 3 pinit) as [[r st]|] eqn:E3; [|discriminate X]. cbn in X. injection X as ->.
  assert (Es : pnext = st) by (unfold pnext; now rewrite E3). rewrite Es.
  exact (preach_call pinit ∅ (PMalloc 3) 4692 st R0 ltac:(vm_compute; lia) E3).
Qed.

Lemma memp_pools_safe_witness : exists r st', memp_exec (PMalloc 3) pnext = Some (r, st') /\
  memp_reach st' (pafter {[ 4692 := 3%nat ]} (PMalloc 3) r) /\
  (forall i, PMalloc 3 = PMalloc i -> malloc_answer {[ 4692 := 3%nat ]} i r) /\
  forall a, block_byte {[ 4692 := 3%nat ]} a -> ~ pwrites (PMalloc 3) a -> pool_mem st' !! a = pool_mem pnext !! a.
Proof. apply (memp_pools_safe pnext {[ 4692 := 3%nat ]} (PMalloc 3)); [apply one_reached | vm_compute; lia]. Defined.
End Good.

(** *** Runs that go wrong *)

(** With an alignment of 8 and pointers of 4 bytes, the end of a block lies
    in the next element: the link of a free element, the head of the list, is
    inside of the live block before it. *)
Theorem memp_align8_overlaps : exists r q p, @ask2 5 (with_alignment 8) (placed_at 4096) = Some (r, q, Some p) /\
  r < q /\ q <= p < q + nth 5 (@memp_sizes (placed_at 4096)) 0.
Proof. eexists _, _, _. split; [vm_compute; reflexivity|]. vm_compute. repeat split; discriminate. Qed.

(** An array that is not aligned is too short: its last block ends behind it. *)
Theorem memp_unaligned_overflows : exists r q p, @ask2 10 (with_alignment 4) (placed_at 4098) = Some (r, q, Some p) /\
  p + sizeof_memp + nth 10 (@memp_sizes (placed_at 4098)) 0 > 4098 + @memp_bytes (with_alignment 4) (placed_at 4098).
Proof. eexists _, _, _. split; [vm_compute; reflexivity|]. vm_compute. reflexivity. Qed.
